(* ===== verification/_CoqProject ===== *)
-Q . S2P
Prelude.v
JsString.v
JsNumber.v
JsDecimal.v
JsValue.v
JsJson.v
JsonText.v
JsonRoundTrip.v
JsRegExp.v
RegExpSyntax.v
RegExpParse.v
RegExpEngine.v
RegExpFacts.v
JsState.v
JsPromise.v
TableData.v
TableFilter.v
TableSort.v
TableView.v
TableRender.v
TableUpdate.v
TableEvents.v
TableThrows.v
TableTypes.v
TablePaging.v
TableUrl.v
TableCells.v
TableAsync.v
Workflow.v
WorkflowText.v
WorkflowEdit.v
WorkflowModes.v
WorkflowVisual.v
WorkflowLoad.v
MonitorData.v
Monitor.v
MonitorActions.v
CustomButton.v
MonitorLinks.v
MonitorTables.v
MonitorExport.v
Top.v
TopRows.v
Panel.v
PanelView.v
Cgroups.v
CgroupsSafety.v
Home.v
Submission.v
RegExpUses.v
