(* ===== verification/Prelude.v ===== *)
(** * The AWE web interface: a verification development

    AWE is a workflow engine: a server (Go, lib/) hands the workunits of jobs to
    clients.  Its JavaScript is the web interface in src/site_deprecated/, and
    this development is about that code: what its operations do to the state of
    the page, what they send to the server, and which exceptions they throw.

    ** The program and its parts

    - The table renderer, renderers/renderer.table.js.  A page has several
      tables ([Retina.RendererInstances.table]).  [render] parses the data,
      detects sort types and filters, filters, sorts, cuts out a page and builds
      the table with its handlers; [update] changes the settings of a table whose
      pages come from a server, asks for the page and renders the response.
    - The workflow editor, widgets/widget.awe_workflow.js.  A form writes a
      workflow document (general information, variables, tasks); a playground has
      a box per task that can be dragged; a document can be loaded from a file or
      from the workflow API, whose documents the editor shares.
    - The job monitor, widgets/widget.awe_monitor.js with js/customButton.js.
      Three tables of the renderer (jobs, workunits, clients), the actions on
      jobs and clients, the details of a job and the export of its statistics.
      It calls the renderer ([render], [update], [data_manipulation]).
    - The usage overview, widgets/widget.awe_top.js: the workunits under way,
      added up by job, project, user or task.
    - The client panel, widgets/widget.awe_panel.js: the clients as boxes in
      groups, the applications that run on them, the details of each.
    - The client groups, widgets/widget.awe_clientgroups.js, with login and logout
      as main.html defines them: groups, their tokens and permissions.
    - The home page and the job submission, widgets/widget.awe_home.js and
      widgets/widget.awe_submission.js.

    ** Files

    - [Prelude]: exceptions, the result monad [res] with its traversals, list
      and option lemmas, record updates, tactics and hint databases.
    - [JsString], [JsNumber], [JsDecimal], [JsValue], [JsJson], [JsState]: the
      part of the language the widgets use.  Strings over 256 code
      units; binary64 numbers ([num]) and, for what is counted or read by
      [parseInt], integral doubles rounded to 53 bits ([jsint]); [==], [<],
      [parseFloat], [String(v)]; objects in the order of insertion; [slice] and
      the stable [Array.prototype.sort]; parsed JSON; the monad [M] of handlers
      that change a state and may throw, with a weakest precondition and its
      rules; [JsPromise]: jQuery's promises, a parameter with its laws.
    - [JsonText]: [JSON.stringify] and [JSON.parse]; [JsonRoundTrip]: the second
      undoes the first.
    - [JsRegExp]: the interface [RegExpOps] that the table's filters use.
      [RegExpSyntax] and [RegExpEngine]: the parser and the backtracking matcher
      of ECMA-262 (edition 5.1), its instance [EsRegExp].  [RegExpParse]: the
      parser's steps are enough.  [RegExpFacts], [RegExpUses]: the patterns of
      the sources, and plain words, do what the model's functions say.
    - [TableData] (settings, header, data, sort types, filter, sort, page),
      [TableView] (header cells, filter elements, body, navigation: [render]),
      [TableUpdate] ([update] and its URL and response) and [TableEvents] (every
      handler, several tables, pending requests) model renderer.table.js;
      [TableThrows] has the same handlers with the state that each leaves when it
      throws, and that they agree where they return ([handle_agrees]).
      [TableFilter] and [TableSort] relate the filter loop and the comparison
      function to their specifications; [TableRender], [TableTypes],
      [TablePaging], [TableUrl], [TableCells] and [TableAsync] have the theorems.
    - [Workflow] models widget.awe_workflow.js: one definition per function and
      per listener, [handle] for an event and [run] for a sequence of them;
      [WorkflowText] has the text of a document.  [WorkflowEdit],
      [WorkflowModes], [WorkflowVisual] and [WorkflowLoad] have the theorems.
    - [MonitorData] (responses to rows and text), [Monitor] (page, tables,
      requests, callbacks, setup), [MonitorLinks] (tooltips, [tasksort]) and
      [MonitorExport] ([xlsExport]) model widget.awe_monitor.js, [CustomButton]
      js/customButton.js; they, [MonitorActions] and [MonitorTables] have the
      theorems.
    - [Top] and [TopRows], [Panel] and [PanelView], [Cgroups] and
      [CgroupsSafety]: the model of a widget and its theorems.  [Home] and
      [Submission]: both in one file.

    Names are those of the source; a listener without a name is called [on_...].
    A definition that stands for a piece of [render] or of [showAWEDetails] has
    the name of what the piece computes.  The state of a widget is a record of
    what it keeps and of the elements of the page it writes to; requests that are
    under way are a list, and an answer is an event that names one of them, so
    answers come in any order.

    ** What the theorems show

    - The table: what [render] shows is the page of the stable sort of the rows
      that pass the filters (C1), and when it returns on tables of strings (C10);
      what a table shows stays in step with its data under every sequence of
      events, also where handlers throw (C2); a filter with
      a plain word shows the rows that have the word (C6); paging
      stays on the table, shows every row once (C3, C28) and can be undone;
      the page and the URL asked from a server (C9, C30); the cell editor
      and the operator switch (C33, C35).  Where the code goes wrong: responses
      out of order (C36), the callback of another table (C37), cells that are no
      strings (C40); and, not among the claims, the theorems on the goto field,
      on filters that undo the order and on sorting cells that are no strings.
    - The patterns of the program are what the model's text functions compute
      (C7, C23).
    - The workflow editor: an edited workflow is acyclic and refers to existing
      tasks and files (C4); what adding a task, loading a document and setting
      the number of input files do (C12, C15, C31, C32); a saved document
      can be loaded again (C8); the playground (C13, C14, C24).  The editor's
      modes that cannot be left (C38, C39).
    - The monitor: resuming several jobs reports once, when all are answered
      (C16); pages of jobs (C26); the export (C25, C27); what the MG-RAST button
      sends (C29); the links of tooltips leave the tables alone.
    - The usage overview: the loop adds up by group (C5), the table shows the
      sums sorted (C17), and it keeps to the grouping the user sees (C21).
    - The client panel: every client has one box and the counts are right (C11);
      the links can be undone (C22).
    - Client groups, home and submission: what is sent without authorisation
      (C18), by whom the queue is changed (C19), which SHOCK server is used (C20),
      and the details of a group (C34).

    ** Interfaces and parameters

    [RegExpOps] is a class: the table's theorems hold for every engine, and
    [EsRegExp] is the instance of the witnesses and of C6.  What the widgets take
    from the Retina library and from the browser's locale
    ([Retina.Base64.encode], [Number.prototype.byteSize], [Retina.keys],
    [Retina.propSort], [Retina.Numsort], [Date.parse], [toLocaleString],
    [localeCompare]) are
    arguments of their definitions; only C17 assumes anything of them, that
    [Retina.keys] gives the names of an object's properties and that
    [Retina.propSort] orders rows by the values of the attribute where these are
    all numbers or all texts (the class [PropSort]), and [tasksort_is_order], that
    [localeCompare] orders the texts (the class [LocaleOrder]).  [PromiseOps] is
    what [resumeJobs] uses of jQuery's promises; C16 assumes what jQuery documents
    of them (the class [PromiseLaws]), and [FlagPromises] is the instance of its
    witness.  Whether [SHOCK.init] returns is part of the event that calls it
    (C20).

    ** Bounds and fuel

    Row numbers, page sizes and mouse positions are doubles; theorems that need
    exact arithmetic have the bound (2^52, 2^50 or 2^53 - 1) as a hypothesis.
    Fuel occurs where the recursion is on the text or the number of elements:
    [strip_tags] has the length of the text, [operator_loop] the number of
    operators, [walk] the number of rows; each pass consumes one, so it is not
    used up.  The parser of patterns has the length of the pattern
    ([disjunction_steps]: more changes nothing), that of JSON twice the length of
    the text ([weight_len]); the matcher needs none, since a repetition is
    bounded by the text that is left.  The decimal exponent of a number is found
    within 5 steps of an estimate made from its binary exponent, its shortest
    digits within the 17 that every binary64 number needs at most.

    ** What is left out

    - Code units above 255, the sign of a zero among the [jsint], and the
      appearance of the page: styles, the placement of popovers, the static
      HTML of the editor and the monitor.
    - The JSON text of the job details, which are kept as documents; headers of
      requests, apart from whether they authorise and that of C29; what Retina,
      stm, jQuery (but for its promises), the xlsx and JSON editor libraries do.
    - The Go server and clients, the Perl tools, vendored and generated code. *)

From Stdlib Require Export ZArith Lia Bool Ascii.
From stdpp Require Export base decidable list strings gmap sorting.
From stdpp Require Import pretty.
#[global] Open Scope Z_scope.

(** ** Exceptions

    A call of the program either returns or throws.  [TypeError] is the
    exception of a property access on [undefined] or [null] and of a call of
    something that is no function; [SyntaxError] is what [new RegExp] and
    [JSON.parse] throw on malformed text; [RangeError] is that of an array that
    gets too long. *)
Inductive exn :=
| TypeError
| SyntaxError
| RangeError
| ReferenceError.

Inductive res (A : Type) : Type :=
| Ok (a : A)
| Throw (e : exn).
Arguments Ok {A} a.
Arguments Throw {A} e.

#[export] Instance exn_eq_dec : EqDecision exn.
Proof. solve_decision. Defined.
#[export] Instance res_eq_dec {A} `{EqDecision A} : EqDecision (res A).
Proof. solve_decision. Defined.

#[export] Instance res_ret : MRet res := λ A a, Ok a.
#[export] Instance res_bind : MBind res := λ A B k m,
  match m with Ok a => k a | Throw e => Throw e end.
#[export] Instance res_fmap : FMap res := λ A B f m,
  match m with Ok a => Ok (f a) | Throw e => Throw e end.

(** [need e o] is the value of [o], or the exception [e] when there is none. *)
Definition need {A} (e : exn) (o : option A) : res A :=
  match o with Some a => Ok a | None => Throw e end.

Definition is_ok {A} (r : res A) : bool :=
  match r with Ok _ => true | Throw _ => false end.

Lemma bind_ok {A B} (m : res A) (k : A → res B) b :
  m ≫= k = Ok b ↔ ∃ a, m = Ok a ∧ k a = Ok b.
Proof.
  unfold mbind, res_bind. destruct m; split; [eauto|intros (?&?&?)|done|intros (?&?&?)]; congruence.
Qed.

Lemma ok_bind {A B} (a : A) (k : A → res B) : Ok a ≫= k = k a.
Proof. done. Qed.

Lemma fmap_ok {A B} (m : res A) (f : A → B) b :
  f <$> m = Ok b ↔ ∃ a, m = Ok a ∧ f a = b.
Proof. unfold fmap, res_fmap. destruct m; split; [|intros (?&?&?)|done|intros (?&?&?)];
  try congruence. intros [= <-]. eauto. Qed.

Lemma need_ok {A} e (o : option A) a : need e o = Ok a ↔ o = Some a.
Proof. destruct o; simpl; split; naive_solver. Qed.

(** The monadic traversal and left fold of the loops that may throw. *)
Fixpoint mapR {A B} (f : A → res B) (l : list A) : res (list B) :=
  match l with
  | [] => Ok []
  | x :: l' => y ← f x; ys ← mapR f l'; Ok (y :: ys)
  end.

Fixpoint foldR {A S} (f : S → A → res S) (s : S) (l : list A) : res S :=
  match l with
  | [] => Ok s
  | x :: l' => s' ← f s x; foldR f s' l'
  end.

Lemma mapR_ok {A B} (f : A → res B) (g : A → B) l :
  (∀ x, x ∈ l → f x = Ok (g x)) → mapR f l = Ok (g <$> l).
Proof.
  induction l as [|x l IH]; intros H; [done|]. simpl.
  rewrite (H x) by (by left). simpl. rewrite IH; [done|].
  intros y Hy. apply H. by right.
Qed.

Lemma foldR_ok {A S} (f : S → A → res S) (g : S → A → S) l : ∀ s,
  (∀ s x, x ∈ l → f s x = Ok (g s x)) → foldR f s l = Ok (foldl g s l).
Proof.
  induction l as [|x l IH]; intros s H; [done|]. simpl.
  rewrite H by (by left). simpl. apply IH. intros s' y Hy. apply H. by right.
Qed.

(** What every step that returns preserves. *)
Lemma foldR_preserves {A S} (I : S → Prop) (f : S → A → res S) l : ∀ s s',
  (∀ s x s', I s → f s x = Ok s' → I s') → I s → foldR f s l = Ok s' → I s'.
Proof.
  induction l as [|x l IH]; intros s s' Hf Hs H; simpl in H; [by injection H as <-|].
  apply bind_ok in H as (s1 & H1 & H2). eauto.
Qed.

Lemma mapR_length {A B} (f : A → res B) l l' :
  mapR f l = Ok l' → length l' = length l.
Proof.
  revert l'. induction l as [|x l IH]; simpl; intros l' H; [by simplify_eq|].
  apply bind_ok in H as (y & _ & H). apply bind_ok in H as (ys & Hys & ?).
  simplify_eq/=. f_equal. eauto.
Qed.

Lemma mapR_lookup {A B} (f : A → res B) l l' i x :
  mapR f l = Ok l' → l !! i = Some x → ∃ y, f x = Ok y ∧ l' !! i = Some y.
Proof.
  revert l' i. induction l as [|z l IH]; simpl; intros l' i H Hi; [done|].
  apply bind_ok in H as (y & Hy & H). apply bind_ok in H as (ys & Hys & ?).
  destruct i; simplify_eq/=; eauto.
Qed.

(** A loop whose body keeps an invariant and does not throw returns. *)
Lemma foldR_inv {A S} (I : S → Prop) (f : S → A → res S) l : ∀ s,
  I s → (∀ s x, x ∈ l → I s → ∃ s', f s x = Ok s' ∧ I s') → ∃ s', foldR f s l = Ok s' ∧ I s'.
Proof.
  induction l as [|x l IH]; intros s Hs Hf; simpl; [eauto|].
  destruct (Hf s x) as (s1 & -> & Hs1); [by left|done|]. simpl.
  apply IH; [done|]. intros s2 y Hy. apply Hf. by right.
Qed.

Lemma mapR_total {A B} (f : A → res B) l :
  (∀ x, x ∈ l → ∃ y, f x = Ok y) → ∃ l', mapR f l = Ok l'.
Proof.
  induction l as [|x l IH]; intros Hf; simpl; [eauto|].
  destruct (Hf x) as [y ->]; [by left|]. simpl.
  destruct IH as [ys ->]; [intros; apply Hf; by right|]. simpl. eauto.
Qed.

(** ** Automation *)

Create HintDb js discriminated.
Create Rewrite HintDb res.
#[export] Hint Rewrite @bind_ok @fmap_ok @need_ok : res.

(** Decompose a run that returned: every bind in a hypothesis gives the
    intermediate value. *)
Ltac inv_res :=
  repeat match goal with
  | H : _ ≫= _ = Ok _ |- _ => apply bind_ok in H as (? & ? & H)
  | H : _ <$> _ = Ok _ |- _ => apply fmap_ok in H as (? & ? & H)
  | H : need _ _ = Ok _ |- _ => apply need_ok in H
  | H : Ok ?a = Ok ?b |- _ => assert (a = b) by congruence; clear H; try subst
  | H : mret _ = Ok _ |- _ => unfold mret, res_ret in H
  | H : Throw _ = Ok _ |- _ => discriminate H
  | H : ∃ _, _ |- _ => destruct H
  | H : _ ∧ _ |- _ => destruct H
  end.

(** Case analysis on the tests of the program in the goal. *)
Ltac case_if :=
  match goal with
  | |- context [if ?b then _ else _] =>
      lazymatch type of b with bool => destruct b eqn:? end
  end.

(** An equation between closed terms, by evaluation of both sides. *)
Ltac vm_eq :=
  match goal with |- @eq ?A ?x ?y => exact (eq_refl x <: @eq A x y) end.

Ltac zbool :=
  repeat match goal with
  | H : (_ <? _)%Z = true |- _ => apply Z.ltb_lt in H
  | H : (_ <? _)%Z = false |- _ => apply Z.ltb_ge in H
  | H : (_ <=? _)%Z = true |- _ => apply Z.leb_le in H
  | H : (_ <=? _)%Z = false |- _ => apply Z.leb_gt in H
  | H : (_ =? _)%Z = true |- _ => apply Z.eqb_eq in H
  | H : (_ =? _)%Z = false |- _ => apply Z.eqb_neq in H
  | H : (_ =? _)%nat = true |- _ => apply Nat.eqb_eq in H
  | H : (_ =? _)%nat = false |- _ => apply Nat.eqb_neq in H
  | H : _ && _ = true |- _ => apply andb_true_iff in H as [? ?]
  | H : _ && _ = false |- _ => apply andb_false_iff in H
  | H : _ || _ = true |- _ => apply orb_true_iff in H
  | H : _ || _ = false |- _ => apply orb_false_iff in H as [? ?]
  | H : negb _ = true |- _ => apply negb_true_iff in H
  | H : negb _ = false |- _ => apply negb_false_iff in H
  end.

(** ** Lists *)

Lemma list_filter_permutation {A} (f : A → bool) l l' :
  l ≡ₚ l' → List.filter f l ≡ₚ List.filter f l'.
Proof.
  induction 1; simpl; repeat case_match; eauto using Permutation.
Qed.

Lemma list_filter_app {A} (f : A → bool) l l' :
  List.filter f (l ++ l') = List.filter f l ++ List.filter f l'.
Proof. induction l as [|x l IH]; simpl; [done|]. destruct (f x); simpl; by rewrite IH. Qed.

Lemma list_filter_ext {A} (f g : A → bool) l :
  (∀ x, x ∈ l → f x = g x) → List.filter f l = List.filter g l.
Proof.
  induction l as [|x l IH]; intros H; simpl; [done|].
  rewrite (H x), IH; [done| |by left]. intros y Hy. apply H. by right.
Qed.

Lemma list_filter_length {A} (f : A → bool) l :
  (length (List.filter f l) ≤ length l)%nat.
Proof. induction l as [|x l IH]; simpl; [lia|]. destruct (f x); simpl; lia. Qed.

(** The result, or a default; examples are computed once with it. *)
Definition ok_or {A} (d : A) (r : res A) : A := match r with Ok a => a | Throw _ => d end.

Lemma ok_or_ok {A} (d : A) r : is_ok r = true → r = Ok (ok_or d r).
Proof. by destruct r. Qed.

Lemma ok_or_parts {A B C} (d : A * B * C) r c :
  is_ok r = true → (ok_or d r).2 = c → r = Ok ((ok_or d r).1.1, (ok_or d r).1.2, c).
Proof. destruct r as [[[??]?]|]; naive_solver. Qed.

Lemma list_filter_sublist {A} (f : A → bool) l : List.filter f l `sublist_of` l.
Proof. induction l as [|x l IH]; simpl; [done|]. destruct (f x); by constructor. Qed.

Lemma elem_of_list_filter_b {A} (f : A → bool) l x :
  x ∈ List.filter f l ↔ x ∈ l ∧ f x = true.
Proof. rewrite !list_elem_of_In. apply filter_In. Qed.

(** [l !! i] with the index an integer of the program. *)
Definition zlookup {A} (l : list A) (i : Z) : option A :=
  if i <? 0 then None else l !! Z.to_nat i.

Lemma zlookup_nat {A} (l : list A) (i : nat) : zlookup l (Z.of_nat i) = l !! i.
Proof. unfold zlookup. rewrite (proj2 (Z.ltb_ge _ _)) by lia. by rewrite Nat2Z.id. Qed.

(** The elements a test that may throw lets through. *)
Fixpoint filterR {A} (p : A → res bool) (l : list A) : res (list A) :=
  match l with
  | [] => Ok []
  | x :: l' => b ← p x; r ← filterR p l'; Ok (if (b : bool) then x :: r else r)
  end.

Lemma filterR_ok {A} (p : A → res bool) (f : A → bool) l :
  (∀ x, x ∈ l → p x = Ok (f x)) → filterR p l = Ok (List.filter f l).
Proof.
  induction l as [|x l IH]; intros H; simpl; [done|].
  rewrite H by (by left). simpl. rewrite IH; [|intros; apply H; by right].
  simpl. by destruct (f x).
Qed.

Lemma filterR_total {A} (p : A → res bool) l :
  (∀ x, x ∈ l → ∃ b, p x = Ok b) → ∃ l', filterR p l = Ok l'.
Proof.
  induction l as [|x l IH]; intros Hf; simpl; [eauto|].
  destruct (Hf x) as [b ->]; [by left|]. simpl.
  destruct IH as [ys ->]; [intros; apply Hf; by right|]. simpl. eauto.
Qed.

Lemma filterR_spec {A} (p : A → res bool) l l' :
  filterR p l = Ok l' →
  l' = List.filter (λ x, match p x with Ok b => b | Throw _ => false end) l ∧
  ∀ x, x ∈ l → ∃ b, p x = Ok b.
Proof.
  revert l'. induction l as [|x l IH]; intros l' H; simpl in H.
  { inv_res. split; [done|]. intros x Hx. by apply elem_of_nil in Hx. }
  inv_res. match goal with
    Hr : filterR p l = Ok _ |- _ => destruct (IH _ Hr) as [IH1 IH2] end.
  match goal with Hx : p x = Ok ?b |- _ => split; [simpl; rewrite Hx; subst; by destruct b|];
    intros y [->|Hy]%elem_of_cons; eauto end.
Qed.

(** A test that can only throw [e], and does on some element. *)
Lemma filterR_throw {A} (p : A → res bool) e l r :
  (∀ x, x ∈ l → (∃ b, p x = Ok b) ∨ p x = Throw e) → r ∈ l → p r = Throw e →
  filterR p l = Throw e.
Proof.
  intros Hp Hr He. induction l as [|x l IH]; [by apply elem_of_nil in Hr|]. simpl.
  destruct (Hp x) as [[b Hb]| ->]; [by left| |done].
  apply elem_of_cons in Hr as [->|Hr]; [congruence|]. rewrite Hb. simpl.
  rewrite IH; [done| |done]. intros y Hy. apply Hp. by right.
Qed.

Lemma filterR_throw_inv {A} (p : A → res bool) e l :
  filterR p l = Throw e → ∃ r, r ∈ l ∧ p r = Throw e.
Proof.
  induction l as [|x l IH]; simpl; [done|]. destruct (p x) as [b|e'] eqn:E; simpl.
  - destruct (filterR p l); [done|]. intros [= ->]. destruct IH as (r & Hr & He); [done|].
    exists r. split; [by right|done].
  - intros [= ->]. exists x. split; [by left|done].
Qed.

(** ** Record update: [r <| field := v |>]

    A record type gets an instance of [Eta], its expansion by its own
    constructor; the update of a field is the expansion with that projection
    replaced. *)
Class Eta (R : Type) := eta : R → R.
Class Upd {R T : Type} (proj : R → T) := upd : (T → T) → R → R.
Arguments upd {R T} proj {Upd} f r.

Ltac derive_upd proj :=
  lazymatch type of proj with
  | ?R → ?T =>
      let i := constr:(_ : Eta R) in
      let body := eval hnf in i in
      lazymatch (eval pattern proj in body) with
      | ?f _ =>
          let r := eval cbv beta in (λ (g : T → T) (r : R), f (λ r', g (proj r')) r) in
          exact r
      end
  end.
#[export] Hint Extern 1 (Upd ?proj) => (derive_upd proj) : typeclass_instances.

Notation "r <| f := v |>" := (upd f (λ _, v) r)
  (at level 1, f at level 200, left associativity).

(** Read a field of an updated record, without unfolding the record. *)
Ltac upd_simpl :=
  repeat match goal with
  | |- context [?p (@upd ?R ?T ?q ?i ?f ?r)] =>
      first [ constr_eq p q; change (p (@upd R T q i f r)) with (f (p r)); cbv beta
            | change (p (@upd R T q i f r)) with (p r) ]
  end.

Ltac upd_simpl_in H :=
  repeat match type of H with
  | context [?p (@upd ?R ?T ?q ?i ?f ?r)] =>
      first [ constr_eq p q; change (p (@upd R T q i f r)) with (f (p r)) in H; cbv beta in H
            | change (p (@upd R T q i f r)) with (p r) in H ]
  end.
