(* ===== verification/JsString.v ===== *)
(** * Strings of the program

    A JavaScript string is a sequence of code units; the model's alphabet is
    the 256 code units of [ascii].  This file has the operations of the
    standard library that the widgets call ([lastIndexOf], [substring],
    [split], [replace], [match] of a one-character pattern, the relational
    order) and their lemmas.

    A literal of the program that contains a double quote is written with the
    function [q], which turns every backquote into a double quote; no literal
    of the program contains a backquote. *)

From stdpp Require Import pretty.
From S2P Require Import Prelude.

#[global] Open Scope string_scope.
#[global] Open Scope list_scope.
#[global] Open Scope Z_scope.
Infix "+++" := String.append (right associativity, at level 60) : string_scope.

Definition dquote : Ascii.ascii := Ascii.Ascii false true false false false true false false.
Definition backquote : Ascii.ascii := Ascii.Ascii false false false false false true true false.
Definition newline : Ascii.ascii := Ascii.Ascii false true false true false false false false.
Definition creturn : Ascii.ascii := Ascii.Ascii true false true true false false false false.

Fixpoint q (s : string) : string :=
  match s with
  | EmptyString => EmptyString
  | String c s' => String (if Ascii.eqb c backquote then dquote else c) (q s')
  end.

(** [s.length] *)
Definition slen (s : string) : Z := Z.of_nat (String.length s).

(** [s.match(/c/)] used as a condition. *)
Fixpoint has_char (c : Ascii.ascii) (s : string) : bool :=
  match s with
  | EmptyString => false
  | String d s' => Ascii.eqb c d || has_char c s'
  end.

(** How many times [c] occurs in [s]. *)
Fixpoint count_char (c : Ascii.ascii) (s : string) : nat :=
  match s with
  | EmptyString => 0
  | String d s' => (if Ascii.eqb c d then 1 else 0) + count_char c s'
  end%nat.

(** [s.replace(/c/, d)]: the pattern has no [g] flag, so only the first
    occurrence is replaced. *)
Fixpoint replace_first (c d : Ascii.ascii) (s : string) : string :=
  match s with
  | EmptyString => EmptyString
  | String a s' => if Ascii.eqb c a then String d s' else String a (replace_first c d s')
  end.

(** [s.lastIndexOf(c)] *)
Fixpoint last_index_of (c : Ascii.ascii) (s : string) : Z :=
  match s with
  | EmptyString => -1
  | String a s' =>
      let r := last_index_of c s' in
      if r <? 0 then (if Ascii.eqb c a then 0 else -1) else r + 1
  end.

Fixpoint sdrop (n : nat) (s : string) : string :=
  match n, s with
  | S n', String _ s' => sdrop n' s'
  | _, _ => s
  end.

Fixpoint stake (n : nat) (s : string) : string :=
  match n, s with
  | S n', String a s' => String a (stake n' s')
  | _, _ => EmptyString
  end.

(** [s.substring(a, b)]: both ends clamped to [0, length], then ordered. *)
Definition substring (s : string) (a b : Z) : string :=
  let clamp z := Z.min (Z.max z 0) (slen s) in
  let lo := Z.min (clamp a) (clamp b) in
  let hi := Z.max (clamp a) (clamp b) in
  stake (Z.to_nat (hi - lo)) (sdrop (Z.to_nat lo) s).

(** [s.split(c)] for a separator of one character. *)
Fixpoint split_on (c : Ascii.ascii) (s : string) : list string :=
  match s with
  | EmptyString => [EmptyString]
  | String a s' =>
      if Ascii.eqb c a then EmptyString :: split_on c s'
      else match split_on c s' with
           | w :: ws => String a w :: ws
           | [] => [String a EmptyString]
           end
  end.

(** [l.join(sep)] *)
Fixpoint join (sep : string) (l : list string) : string :=
  match l with
  | [] => ""
  | [s] => s
  | s :: l' => s +++ sep +++ join sep l'
  end.

(** [s.replace(/<(.|\n)*?>/g, '')], the tag stripping of the table's sort and
    autodetection.  From a [<] the lazy repetition runs to the first [>]; it
    cannot cross a carriage return, which [.] does not match.  Where it finds
    none the [<] stays and the search goes on behind it. *)
Fixpoint close_tag (s : string) : option string :=
  match s with
  | EmptyString => None
  | String a s' =>
      if Ascii.eqb a ">"%char then Some s'
      else if Ascii.eqb a creturn then None
      else close_tag s'
  end.

Fixpoint strip_tags_fuel (fuel : nat) (s : string) : string :=
  match fuel with
  | O => s
  | S fuel' =>
      match s with
      | EmptyString => EmptyString
      | String a s' =>
          if Ascii.eqb a "<"%char then
            match close_tag s' with
            | Some rest => strip_tags_fuel fuel' rest
            | None => String a (strip_tags_fuel fuel' s')
            end
          else String a (strip_tags_fuel fuel' s')
      end
  end.

Definition strip_tags (s : string) : string := strip_tags_fuel (String.length s) s.

(** [String(n)] of an integer. *)
Definition show (z : Z) : string := pretty z.

(** ** Lemmas *)

Lemma sapp_assoc s1 s2 s3 : (s1 +++ s2) +++ s3 = s1 +++ s2 +++ s3.
Proof. induction s1; unfold String.append in *; fold String.append in *; congruence. Qed.

Lemma sapp_nil_r s : s +++ "" = s.
Proof. induction s; unfold String.append in *; fold String.append in *; congruence. Qed.

Lemma sapp_nil_l s : "" +++ s = s.
Proof. done. Qed.

Lemma sapp_cons a s1 s2 : String a s1 +++ s2 = String a (s1 +++ s2).
Proof. done. Qed.

Lemma slen_app s1 s2 : slen (s1 +++ s2) = slen s1 + slen s2.
Proof.
  unfold slen. induction s1 as [|a s1 IH]; [done|]. rewrite sapp_cons. simpl. lia.
Qed.

Lemma slen_nonneg s : 0 ≤ slen s.
Proof. unfold slen. lia. Qed.

Lemma slen_zero s : slen s = 0 ↔ s = "".
Proof. unfold slen. destruct s; simpl; split; intros; try done; lia. Qed.

Lemma has_char_app c s1 s2 : has_char c (s1 +++ s2) = has_char c s1 || has_char c s2.
Proof.
  induction s1 as [|a s1 IH]; [done|]. rewrite sapp_cons. simpl. rewrite IH.
  by rewrite orb_assoc.
Qed.

Lemma count_char_app c s1 s2 :
  count_char c (s1 +++ s2) = (count_char c s1 + count_char c s2)%nat.
Proof.
  induction s1 as [|a s1 IH]; [done|]. rewrite sapp_cons. simpl. rewrite IH. lia.
Qed.

Lemma has_char_count c s : has_char c s = negb (count_char c s =? 0)%nat.
Proof.
  induction s as [|a s IH]; [done|]. simpl. rewrite IH. by destruct (Ascii.eqb c a).
Qed.

Lemma has_char_false c s : has_char c s = false ↔ count_char c s = 0%nat.
Proof. rewrite has_char_count, negb_false_iff. apply Nat.eqb_eq. Qed.

(** The first occurrence is the only thing [replace_first] changes. *)
Lemma replace_first_count c d s :
  c ≠ d → has_char c s = true → S (count_char c (replace_first c d s)) = count_char c s.
Proof.
  intros Hcd. induction s as [|a s IH]; [done|]. simpl.
  destruct (Ascii.eqb c a) eqn:E; simpl.
  - intros _. rewrite (proj2 (Ascii.eqb_neq c d) Hcd). lia.
  - intros H. rewrite E. specialize (IH H). lia.
Qed.

Lemma replace_first_len c d s : slen (replace_first c d s) = slen s.
Proof.
  unfold slen. f_equal. induction s as [|a s IH]; [done|]. simpl.
  destruct (Ascii.eqb c a); simpl; congruence.
Qed.

Lemma last_index_of_none c s : has_char c s = false → last_index_of c s = -1.
Proof.
  induction s as [|a s IH]; [done|]. simpl. intros H. zbool.
  rewrite IH by done. simpl. by rewrite H.
Qed.

Lemma last_index_of_app c s1 s2 :
  has_char c s2 = true →
  last_index_of c (s1 +++ s2) = slen s1 + last_index_of c s2 ∧ 0 ≤ last_index_of c s2.
Proof.
  intros H.
  assert (0 ≤ last_index_of c s2) as H2.
  { revert H. induction s2 as [|a s2 IH]; [done|]. simpl.
    destruct (Ascii.eqb c a) eqn:E; simpl; intros H.
    - destruct (Z.ltb_spec (last_index_of c s2) 0); lia.
    - specialize (IH H). destruct (Z.ltb_spec (last_index_of c s2) 0); lia. }
  split; [|done]. clear H. induction s1 as [|a s1 IH]; [rewrite sapp_nil_l; unfold slen; simpl; lia|].
  rewrite sapp_cons. simpl. rewrite IH.
  pose proof (slen_nonneg s1). rewrite (proj2 (Z.ltb_ge _ _)) by lia.
  unfold slen. simpl. lia.
Qed.

Lemma sdrop_app s1 s2 : sdrop (String.length s1) (s1 +++ s2) = s2.
Proof. induction s1; [done|]. by rewrite sapp_cons. Qed.

Lemma stake_app s1 s2 : stake (String.length s1) (s1 +++ s2) = s1.
Proof.
  induction s1 as [|a s1 IH]; [by destruct s2|]. rewrite sapp_cons. simpl. by rewrite IH.
Qed.

(** The substring between two cut points of a concatenation. *)
Lemma substring_mid s1 s2 s3 :
  substring (s1 +++ s2 +++ s3) (slen s1) (slen s1 + slen s2) = s2.
Proof.
  unfold substring. rewrite !slen_app.
  pose proof (slen_nonneg s1). pose proof (slen_nonneg s2). pose proof (slen_nonneg s3).
  replace (Z.min (Z.max (slen s1) 0) (slen s1 + (slen s2 + slen s3))) with (slen s1) by lia.
  replace (Z.min (Z.max (slen s1 + slen s2) 0) (slen s1 + (slen s2 + slen s3)))
    with (slen s1 + slen s2) by lia.
  rewrite Z.min_l, Z.max_r by lia.
  replace (slen s1 + slen s2 - slen s1) with (slen s2) by lia.
  unfold slen. rewrite !Nat2Z.id, sdrop_app. apply stake_app.
Qed.

Lemma substring_prefix s1 s2 : substring (s1 +++ s2) 0 (slen s1) = s1.
Proof. apply (substring_mid "" s1 s2). Qed.

Lemma split_on_none c s : has_char c s = false → split_on c s = [s].
Proof.
  induction s as [|a s IH]; [done|]. simpl. intros H. zbool. rewrite H.
  by rewrite IH.
Qed.

Lemma split_on_length c s : length (split_on c s) = S (count_char c s).
Proof.
  induction s as [|a s IH]; [done|]. simpl. destruct (Ascii.eqb c a); simpl; [lia|].
  destruct (split_on c s); simpl in *; lia.
Qed.

Lemma split_on_join c s : join (String c "") (split_on c s) = s.
Proof.
  induction s as [|a s IH]; [done|]. simpl. destruct (Ascii.eqb_spec c a) as [->|].
  - pose proof (split_on_length a s). destruct (split_on a s) as [|w ws]; [done|].
    rewrite <-IH. done.
  - pose proof (split_on_length c s). destruct (split_on c s) as [|w ws]; [done|].
    rewrite <-IH. by destruct ws.
Qed.

Lemma join_cons sep s l : l ≠ [] → join sep (s :: l) = s +++ sep +++ join sep l.
Proof. by destruct l. Qed.

Lemma join_snoc sep l s : l ≠ [] → join sep (l ++ [s]) = join sep l +++ sep +++ s.
Proof.
  induction l as [|x l IH]; [done|]. intros _. destruct l as [|y l]; [done|].
  rewrite <-app_comm_cons, !join_cons by done. rewrite IH by done. by rewrite !sapp_assoc.
Qed.

Lemma join_app sep l1 l2 :
  l1 ≠ [] → l2 ≠ [] → join sep (l1 ++ l2) = join sep l1 +++ sep +++ join sep l2.
Proof.
  intros H1 H2. induction l1 as [|x l1 IH]; [done|]. destruct l1 as [|y l1].
  - by apply join_cons.
  - rewrite <-app_comm_cons, !join_cons by done. rewrite IH by done. by rewrite !sapp_assoc.
Qed.

Lemma split_on_app c s1 s2 :
  has_char c s1 = false → split_on c (s1 +++ String c s2) = s1 :: split_on c s2.
Proof.
  induction s1 as [|a s1 IH]; intros H.
  - rewrite sapp_nil_l. cbn [split_on]. by rewrite Ascii.eqb_refl.
  - rewrite sapp_cons. cbn [split_on has_char] in *. zbool.
    match goal with E : Ascii.eqb c a = false |- _ => rewrite E end. by rewrite IH.
Qed.

(** Splitting at the separator gives the joined parts back. *)
Lemma split_on_join_parts c l :
  l ≠ [] → Forall (λ s, has_char c s = false) l → split_on c (join (String c "") l) = l.
Proof.
  induction l as [|x l IH]; [done|]. intros _ H. inversion_clear H as [|?? Hx Hl].
  destruct l as [|y l]; [by apply split_on_none|].
  rewrite join_cons by done. rewrite sapp_cons, sapp_nil_l.
  rewrite split_on_app by done. by rewrite IH.
Qed.

(** Stripping changes nothing in a text without [<], and enough fuel is enough. *)
Lemma strip_tags_id s : has_char "<"%char s = false → strip_tags s = s.
Proof.
  unfold strip_tags. induction s as [|a s IH]; [done|].
  cbn [has_char String.length strip_tags_fuel]. intros H. zbool.
  rewrite Ascii.eqb_sym, H, IH; done.
Qed.

(** A digit string has none of the other characters. *)
Definition is_digit (c : Ascii.ascii) : bool :=
  let n := Ascii.nat_of_ascii c in (48 <=? n)%nat && (n <=? 57)%nat.

Fixpoint all_chars (p : Ascii.ascii → bool) (s : string) : bool :=
  match s with
  | EmptyString => true
  | String a s' => p a && all_chars p s'
  end.

Lemma all_chars_no c p s : p c = false → all_chars p s = true → has_char c s = false.
Proof.
  intros Hc. induction s as [|a s IH]; [done|]. simpl. intros H. zbool.
  rewrite IH by done. destruct (Ascii.eqb_spec c a); [congruence|done].
Qed.

Lemma pretty_N_go_digits x s : all_chars is_digit s = true → all_chars is_digit (pretty_N_go x s) = true.
Proof.
  revert s. induction (N.lt_wf_0 x) as [x _ IH]; intros s Hs.
  destruct (decide (x = 0)%N) as [->|Hx]; [by rewrite pretty_N_go_0|].
  rewrite pretty_N_go_step by lia. apply IH; [apply N.div_lt; lia|].
  simpl. rewrite Hs, andb_true_r.
  assert (x `mod` 10 < 10)%N by (apply N.mod_lt; lia).
  destruct (x `mod` 10)%N as [|p]; [done|]. do 4 (destruct p as [p|p|]; try done; try lia).
Qed.

Lemma show_digits z : 0 ≤ z → all_chars is_digit (show z) = true.
Proof.
  intros Hz. unfold show, pretty, pretty_Z. destruct z as [|p|p]; [done| |lia].
  change (all_chars is_digit (pretty_N_go (Npos p) "") = true). by apply pretty_N_go_digits.
Qed.

Lemma show_no_char c z : is_digit c = false → c ≠ "-"%char → has_char c (show z) = false.
Proof.
  intros Hd Hc. destruct (Z.le_gt_cases 0 z) as [Hz|Hz].
  - apply (all_chars_no _ is_digit); [done|by apply show_digits].
  - destruct z as [|p|p]; try lia.
    assert (show (Zneg p) = String "-" (show (Zpos p))) as -> by done.
    cbn [has_char]. rewrite (proj2 (Ascii.eqb_neq c "-"%char) Hc).
    apply (all_chars_no _ is_digit); [done|by apply show_digits].
Qed.

Lemma show_inj z1 z2 : show z1 = show z2 → z1 = z2.
Proof. apply (inj pretty). Qed.
