(* ===== verification/JsNumber.v ===== *)
(** * Numbers of the program

    Two views of the one JavaScript number type (IEEE 754 binary64):

    - [jsint], for the quantities the program only ever obtains by [parseInt],
      by counting and by adding and subtracting such numbers (row offsets, page
      sizes, timestamps).  A finite double with an integral value is the
      integer, [JNaN] and [JInf] are the rest; [jround] is the rounding to 53
      bits that every result goes through, so the model is exact beyond 2^53
      too.  The sign of a zero is the only thing not kept.
    - [num], for arbitrary cell values: the [spec_float] of the Standard
      Library at precision 53 and exponent bound 1024.

    [parseInt], [parseFloat] and the conversion of a string by [==] and [<]
    follow ECMA-262. *)

From Stdlib Require Import SpecFloat.
From S2P Require Import Prelude JsString.

(** ** Integers *)

Inductive jsint :=
| JNaN
| JInf (neg : bool)
| JInt (z : Z).

#[export] Instance jsint_eq_dec : EqDecision jsint.
Proof. solve_decision. Defined.

(** Round to nearest, ties to even, at 53 bits; overflow at 2^1024. *)
Definition jround (z : Z) : jsint :=
  let a := Z.abs z in
  if a <=? 2 ^ 53 then JInt z
  else
    let e := Z.log2 a - 52 in
    let m := a / 2 ^ e in
    let r := a mod 2 ^ e in
    let half := 2 ^ (e - 1) in
    let m' := if (half <? r) || ((r =? half) && Z.odd m) then m + 1 else m in
    let v := m' * 2 ^ e in
    if 2 ^ 1024 <=? v then JInf (z <? 0) else JInt (Z.sgn z * v).

Definition jopp (a : jsint) : jsint :=
  match a with JNaN => JNaN | JInf n => JInf (negb n) | JInt z => JInt (- z) end.

Definition jadd (a b : jsint) : jsint :=
  match a, b with
  | JNaN, _ | _, JNaN => JNaN
  | JInf n, JInf n' => if Bool.eqb n n' then JInf n else JNaN
  | JInf n, _ | _, JInf n => JInf n
  | JInt x, JInt y => jround (x + y)
  end.

Definition jsub (a b : jsint) : jsint := jadd a (jopp b).

#[global] Arguments jadd : simpl never.
#[global] Arguments jsub : simpl never.

(** [a < b]; false as soon as one side is [NaN]. *)
Definition jlt (a b : jsint) : bool :=
  match a, b with
  | JNaN, _ | _, JNaN => false
  | JInf n, JInf n' => n && negb n'
  | JInf n, JInt _ => n
  | JInt _, JInf n => negb n
  | JInt x, JInt y => x <? y
  end.

Definition jgt (a b : jsint) : bool := jlt b a.

(** The number as a condition. *)
Definition jtruthy (a : jsint) : bool :=
  match a with JNaN => false | JInf _ => true | JInt z => negb (z =? 0) end.

(** [a || b] *)
Definition jor (a b : jsint) : jsint := if jtruthy a then a else b.

Definition jshow (a : jsint) : string :=
  match a with
  | JNaN => "NaN"
  | JInf n => if n then "-Infinity" else "Infinity"
  | JInt z => show z
  end.

Lemma jround_small z : Z.abs z ≤ 2 ^ 53 → jround z = JInt z.
Proof. intros H. unfold jround. by rewrite (proj2 (Z.leb_le _ _)). Qed.

Lemma jround_nonneg z : 0 ≤ z → jround z = JInf false ∨ ∃ v, jround z = JInt v ∧ 0 ≤ v.
Proof.
  intros Hz. unfold jround. case_if; [eauto|].
  case_if; [left; f_equal; apply Z.ltb_ge; lia|]. right. eexists; split; [done|].
  apply Z.mul_nonneg_nonneg; [lia|]. apply Z.mul_nonneg_nonneg; [|apply Z.pow_nonneg; lia].
  assert (0 ≤ Z.abs z / 2 ^ (Z.log2 (Z.abs z) - 52)) by (apply Z.div_pos; [lia|];
    apply Z.pow_pos_nonneg; [lia|]; zbool; pose proof (Z.log2_le_mono (2 ^ 53) (Z.abs z));
    change (Z.log2 (2 ^ 53)) with 53 in *; lia).
  case_if; lia.
Qed.

(** ** [parseInt] *)

Definition is_space (c : ascii) : bool :=
  let n := nat_of_ascii c in
  ((9 <=? n) && (n <=? 13) || (n =? 32) || (n =? 160))%nat.

Fixpoint trim_start (s : string) : string :=
  match s with
  | String c s' => if is_space c then trim_start s' else s
  | EmptyString => EmptyString
  end.

Definition digit_val (c : ascii) : option Z :=
  if is_digit c then Some (Z.of_nat (nat_of_ascii c) - 48) else None.

Definition hex_val (c : ascii) : option Z :=
  let n := Z.of_nat (nat_of_ascii c) in
  if is_digit c then Some (n - 48)
  else if (97 <=? n) && (n <=? 102) then Some (n - 87)
  else if (65 <=? n) && (n <=? 70) then Some (n - 55)
  else None.

(** The longest prefix of digits: its value, its length, the rest. *)
Fixpoint scan_digits (val : ascii → option Z) (radix : Z) (s : string) (acc : Z) (n : nat)
    : Z * nat * string :=
  match s with
  | String c s' =>
      match val c with
      | Some d => scan_digits val radix s' (acc * radix + d) (S n)
      | None => (acc, n, s)
      end
  | EmptyString => (acc, n, EmptyString)
  end.

Definition take_sign (s : string) : bool * string :=
  match s with
  | String c s' =>
      if Ascii.eqb c "-"%char then (true, s')
      else if Ascii.eqb c "+"%char then (false, s')
      else (false, s)
  | EmptyString => (false, s)
  end.

(** [0x] or [0X] in front. *)
Definition take_hex (s : string) : option string :=
  match s with
  | String a (String b s') =>
      if Ascii.eqb a "0"%char && (Ascii.eqb b "x"%char || Ascii.eqb b "X"%char)
      then Some s' else None
  | _ => None
  end.

Definition parseInt (s : string) : jsint :=
  let '(neg, s1) := take_sign (trim_start s) in
  let '(v, n, _) :=
    match take_hex s1 with
    | Some s2 => scan_digits hex_val 16 s2 0 0
    | None => scan_digits digit_val 10 s1 0 0
    end in
  if (n =? 0)%nat then JNaN else jround (if neg then - v else v).

(** ** Doubles *)

Definition num := spec_float.
Definition prec : Z := 53.
Definition emax : Z := 1024.

#[export] Instance num_eq_dec : EqDecision num.
Proof. unfold num. solve_decision. Defined.

Definition num_of_Z (z : Z) : num := binary_normalize prec emax z 0 false.

Definition is_nan (a : num) : bool := match a with S754_nan => true | _ => false end.

Definition num_of_jsint (i : jsint) : num :=
  match i with JNaN => S754_nan | JInf n => S754_infinity n | JInt z => num_of_Z z end.

(** The double nearest to (-1)^neg * m * 10^e.  A decimal exponent above 400
    overflows for any positive mantissa, a magnitude below 10^(-1400) is zero. *)
Definition dec_to_num (neg : bool) (m e : Z) : num :=
  if m =? 0 then S754_zero neg
  else if 400 <? e then S754_infinity neg
  else if e + Z.log2 m + 1 <? -1400 then S754_zero neg
  else if 0 <=? e then binary_normalize prec emax ((if neg then -1 else 1) * m * 10 ^ e) 0 neg
  else
    let '(mz, ez, lz) := SFdiv_core_binary prec emax m 0 (10 ^ (- e)) 0 in
    binary_round_aux prec emax neg mz ez lz.

(** Digits, optional fraction, optional exponent: mantissa, exponent, rest. *)
Definition scan_exponent (s : string) : Z * string :=
  match s with
  | String c s' =>
      if Ascii.eqb c "e"%char || Ascii.eqb c "E"%char then
        let '(neg, s1) := take_sign s' in
        let '(v, n, rest) := scan_digits digit_val 10 s1 0 0 in
        if (n =? 0)%nat then (0, s) else (if neg then - v else v, rest)
      else (0, s)
  | EmptyString => (0, s)
  end.

Definition scan_decimal (s : string) : option (Z * Z * string) :=
  let '(ip, ni, s1) := scan_digits digit_val 10 s 0 0 in
  let '(m, nf, s2) :=
    match s1 with
    | String c s1' =>
        if Ascii.eqb c "."%char then scan_digits digit_val 10 s1' ip 0
        else (ip, O, s1)
    | EmptyString => (ip, O, s1)
    end in
  if (ni + nf =? 0)%nat then None
  else let '(e, rest) := scan_exponent s2 in Some (m, e - Z.of_nat nf, rest).

Fixpoint take_prefix (p s : string) : option string :=
  match p, s with
  | EmptyString, _ => Some s
  | String a p', String b s' => if Ascii.eqb a b then take_prefix p' s' else None
  | _, _ => None
  end.

(** A signed decimal literal or [Infinity] in front of a string. *)
Definition scan_number (s : string) : option (num * string) :=
  let '(neg, s1) := take_sign s in
  match take_prefix "Infinity" s1 with
  | Some rest => Some (S754_infinity neg, rest)
  | None =>
      match scan_decimal s1 with
      | Some (m, e, rest) => Some (dec_to_num neg m e, rest)
      | None => None
      end
  end.

Definition parseFloat (s : string) : num :=
  match scan_number (trim_start s) with Some (v, _) => v | None => S754_nan end.

(** The conversion of a whole string to a number: a decimal literal, or an
    unsigned literal with the prefix of a radix, between white space. *)
Definition small_digit (radix : Z) (c : ascii) : option Z :=
  d ← digit_val c; if d <? radix then Some d else None.

Definition take_radix (s : string) : option ((ascii → option Z) * Z * string) :=
  match s with
  | String a (String b s') =>
      if negb (Ascii.eqb a "0"%char) then None
      else if Ascii.eqb b "x"%char || Ascii.eqb b "X"%char then Some (hex_val, 16, s')
      else if Ascii.eqb b "o"%char || Ascii.eqb b "O"%char then Some (small_digit 8, 8, s')
      else if Ascii.eqb b "b"%char || Ascii.eqb b "B"%char then Some (small_digit 2, 2, s')
      else None
  | _ => None
  end.

Definition string_to_number (s : string) : num :=
  let s1 := trim_start s in
  match s1 with
  | EmptyString => S754_zero false
  | _ =>
      match take_radix s1 with
      | Some (val, radix, s2) =>
          let '(v, n, rest) := scan_digits val radix s2 0 0 in
          if negb (n =? 0)%nat && (trim_start rest =? "")%string
          then num_of_Z v else S754_nan
      | None =>
          match scan_number s1 with
          | Some (v, rest) => if (trim_start rest =? "")%string then v else S754_nan
          | None => S754_nan
          end
      end
  end.

(** ** [String(x)] of a double

    An integer of at most 53 bits is written in full, any other number by the
    shortest digits that read back as it. *)

(** The integer a double is, if it is one. *)
Definition num_int (a : num) : option Z :=
  match a with
  | S754_zero _ => Some 0
  | S754_finite s m e =>
      let sign z := if (s : bool) then - z else z in
      if 0 <=? e then Some (sign (Zpos m * 2 ^ e))
      else if Zpos m mod 2 ^ (- e) =? 0 then Some (sign (Zpos m / 2 ^ (- e)))
      else None
  | _ => None
  end.

(** [m * 2^e < 10^n] *)
Definition below_pow10 (m e n : Z) : bool :=
  m * 2 ^ Z.max e 0 * 10 ^ Z.max (- n) 0 <? 10 ^ Z.max n 0 * 2 ^ Z.max (- e) 0.

(** The number of digits in front of the decimal point of [m * 2^e]. *)
Fixpoint find_exp10 (fuel : nat) (m e n : Z) : Z :=
  match fuel with
  | O => n
  | S fuel' => if below_pow10 m e n then n else find_exp10 fuel' m e (n + 1)
  end.

(** [m * 2^e * 10^p] rounded to the nearest integer. *)
Definition scaled (m e p : Z) : Z :=
  let a := m * 2 ^ Z.max e 0 * 10 ^ Z.max p 0 in
  let b := 2 ^ Z.max (- e) 0 * 10 ^ Z.max (- p) 0 in
  (2 * a + b) / (2 * b).

(** The least number of digits, from [k] on, that read back as [m * 2^e]: the
    nearest ones, or the next above, since the numbers above a power of two are
    twice as far apart as those below it. *)
Fixpoint shortest (fuel : nat) (m e n k : Z) : Z * Z :=
  let s := scaled m e (k - n) in
  let reads_back d := bool_decide (dec_to_num false d (n - k) = S754_finite false (Z.to_pos m) e) in
  match fuel with
  | O => (s, k)
  | S fuel' =>
      if reads_back s then (s, k)
      else if (m =? 2 ^ 52) && reads_back (s + 1) then (s + 1, k)
      else shortest fuel' m e n (k + 1)
  end.

Fixpoint zeros (n : nat) : string :=
  match n with O => "" | S n' => String "0" (zeros n') end.

Definition show_shortest (a : num) : string :=
  match a with
  | S754_nan => "NaN"
  | S754_zero _ => "0"
  | S754_infinity s => if s then "-Infinity" else "Infinity"
  | S754_finite s m e =>
      let n0 := find_exp10 5 (Zpos m) e ((Z.log2 (Zpos m) + e) * 30103 / 100000 - 1) in
      let '(d0, k0) := shortest 17 (Zpos m) e n0 1 in
      (* rounding up may carry to a power of ten, as for 1e23 *)
      let '(d, k, n) := if d0 =? 10 ^ k0 then (1, 1, n0 + 1) else (d0, k0, n0) in
      let ds := show d in
      let body :=
        if (k <=? n) && (n <=? 21) then ds +++ zeros (Z.to_nat (n - k))
        else if (0 <? n) && (n <=? 21) then
          stake (Z.to_nat n) ds +++ "." +++ sdrop (Z.to_nat n) ds
        else if (-6 <? n) && (n <=? 0) then "0." +++ zeros (Z.to_nat (- n)) +++ ds
        else
          let ex := (if n - 1 <? 0 then "-" else "+") +++ show (Z.abs (n - 1)) in
          stake 1 ds +++ (if k =? 1 then "" else "." +++ sdrop 1 ds) +++ "e" +++ ex in
      (if s then "-" else "") +++ body
  end.

Definition num_show (a : num) : string :=
  match num_int a with
  | Some z => if Z.abs z <? 2 ^ 53 then show z else show_shortest a
  | None => show_shortest a
  end.

(** ** The order of doubles

    [SFcompare] is the lexicographic comparison of a triple of integers, hence
    a total preorder away from NaN. *)

Definition rank (a : num) : Z * Z * Z :=
  match a with
  | S754_nan => (0, 0, 0)
  | S754_infinity s => (if s then -2 else 2, 0, 0)
  | S754_zero _ => (0, 0, 0)
  | S754_finite s m e => if s then (-1, - e, - Zpos m) else (1, e, Zpos m)
  end.

Definition lex (a b : Z * Z * Z) : comparison :=
  let '(a1, a2, a3) := a in let '(b1, b2, b3) := b in
  match a1 ?= b1 with
  | Eq => match a2 ?= b2 with Eq => a3 ?= b3 | c => c end
  | c => c
  end.

Lemma compare_cont_pos p p' : Pos.compare_cont Eq p p' = (Zpos p ?= Zpos p').
Proof. done. Qed.

Lemma SFcompare_rank a b :
  is_nan a = false → is_nan b = false → SFcompare a b = Some (lex (rank a) (rank b)).
Proof.
  intros Ha Hb.
  destruct a as [?|[]| |sa m e]; [..|]; destruct b as [?|[]| |sb m' e']; try discriminate;
    try reflexivity; try (destruct sa; reflexivity); try (destruct sb; reflexivity).
  unfold SFcompare, rank. rewrite compare_cont_pos.
  destruct sa, sb; unfold lex; rewrite ?Z.compare_refl; try reflexivity; f_equal.
  rewrite !Z.compare_opp, (Z.compare_antisym e e').
  destruct (e ?= e'); try reflexivity. cbv beta iota. simpl CompOpp at 2.
  symmetry. apply Z.compare_antisym.
Qed.

Definition num_lt (a b : num) : bool := SFltb a b.
Definition num_eq (a b : num) : bool := SFeqb a b.
Definition num_le (a b : num) : bool := SFleb a b.

Ltac lex_solve :=
  unfold lex; intros;
  repeat match goal with
  | x : Z * Z * Z |- _ => destruct x as [[??]?]
  end;
  repeat match goal with
  | H : context [?a ?= ?b] |- _ => destruct (Z.compare_spec a b)
  | |- context [?a ?= ?b] => destruct (Z.compare_spec a b)
  end; subst; try done; try lia.

Lemma lex_antisym a b : lex b a = CompOpp (lex a b).
Proof. lex_solve. Qed.

Lemma lex_le_trans a b c : lex a b ≠ Gt → lex b c ≠ Gt → lex a c ≠ Gt.
Proof. lex_solve. Qed.

Lemma lex_refl a : lex a a = Eq.
Proof. destruct a as [[x y] z]. simpl. by rewrite !Z.compare_refl. Qed.

Example parseFloat_ex1 : num_eq (parseFloat " 2.5e1kb") (num_of_Z 25) = true.
Proof. reflexivity. Qed.
Example parseFloat_ex2 : is_nan (parseFloat "abc") = true.
Proof. reflexivity. Qed.
Example parseFloat_ex3 : parseFloat "0.1" = S754_finite false 7205759403792794 (-56).
Proof. reflexivity. Qed.
Example parseInt_ex1 : parseInt " -12px" = JInt (-12).
Proof. reflexivity. Qed.
Example parseInt_ex2 : parseInt "0x1F" = JInt 31.
Proof. reflexivity. Qed.
Example parseInt_ex3 : parseInt "" = JNaN.
Proof. reflexivity. Qed.
Example jround_ex : jround (2 ^ 53 + 1) = JInt (2 ^ 53).
Proof. reflexivity. Qed.
Example string_to_number_ex : string_to_number " 12 " = num_of_Z 12.
Proof. reflexivity. Qed.
Example num_show_ex1 : num_show (parseFloat "0.1") = "0.1".
Proof. reflexivity. Qed.
Example num_show_ex2 : num_show (parseFloat "123456789") = "123456789".
Proof. reflexivity. Qed.
Example num_show_ex3 : num_show (parseFloat "-1.5e-7") = "-1.5e-7".
Proof. reflexivity. Qed.
Example num_show_ex4 : num_show (parseFloat "1e21") = "1e+21".
Proof. reflexivity. Qed.
Example num_show_ex5 : num_show (SFdiv prec emax (num_of_Z 1) (num_of_Z 3)) = "0.3333333333333333".
Proof. reflexivity. Qed.
Example show_shortest_int :
  show_shortest (num_of_Z 1200) = "1200" ∧ show_shortest (num_of_Z (-7)) = "-7".
Proof. split; reflexivity. Qed.
Example num_show_ex6 : num_show (num_of_Z 1) = "1" ∧ num_show (num_of_Z 100) = "100".
Proof. split; reflexivity. Qed.
Example num_show_ex7 : num_show (parseFloat "1e23") = "1e+23".
Proof. reflexivity. Qed.
