(* ===== verification/JsDecimal.v ===== *)
(** * Integers, their text and their doubles

    The decimal text of an integer reads back as it, with [parseInt] also when
    a unit follows; an integer of fewer than 53 bits is a double, and different
    integers are different doubles. *)

From Stdlib Require Import SpecFloat.
From stdpp Require Import pretty.
From S2P Require Import Prelude JsString JsNumber.

(** ** Reading digits *)

Lemma digit_val_pretty n : (n < 10)%N → digit_val (pretty_N_char n) = Some (Z.of_N n).
Proof.
  intros Hn. destruct n as [|p]; [done|]. do 4 (destruct p as [p|p|]; try done; try lia).
Qed.

(** Reading the digits of [x] appends them to what has been read. *)
Lemma scan_pretty x : ∀ s, ∃ k, (x ≠ 0%N → k ≠ 0%nat) ∧ ∀ acc n t,
  scan_digits digit_val 10 (pretty_N_go x s +++ t) acc n =
  scan_digits digit_val 10 (s +++ t) (acc * 10 ^ Z.of_nat k + Z.of_N x) (n + k).
Proof.
  induction (N.lt_wf_0 x) as [x _ IH]; intros s.
  destruct (decide (x = 0)%N) as [->|Hx].
  { exists 0%nat. split; [done|]. intros acc n t. rewrite pretty_N_go_0.
    f_equal; simpl; lia. }
  assert (x `mod` 10 < 10)%N as Hm by (apply N.mod_lt; lia).
  destruct (IH (x `div` 10)%N ltac:(apply N.div_lt; lia) (String (pretty_N_char (x `mod` 10)) s))
    as (k & _ & Hk).
  exists (S k). split; [done|]. intros acc n t.
  rewrite pretty_N_go_step, Hk by lia. rewrite sapp_cons. cbn [scan_digits].
  rewrite digit_val_pretty by done. f_equal; [|lia].
  rewrite Nat2Z.inj_succ, Z.pow_succ_r by lia.
  pose proof (N.div_mod x 10 ltac:(lia)). nia.
Qed.

(** A text that does not go on with a digit. *)
Definition no_digit (t : string) : Prop :=
  match t with EmptyString => True | String c _ => is_digit c = false end.

Lemma scan_stop val radix t acc n :
  match t with EmptyString => True | String c _ => val c = None end →
  scan_digits val radix t acc n = (acc, n, t).
Proof. destruct t as [|c t]; [done|]. simpl. by intros ->. Qed.

Lemma scan_show z t :
  0 ≤ z → no_digit t → ∃ k, k ≠ 0%nat ∧ scan_digits digit_val 10 (show z +++ t) 0 0 = (z, k, t).
Proof.
  intros Hz Ht.
  assert (match t with EmptyString => True | String c _ => digit_val c = None end) as Ht'.
  { destruct t; [done|]. simpl in Ht. unfold digit_val. by rewrite Ht. }
  destruct z as [|p|p]; [|..|lia].
  - exists 1%nat. split; [done|]. change (show 0 +++ t) with (String "0" t). cbn [scan_digits].
    by apply scan_stop.
  - destruct (scan_pretty (Npos p) "") as (k & Hk & Hs). exists k. split; [auto|].
    change (show (Zpos p)) with (pretty_N_go (Npos p) ""). rewrite Hs.
    change ("" +++ t) with t. rewrite scan_stop by done. done.
Qed.

(** The text of a natural number starts with a digit. *)
Lemma show_head z : 0 ≤ z → ∃ c s, show z = String c s ∧ is_digit c = true.
Proof.
  intros Hz. pose proof (show_digits z Hz) as Hd.
  destruct (scan_show z "" Hz I) as (k & Hk & Hs).
  destruct (show z) as [|c s]; [simpl in Hs; congruence|].
  exists c, s. split; [done|]. simpl in Hd. by apply andb_true_iff in Hd as [? _].
Qed.

Lemma is_digit_plain c :
  is_digit c = true →
  is_space c = false ∧ Ascii.eqb c "-"%char = false ∧ Ascii.eqb c "+"%char = false ∧
  Ascii.eqb "I"%char c = false.
Proof. destruct c as [[] [] [] [] [] [] [] []]; vm_compute; try done. Qed.

Lemma trim_show z t : trim_start (show z +++ t) = show z +++ t.
Proof.
  destruct (Z.le_gt_cases 0 z) as [Hz|Hz].
  - destruct (show_head z Hz) as (c & s & -> & Hc).
    apply is_digit_plain in Hc as [Hc _]. rewrite sapp_cons. simpl. by rewrite Hc.
  - destruct z as [|p|p]; try lia. done.
Qed.

(** A text that turns the number in front of it into nothing else. *)
Definition plain_tail (t : string) : Prop :=
  match t with
  | EmptyString => True
  | String c _ => is_digit c = false ∧ Ascii.eqb c "x"%char = false ∧ Ascii.eqb c "X"%char = false
  end.

Lemma take_hex_show z t : 0 ≤ z → plain_tail t → take_hex (show z +++ t) = None.
Proof.
  intros Hz Ht. destruct (show_head z Hz) as (c & s & E & Hc). rewrite E.
  pose proof (show_digits z Hz) as Hd. rewrite E in Hd. simpl in Hd.
  apply andb_true_iff in Hd as [_ Hd]. rewrite sapp_cons. unfold take_hex.
  destruct s as [|d s].
  - change ("" +++ t) with t. destruct t as [|e t]; [done|]. destruct Ht as (_ & -> & ->).
    by rewrite andb_false_r.
  - rewrite sapp_cons. simpl in Hd. apply andb_true_iff in Hd as [Hd _].
    assert (Ascii.eqb d "x"%char = false ∧ Ascii.eqb d "X"%char = false) as [-> ->].
    { revert Hd. clear. destruct d as [[] [] [] [] [] [] [] []]; vm_compute; try done. }
    by rewrite andb_false_r.
Qed.

(** [parseInt] reads an integer back, whatever unit follows. *)
Lemma parseInt_show z t :
  Z.abs z ≤ 2 ^ 53 → plain_tail t → parseInt (show z +++ t) = JInt z.
Proof.
  intros Hz Ht. unfold parseInt. rewrite trim_show.
  assert (no_digit t) as Hnd by (destruct t; [done|]; apply Ht).
  destruct (Z.le_gt_cases 0 z) as [Hp|Hp].
  - assert (take_sign (show z +++ t) = (false, show z +++ t)) as ->.
    { destruct (show_head z Hp) as (c & s & -> & Hc). apply is_digit_plain in Hc as (_ & H1 & H2 & _).
      rewrite sapp_cons. simpl. by rewrite H1, H2. }
    rewrite take_hex_show by done. destruct (scan_show z t Hp Hnd) as (k & Hk & ->).
    rewrite (proj2 (Nat.eqb_neq _ _)) by done. by apply jround_small.
  - destruct z as [|p|p]; try lia.
    change (show (Zneg p) +++ t) with (String "-" (show (Zpos p) +++ t)).
    cbn [take_sign]. cbn [Ascii.eqb Bool.eqb]. rewrite take_hex_show by done.
    destruct (scan_show (Zpos p) t ltac:(lia) Hnd) as (k & Hk & ->).
    rewrite (proj2 (Nat.eqb_neq _ _)) by done. by apply (jround_small (Zneg p)).
Qed.

Lemma parseInt_show_nil z : Z.abs z ≤ 2 ^ 53 → parseInt (show z) = JInt z.
Proof. intros Hz. rewrite <-(sapp_nil_r (show z)). by apply parseInt_show. Qed.

(** The whole text as a number. *)
Lemma string_to_number_show z : 0 ≤ z → string_to_number (show z) = num_of_Z z.
Proof.
  intros Hz. unfold string_to_number.
  pose proof (trim_show z "") as Htrim. rewrite sapp_nil_r in Htrim. rewrite Htrim.
  pose proof (show_head z Hz) as (c & s & E & Hc).
  assert (take_radix (show z) = None) as ->.
  { destruct z as [|p|p]; [done|..|lia]. pose proof (take_hex_show (Zpos p) "" ltac:(lia) I) as Hh.
    rewrite sapp_nil_r in Hh. pose proof (show_digits (Zpos p) ltac:(lia)) as Hd. rewrite E in *.
    unfold take_radix. destruct s as [|d s]; [done|].
    destruct (Ascii.eqb c "0"%char); [|done]. simpl in Hd. zbool. simpl negb. cbv iota.
    revert H0. clear. destruct d as [[] [] [] [] [] [] [] []]; vm_compute; try done. }
  assert (scan_number (show z) = Some (num_of_Z z, "")) as Hs.
  { unfold scan_number. pose proof (is_digit_plain c Hc) as (_ & H1 & H2 & H3).
    assert (take_sign (show z) = (false, show z)) as -> by (rewrite E; simpl; by rewrite H1, H2).
    assert (take_prefix "Infinity" (show z) = None) as ->
      by (rewrite E; cbn [take_prefix]; by rewrite H3).
    unfold scan_decimal. destruct (scan_show z "" Hz I) as (k & Hk & Hsc).
    rewrite sapp_nil_r in Hsc. rewrite Hsc. rewrite (proj2 (Nat.eqb_neq _ _)) by lia.
    cbn [scan_exponent]. do 2 f_equal. unfold dec_to_num, num_of_Z.
    destruct (Z.eqb_spec z 0) as [->|Hne]; [done|].
    pose proof (Z.log2_nonneg z).
    rewrite (proj2 (Z.ltb_ge 400 _)), (proj2 (Z.ltb_ge _ (-1400))) by (simpl; lia).
    change (0 - Z.of_nat 0) with 0. simpl Z.leb. cbv iota. f_equal. lia. }
  rewrite Hs. rewrite E. done.
Qed.

(** ** Integers as doubles *)

Lemma digits2_spec p : 2 ^ (Zpos (digits2_pos p) - 1) ≤ Zpos p < 2 ^ Zpos (digits2_pos p).
Proof.
  assert (∀ q, 2 ^ (Zpos (Pos.succ q) - 1) = 2 * 2 ^ (Zpos q - 1) ∧
               2 ^ Zpos (Pos.succ q) = 2 * 2 ^ Zpos q) as Hs.
  { intros q. rewrite Pos2Z.inj_succ. split.
    - replace (Z.succ (Zpos q) - 1) with (Z.succ (Zpos q - 1)) by lia. apply Z.pow_succ_r. lia.
    - apply Z.pow_succ_r. lia. }
  induction p as [p IH|p IH|]; cbn [digits2_pos]; [..|simpl; lia];
    destruct (Hs (digits2_pos p)) as [-> ->]; lia.
Qed.

Lemma digits2_iter m d : Zpos (digits2_pos (Pos.iter xO m d)) = Zpos (digits2_pos m) + Zpos d.
Proof.
  induction d as [|d IH] using Pos.peano_ind; [simpl; lia|].
  rewrite Pos.iter_succ. cbn [digits2_pos]. lia.
Qed.

Lemma iter_xO m d : Zpos (Pos.iter xO m d) = Zpos m * 2 ^ Zpos d.
Proof.
  induction d as [|d IH] using Pos.peano_ind; [simpl; lia|].
  rewrite Pos.iter_succ, Pos2Z.inj_xO, IH, Pos2Z.inj_succ, Z.pow_succ_r by lia. lia.
Qed.

(** A mantissa of 53 bits needs no rounding. *)
Lemma round_exact s m e :
  Zpos (digits2_pos m) = 53 → -1000 ≤ e ≤ 0 →
  binary_round_aux prec emax s (Zpos m) e loc_Exact = S754_finite s m e.
Proof.
  intros Hd He.
  assert (shr_fexp prec emax (Zpos m) e loc_Exact = (Build_shr_record (Zpos m) false false, e)) as Hs.
  { unfold shr_fexp, fexp, SpecFloat.emin. cbn [Zdigits2 shr_record_of_loc]. rewrite Hd.
    replace (Z.max (53 + e - prec) (3 - emax - prec) - e) with 0 by (unfold prec, emax; lia).
    done. }
  unfold binary_round_aux. rewrite Hs. cbn [shr_m loc_of_shr_record round_nearest_even].
  rewrite Hs. cbn [shr_m]. by rewrite (proj2 (Z.leb_le _ _)) by (unfold prec, emax; lia).
Qed.

Lemma binary_round_small s m :
  Zpos m < 2 ^ 53 →
  ∃ m', binary_round prec emax s m 0 = S754_finite s m' (Zpos (digits2_pos m) - 53) ∧
    Zpos m' = Zpos m * 2 ^ (53 - Zpos (digits2_pos m)) ∧ Zpos (digits2_pos m) ≤ 53.
Proof.
  intros Hm. pose proof (digits2_spec m) as [Hlo _].
  assert (Zpos (digits2_pos m) ≤ 53) as Hd.
  { destruct (Z.le_gt_cases (Zpos (digits2_pos m)) 53) as [?|Hgt]; [done|].
    assert (2 ^ 53 ≤ 2 ^ (Zpos (digits2_pos m) - 1)) by (apply Z.pow_le_mono_r; lia). lia. }
  unfold binary_round, shl_align, fexp, SpecFloat.emin.
  set (d := Zpos (digits2_pos m)) in *.
  replace (Z.max (d + 0 - prec) (3 - emax - prec) - 0) with (d - 53) by (unfold prec, emax; lia).
  replace (Z.max (d + 0 - prec) (3 - emax - prec)) with (d - 53) by (unfold prec, emax; lia).
  destruct (d - 53) as [|p|p] eqn:E; [|lia|].
  - exists m. rewrite round_exact by (unfold d in *; lia). replace (53 - d) with 0 by lia.
    split_and!; [done|lia|done].
  - exists (Pos.iter xO m p). rewrite round_exact; [|rewrite digits2_iter; unfold d in *; lia|lia].
    split_and!; [done| |done]. rewrite iter_xO. f_equal. f_equal. lia.
Qed.

(** An integer below 2^53 is the double made of it. *)
Lemma num_int_of_Z z : Z.abs z < 2 ^ 53 → num_int (num_of_Z z) = Some z.
Proof.
  assert (∀ s m, Zpos m < 2 ^ 53 →
    num_int (binary_round prec emax s m 0) = Some (if s then Zneg m else Zpos m)) as Hr.
  { intros s m Hm. destruct (binary_round_small s m Hm) as (m' & -> & Em & Hd).
    unfold num_int. set (d := Zpos (digits2_pos m)) in *. destruct (Z.leb_spec 0 (d - 53)) as [H0|H0].
    - replace (d - 53) with 0 by lia. replace (53 - d) with 0 in Em by lia.
      rewrite Em. rewrite !Z.mul_1_r. by destruct s.
    - replace (- (d - 53)) with (53 - d) by lia. rewrite Em.
      assert (0 < 2 ^ (53 - d)) by (apply Z.pow_pos_nonneg; lia).
      rewrite Z.mod_mul, Z.div_mul by lia. simpl. by destruct s. }
  intros Hz. destruct z as [|p|p]; [done|..]; apply Hr; lia.
Qed.

(** Its text is that of the integer. *)
Lemma num_show_of_Z z : Z.abs z < 2 ^ 53 → num_show (num_of_Z z) = show z.
Proof.
  intros Hz. unfold num_show. rewrite num_int_of_Z by done. by rewrite (proj2 (Z.ltb_lt _ _)).
Qed.

Lemma lex_eq a b : lex a b = Eq → a = b.
Proof. revert a b. intros [[a1 a2] a3] [[b1 b2] b3]. lex_solve. Qed.

Lemma num_eq_of_Z a b :
  Z.abs a < 2 ^ 53 → Z.abs b < 2 ^ 53 → num_eq (num_of_Z a) (num_of_Z b) = (a =? b).
Proof.
  intros Ha Hb.
  assert (is_nan (num_of_Z a) = false ∧ is_nan (num_of_Z b) = false) as [Na Nb].
  { split; [assert (num_int (num_of_Z a) = Some a) as E by (by apply num_int_of_Z)|
            assert (num_int (num_of_Z b) = Some b) as E by (by apply num_int_of_Z)];
    [destruct (num_of_Z a)|destruct (num_of_Z b)]; done. }
  unfold num_eq, SFeqb. rewrite SFcompare_rank by done.
  destruct (Z.eqb_spec a b) as [->|Hne]; [by rewrite lex_refl|].
  destruct (lex _ _) eqn:E; try done.
  assert (num_int (num_of_Z a) = num_int (num_of_Z b)) as Heq.
  { apply lex_eq in E. destruct (num_of_Z a) as [?|[]| |[] m e], (num_of_Z b) as [?|[]| |[] m' e']; simpl in E;
      simplify_eq/=; try done; assert (e = e') as -> by lia; done. }
  rewrite !num_int_of_Z in Heq by done. congruence.
Qed.
