(* ===== verification/JsValue.v ===== *)
(** * Values, objects and arrays of the program

    [value] is what a table cell can hold; [VObj s] is an array or an object of
    a server response, of which the program only ever takes [String(v)], which
    is [s].  [==], [<] and the conversions are those of ECMA-262.  Objects that the program enumerates with
    [for ... in] are association lists in enumeration order ([for_in_keys]):
    integer keys ascending, then the others in insertion order.
    [Array.prototype.sort] is a stable sort ([array_sort]); that any other
    stable sort gives the same array is [stable_sort_unique]. *)

From Stdlib Require Import SpecFloat.
From S2P Require Import Prelude JsString JsNumber.

Inductive value :=
| VUndef
| VNull
| VBool (b : bool)
| VNum (n : num)
| VStr (s : string)
| VObj (s : string).

#[export] Instance value_eq_dec : EqDecision value.
Proof. solve_decision. Defined.

(** The value as a condition. *)
Definition truthy (v : value) : bool :=
  match v with
  | VUndef | VNull => false
  | VBool b => b
  | VNum n => match n with S754_nan | S754_zero _ => false | _ => true end
  | VStr s => negb (s =? "")%string
  | VObj _ => true
  end.

(** [v || w] *)
Definition vor (v w : value) : value := if truthy v then v else w.

Definition to_str (v : value) : string :=
  match v with
  | VUndef => "undefined"
  | VNull => "null"
  | VBool b => if b then "true" else "false"
  | VNum n => num_show n
  | VStr s | VObj s => s
  end.

(** [element.innerHTML = v]: the attribute turns [null] into the empty string. *)
Definition inner_html (v : value) : string :=
  match v with VNull => "" | _ => to_str v end.

Definition to_number (v : value) : num :=
  match v with
  | VUndef => S754_nan
  | VNull => S754_zero false
  | VBool b => num_of_Z (if b then 1 else 0)
  | VNum n => n
  | VStr s | VObj s => string_to_number s
  end.

(** [parseFloat(v)] reads [String(v)]; the text of a number reads back as it. *)
Definition parse_float (v : value) : num :=
  match v with VNum n => n | _ => parseFloat (to_str v) end.

(** [v == w]; two different objects are never equal. *)
Definition loose_eq (v w : value) : bool :=
  match v, w with
  | VUndef, VUndef | VUndef, VNull | VNull, VUndef | VNull, VNull => true
  | VUndef, _ | VNull, _ | _, VUndef | _, VNull => false
  | VObj _, VObj _ => false
  | VStr s, VStr t | VStr s, VObj t | VObj s, VStr t => (s =? t)%string
  | VBool b, VBool c => Bool.eqb b c
  | _, _ => num_eq (to_number v) (to_number w)
  end.

(** [v < w] *)
Definition less (v w : value) : bool :=
  match v, w with
  | (VStr s | VObj s), (VStr t | VObj t) => String.ltb s t
  | _, _ => num_lt (to_number v) (to_number w)
  end.

(** [v + w]: text when one of them is text or an object, otherwise a number. *)
Definition js_add (v w : value) : value :=
  match v, w with
  | (VStr _ | VObj _), _ | _, (VStr _ | VObj _) => VStr (to_str v +++ to_str w)
  | _, _ => VNum (SFadd prec emax (to_number v) (to_number w))
  end.

(** [v.replace(/<(.|\n)*?>/g, '')]: only strings have the method. *)
Definition strip (v : value) : res string :=
  match v with VStr s => Ok (strip_tags s) | _ => Throw TypeError end.

(** [typeof(v.replace) == 'function']; reading the property of [undefined] or
    [null] throws. *)
Definition has_replace (v : value) : res bool :=
  match v with
  | VUndef | VNull => Throw TypeError
  | VStr _ => Ok true
  | _ => Ok false
  end.

(** ** Objects used as ordered maps *)

Section objects.
Context {V : Type}.
Implicit Types (o : list (string * V)).

Fixpoint get (k : string) o : option V :=
  match o with
  | [] => None
  | (k', v) :: o' => if (k =? k')%string then Some v else get k o'
  end.

Definition has_own (k : string) o : bool :=
  match get k o with Some _ => true | None => false end.

(** [o[k] = v]: an existing property keeps its place. *)
Fixpoint set (k : string) (v : V) o : list (string * V) :=
  match o with
  | [] => [(k, v)]
  | (k', v') :: o' => if (k =? k')%string then (k, v) :: o' else (k', v') :: set k v o'
  end.

(** [delete o[k]] *)
Fixpoint unset (k : string) o : list (string * V) :=
  match o with
  | [] => []
  | (k', v') :: o' => if (k =? k')%string then o' else (k', v') :: unset k o'
  end.

(** [Object.keys] in insertion order. *)
Definition keys o : list string := o.*1.

Lemma get_set_eq k v o : get k (set k v o) = Some v.
Proof.
  induction o as [|[k' v'] o IH]; simpl; [by rewrite String.eqb_refl|].
  destruct (k =? k')%string eqn:E; simpl; [by rewrite String.eqb_refl|by rewrite E].
Qed.

Lemma get_set_ne k k' v o : k ≠ k' → get k (set k' v o) = get k o.
Proof.
  intros Hne. induction o as [|[k1 v1] o IH]; simpl.
  - by rewrite (proj2 (String.eqb_neq k k')).
  - destruct (String.eqb_spec k' k1) as [->|]; simpl.
    + by rewrite (proj2 (String.eqb_neq k k1)).
    + by rewrite IH.
Qed.

Lemma has_own_set k k' v o : has_own k (set k' v o) = ((k =? k')%string || has_own k o).
Proof.
  unfold has_own. destruct (String.eqb_spec k k') as [->|]; [by rewrite get_set_eq|].
  by rewrite get_set_ne.
Qed.

Lemma get_elem k v o : get k o = Some v → (k, v) ∈ o.
Proof.
  induction o as [|[k' v'] o IH]; simpl; [done|].
  destruct (String.eqb_spec k k') as [->|]; intros; simplify_eq; set_solver.
Qed.

Lemma get_keys k o : has_own k o = true ↔ k ∈ keys o.
Proof.
  unfold has_own, keys. induction o as [|[k' v'] o IH]; simpl; [by rewrite elem_of_nil|].
  rewrite elem_of_cons, <-IH.
  destruct (String.eqb_spec k k') as [->|]; [by split; [left|]|].
  split; [by right|]. by intros [?|?].
Qed.

Lemma keys_set k v o :
  keys (set k v o) = if has_own k o then keys o else keys o ++ [k].
Proof.
  unfold keys, has_own. induction o as [|[k' v'] o IH]; [done|]. cbn [set get].
  destruct (String.eqb_spec k k') as [->|]; [done|].
  rewrite !fmap_cons, IH. by destruct (get k o).
Qed.

Lemma set_fresh k v o : k ∉ keys o → set k v o = o ++ [(k, v)].
Proof.
  unfold keys. induction o as [|[k' v'] o IH]; simpl; [done|].
  intros [Hk Hin]%not_elem_of_cons. rewrite (proj2 (String.eqb_neq _ _)) by done. by rewrite IH.
Qed.

Lemma keys_set_NoDup k v o : NoDup (keys o) → NoDup (keys (set k v o)).
Proof.
  intros H. rewrite keys_set. destruct (has_own k o) eqn:E; [done|].
  apply NoDup_app. split; [done|]. split; [|apply NoDup_singleton].
  intros x Hx ->%list_elem_of_singleton. by rewrite <-get_keys, E in Hx.
Qed.
End objects.

(** [o[k] = v] for an object whose own properties are read: under the name
    [__proto__] none is stored. *)
Definition assign {V} (k : string) (v : V) (o : list (string * V)) : list (string * V) :=
  if (k =? "__proto__")%string then o else set k v o.

(** What [{}] inherits: [o[k]] is an object or a function for these names. *)
Definition object_names : list string :=
  ["constructor"; "hasOwnProperty"; "isPrototypeOf"; "propertyIsEnumerable"; "toLocaleString";
   "toString"; "valueOf"; "__proto__"; "__defineGetter__"; "__defineSetter__";
   "__lookupGetter__"; "__lookupSetter__"].

(** A canonical array index: the decimal form of an integer below 2^32 - 1. *)
Definition array_index (k : string) : option Z :=
  match parseInt k with
  | JInt z => if (0 <=? z) && (z <? 2 ^ 32 - 1) && (k =? show z)%string then Some z else None
  | _ => None
  end.

Fixpoint insert_index (z : Z) (l : list Z) : list Z :=
  match l with
  | [] => [z]
  | y :: l' => if z <=? y then z :: l else y :: insert_index z l'
  end.

(** The order of [for (k in o)] for the own keys [ks] in insertion order. *)
Definition for_in_keys (ks : list string) : list string :=
  let idx := omap array_index ks in
  (show <$> foldr insert_index [] idx) ++
  List.filter (λ k, match array_index k with None => true | _ => false end) ks.

(** ** [Array.prototype.slice] and [sort] *)

(** A relative index: NaN is 0, a negative one counts from the end, both
    clamped to the array. *)
Definition rel_index (len : Z) (i : jsint) : Z :=
  match i with
  | JNaN => 0
  | JInf n => if n then 0 else len
  | JInt z => if z <? 0 then Z.max (len + z) 0 else Z.min z len
  end.

Definition slice {A} (l : list A) (s e : jsint) : list A :=
  let len := Z.of_nat (length l) in
  let from := rel_index len s in
  let to := rel_index len e in
  take (Z.to_nat (to - from)) (drop (Z.to_nat from) l).

Section sort.
Context {A : Type}.

(** The comparison function may throw; a negative or zero result keeps [x],
    which came first, in front. *)
Fixpoint sort_insert (cmp : A → A → res Z) (x : A) (l : list A) : res (list A) :=
  match l with
  | [] => Ok [x]
  | y :: l' =>
      c ← cmp x y;
      if c <=? 0 then Ok (x :: y :: l')
      else l'' ← sort_insert cmp x l'; Ok (y :: l'')
  end.

Fixpoint array_sort (cmp : A → A → res Z) (l : list A) : res (list A) :=
  match l with
  | [] => Ok []
  | x :: l' => s ← array_sort cmp l'; sort_insert cmp x s
  end.
End sort.

(** ** What a sort returns *)

(** The same algorithm for a comparison that does not throw. *)
Fixpoint pure_insert {A} (c : A → A → Z) (x : A) (l : list A) : list A :=
  match l with
  | [] => [x]
  | y :: l' => if c x y <=? 0 then x :: y :: l' else y :: pure_insert c x l'
  end.

Fixpoint pure_sort {A} (c : A → A → Z) (l : list A) : list A :=
  match l with
  | [] => []
  | x :: l' => pure_insert c x (pure_sort c l')
  end.

Lemma pure_insert_perm {A} (c : A → A → Z) x l : pure_insert c x l ≡ₚ x :: l.
Proof.
  induction l as [|y l IH]; simpl; [done|]. case_if; [done|].
  rewrite IH. apply Permutation_swap.
Qed.

Lemma pure_sort_perm {A} (c : A → A → Z) l : pure_sort c l ≡ₚ l.
Proof. induction l as [|x l IH]; simpl; [done|]. by rewrite pure_insert_perm, IH. Qed.

Lemma array_sort_perm {A} (cmp : A → A → res Z) l l' : array_sort cmp l = Ok l' → l' ≡ₚ l.
Proof.
  assert (∀ x s s', sort_insert cmp x s = Ok s' → s' ≡ₚ x :: s) as Hins.
  { intros x s. induction s as [|y s IH]; intros s' H; simpl in H; [by inv_res|].
    inv_res. case_match; inv_res; [done|].
    match goal with H : sort_insert _ _ _ = Ok _ |- _ => rewrite (IH _ H) end.
    apply Permutation_swap. }
  revert l'. induction l as [|x l IH]; intros l' H; simpl in H; [by inv_res|].
  inv_res. rewrite (Hins _ _ _ H). f_equiv. by apply IH.
Qed.

Lemma array_sort_pure {A} (cmp : A → A → res Z) (c : A → A → Z) l :
  (∀ x y, x ∈ l → y ∈ l → cmp x y = Ok (c x y)) → array_sort cmp l = Ok (pure_sort c l).
Proof.
  assert (∀ x s, (∀ y, y ∈ s → cmp x y = Ok (c x y)) →
                 sort_insert cmp x s = Ok (pure_insert c x s)) as Hins.
  { intros x s. induction s as [|y s IH]; intros H; simpl; [done|].
    rewrite H by (by left). simpl. case_if; [done|]. rewrite IH; [done|].
    intros z Hz. apply H. by right. }
  induction l as [|x l IH]; intros H; simpl; [done|].
  rewrite IH by (intros; apply H; by right). simpl. apply Hins.
  intros y Hy. rewrite pure_sort_perm in Hy. apply H; [by left|by right].
Qed.

(** A comparison that does not throw on the elements gives a result. *)
Lemma array_sort_total {A} (cmp : A → A → res Z) l :
  (∀ x y, x ∈ l → y ∈ l → ∃ c, cmp x y = Ok c) → ∃ l', array_sort cmp l = Ok l'.
Proof.
  intros Hc. eexists.
  apply (array_sort_pure _ (λ x y, match cmp x y with Ok c => c | Throw _ => 0 end)).
  intros x y Hx Hy. destruct (Hc x y Hx Hy) as [c ->]. done.
Qed.

(** A comparison that is a total preorder on the elements satisfying [P]. *)
Record consistent {A} (P : A → Prop) (c : A → A → Z) : Prop := {
  c_total x y : P x → P y → c x y ≤ 0 ∨ c y x ≤ 0;
  c_trans x y z : P x → P y → P z → c x y ≤ 0 → c y z ≤ 0 → c x z ≤ 0
}.

Section sorted.
Context {A : Type} (P : A → Prop) (c : A → A → Z) (Hc : consistent P c).

Definition in_order (x y : A) : Prop := c x y ≤ 0.
Definition tied (x y : A) : bool := (c x y <=? 0) && (c y x <=? 0).

Lemma pure_insert_sorted x l :
  P x → Forall P l → StronglySorted in_order l → StronglySorted in_order (pure_insert c x l).
Proof.
  intros Hx. induction l as [|y l IH]; intros HP Hs; simpl; [by repeat constructor|].
  inversion_clear HP as [|?? Hy Hl]. inversion_clear Hs as [|?? Hs' Hall].
  case_if; zbool.
  - constructor; [by constructor|]. constructor; [done|].
    apply Forall_forall. intros z Hz. unfold in_order.
    rewrite Forall_forall in Hall, Hl.
    apply (c_trans _ _ Hc x y z); auto; by apply Hall.
  - constructor; [by apply IH|]. rewrite pure_insert_perm.
    constructor; [|done]. unfold in_order. destruct (c_total _ _ Hc x y); auto; lia.
Qed.

Lemma pure_sort_sorted l : Forall P l → StronglySorted in_order (pure_sort c l).
Proof.
  induction 1 as [|x l Hx Hl IH]; simpl; [constructor|].
  apply pure_insert_sorted; [done| |done]. by rewrite pure_sort_perm.
Qed.

(** Ties keep the order of the input. *)
Lemma pure_insert_stable z x l :
  P z → P x → Forall P l →
  List.filter (tied z) (pure_insert c x l) = List.filter (tied z) (x :: l).
Proof.
  intros Hz Hx. induction 1 as [|y l Hy Hl IH]; cbn [pure_insert]; [done|].
  case_if; [done|]. zbool. cbn [List.filter]. rewrite IH. cbn [List.filter].
  destruct (tied z x) eqn:E1, (tied z y) eqn:E2; try done. exfalso.
  unfold tied in *. zbool.
  assert (c x y ≤ 0) by (by apply (c_trans _ _ Hc x z y)). lia.
Qed.

Lemma pure_sort_stable z l :
  P z → Forall P l → List.filter (tied z) (pure_sort c l) = List.filter (tied z) l.
Proof.
  intros Hz. induction 1 as [|x l Hx Hl IH]; simpl; [done|].
  rewrite pure_insert_stable; [|done..|by rewrite pure_sort_perm]. simpl. by rewrite IH.
Qed.

Lemma tied_refl x : P x → tied x x = true.
Proof.
  intros Hx. unfold tied. destruct (c_total _ _ Hc x x) as [H|H]; auto;
    by rewrite (proj2 (Z.leb_le _ _) H).
Qed.

(** A sorted arrangement that keeps ties in input order is unique, so the
    model of the sort does not depend on the engine's algorithm. *)
Lemma stable_sort_unique l1 : ∀ l2,
  Forall P l1 → l1 ≡ₚ l2 →
  StronglySorted in_order l1 → StronglySorted in_order l2 →
  (∀ z, P z → List.filter (tied z) l1 = List.filter (tied z) l2) → l1 = l2.
Proof.
  induction l1 as [|x l1 IH]; intros l2 HP Hperm Hs1 Hs2 Hst.
  { by apply Permutation_nil_l in Hperm. }
  destruct l2 as [|y l2].
  { by apply Permutation_nil_r in Hperm. }
  assert (Forall P (y :: l2)) as HP2 by (by rewrite <-Hperm).
  inversion_clear HP as [|?? Hx HP1]. inversion_clear HP2 as [|?? Hy HP2'].
  inversion_clear Hs1 as [|?? Hs1' Hall1]. inversion_clear Hs2 as [|?? Hs2' Hall2].
  assert (c x y ≤ 0) as Hxy.
  { assert (y ∈ x :: l1) as [->|Hin]%elem_of_cons by (rewrite Hperm; by left).
    - destruct (c_total _ _ Hc x x); auto.
    - by apply (proj1 (Forall_forall _ _) Hall1). }
  assert (c y x ≤ 0) as Hyx.
  { assert (x ∈ y :: l2) as [->|Hin]%elem_of_cons by (rewrite <-Hperm; by left).
    - destruct (c_total _ _ Hc y y); auto.
    - by apply (proj1 (Forall_forall _ _) Hall2). }
  assert (x = y) as ->.
  { pose proof (Hst x Hx) as E. simpl in E. rewrite tied_refl in E by done.
    unfold tied at 2 in E. rewrite (proj2 (Z.leb_le _ _) Hxy), (proj2 (Z.leb_le _ _) Hyx) in E.
    simpl in E. by injection E. }
  f_equal. apply IH; try done.
  - by eapply Permutation_cons_inv.
  - intros z Hz. specialize (Hst z Hz). simpl in Hst. destruct (tied z y); [|done].
    by injection Hst.
Qed.

(** What the program may rely on after [l.sort(cmp)]. *)
Definition is_stable_sort (l l' : list A) : Prop :=
  l' ≡ₚ l ∧ StronglySorted in_order l' ∧
  ∀ z, P z → List.filter (tied z) l' = List.filter (tied z) l.

Lemma pure_sort_spec l : Forall P l → is_stable_sort l (pure_sort c l).
Proof.
  intros H. split_and!; [apply pure_sort_perm|by apply pure_sort_sorted|].
  intros. by apply pure_sort_stable.
Qed.

Lemma is_stable_sort_det l l1 l2 :
  Forall P l → is_stable_sort l l1 → is_stable_sort l l2 → l1 = l2.
Proof.
  intros HP (Hp1 & Hs1 & Ht1) (Hp2 & Hs2 & Ht2). apply stable_sort_unique; try done.
  - by rewrite Hp1.
  - by rewrite Hp1, Hp2.
  - intros z Hz. by rewrite Ht1, Ht2.
Qed.

(** Sorting a sorted array changes nothing. *)
Lemma pure_sort_id l : Forall P l → StronglySorted in_order l → pure_sort c l = l.
Proof.
  intros HP Hs. apply (is_stable_sort_det l); [done|by apply pure_sort_spec|].
  by split_and!.
Qed.
End sorted.

(** ** Slices *)

Lemma slice_nat {A} (l : list A) (i n : nat) :
  Z.of_nat (i + n) ≤ 2 ^ 53 →
  slice l (JInt (Z.of_nat i)) (jadd (JInt (Z.of_nat i)) (JInt (Z.of_nat n))) = take n (drop i l).
Proof.
  intros H. unfold slice, jadd. rewrite jround_small by lia. unfold rel_index.
  rewrite !(proj2 (Z.ltb_ge _ 0)) by lia.
  destruct (decide (i ≤ length l)%nat) as [Hi|Hi].
  - rewrite (Z.min_l (Z.of_nat i)) by lia. rewrite Nat2Z.id.
    destruct (decide (i + n ≤ length l)%nat).
    + rewrite Z.min_l by lia. f_equal. lia.
    + rewrite Z.min_r by lia. rewrite !take_ge; [done|rewrite length_drop; lia..].
  - rewrite !Z.min_r by lia. rewrite Nat2Z.id.
    rewrite !drop_ge by lia. by rewrite !take_nil.
Qed.

Lemma slice_sublist {A} (l : list A) s e x : x ∈ slice l s e → x ∈ l.
Proof.
  unfold slice. intros H. apply elem_of_take in H as (i & H & _).
  rewrite lookup_drop in H. by eapply list_elem_of_lookup_2.
Qed.

Lemma slice_length {A} (l : list A) s e : (length (slice l s e) ≤ length l)%nat.
Proof. unfold slice. rewrite length_take, length_drop. lia. Qed.

Lemma slice_NoDup {A} (l : list A) b e : NoDup l → NoDup (slice l b e).
Proof.
  intros Hl. unfold slice. eapply sublist_NoDup, sublist_take.
  by eapply sublist_NoDup, sublist_drop.
Qed.
