(* ===== verification/JsJson.v ===== *)
(** * Server responses

    The body of a response as jQuery hands it to a success callback: parsed
    JSON.  A property access gives [option json], [None] being [undefined]; an
    access on [undefined] or [null] throws. *)

From Stdlib Require Import SpecFloat.
From S2P Require Import Prelude JsString JsNumber JsValue.

#[warnings="-register-all"] Inductive json :=
| JNull
| JBool (b : bool)
| JNum (n : num)
| JStr (s : string)
| JArr (l : list json)
| JObj (o : list (string * json)).

(** [String(j)] *)
Fixpoint json_str (j : json) : string :=
  match j with
  | JNull => "null"
  | JBool b => if b then "true" else "false"
  | JNum n => num_show n
  | JStr s => s
  | JArr l =>
      let fix go (l : list json) : list string :=
        match l with
        | [] => []
        | x :: l' => match x with JNull => "" | _ => json_str x end :: go l'
        end in
      join "," (go l)
  | JObj _ => "[object Object]"
  end.

Definition to_value (o : option json) : value :=
  match o with
  | None => VUndef
  | Some JNull => VNull
  | Some (JBool b) => VBool b
  | Some (JNum n) => VNum n
  | Some (JStr s) => VStr s
  | Some j => VObj (json_str j)
  end.

(** [o.k] *)
Definition prop (o : option json) (k : string) : res (option json) :=
  match o with
  | None | Some JNull => Throw TypeError
  | Some (JObj ps) => Ok (get k ps)
  | Some (JArr l) =>
      Ok (if (k =? "length")%string then Some (JNum (num_of_Z (Z.of_nat (length l)))) else None)
  | Some (JStr s) =>
      Ok (if (k =? "length")%string then Some (JNum (num_of_Z (slen s))) else None)
  | Some _ => Ok None
  end.

(** [o.k1.k2] *)
Definition prop2 (o : option json) (k1 k2 : string) : res (option json) :=
  p ← prop o k1; prop p k2.

(** The loop [for (i=0; i<o.length; i++) ... o[i] ...]: it runs over the
    elements of an array and not at all over an object without [length]. *)
Definition json_items (o : option json) : res (list json) :=
  match o with
  | None | Some JNull => Throw TypeError
  | Some (JArr l) => Ok l
  | Some (JStr s) => Ok ((λ c, JStr (String c "")) <$> String.list_ascii_of_string s)
  | Some _ => Ok []
  end.

(** A row object of a table, from an element of a response. *)
Definition json_row (j : json) : gmap string value :=
  match j with
  | JObj ps => list_to_map ((λ '(k, v), (k, to_value (Some v))) <$> ps)
  | _ => ∅
  end.

(** The string concatenation ['...' + o]. *)
Definition jtext (o : option json) : string := to_str (to_value o).

(** [o.k] as a value, [o.k.k'] as a value *)
Definition vprop (o : option json) (k : string) : res value := v ← prop o k; Ok (to_value v).
Definition vprop2 (o : option json) (k k' : string) : res value := v ← prop2 o k k'; Ok (to_value v).

(** The last element of a list with an id. *)
Fixpoint last_with (id : string) (l : list json) : option json :=
  match l with
  | [] => None
  | o :: l' =>
      match last_with id l' with
      | Some o' => Some o'
      | None => match vprop (Some o) "id" with
                | Ok v => if (to_str v =? id)%string then Some o else None
                | Throw _ => None
                end
      end
  end.
