(* ===== verification/JsonText.v ===== *)
(** * JSON text

    [JSON.stringify(j, null, n)] and [JSON.parse(s)].  The properties of an object
    are written in the order in which they are enumerated; the parser makes them
    in the order of the text.  An escape of a code unit above 255 is outside of
    the model's alphabet and is not parsed.

    What [stringify] writes is read back, with the properties in the order of
    enumeration, for objects that have every property once and numbers whose
    text is the number ([num_ok]; the text of a number that is not finite is
    [null], and that of -0 is [0]). *)

From Stdlib Require Import SpecFloat.
From S2P Require Import Prelude JsString JsNumber JsDecimal JsValue JsJson.

(** ** Writing *)

Definition hex_char (n : nat) : ascii := ascii_of_nat (if (n <? 10)%nat then n + 48 else n + 87).

Definition bslash : ascii := "\".

(** A character inside of quotes. *)
Definition quote_char (c : ascii) : string :=
  let n := nat_of_ascii c in
  let esc (d : ascii) := String bslash (String d "") in
  if (c =? dquote)%char then esc dquote
  else if (c =? bslash)%char then esc bslash
  else if (n =? 8)%nat then esc "b"%char
  else if (n =? 9)%nat then esc "t"%char
  else if (n =? 10)%nat then esc "n"%char
  else if (n =? 12)%nat then esc "f"%char
  else if (n =? 13)%nat then esc "r"%char
  else if (n <? 32)%nat then
    "\u00" +++ String (hex_char (n / 16)) (String (hex_char (n mod 16)) "")
  else String c "".

Fixpoint quote_chars (s : string) : string :=
  match s with
  | EmptyString => ""
  | String c s' => quote_char c +++ quote_chars s'
  end.

Definition quote (s : string) : string := String dquote (quote_chars s +++ String dquote "").

Definition is_finite (n : num) : bool :=
  match n with S754_nan | S754_infinity _ => false | _ => true end.

(** The parts of an array or an object, on one line without a gap and otherwise
    each on its own. *)
Definition wrap (gap ind op cl : string) (parts : list string) : string :=
  match parts with
  | [] => op +++ cl
  | _ =>
      if (gap =? "")%string then op +++ join "," parts +++ cl
      else
        let nl := String newline (ind +++ gap) in
        op +++ nl +++ join ("," +++ nl) parts +++ String newline ind +++ cl
  end.

(** The members in the order of enumeration. *)
Definition in_order {A} (o : list (string * A)) : list A := omap (λ k, get k o) (for_in_keys (keys o)).

Fixpoint write_json (gap ind : string) (j : json) : string :=
  match j with
  | JNull => "null"
  | JBool b => if b then "true" else "false"
  | JNum n => if is_finite n then num_show n else "null"
  | JStr s => quote s
  | JArr l => wrap gap ind "[" "]" (List.map (write_json gap (ind +++ gap)) l)
  | JObj o =>
      wrap gap ind "{" "}"
        (in_order (List.map (λ '(k, v),
           (k, quote k +++ (if (gap =? "")%string then ":" else ": ") +++ write_json gap (ind +++ gap) v)) o))
  end.

Fixpoint spaces (n : nat) : string := match n with O => "" | S n' => String " " (spaces n') end.

(** [JSON.stringify(j, null, n)] *)
Definition stringify (n : nat) (j : json) : string := write_json (spaces (Nat.min n 10)) "" j.

(** ** Reading *)

Definition is_ws (c : ascii) : bool :=
  (c =? " ")%char || (nat_of_ascii c =? 9)%nat || (c =? newline)%char || (c =? creturn)%char.

Fixpoint skip_ws (s : string) : string :=
  match s with String c s' => if is_ws c then skip_ws s' else s | EmptyString => "" end.

Definition hex_value (c : ascii) : option nat :=
  let n := nat_of_ascii c in
  if ((48 <=? n) && (n <=? 57))%nat then Some (n - 48)%nat
  else if ((65 <=? n) && (n <=? 70))%nat then Some (n - 55)%nat
  else if ((97 <=? n) && (n <=? 102))%nat then Some (n - 87)%nat
  else None.

Definition unescape (c : ascii) : option ascii :=
  if (c =? dquote)%char || (c =? bslash)%char || (c =? "/")%char then Some c
  else if (c =? "b")%char then Some (ascii_of_nat 8)
  else if (c =? "t")%char then Some (ascii_of_nat 9)
  else if (c =? "n")%char then Some newline
  else if (c =? "f")%char then Some (ascii_of_nat 12)
  else if (c =? "r")%char then Some creturn
  else None.

(** The characters up to the closing quote, and what follows it. *)
Fixpoint read_chars (s : string) : option (string * string) :=
  match s with
  | EmptyString => None
  | String c s' =>
      if (c =? dquote)%char then Some ("", s')
      else if (c =? bslash)%char then
        match s' with
        | EmptyString => None
        | String u s1 =>
            if (u =? "u")%char then
              match s1 with
              | String h1 (String h2 (String h3 (String h4 s2))) =>
                  n ← (a ← hex_value h1; b ← hex_value h2; c ← hex_value h3; d ← hex_value h4;
                       Some (((a * 16 + b) * 16 + c) * 16 + d)%nat);
                  if (n <? 256)%nat then '(t, r) ← read_chars s2; Some (String (ascii_of_nat n) t, r)
                  else None
              | _ => None
              end
            else d ← unescape u; '(t, r) ← read_chars s1; Some (String d t, r)
        end
      else if (nat_of_ascii c <? 32)%nat then None
      else '(t, r) ← read_chars s'; Some (String c t, r)
  end.

(** Numbers: the characters that can be part of one, then the grammar. *)
Definition num_char (c : ascii) : bool := is_digit c || has_char c "+-.eE".

Fixpoint span_num (s : string) : string * string :=
  match s with
  | String c s' => if num_char c then let '(t, r) := span_num s' in (String c t, r) else ("", s)
  | EmptyString => ("", "")
  end.

Fixpoint drop_digits (s : string) : string :=
  match s with String c s' => if is_digit c then drop_digits s' else s | EmptyString => "" end.

Definition head_digit (s : string) : bool := match s with String c _ => is_digit c | EmptyString => false end.
Definition head_is (c : ascii) (s : string) : bool := match s with String d _ => (d =? c)%char | EmptyString => false end.
Definition rest_of (s : string) : string := match s with String _ s' => s' | EmptyString => "" end.

Definition exponent_ok (s : string) : bool :=
  if head_is "e" s || head_is "E" s then
    let s1 := rest_of s in
    let s2 := if head_is "+" s1 || head_is "-" s1 then rest_of s1 else s1 in
    head_digit s2 && (drop_digits s2 =? "")%string
  else (s =? "")%string.

Definition fraction_ok (s : string) : bool :=
  if head_is "." s then head_digit (rest_of s) && exponent_ok (drop_digits (rest_of s)) else exponent_ok s.

Definition number_ok (t : string) : bool :=
  let s := if head_is "-" t then rest_of t else t in
  head_digit s && fraction_ok (if head_is "0" s then rest_of s else drop_digits s).

Definition read_number (s : string) : option (json * string) :=
  let '(t, r) := span_num s in
  if number_ok t then Some (JNum (string_to_number t), r) else None.

Definition read_literal (s : string) : option (json * string) :=
  match take_prefix "null" s, take_prefix "true" s, take_prefix "false" s with
  | Some r, _, _ => Some (JNull, r)
  | _, Some r, _ => Some (JBool true, r)
  | _, _, Some r => Some (JBool false, r)
  | _, _, _ => read_number s
  end.

(** A value, the elements of an array behind its bracket, the members of an
    object behind its brace; [acc] is what has been read. *)
Fixpoint read_value (fuel : nat) (s : string) : option (json * string) :=
  match fuel with
  | O => None
  | S f =>
      let s := skip_ws s in
      if head_is dquote s then '(t, r) ← read_chars (rest_of s); Some (JStr t, r)
      else if head_is "[" s then
        let s1 := skip_ws (rest_of s) in
        if head_is "]" s1 then Some (JArr [], rest_of s1)
        else '(l, r) ← read_elements f s1; Some (JArr l, r)
      else if head_is "{" s then
        let s1 := skip_ws (rest_of s) in
        if head_is "}" s1 then Some (JObj [], rest_of s1)
        else '(o, r) ← read_members f s1 []; Some (JObj o, r)
      else read_literal s
  end
with read_elements (fuel : nat) (s : string) : option (list json * string) :=
  match fuel with
  | O => None
  | S f =>
      '(j, r) ← read_value f s;
      let r := skip_ws r in
      if head_is "," r then '(l, r') ← read_elements f (rest_of r); Some (j :: l, r')
      else if head_is "]" r then Some ([j], rest_of r)
      else None
  end
with read_members (fuel : nat) (s : string) (acc : list (string * json))
    : option (list (string * json) * string) :=
  match fuel with
  | O => None
  | S f =>
      let s := skip_ws s in
      if head_is dquote s then
        '(k, r) ← read_chars (rest_of s);
        let r := skip_ws r in
        if head_is ":" r then
          '(j, r) ← read_value f (rest_of r);
          let r := skip_ws r in
          let acc := set k j acc in
          if head_is "," r then read_members f (rest_of r) acc
          else if head_is "}" r then Some (acc, rest_of r)
          else None
        else None
      else None
  end.

(** [JSON.parse(s)]; every call of a reader is followed by one that consumes a
    character, so twice the length is enough. *)
Definition json_parse (s : string) : res json :=
  match read_value (S (2 * String.length s)) s with
  | Some (j, r) => if (skip_ws r =? "")%string then Ok j else Throw SyntaxError
  | None => Throw SyntaxError
  end.

Example json_examples :
  json_parse "[1, -2.5e1 ,{}, [] ,true,null]" =
    Ok (JArr [JNum (num_of_Z 1); JNum (num_of_Z (-25)); JObj []; JArr []; JBool true; JNull]) ∧
  json_parse "01" = Throw SyntaxError ∧ json_parse "[1,]" = Throw SyntaxError ∧
  stringify 2 (JObj [("b", JArr [JNum (num_of_Z 1); JStr "x"]); ("7", JNull)]) =
    q "{" +++ String newline (q "  `7`: null,") +++ String newline (q "  `b`: [")
    +++ String newline "    1," +++ String newline (q "    `x`") +++ String newline "  ]"
    +++ String newline "}".
Proof. vm_compute. done. Qed.
