(* ===== verification/JsonRoundTrip.v ===== *)
(** * JSON text: what is written is read back *)

From Stdlib Require Import SpecFloat.
From stdpp Require Import pretty.
From S2P Require Import Prelude JsString JsNumber JsDecimal JsValue JsJson JsonText.

(** ** Induction on documents *)

Section json_ind.
Context (P : json → Prop).
Hypothesis Hnull : P JNull.
Hypothesis Hbool : ∀ b, P (JBool b).
Hypothesis Hnum : ∀ n, P (JNum n).
Hypothesis Hstr : ∀ s, P (JStr s).
Hypothesis Harr : ∀ l, Forall P l → P (JArr l).
Hypothesis Hobj : ∀ o, Forall (λ p, P p.2) o → P (JObj o).

Fixpoint json_induction (j : json) : P j :=
  match j with
  | JNull => Hnull
  | JBool b => Hbool b
  | JNum n => Hnum n
  | JStr s => Hstr s
  | JArr l =>
      Harr l ((fix go l : Forall P l :=
        match l with [] => List.Forall_nil _ | x :: l' => List.Forall_cons _ x l' (json_induction x) (go l') end) l)
  | JObj o =>
      Hobj o ((fix go o : Forall (λ p, P p.2) o :=
        match o with
        | [] => List.Forall_nil _
        | p :: o' => List.Forall_cons _ p o' (json_induction p.2) (go o')
        end) o)
  end.
End json_ind.

(** ** Documents that are read back *)

(** The text of the number is one, and it is the text of this number. *)
Definition num_ok (n : num) : bool :=
  is_finite n && number_ok (num_show n) && all_chars num_char (num_show n)
  && bool_decide (string_to_number (num_show n) = n).

(** The numbers of the document are such, and its objects have every property
    once, in the order of enumeration. *)
Fixpoint json_ok (j : json) : bool :=
  match j with
  | JNum n => num_ok n
  | JArr l => forallb json_ok l
  | JObj o =>
      bool_decide (NoDup (keys o)) && bool_decide (for_in_keys (keys o) = keys o)
      && forallb (λ p, json_ok p.2) o
  | _ => true
  end.

(** ** Quotes *)

Lemma read_quote_char c s :
  read_chars (quote_char c +++ s) = ('(t, r) ← read_chars s; Some (String c t, r)).
Proof. destruct c as [[] [] [] [] [] [] [] []]; reflexivity. Qed.

Lemma read_quote s r : read_chars (quote_chars s +++ String dquote r) = Some (s, r).
Proof.
  induction s as [|c s IH]; [done|]. cbn [quote_chars]. rewrite sapp_assoc, read_quote_char, IH. done.
Qed.

(** ** White space *)

Definition all_ws (s : string) : Prop := all_chars is_ws s = true.

Lemma skip_ws_app w s : all_ws w → skip_ws (w +++ s) = skip_ws s.
Proof.
  unfold all_ws. induction w as [|c w IH]; [done|]. cbn [all_chars]. intros [Hc Hw]%andb_true_iff.
  rewrite sapp_cons. cbn [skip_ws]. rewrite Hc. auto.
Qed.

Lemma all_chars_app p s1 s2 : all_chars p (s1 +++ s2) = all_chars p s1 && all_chars p s2.
Proof. induction s1 as [|c s1 IH]; [done|]. rewrite sapp_cons. cbn [all_chars]. by rewrite IH, andb_assoc. Qed.

Lemma all_ws_app s1 s2 : all_ws s1 → all_ws s2 → all_ws (s1 +++ s2).
Proof. unfold all_ws. rewrite all_chars_app. by intros -> ->. Qed.

Lemma read_value_ws f w s : all_ws w → read_value f (w +++ s) = read_value f s.
Proof. intros Hw. destruct f as [|f]; [done|]. cbn [read_value]. by rewrite skip_ws_app. Qed.

(** ** Numbers *)

(** The text does not go on with a character of a number. *)
Definition stops (r : string) : Prop := match r with String c _ => num_char c = false | EmptyString => True end.

Lemma span_num_app t r : all_chars num_char t = true → stops r → span_num (t +++ r) = (t, r).
Proof.
  intros Ht Hr. induction t as [|c t IH].
  - rewrite sapp_nil_l. destruct r as [|c r]; [done|]. cbn in *. by rewrite Hr.
  - cbn [all_chars] in Ht. apply andb_true_iff in Ht as [Hc Ht]. rewrite sapp_cons. cbn [span_num].
    by rewrite Hc, IH.
Qed.

Lemma num_ok_head n : num_ok n = true → ∃ c s, num_show n = String c s ∧ (is_digit c = true ∨ c = "-"%char).
Proof.
  unfold num_ok. rewrite !andb_true_iff. intros [[[_ Hn] _] _]. unfold number_ok in Hn.
  destruct (num_show n) as [|c s]; [done|]. exists c, s. split; [done|]. cbn [head_is] in Hn.
  destruct (Ascii.eqb_spec c "-") as [->|]; [by right|left].
  by apply andb_true_iff in Hn as [Hn _].
Qed.

Lemma read_show n r : num_ok n = true → stops r → read_literal (num_show n +++ r) = Some (JNum n, r).
Proof.
  intros Hn Hr. destruct (num_ok_head n Hn) as (c & s & Es & Hc). unfold read_literal.
  assert (∀ d p, is_digit d = false → d ≠ "-"%char → take_prefix (String d p) (num_show n +++ r) = None) as Hno.
  { intros d p Hd Hd'. rewrite Es, sapp_cons. cbn [take_prefix].
    destruct (Ascii.eqb_spec d c) as [->|]; [|done]. destruct Hc; congruence. }
  rewrite !Hno by done. unfold read_number.
  unfold num_ok in Hn. rewrite !andb_true_iff in Hn. destruct Hn as [[[_ H1] H2] H3%bool_decide_eq_true].
  rewrite span_num_app by done. by rewrite H1, H3.
Qed.

(** ** The shape of the text *)

(** The first character of a value's text. *)
Definition value_head (c : ascii) : bool := is_digit c || has_char c (q "-`[{ntf").

Lemma value_head_spec c :
  value_head c = true →
  is_ws c = false ∧ (c =? "]")%char = false ∧ (c =? "}")%char = false.
Proof. destruct c as [[] [] [] [] [] [] [] []]; vm_compute; try done; by split_and!. Qed.

Lemma wrap_head gap ind c cl parts : ∃ s, wrap gap ind (String c "") cl parts = String c s.
Proof. unfold wrap. destruct parts; [|destruct (gap =? "")%string]; eexists; rewrite sapp_cons; done. Qed.

Lemma write_head gap ind j :
  json_ok j = true → ∃ c s, write_json gap ind j = String c s ∧ value_head c = true.
Proof.
  intros Hj. destruct j as [|b|n|s|l|o]; cbn [write_json].
  - by do 2 eexists.
  - destruct b; by do 2 eexists.
  - cbn in Hj. unfold num_ok in Hj. destruct (num_ok_head n Hj) as (c & s & Es & Hc).
    rewrite !andb_true_iff in Hj. destruct Hj as [[[-> _] _] _]. exists c, s. split; [done|].
    unfold value_head. by destruct Hc as [->| ->].
  - by do 2 eexists.
  - destruct (wrap_head gap ind "[" "]" (List.map (write_json gap (ind +++ gap)) l)) as [s ->]. by do 2 eexists.
  - match goal with |- context [wrap _ _ _ _ ?p] => destruct (wrap_head gap ind "{" "}" p) as [s ->] end.
    by do 2 eexists.
Qed.

Lemma skip_ws_write gap ind j s :
  json_ok j = true → skip_ws (write_json gap ind j +++ s) = write_json gap ind j +++ s.
Proof.
  intros (c & t & -> & Hc)%(write_head gap ind). rewrite sapp_cons. cbn [skip_ws].
  by destruct (value_head_spec c Hc) as [-> _].
Qed.

(** One layout for texts on one and on several lines. *)
Lemma wrap_form gap ind :
  all_ws gap → all_ws ind → ∃ w1 w2, all_ws w1 ∧ all_ws w2 ∧
    ∀ op cl parts, parts ≠ [] → wrap gap ind op cl parts = op +++ w1 +++ join ("," +++ w1) parts +++ w2 +++ cl.
Proof.
  intros Hg Hi. unfold wrap. destruct (gap =? "")%string.
  - exists "", "". split_and!; [done..|]. intros op cl [|p parts]; done.
  - exists (String newline (ind +++ gap)), (String newline ind). split_and!.
    + change (all_ws (String newline "" +++ (ind +++ gap))). by repeat apply all_ws_app.
    + change (all_ws (String newline "" +++ ind)). by apply all_ws_app.
    + intros op cl [|p parts]; done.
Qed.

(** Behind a value comes a comma, white space or the end of its array or object. *)
Lemma stops_ws w c s : all_ws w → num_char c = false → stops (w +++ String c s).
Proof.
  intros Hw Hc. destruct w as [|d w]; [done|]. unfold all_ws in Hw. cbn [all_chars] in Hw.
  apply andb_true_iff in Hw as [Hd _]. rewrite sapp_cons. cbn [stops].
  destruct d as [[] [] [] [] [] [] [] []]; vm_compute in Hd |- *; done.
Qed.

(** ** Steps of the readers *)

Fixpoint weight (j : json) : nat :=
  match j with
  | JArr l => S (list_sum (List.map (λ x, S (weight x)) l))
  | JObj o => S (list_sum (List.map (λ p, S (weight p.2)) o))
  | _ => 1
  end.

(** What the main lemma says of a document. *)
Definition reads_back (j : json) : Prop :=
  json_ok j = true → ∀ gap ind r f, all_ws gap → all_ws ind → stops r → (weight j ≤ f)%nat →
  read_value f (write_json gap ind j +++ r) = Some (j, r).

Lemma read_elements_ok gap ind w1 w2 l r f :
  all_ws gap → all_ws ind → all_ws w1 → all_ws w2 → l ≠ [] →
  Forall reads_back l → forallb json_ok l = true → (list_sum (List.map (λ x, S (weight x)) l) ≤ f)%nat →
  read_elements f (w1 +++ join ("," +++ w1) (List.map (write_json gap ind) l) +++ w2 +++ String "]" r) = Some (l, r).
Proof.
  intros Hg Hi Hw1 Hw2 Hl Hall. revert f Hl. induction Hall as [|x l Hx Hall IH]; intros f Hl Hok Hf; [done|].
  cbn [forallb List.map list_sum foldr] in *. apply andb_true_iff in Hok as [Hokx Hok].
  destruct f as [|f]; [cbn in Hf; lia|]. cbn [read_elements]. rewrite read_value_ws by done.
  destruct l as [|y l].
  - cbn [List.map join]. rewrite (Hx Hokx) by (done || by apply stops_ws || (cbn in Hf; lia)).
    cbn [mbind option_bind]. rewrite skip_ws_app by done. done.
  - rewrite join_cons by done. rewrite !sapp_assoc.
    rewrite (Hx Hokx) by (done || (cbn in Hf; lia)). cbn [mbind option_bind].
    change (skip_ws ("," +++ ?s)) with ("," +++ s). cbn [head_is].
    change (head_is "," ("," +++ ?s)) with true. change (rest_of ("," +++ ?s)) with s.
    rewrite IH by (done || (cbn in Hf |- *; lia)). done.
Qed.

Definition colon (gap : string) : string := if (gap =? "")%string then ":" else ": ".

Definition member_text (gap ind : string) (p : string * json) : string :=
  quote p.1 +++ colon gap +++ write_json gap ind p.2.

Lemma read_members_ok gap ind w1 w2 o acc r f :
  all_ws gap → all_ws ind → all_ws w1 → all_ws w2 → o ≠ [] →
  Forall (λ p, reads_back p.2) o → forallb (λ p, json_ok p.2) o = true → NoDup (keys (acc ++ o)) →
  (list_sum (List.map (λ p, S (weight p.2)) o) ≤ f)%nat →
  read_members f (w1 +++ join ("," +++ w1) (List.map (member_text gap ind) o)
                  +++ w2 +++ String "}" r) acc = Some (acc ++ o, r).
Proof.
  intros Hg Hi Hw1 Hw2 Ho Hall. revert f acc Ho.
  induction Hall as [|[k v] o Hx Hall IH]; intros f acc Ho Hok Hnd Hf; [done|].
  cbn [forallb List.map list_sum foldr fst snd] in *. apply andb_true_iff in Hok as [Hokx Hok].
  destruct f as [|f]; [cbn in Hf; lia|]. cbn [read_members]. rewrite skip_ws_app by done.
  assert (set k v acc = acc ++ [(k, v)]) as Hset.
  { apply set_fresh. unfold keys in Hnd. rewrite fmap_app, NoDup_app in Hnd. destruct Hnd as (_ & Hd & _).
    intros Hin. apply (Hd k Hin). by left. }
  assert (∃ w0, all_ws w0 ∧ ∀ s, colon gap +++ s = ":" +++ w0 +++ s) as (w0 & Hw0 & Ec).
  { unfold colon. destruct (gap =? "")%string; [by exists ""|by exists " "]. }
  assert (∀ s, skip_ws (quote k +++ s) = quote k +++ s) as Hq by done.
  assert (∀ s, read_chars (rest_of (quote k +++ s)) = Some (k, s)) as Hk.
  { intros s. unfold quote. rewrite sapp_cons. cbn [rest_of]. rewrite sapp_assoc. apply read_quote. }
  destruct o as [|[k' v'] o].
  - cbn [List.map join]. unfold member_text. cbn [fst snd]. rewrite !sapp_assoc, Hq, Hk, Ec. change (head_is dquote (quote k +++ ?s)) with true.
    cbn [mbind option_bind]. change (skip_ws (":" +++ ?s)) with (":" +++ s).
    change (head_is ":" (":" +++ ?s)) with true. change (rest_of (":" +++ ?s)) with s. cbv iota.
    rewrite read_value_ws, (Hx Hokx) by (done || by apply stops_ws || (cbn in Hf; lia)).
    cbn [mbind option_bind]. rewrite skip_ws_app, Hset by done. done.
  - rewrite join_cons by done.
    change (member_text gap ind (k, v)) with (quote k +++ colon gap +++ write_json gap ind v). rewrite !sapp_assoc, Hq, Hk, Ec. change (head_is dquote (quote k +++ ?s)) with true.
    cbn [mbind option_bind]. change (skip_ws (":" +++ ?s)) with (":" +++ s).
    change (head_is ":" (":" +++ ?s)) with true. change (rest_of (":" +++ ?s)) with s. cbv iota.
    rewrite read_value_ws, (Hx Hokx) by (done || (cbn in Hf; lia)). cbn [mbind option_bind].
    change (skip_ws ("," +++ ?s)) with ("," +++ s). change (head_is "," ("," +++ ?s)) with true.
    change (rest_of ("," +++ ?s)) with s. cbv iota. cbn [List.map fst snd] in *. rewrite Hset, IH.
    + by rewrite <-app_assoc.
    + done.
    + done.
    + by rewrite <-app_assoc.
    + cbn in Hf |- *. lia.
Qed.

Lemma get_app_fresh {A} (o1 o2 : list (string * A)) k : k ∉ keys o1 → get k (o1 ++ o2) = get k o2.
Proof.
  unfold keys. induction o1 as [|[k' v] o1 IH]; [done|]. intros [Hk Hin]%not_elem_of_cons. cbn.
  rewrite (proj2 (String.eqb_neq _ _)) by done. auto.
Qed.

Lemma in_order_id {A} (o : list (string * A)) :
  NoDup (keys o) → for_in_keys (keys o) = keys o → in_order o = o.*2.
Proof.
  intros Hnd Ho. unfold in_order. rewrite Ho. clear Ho.
  assert (∀ o1 o2 : list (string * A), NoDup (keys (o1 ++ o2)) → omap (λ k, get k (o1 ++ o2)) (keys o2) = o2.*2) as H;
    [|by apply (H [])].
  clear. intros o1 o2. revert o1. induction o2 as [|[k v] o2 IH]; intros o1 Hnd; [done|].
  cbn [keys fmap list_fmap omap list_omap fst snd].
  rewrite get_app_fresh.
  - cbn [get]. rewrite String.eqb_refl. f_equal.
    replace (o1 ++ (k, v) :: o2) with ((o1 ++ [(k, v)]) ++ o2) in * by (by rewrite <-app_assoc). by apply IH.
  - unfold keys in Hnd |- *. rewrite fmap_app, NoDup_app in Hnd. destruct Hnd as (_ & Hd & _).
    intros Hin. apply (Hd k Hin). by left.
Qed.

Lemma join_head sep p ps : ∃ s, join sep (p :: ps) = p +++ s.
Proof. destruct ps as [|p' ps]; [exists ""; by rewrite sapp_nil_r|]. rewrite join_cons by done. by eexists. Qed.

Lemma read_elements_ws f w s : all_ws w → read_elements f (w +++ s) = read_elements f s.
Proof. intros Hw. destruct f as [|f]; [done|]. cbn [read_elements]. by rewrite read_value_ws. Qed.

Lemma read_members_ws f w s acc : all_ws w → read_members f (w +++ s) acc = read_members f s acc.
Proof. intros Hw. destruct f as [|f]; [done|]. cbn [read_members]. by rewrite skip_ws_app. Qed.

Lemma read_array l : Forall reads_back l → reads_back (JArr l).
Proof.
  intros Hall Hok gap ind r f Hg Hi Hr Hf. destruct f as [|f]; [cbn in Hf; lia|]. cbn [read_value].
  rewrite skip_ws_write by done. cbn [write_json json_ok] in *. destruct l as [|x l]; [done|].
  destruct (wrap_form gap ind Hg Hi) as (w1 & w2 & Hw1 & Hw2 & Hwrap). rewrite Hwrap by done. clear Hwrap. rewrite !sapp_assoc.
  change (head_is dquote ("[" +++ ?s)) with false. change (head_is "[" ("[" +++ ?s)) with true.
  change (rest_of ("[" +++ ?s)) with s. cbv iota zeta. rewrite skip_ws_app by done.
  assert (json_ok x = true) as Hx by (cbn [forallb] in Hok; by apply andb_true_iff in Hok as [? _]).
  match goal with |- context [skip_ws ?y] => set (X := y) end.
  assert (skip_ws X = X ∧ head_is "]" X = false) as [E1 E2].
  { unfold X. cbn [List.map].
    match goal with |- context [join ?sep (?p :: ?ps)] => destruct (join_head sep p ps) as [s ->] end.
    rewrite !sapp_assoc, skip_ws_write by done. split; [done|].
    destruct (write_head gap (ind +++ gap) x Hx) as (c & t & -> & Hc). rewrite sapp_cons. cbn [head_is].
    by destruct (value_head_spec c Hc) as (_ & -> & _). }
  rewrite E1, E2, <-(read_elements_ws f w1) by done. unfold X. change ("]" +++ r) with (String "]" r).
  rewrite read_elements_ok by (done || by apply all_ws_app || (cbn in Hf |- *; lia)). done.
Qed.

Lemma write_object gap ind o :
  json_ok (JObj o) = true → write_json gap ind (JObj o) = wrap gap ind "{" "}" (List.map (member_text gap (ind +++ gap)) o).
Proof.
  cbn [json_ok]. rewrite !andb_true_iff, !bool_decide_eq_true. intros [[Hnd Hord] _]. cbn [write_json]. f_equal.
  assert (keys (List.map (λ '(k, v), (k, quote k +++ (if (gap =? "")%string then ":" else ": ")
      +++ write_json gap (ind +++ gap) v)) o) = keys o) as Ek.
  { unfold keys. clear. induction o as [|[k v] o IH]; [done|]. cbn. by f_equal. }
  rewrite in_order_id by (by rewrite Ek). clear. induction o as [|[k v] o IH]; [done|]. cbn. by f_equal.
Qed.

Lemma read_object o : Forall (λ p, reads_back p.2) o → reads_back (JObj o).
Proof.
  intros Hall Hok gap ind r f Hg Hi Hr Hf. destruct f as [|f]; [cbn in Hf; lia|]. cbn [read_value].
  rewrite skip_ws_write, write_object by done. cbn [json_ok] in Hok.
  rewrite !andb_true_iff, !bool_decide_eq_true in Hok. destruct Hok as [[Hnd Hord] Hok].
  destruct o as [|[k v] o]; [done|].
  destruct (wrap_form gap ind Hg Hi) as (w1 & w2 & Hw1 & Hw2 & Hwrap). rewrite Hwrap by done. clear Hwrap. rewrite !sapp_assoc.
  change (head_is dquote ("{" +++ ?s)) with false. change (head_is "[" ("{" +++ ?s)) with false.
  change (head_is "{" ("{" +++ ?s)) with true.
  change (rest_of ("{" +++ ?s)) with s. cbv iota zeta. rewrite skip_ws_app by done.
  match goal with |- context [skip_ws ?y] => set (X := y) end.
  assert (skip_ws X = X ∧ head_is "}" X = false) as [E1 E2].
  { unfold X. cbn [List.map].
    match goal with |- context [join ?sep (?p :: ?ps)] => destruct (join_head sep p ps) as [s ->] end. done. }
  rewrite E1, E2, <-(read_members_ws f w1) by done. unfold X. change ("}" +++ r) with (String "}" r).
  rewrite read_members_ok by (done || by apply all_ws_app || (cbn in Hf |- *; lia)). done.
Qed.

Lemma json_reads_back j : reads_back j.
Proof.
  induction j as [|b|n|s|l Hall|o Hall] using json_induction; [..|by apply read_array|by apply read_object];
    intros Hok gap ind r f Hg Hi Hr Hf;
    (destruct f as [|f]; [cbn in Hf; lia|]); cbn [read_value]; rewrite skip_ws_write by done.
  - done.
  - by destruct b.
  - cbn [json_ok] in Hok. destruct (num_ok_head n Hok) as (c & s & Es & Hc).
    assert (is_finite n = true) as Hfin by (unfold num_ok in Hok; rewrite !andb_true_iff in Hok; tauto).
    cbn [write_json]. rewrite Hfin, (read_show n r Hok Hr).
    assert (∀ d, is_digit d = false → d ≠ "-"%char → head_is d (num_show n +++ r) = false) as Hno.
    { intros d Hd Hd'. rewrite Es, sapp_cons. cbn [head_is]. destruct (Ascii.eqb_spec c d) as [->|]; [|done].
      destruct Hc; congruence. }
    by rewrite !Hno.
  - cbn [write_json]. unfold quote. rewrite sapp_cons. cbn [head_is rest_of]. rewrite Ascii.eqb_refl, sapp_assoc.
    change (String dquote "" +++ r) with (String dquote r). by rewrite read_quote.
Qed.

(** ** The fuel is enough *)

Definition total_len (ps : list string) : Z := foldr Z.add 0 (slen <$> ps).

Lemma join_len sep ps :
  1 ≤ slen sep → total_len ps + Z.of_nat (length ps) - 1 ≤ slen (join sep ps).
Proof.
  intros Hs. unfold total_len. induction ps as [|p ps IH]; [done|].
  destruct ps as [|p' ps]; [cbn [fmap list_fmap foldr length join]; lia|]. rewrite join_cons, !slen_app by done.
  cbn [fmap list_fmap foldr length] in *. lia.
Qed.

Lemma wrap_len gap ind op cl parts :
  slen op = 1 → slen cl = 1 → total_len parts + Z.of_nat (length parts) + 1 ≤ slen (wrap gap ind op cl parts).
Proof.
  intros Ho Hc. pose proof (slen_nonneg ind). pose proof (slen_nonneg gap).
  assert (∀ c s, slen (String c s) = 1 + slen s) as Hcons by (intros; unfold slen; cbn; lia).
  destruct parts as [|p parts]; [unfold wrap; rewrite slen_app; cbn; lia|].
  unfold wrap. destruct (gap =? "")%string; rewrite !slen_app.
  - pose proof (join_len "," (p :: parts)). unfold slen in *. cbn in *. lia.
  - rewrite !Hcons, !slen_app. pose proof (join_len ("," +++ String newline (ind +++ gap)) (p :: parts)) as Hj.
    rewrite slen_app, (Hcons newline (ind +++ gap)), slen_app in Hj. change (slen ",") with 1 in *. lia.
Qed.

Lemma weight_len gap ind j : json_ok j = true → Z.of_nat (weight j) ≤ 2 * slen (write_json gap ind j).
Proof.
  revert ind. induction j as [|b|n|s|l Hall|o Hall] using json_induction; intros ind Hok.
  1-4: destruct (write_head gap ind _ Hok) as (c & t & -> & _); unfold slen; cbn; lia.
  - cbn [write_json json_ok weight] in *. pose proof (wrap_len gap ind "[" "]" (List.map (write_json gap (ind +++ gap)) l) eq_refl eq_refl) as Hw.
    assert (Z.of_nat (list_sum (List.map (λ x, S (weight x)) l)) ≤
      2 * total_len (List.map (write_json gap (ind +++ gap)) l) + Z.of_nat (length l)) as Hs.
    { clear Hw. unfold total_len. induction Hall as [|x l Hx Hall IH]; [done|]. cbn [forallb] in Hok.
      apply andb_true_iff in Hok as [Hokx Hok]. specialize (Hx (ind +++ gap) Hokx). specialize (IH Hok).
      cbn [List.map fmap list_fmap foldr length] in *.
      change (list_sum (?a :: ?b)) with (a + list_sum b)%nat. lia. }
    rewrite length_map in Hw. lia.
  - rewrite write_object by done. cbn [json_ok weight] in *. rewrite !andb_true_iff in Hok. destruct Hok as [_ Hok].
    pose proof (wrap_len gap ind "{" "}" (List.map (member_text gap (ind +++ gap)) o) eq_refl eq_refl) as Hw.
    assert (Z.of_nat (list_sum (List.map (λ p, S (weight p.2)) o)) ≤
      2 * total_len (List.map (member_text gap (ind +++ gap)) o) + Z.of_nat (length o)) as Hs.
    { clear Hw. unfold total_len. induction Hall as [|x o Hx Hall IH]; [done|]. cbn [forallb] in Hok.
      apply andb_true_iff in Hok as [Hokx Hok]. specialize (Hx (ind +++ gap) Hokx). specialize (IH Hok).
      cbn [List.map fmap list_fmap foldr length] in *. change (list_sum (?a :: ?b)) with (a + list_sum b)%nat.
      unfold member_text at 1. rewrite !slen_app.
      pose proof (slen_nonneg (quote x.1)). pose proof (slen_nonneg (colon gap)). lia. }
    rewrite length_map in Hw. lia.
Qed.

Lemma spaces_ws n : all_ws (spaces n).
Proof. induction n as [|n IH]; [done|exact IH]. Qed.

(** [JSON.parse(JSON.stringify(j, null, n))] is [j]. *)
Lemma parse_stringify n j : json_ok j = true → json_parse (stringify n j) = Ok j.
Proof.
  intros Hok. unfold json_parse, stringify.
  pose proof (weight_len (spaces (Nat.min n 10)) "" j Hok) as Hw. unfold slen in Hw.
  rewrite <-(sapp_nil_r (write_json _ _ j)) at 2.
  rewrite (json_reads_back j Hok); [done|apply spaces_ws|done|done|lia].
Qed.

(** ** Integers *)

Lemma pretty_N_go_head x s :
  (0 < x)%N → ∃ c t, pretty_N_go x s = String c t ∧ c ≠ "0"%char.
Proof.
  revert s. induction (N.lt_wf_0 x) as [x _ IH]; intros s Hx. rewrite pretty_N_go_step by lia.
  destruct (decide (x `div` 10 = 0)%N) as [Hd|Hd].
  - rewrite Hd, pretty_N_go_0. do 2 eexists. split; [done|].
    assert (x < 10)%N as Hlt by (apply N.div_small_iff in Hd; lia). rewrite N.mod_small by done.
    destruct x as [|p]; [lia|]. do 4 (destruct p as [p|p|]; try done; try lia).
  - apply IH; [apply N.div_lt; lia|by apply N.neq_0_lt_0].
Qed.

Lemma drop_all_digits s : all_chars is_digit s = true → drop_digits s = "".
Proof.
  induction s as [|c s IH]; [done|]. cbn [all_chars drop_digits]. intros [-> Hs]%andb_true_iff. auto.
Qed.

(** The integers that doubles have exactly. *)
Lemma num_ok_int z : 0 ≤ z < 2 ^ 53 → num_ok (num_of_Z z) = true.
Proof.
  intros Hz. pose proof (show_digits z ltac:(lia)) as Hd. pose proof (show_head z ltac:(lia)) as (c & s & Es & Hc).
  unfold num_ok. rewrite num_show_of_Z by lia. rewrite !andb_true_iff, bool_decide_eq_true. split_and!.
  - pose proof (num_int_of_Z z ltac:(lia)) as Hi. by destruct (num_of_Z z).
  - unfold number_ok. rewrite Es. cbn [head_is].
    destruct (Ascii.eqb_spec c "-") as [->|_]; [done|]. cbn [head_digit head_is]. rewrite Hc.
    destruct (Ascii.eqb_spec c "0") as [->|Hc0].
    + assert (z = 0) as ->; [|by injection Es as <-]. destruct z as [|p|p]; [done| |lia].
      change (show (Zpos p)) with (pretty_N_go (Npos p) "") in Es.
      destruct (pretty_N_go_head (Npos p) "" ltac:(lia)) as (c' & t & E & Hne). congruence.
    + rewrite Es in Hd. by rewrite drop_all_digits.
  - clear Es. induction (show z) as [|d t IH]; [done|]. cbn [all_chars] in *.
    apply andb_true_iff in Hd as [Hd Ht]. unfold num_char at 1. rewrite Hd. auto.
  - apply string_to_number_show. lia.
Qed.

(** Names that are no array indices are enumerated in the order they have. *)
Lemma for_in_keys_names ks : Forall (λ k, array_index k = None) ks → for_in_keys ks = ks.
Proof.
  unfold for_in_keys. intros Hk. assert (omap array_index ks = []) as ->.
  { induction Hk as [|k ks Hk' Hk IH]; [done|]. cbn. by rewrite Hk'. }
  cbn. induction Hk as [|k ks Hk' Hk IH]; [done|]. cbn. by rewrite Hk', IH.
Qed.
