(* ===== verification/JsRegExp.v ===== *)
(** * Regular expressions

    The interface the table filter uses: the constructor [new RegExp(p, flags)]
    (with or without the flag [i]; no result is a [SyntaxError]) and the test
    [s.match(re)] as a condition. *)

From S2P Require Import Prelude JsString.

Class RegExpOps := {
  regexp : Type;
  new_RegExp : string → bool → option regexp;
  re_match : regexp → string → bool
}.
