(* ===== verification/RegExpSyntax.v ===== *)
(** * Regular expressions: patterns

    The syntax of ECMA-262 (edition 5.1, with the extensions of its annex B that
    every browser has) as a type, and the constructor [new RegExp(p, flags)] as a
    parser; no result is a [SyntaxError].  A character is its code; the parser
    runs on as many steps as the pattern has characters. *)

From S2P Require Import Prelude JsString.

Definition code (c : ascii) : Z := Z.of_N (N_of_ascii c).

(** A class: ranges of codes, both ends included. *)
Abbreviation ranges := (list (Z * Z)).

Inductive node :=
| NEmpty
| NSet (neg : bool) (rs : ranges)
| NDot
| NStart
| NEnd
| NWord (neg : bool)
| NSeq (a b : node)
| NAlt (a b : node)
| NGroup (i : nat) (a : node)
| NLook (neg : bool) (a : node)
| NBack (i : nat)
| NRep (min : nat) (max : option nat) (greedy : bool) (g0 gn : nat) (a : node).

(** ** Characters *)

Definition NChar (c : Z) : node := NSet false [(c, c)].

Definition r_digit : ranges := [(48, 57)].
Definition r_word : ranges := [(48, 57); (65, 90); (95, 95); (97, 122)].
Definition r_space : ranges := [(9, 13); (32, 32); (160, 160)].

(** All codes that are not in the ranges, which are ascending. *)
Fixpoint complement_from (lo : Z) (rs : ranges) : ranges :=
  match rs with
  | [] => [(lo, 65535)]
  | (a, b) :: rs' => (if lo <? a then [(lo, a - 1)] else []) ++ complement_from (b + 1) rs'
  end.
Definition complement : ranges → ranges := complement_from 0.

Definition is_dec (c : ascii) : bool := (48 <=? code c) && (code c <=? 57).
Definition is_letter (c : ascii) : bool :=
  (65 <=? code c) && (code c <=? 90) || (97 <=? code c) && (code c <=? 122).
Definition hex_digit (c : ascii) : option Z :=
  if is_dec c then Some (code c - 48)
  else if (65 <=? code c) && (code c <=? 70) then Some (code c - 55)
  else if (97 <=? code c) && (code c <=? 102) then Some (code c - 87)
  else None.

(** [n] hexadecimal digits. *)
Fixpoint take_hex (n : nat) (acc : Z) (s : string) : option (Z * string) :=
  match n, s with
  | O, _ => Some (acc, s)
  | S n', String c s' => d ← hex_digit c; take_hex n' (acc * 16 + d) s'
  | S _, EmptyString => None
  end.

Fixpoint take_dec (s : string) (acc : Z) (n : nat) : Z * nat * string :=
  match s with
  | String c s' => if is_dec c then take_dec s' (acc * 10 + (code c - 48)) (S n) else (acc, n, s)
  | EmptyString => (acc, n, s)
  end.

(** Up to [n] octal digits with a value below 256. *)
Fixpoint take_octal (n : nat) (acc : Z) (s : string) : Z * string :=
  match n, s with
  | S n', String c s' =>
      if (48 <=? code c) && (code c <=? 55) && (acc * 8 + (code c - 48) <? 256)
      then take_octal n' (acc * 8 + (code c - 48)) s' else (acc, s)
  | _, _ => (acc, s)
  end.

(** ** Escapes *)

Inductive escape := EChar (c : Z) | EClass (rs : ranges).

(** Behind a backslash, apart from what differs inside and outside of classes:
    assertions, back references and the letter [c]. *)
Definition take_escape (s : string) : option (escape * string) :=
  match s with
  | EmptyString => None
  | String c s' =>
      let n := code c in
      let class rs := Some (EClass rs, s') in
      let char k := Some (EChar k, s') in
      if (c =? "d")%char then class r_digit
      else if (c =? "D")%char then class (complement r_digit)
      else if (c =? "w")%char then class r_word
      else if (c =? "W")%char then class (complement r_word)
      else if (c =? "s")%char then class r_space
      else if (c =? "S")%char then class (complement r_space)
      else if (c =? "t")%char then char 9
      else if (c =? "n")%char then char 10
      else if (c =? "v")%char then char 11
      else if (c =? "f")%char then char 12
      else if (c =? "r")%char then char 13
      else if (c =? "x")%char then
        match take_hex 2 0 s' with Some (k, r) => Some (EChar k, r) | None => char n end
      else if (c =? "u")%char then
        match take_hex 4 0 s' with Some (k, r) => Some (EChar k, r) | None => char n end
      else if (48 <=? n) && (n <=? 55) then
        let '(k, r) := take_octal 3 0 s in Some (EChar k, r)
      else char n
  end.

(** [\c] with a letter is a control character, otherwise a backslash. *)
Definition take_control (in_class : bool) (s : string) : option (Z * string) :=
  match s with
  | String c s' =>
      if is_letter c || (in_class && (is_dec c || (c =? "_")%char))
      then Some (code c mod 32, s') else None
  | EmptyString => None
  end.

Definition backslash : ascii := "\".

(** ** Classes *)

(** One atom of a class. *)
Definition class_atom (s : string) : option (escape * string) :=
  match s with
  | EmptyString => None
  | String c s' =>
      if (c =? backslash)%char then
        match s' with
        | EmptyString => None
        | String e s'' =>
            if (e =? "b")%char then Some (EChar 8, s'')
            else if (e =? "c")%char then
              match take_control true s'' with
              | Some (k, r) => Some (EChar k, r)
              | None => Some (EChar (code backslash), s')
              end
            else take_escape s'
        end
      else Some (EChar (code c), s')
  end.

Definition escape_ranges (e : escape) : ranges :=
  match e with EChar c => [(c, c)] | EClass rs => rs end.

(** The ranges up to the closing bracket. *)
Fixpoint class_body (fuel : nat) (s : string) (acc : ranges) : option (ranges * string) :=
  match fuel with
  | O => None
  | S fuel' =>
      match s with
      | EmptyString => None
      | String c s0 =>
          if (c =? "]")%char then Some (acc, s0)
          else
            '(a, s1) ← class_atom s;
            match s1 with
            | String d s2 =>
                if (d =? "-")%char then
                  match s2 with
                  | String e _ =>
                      if (e =? "]")%char
                      then class_body fuel' s2 (acc ++ escape_ranges a ++ [(45, 45)])
                      else
                        '(b, s3) ← class_atom s2;
                        match a, b with
                        | EChar lo, EChar hi =>
                            if hi <? lo then None
                            else class_body fuel' s3 (acc ++ [(lo, hi)])
                        | _, _ => class_body fuel' s3
                                    (acc ++ escape_ranges a ++ [(45, 45)] ++ escape_ranges b)
                        end
                  | EmptyString => None
                  end
                else class_body fuel' s1 (acc ++ escape_ranges a)
            | EmptyString => None
            end
      end
  end.

Definition take_class (s : string) : option (node * string) :=
  match s with
  | String c s' =>
      if (c =? "^")%char
      then '(rs, r) ← class_body (S (String.length s)) s' []; Some (NSet true rs, r)
      else '(rs, r) ← class_body (S (String.length s)) s []; Some (NSet false rs, r)
  | EmptyString => None
  end.

(** ** Quantifiers *)

(** [{n}], [{n,}] and [{n,m}], behind the brace. *)
Definition take_braces (s : string) : option (nat * option nat * string) :=
  let '(n, k, s1) := take_dec s 0 0 in
  if (k =? 0)%nat then None
  else match s1 with
       | String c s2 =>
           if (c =? "}")%char then Some (Z.to_nat n, Some (Z.to_nat n), s2)
           else if (c =? ",")%char then
             let '(m, j, s3) := take_dec s2 0 0 in
             match s3 with
             | String d s4 =>
                 if (d =? "}")%char
                 then Some (Z.to_nat n, if (j =? 0)%nat then None else Some (Z.to_nat m), s4)
                 else None
             | EmptyString => None
             end
           else None
       | EmptyString => None
       end.

(** A quantifier, if the text starts with one. *)
Definition take_quantifier (s : string) : option (nat * option nat * string) :=
  match s with
  | String c s' =>
      if (c =? "*")%char then Some (0%nat, None, s')
      else if (c =? "+")%char then Some (1%nat, None, s')
      else if (c =? "?")%char then Some (0%nat, Some 1%nat, s')
      else if (c =? "{")%char then take_braces s'
      else None
  | EmptyString => None
  end.

(** The node behind its quantifier, if it has one; [g0] and [gn] are the groups
    opened before and at the end of it.  A maximum below the minimum is an error. *)
Definition quantified (a : node) (g0 gn : nat) (s : string) : option (node * string) :=
  match take_quantifier s with
  | None => Some (a, s)
  | Some (min, max, s1) =>
      if match max with Some m => (m <? min)%nat | None => false end then None
      else match s1 with
           | String c s2 =>
               if (c =? "?")%char then Some (NRep min max false g0 gn a, s2)
               else Some (NRep min max true g0 gn a, s1)
           | EmptyString => Some (NRep min max true g0 gn a, s1)
           end
  end.

(** ** Patterns *)

(** The number of capturing groups of a pattern. *)
Fixpoint count_groups (in_class : bool) (s : string) : nat :=
  match s with
  | EmptyString => 0
  | String c s' =>
      if (c =? backslash)%char then match s' with String _ s'' => count_groups in_class s'' | _ => 0 end
      else if in_class then count_groups (negb (c =? "]")%char) s'
      else if (c =? "[")%char then count_groups true s'
      else if (c =? "(")%char then
        match s' with
        | String d _ => if (d =? "?")%char then count_groups false s' else S (count_groups false s')
        | EmptyString => 1
        end
      else count_groups false s'
  end.

(** An atom that starts with a backslash, behind it. *)
Definition escaped_atom (total : nat) (s : string) : option (node * string) :=
  match s with
  | EmptyString => None
  | String c s' =>
      let escape :=
        '(e, r) ← take_escape s;
        Some (match e with EChar k => NChar k | EClass rs => NSet false rs end, r) in
      if (c =? "c")%char then
        match take_control false s' with
        | Some (k, r) => Some (NChar k, r)
        | None => Some (NChar (code backslash), s)
        end
      else if is_dec c && negb (c =? "0")%char then
        let '(n, _, r) := take_dec s 0 0 in
        if n <=? Z.of_nat total then Some (NBack (Z.to_nat n), r) else escape
      else escape
  end.

(** What [take_term] may find. *)
Definition starts (s : string) (c : ascii) : bool :=
  match s with String d _ => (d =? c)%char | EmptyString => false end.

Definition tail (s : string) : string := match s with String _ s' => s' | EmptyString => "" end.

(** ** The parser *)

Section alternative.
Context (total : nat) (disj : nat → string → option (node * string * nat)).

(** The terms up to a bar, a closing parenthesis or the end; [disj] parses what
    is inside of parentheses.  [n] is the number of groups opened so far; the
    results are the node, the rest and the new number. *)
Fixpoint alternative (k : nat) (n : nat) (s : string) : option (node * string * nat) :=
  match k with
  | O => None
  | S k' =>
      let after (a : node) (n0 n1 : nat) (r : string) :=
        '(b, r') ← quantified a n0 n1 r;
        '(rest, r'', n2) ← alternative k' n1 r';
        Some (NSeq b rest, r'', n2) in
      let assertion (a : node) (r : string) :=
        match take_quantifier r with
        | Some _ => None
        | None => '(rest, r', n2) ← alternative k' n r; Some (NSeq a rest, r', n2)
        end in
      match s with
      | EmptyString => Some (NEmpty, s, n)
      | String c s' =>
          if (c =? "|")%char || (c =? ")")%char then Some (NEmpty, s, n)
          else if (c =? "^")%char then assertion NStart s'
          else if (c =? "$")%char then assertion NEnd s'
          else if (c =? "(")%char then
            if starts s' "?" then
              let inner := tail (tail s') in
              let close (mk : node → node) :=
                '(d, r, n1) ← disj n inner;
                if starts r ")" then after (mk d) n n1 (tail r) else None in
              if starts (tail s') ":" then close (λ d, d)
              else if starts (tail s') "=" then close (NLook false)
              else if starts (tail s') "!" then close (NLook true)
              else None
            else
              '(d, r, n1) ← disj (S n) s';
              if starts r ")" then after (NGroup (S n) d) n n1 (tail r) else None
          else if (c =? ".")%char then after NDot n n s'
          else if (c =? "[")%char then '(a, r) ← take_class s'; after a n n r
          else if (c =? backslash)%char then
            if starts s' "b" then assertion (NWord false) (tail s')
            else if starts s' "B" then assertion (NWord true) (tail s')
            else '(a, r) ← escaped_atom total s'; after a n n r
          else match take_quantifier s with
               | Some _ => None
               | None => after (NChar (code c)) n n s'
               end
      end
  end.
End alternative.

Fixpoint disjunction (total fuel : nat) (n : nat) (s : string) : option (node * string * nat) :=
  match fuel with
  | O => None
  | S fuel' =>
      '(a, r, n1) ← alternative total (disjunction total fuel') (S (String.length s)) n s;
      if starts r "|"
      then '(b, r', n2) ← disjunction total fuel' n1 (tail r); Some (NAlt a b, r', n2)
      else Some (a, r, n1)
  end.

(** The whole pattern; a closing parenthesis too many is an error. *)
Definition parse_pattern (p : string) : option node :=
  '(d, r, _) ← disjunction (count_groups false p) (S (String.length p)) 0 p;
  if (r =? "")%string then Some d else None.
