(* ===== verification/RegExpParse.v ===== *)
(** * Regular expressions: the steps of the parser are enough

    [parse_pattern] gives its loops as many steps as the pattern has characters,
    and no result means a [SyntaxError].  Every function of the parser leaves a
    rest that is no longer than its text, so more steps never change a result. *)

From S2P Require Import Prelude JsString RegExpSyntax.

Abbreviation len := String.length.

Lemma bind_some {A B} (o : option A) (f : A → option B) b : (o ≫= f) = Some b → ∃ a, o = Some a ∧ f a = Some b.
Proof. destruct o; [eauto|done]. Qed.

(** Case analysis on what a partial function of the parser did. *)
Ltac opt_step :=
  match goal with
  | H : Some _ = Some _ |- _ => injection H as ?; subst
  | H : None = Some _ |- _ => discriminate H
  | H : (_ ≫= _) = Some _ |- _ => apply bind_some in H as (? & ? & H)
  | p : (_ * _)%type |- _ => destruct p
  | H : (if ?b then _ else _) = Some _ |- _ => destruct b
  | H : match ?s with EmptyString => _ | String _ _ => _ end = Some _ |- _ => destruct s
  | H : match ?o with Some _ => _ | None => _ end = Some _ |- _ => destruct o eqn:?
  | H : match ?e with EChar _ => _ | EClass _ => _ end = Some _ |- _ => destruct e
  | H : (let '(_, _) := ?p in _) = Some _ |- _ => destruct p eqn:?
  end.
Ltac opt_steps := repeat opt_step.

(** ** The rest is no longer than the text *)

Lemma take_hex_rest n acc s k r : take_hex n acc s = Some (k, r) → (len r ≤ len s)%nat.
Proof.
  revert acc s. induction n as [|n IH]; intros acc [|c s] H; cbn in H; try by opt_steps.
  apply bind_some in H as (d & _ & H%IH). cbn. lia.
Qed.

Lemma take_dec_rest s acc n z m r : take_dec s acc n = (z, m, r) → (len r + (m - n) ≤ len s ∧ n ≤ m)%nat.
Proof.
  revert acc n. induction s as [|c s IH]; intros acc n H; cbn in H; [simplify_eq; cbn; lia|].
  destruct (is_dec c); [|simplify_eq; cbn; lia]. apply IH in H. cbn. lia.
Qed.

Lemma take_octal_rest n acc s k r : take_octal n acc s = (k, r) → (len r ≤ len s)%nat.
Proof.
  revert acc s. induction n as [|n IH]; intros acc [|c s] H; cbn in H; try by simplify_eq.
  destruct (_ && _ && _); [apply IH in H; cbn; lia|by simplify_eq].
Qed.

Lemma take_escape_rest s e r : take_escape s = Some (e, r) → (len r ≤ len s)%nat.
Proof.
  destruct s as [|c s]; [done|]. unfold take_escape. intros H. opt_steps; cbn [String.length];
    repeat match goal with
    | E : take_hex _ _ _ = Some _ |- _ => apply take_hex_rest in E
    | E : take_octal _ _ _ = _ |- _ => apply take_octal_rest in E; cbn [String.length] in E
    end; lia.
Qed.

Lemma take_control_rest b s k r : take_control b s = Some (k, r) → (len r ≤ len s)%nat.
Proof. destruct s as [|c s]; [done|]. unfold take_control. intros H. opt_steps. cbn. lia. Qed.

Lemma class_atom_rest s e r : class_atom s = Some (e, r) → (len r < len s)%nat.
Proof.
  destruct s as [|c s]; [done|]. unfold class_atom. intros H. opt_steps; cbn [String.length];
    repeat match goal with
    | E : take_control _ _ = Some _ |- _ => apply take_control_rest in E
    | E : take_escape _ = Some _ |- _ => apply take_escape_rest in E
    end; cbn [String.length] in *; lia.
Qed.

Lemma class_body_rest f s acc rs r : class_body f s acc = Some (rs, r) → (len r < len s)%nat.
Proof.
  revert s acc. induction f as [|f IH]; intros s acc H; [done|]. cbn [class_body] in H.
  destruct s as [|c s]; [done|]. opt_steps; [cbn; lia|..];
    repeat match goal with
    | E : class_atom _ = Some _ |- _ => apply class_atom_rest in E
    | E : class_body _ _ _ = Some _ |- _ => apply IH in E
    end; cbn [String.length] in *; lia.
Qed.

Lemma take_class_rest s a r : take_class s = Some (a, r) → (len r < len s)%nat.
Proof.
  unfold take_class. intros H. opt_steps;
    match goal with E : class_body _ _ _ = Some _ |- _ => apply class_body_rest in E end;
    cbn [String.length] in *; lia.
Qed.

Lemma take_braces_rest s min max r : take_braces s = Some (min, max, r) → (len r < len s)%nat.
Proof.
  unfold take_braces. intros H. opt_steps;
    repeat match goal with E : take_dec _ _ _ = _ |- _ => apply take_dec_rest in E end;
    cbn [String.length] in *; lia.
Qed.

Lemma take_quantifier_rest s min max r : take_quantifier s = Some (min, max, r) → (len r < len s)%nat.
Proof.
  unfold take_quantifier. intros H. opt_steps; cbn [String.length]; try lia.
  apply take_braces_rest in H. lia.
Qed.

Lemma quantified_rest a g0 gn s b r : quantified a g0 gn s = Some (b, r) → (len r ≤ len s)%nat.
Proof.
  unfold quantified. intros H. opt_steps;
    repeat match goal with E : take_quantifier _ = Some _ |- _ => apply take_quantifier_rest in E end;
    cbn [String.length] in *; lia.
Qed.

Lemma escaped_atom_rest total s a r : escaped_atom total s = Some (a, r) → (len r ≤ len s)%nat.
Proof.
  unfold escaped_atom. intros H. destruct s as [|c s]; [done|]. opt_steps;
    repeat match goal with
    | E : take_dec _ _ _ = _ |- _ => apply take_dec_rest in E
    | E : take_escape _ = Some _ |- _ => apply take_escape_rest in E
    | E : take_control _ _ = Some _ |- _ => apply take_control_rest in E
    end; cbn [String.length] in *; lia.
Qed.

Lemma tail_rest s : (len (tail s) ≤ len s)%nat.
Proof. destruct s; cbn; lia. Qed.

Lemma alternative_rest total disj k n s d r m :
  (∀ n s d r m, disj n s = Some (d, r, m) → (len r ≤ len s)%nat) →
  alternative total disj k n s = Some (d, r, m) → (len r ≤ len s)%nat.
Proof.
  intros Hd. revert n s d r m. induction k as [|k IH]; intros n s d r m H; [done|].
  cbn [alternative] in H. destruct s as [|c s]; [by opt_steps|].
  opt_steps;
    repeat match goal with
    | E : disj _ _ = Some _ |- _ => apply Hd in E
    | E : quantified _ _ _ _ = Some _ |- _ => apply quantified_rest in E
    | E : take_class _ = Some _ |- _ => apply take_class_rest in E
    | E : escaped_atom _ _ = Some _ |- _ => apply escaped_atom_rest in E
    | E : alternative _ _ _ _ _ = Some _ |- _ => apply IH in E
    end;
    repeat match goal with
    | E : context [len (tail ?x)] |- _ =>
        lazymatch goal with T : (len (tail x) ≤ len x)%nat |- _ => fail | _ => pose proof (tail_rest x) end
    end; cbn [String.length] in *; lia.
Qed.

Lemma disjunction_rest total f n s d r m :
  disjunction total f n s = Some (d, r, m) → (len r ≤ len s)%nat.
Proof.
  revert n s d r m. induction f as [|f IH]; intros n s d r m H; [done|]. cbn [disjunction] in H.
  opt_steps;
    repeat match goal with
    | E : alternative _ _ _ _ _ = Some _ |- _ => apply (alternative_rest _ _ _ _ _ _ _ _ IH) in E
    | E : disjunction _ _ _ _ = Some _ |- _ => apply IH in E
    end; [|lia].
  match goal with E : context [tail ?x] |- _ => pose proof (tail_rest x) end. lia.
Qed.

(** ** More steps change nothing *)

Lemma bind_ext_some {A B} (o : option A) (f g : A → option B) :
  (∀ a, o = Some a → f a = g a) → (o ≫= f) = (o ≫= g).
Proof. destruct o; cbn; auto. Qed.

Lemma starts_tail r c : starts r c = true → (len (tail r) < len r)%nat.
Proof. destruct r; cbn; [done|lia]. Qed.

(** Equal up to the branch that is taken: split the tests and the results of the
    functions that do not loop. *)
Ltac same_branch :=
  repeat match goal with
  | |- ?x = ?x => reflexivity
  | |- (?o ≫= _) = (?o ≫= _) =>
      apply bind_ext_some; let H := fresh "Hres" in intros ? H;
      repeat match goal with p : (_ * _)%type |- _ => destruct p end
  | |- (if ?b then _ else _) = (if ?b then _ else _) => destruct b eqn:?
  | |- match ?o with Some _ => _ | None => _ end = match ?o with Some _ => _ | None => _ end => destruct o
  end.

Lemma class_body_steps f1 f2 s acc :
  (len s < f1)%nat → (len s < f2)%nat → class_body f1 s acc = class_body f2 s acc.
Proof.
  revert f2 s acc. induction f1 as [|f1 IH]; intros f2 s acc H1 H2; [lia|]. destruct f2 as [|f2]; [lia|].
  cbn [class_body]. destruct s as [|c s]; [done|]. cbn [String.length] in *. same_branch.
  destruct s0 as [|d s0]; [done|]. apply class_atom_rest in Hres. cbn [String.length] in *. same_branch.
  - destruct s0 as [|e0 s0]; [done|]. cbn [String.length] in *. same_branch; [by apply IH; cbn; lia|].
    apply class_atom_rest in Hres0. cbn [String.length] in *.
    destruct e, e1; same_branch; apply IH; lia.
  - apply IH; cbn; lia.
Qed.

Lemma alternative_steps total d1 d2 k1 k2 n s :
  (∀ n s', (len s' < len s)%nat → d1 n s' = d2 n s') →
  (∀ n s d r m, d2 n s = Some (d, r, m) → (len r ≤ len s)%nat) →
  (len s < k1)%nat → (len s < k2)%nat →
  alternative total d1 k1 n s = alternative total d2 k2 n s.
Proof.
  intros Hd Hr. revert k2 n s Hd. induction k1 as [|k1 IH]; intros k2 n s Hd H1 H2; [lia|].
  destruct k2 as [|k2]; [lia|]. destruct s as [|c s]; [done|]. cbn [String.length] in *.
  assert (∀ n s', (len s' ≤ len s)%nat → alternative total d1 k1 n s' = alternative total d2 k2 n s') as Hrec.
  { intros n' s' Hs'. apply IH; [intros; apply Hd|..]; lia. }
  pose proof (tail_rest s). pose proof (tail_rest (tail s)).
  cbn [alternative]. same_branch; rewrite ?Hd by lia; same_branch; rewrite ?Hrec by lia; try done;
    repeat match goal with
    | E : quantified _ _ _ _ = Some _ |- _ => apply quantified_rest in E
    | E : d2 _ _ = Some _ |- _ => apply Hr in E
    | E : starts _ ")" = true |- _ => apply starts_tail in E
    | E : take_class _ = Some _ |- _ => apply take_class_rest in E
    | E : escaped_atom _ _ = Some _ |- _ => apply escaped_atom_rest in E
    end; by rewrite Hrec by lia.
Qed.

(** Any number of steps above the length of the text gives the same result. *)
Lemma disjunction_steps total f1 f2 n s :
  (len s < f1)%nat → (len s < f2)%nat → disjunction total f1 n s = disjunction total f2 n s.
Proof.
  revert f2 n s. induction f1 as [|f1 IH]; intros f2 n s H1 H2; [lia|]. destruct f2 as [|f2]; [lia|].
  cbn [disjunction].
  rewrite (alternative_steps total _ (disjunction total f2) _ (S (len s)) n s);
    [|intros; apply IH; lia|apply disjunction_rest|lia|lia].
  same_branch. apply (alternative_rest _ _ _ _ _ _ _ _ (disjunction_rest total f2)) in Hres.
  match goal with E : starts _ _ = true |- _ => apply starts_tail in E end. by rewrite (IH f2) by lia.
Qed.
