(* ===== verification/RegExpEngine.v ===== *)
(** * Regular expressions: matching

    The matcher of ECMA-262, section 15.10.2: a node takes a state and a
    continuation, and the first success in the order of the alternatives is the
    result.  A repetition that may stop makes no step on an empty match, so the
    rest of the text bounds it and the matcher is a total function.

    [EsRegExp] is the instance of the interface that the table uses.  The
    patterns that the widgets contain are compared with the functions of the
    model that stand for them. *)

From S2P Require Import Prelude JsString JsRegExp RegExpSyntax.

(** ** Characters *)

(** The codes with the same upper case form as a character of the alphabet. *)
Definition case_mates (c : Z) : list Z :=
  if ((65 <=? c) && (c <=? 90)) then [c + 32]
  else if ((97 <=? c) && (c <=? 122)) then [c - 32]
  else if ((192 <=? c) && (c <=? 222) && negb (c =? 215)) then [c + 32]
  else if ((224 <=? c) && (c <=? 254) && negb (c =? 247)) then [c - 32]
  else if (c =? 255) then [376]
  else if (c =? 181) then [924; 956]
  else [].

Definition in_ranges (rs : ranges) (c : Z) : bool :=
  existsb (λ '(lo, hi), (lo <=? c) && (c <=? hi)) rs.

(** Whether a class has the character, with or without the flag [i]. *)
Definition set_has (i : bool) (rs : ranges) (c : Z) : bool :=
  in_ranges rs c || (i && existsb (in_ranges rs) (case_mates c)).

Definition same_char (i : bool) (a b : ascii) : bool :=
  (a =? b)%char || (i && existsb (λ m, (m =? code b)) (case_mates (code a))).

Definition is_line_end (c : ascii) : bool := (c =? newline)%char || (c =? creturn)%char.

Definition is_word (o : option ascii) : bool :=
  match o with Some c => in_ranges r_word (code c) | None => false end.

(** ** States *)

(** The character in front, the text that follows and the captures. *)
Record mstate := mkState {
  m_prev : option ascii;
  m_rest : string;
  m_caps : list (nat * string)
}.

Definition m_next (x : mstate) : option ascii :=
  match m_rest x with String c _ => Some c | EmptyString => None end.

(** One character that satisfies [p]. *)
Definition step (p : ascii → bool) (x : mstate) : option mstate :=
  match m_rest x with
  | String c s => if p c then Some (mkState (Some c) s (m_caps x)) else None
  | EmptyString => None
  end.

(** The text [t], up to case with the flag [i]. *)
Fixpoint step_text (i : bool) (t : string) (x : mstate) : option mstate :=
  match t with
  | EmptyString => Some x
  | String c t' => x' ← step (same_char i c) x; step_text i t' x'
  end.

Fixpoint cap_get (k : nat) (cs : list (nat * string)) : option string :=
  match cs with
  | [] => None
  | (j, t) :: cs' => if (j =? k)%nat then Some t else cap_get k cs'
  end.

(** The groups from [S g0] to [gn] lose their captures. *)
Definition reset (g0 gn : nat) (x : mstate) : mstate :=
  mkState (m_prev x) (m_rest x)
    (List.filter (λ '(j, _), negb ((g0 <? j) && (j <=? gn))%nat) (m_caps x)).

(** The text between two states. *)
Definition between (x y : mstate) : string :=
  stake (String.length (m_rest x) - String.length (m_rest y)) (m_rest x).

Definition capture (k : nat) (x y : mstate) : mstate :=
  mkState (m_prev y) (m_rest y)
    ((k, between x y) :: List.filter (λ '(j, _), negb (j =? k)%nat) (m_caps y)).

(** ** The matcher *)

Abbreviation cont := (mstate → option mstate).

Definition or_try (a : option mstate) (b : option mstate) : option mstate :=
  match a with Some y => Some y | None => b end.

Definition fewer (max : option nat) : option nat := pred <$> max.

Section repeat.
Context (body : mstate → cont → option mstate) (greedy : bool) (g0 gn : nat) (c : cont).

(** The repetition when it may stop: [n] is the length of the text that is
    left, and each step shortens it. *)
Fixpoint repeat_some (n : nat) (max : option nat) (x : mstate) : option mstate :=
  match max, n with
  | Some O, _ | _, O => c x
  | _, S n' =>
      let d y := if (String.length (m_rest y) <? String.length (m_rest x))%nat
                 then repeat_some n' (fewer max) y else None in
      if greedy then or_try (body (reset g0 gn x) d) (c x)
      else or_try (c x) (body (reset g0 gn x) d)
  end.

(** The repetition with [min] steps that have to be made. *)
Fixpoint repeat_from (min : nat) (max : option nat) (x : mstate) : option mstate :=
  match min with
  | O => repeat_some (String.length (m_rest x)) max x
  | S min' =>
      match max with
      | Some O => c x
      | _ => body (reset g0 gn x) (λ y, repeat_from min' (fewer max) y)
      end
  end.
End repeat.

Fixpoint matches (i : bool) (r : node) (x : mstate) (c : cont) {struct r} : option mstate :=
  match r with
  | NEmpty => c x
  | NSet neg rs => step (λ a, xorb neg (set_has i rs (code a))) x ≫= c
  | NDot => step (λ a, negb (is_line_end a)) x ≫= c
  | NStart => match m_prev x with None => c x | Some _ => None end
  | NEnd => match m_rest x with EmptyString => c x | _ => None end
  | NWord neg => if xorb neg (xorb (is_word (m_prev x)) (is_word (m_next x))) then c x else None
  | NSeq a b => matches i a x (λ y, matches i b y c)
  | NAlt a b => or_try (matches i a x c) (matches i b x c)
  | NGroup k a => matches i a x (λ y, c (capture k x y))
  | NLook neg a =>
      match matches i a x Some with
      | Some y => if neg then None else c (mkState (m_prev x) (m_rest x) (m_caps y))
      | None => if neg then c x else None
      end
  | NBack k => match cap_get k (m_caps x) with Some t => step_text i t x ≫= c | None => c x end
  | NRep min max greedy g0 gn a => repeat_from (matches i a) greedy g0 gn c min max x
  end.

(** ** Searching *)

(** The first match at or behind the state: where it starts and where it ends. *)
Fixpoint search (i : bool) (r : node) (prev : option ascii) (s : string) : option (mstate * mstate) :=
  let x := mkState prev s [] in
  match matches i r x Some with
  | Some y => Some (x, y)
  | None => match s with String c s' => search i r (Some c) s' | EmptyString => None end
  end.

Definition found (i : bool) (r : node) (s : string) : bool :=
  match search i r None s with Some _ => true | None => false end.

Definition EsRegExp : RegExpOps := {|
  regexp := node * bool;
  new_RegExp p i := r ← parse_pattern p; Some (r, i);
  re_match r s := found r.2 r.1 s
|}.

(** The parsed form of a pattern of the source. *)
Definition pattern (p : string) : node := default NEmpty (parse_pattern p).

(** [s.replace(r, f(captures))] for an expression without the flag [g]. *)
Definition replace_one (r : node) (f : list (nat * string) → string) (s : string) : string :=
  match search false r None s with
  | Some (x, y) =>
      stake (String.length s - String.length (m_rest x)) s +++ f (m_caps y) +++ m_rest y
  | None => s
  end.

(** [s.replace(r, '')] with the flag [g], for an expression whose matches are
    not empty. *)
Fixpoint remove_all (fuel : nat) (r : node) (prev : option ascii) (s : string) : string :=
  match fuel with
  | O => s
  | S fuel' =>
      match search false r prev s with
      | Some (x, y) =>
          stake (String.length s - String.length (m_rest x)) s +++ remove_all fuel' r (m_prev y) (m_rest y)
      | None => s
      end
  end.

(** ** Examples of the standard *)

Example standard_examples :
  (m_caps <$> (snd <$> search false (pattern "(z)((a+)?(b+)?(c))*") None "zaacbbbcac")) =
    Some [(2, "ac"); (5, "c"); (3, "a"); (1, "z")]%nat ∧
  (m_caps <$> (snd <$> search false (pattern "(?=(a+))a*b\1") None "baaabac")) = Some [(1, "a")]%nat ∧
  (m_caps <$> (snd <$> search false (pattern "(.*?)a(?!(a+)b\2c)\2(.*)") None "baaabaac")) =
    Some [(3, "abaac"); (1, "ba")]%nat ∧
  (m_rest <$> (snd <$> search false (pattern "a[a-z]{2,4}?") None "abcdefghi")) = Some "defghi" ∧
  (m_caps <$> (snd <$> search false (pattern "(a*)*") None "b")) = Some [] ∧
  parse_pattern "a**" = None ∧ parse_pattern "(" = None ∧ parse_pattern "[b-a]" = None.
Proof. vm_compute. done. Qed.
