(* ===== verification/RegExpFacts.v ===== *)
(** * Regular expressions: facts about the matcher

    How the matcher behaves on the shapes that the patterns of the program have:
    plain words, anchored patterns and repetitions of one character. *)

From S2P Require Import Prelude JsString JsRegExp RegExpSyntax RegExpEngine.

(** ** Characters *)

Lemma code_eqb a b : (code a =? code b) = (a =? b)%char.
Proof.
  unfold code. destruct (Ascii.eqb_spec a b) as [->|Hab]; [apply Z.eqb_refl|].
  apply Z.eqb_neq. intros Heq%N2Z.inj. apply Hab.
  by rewrite <-(ascii_N_embedding a), <-(ascii_N_embedding b), Heq.
Qed.

(** A class of one character. *)
Lemma set_has_char i a b : set_has i [(code a, code a)] (code b) = same_char i b a.
Proof.
  assert (∀ n, in_ranges [(code a, code a)] n = (n =? code a)) as Hin.
  { intros n. unfold in_ranges. cbn [existsb]. rewrite orb_false_r.
    destruct (Z.eqb_spec n (code a)) as [->|]; [by rewrite Z.leb_refl|].
    destruct (Z.leb_spec (code a) n), (Z.leb_spec n (code a)); try done. lia. }
  unfold set_has, same_char. rewrite Hin, code_eqb. f_equal. f_equal.
  induction (case_mates (code b)) as [|m ms IH]; [done|]. cbn [existsb]. by rewrite Hin, IH.
Qed.

Lemma same_char_exact a b : same_char false a b = (a =? b)%char.
Proof. unfold same_char. by rewrite andb_false_l, orb_false_r. Qed.

(** ** Steps *)

Lemma matches_set i neg rs x c :
  matches i (NSet neg rs) x c =
  match m_rest x with
  | String a s => if xorb neg (set_has i rs (code a)) then c (mkState (Some a) s (m_caps x)) else None
  | EmptyString => None
  end.
Proof. cbn. unfold step. destruct (m_rest x) as [|a s]; [done|]. by case_match. Qed.

Lemma matches_char i a x c :
  matches i (NChar (code a)) x c =
  match m_rest x with
  | String b s => if same_char i b a then c (mkState (Some b) s (m_caps x)) else None
  | EmptyString => None
  end.
Proof.
  unfold NChar. rewrite matches_set. destruct (m_rest x) as [|b s]; [done|].
  by rewrite set_has_char, xorb_false_l.
Qed.

Lemma reset_none g x : reset g g x = x.
Proof.
  destruct x as [p s cs]. unfold reset. simpl. f_equal.
  induction cs as [|[j t] cs IH]; [done|]. cbn [List.filter].
  destruct (Nat.ltb_spec g j), (Nat.leb_spec j g); try lia; cbn [andb negb]; by f_equal.
Qed.

(** ** Anchored patterns *)

Lemma search_anchored_later i r a s : search i (NSeq NStart r) (Some a) s = None.
Proof. revert a. induction s as [|b s IH]; intros a; cbn; [done|apply IH]. Qed.

(** A pattern that starts with [^] is tried at the start only. *)
Lemma search_anchored i r s :
  search i (NSeq NStart r) None s =
  (λ y, (mkState None s [], y)) <$> matches i r (mkState None s []) Some.
Proof.
  destruct s as [|a s]; cbn [search matches m_prev]; destruct (matches i r _ Some) eqn:E; try done.
  by rewrite search_anchored_later.
Qed.

(** ** Repetitions of one character *)

(** The state behind the longest run of characters that satisfy [p]. *)
Fixpoint run_from (p : ascii → bool) (prev : option ascii) (s : string) : option ascii * string :=
  match s with
  | String a s' => if p a then run_from p (Some a) s' else (prev, s)
  | EmptyString => (prev, s)
  end.

Definition behind (p : ascii → bool) (x : mstate) : mstate :=
  let '(prev, s) := run_from p (m_prev x) (m_rest x) in mkState prev s (m_caps x).

(** The node reads one character that satisfies [p]. *)
Definition one_char (i : bool) (r : node) (p : ascii → bool) : Prop :=
  ∀ x c, matches i r x c =
    match m_rest x with
    | String a s => if p a then c (mkState (Some a) s (m_caps x)) else None
    | EmptyString => None
    end.

(** A greedy repetition whose continuation fails wherever another character
    could be read stops behind the longest run. *)
Lemma greedy_run i r p g c n x :
  one_char i r p → n = String.length (m_rest x) →
  (∀ y a s, m_rest y = String a s → p a = true → c y = None) →
  repeat_some (matches i r) true g g c n None x = c (behind p x).
Proof.
  intros Hr Hn Hc. revert x Hn. induction n as [|n IH]; intros [prev s cs] Hn; simpl in Hn.
  - destruct s; [|done]. done.
  - destruct s as [|a s]; [done|]. cbn [repeat_some]. rewrite reset_none, Hr. cbn [m_rest m_caps m_prev].
    unfold behind. cbn [m_rest m_prev m_caps run_from]. destruct (p a) eqn:Ep; [|done].
    cbn [m_rest String.length]. rewrite (proj2 (Nat.ltb_lt _ _)) by lia.
    change (fewer None) with (@None nat). rewrite IH by (simpl in *; lia).
    unfold behind. cbn [m_rest m_prev m_caps].
    destruct (run_from p (Some a) s) as [pr s']. rewrite (Hc (mkState prev (String a s) cs)) with (a := a) (s := s) by done.
    unfold or_try. by case_match.
Qed.

Lemma greedy_plus i r p g c x :
  one_char i r p →
  (∀ y a s, m_rest y = String a s → p a = true → c y = None) →
  matches i (NRep 1 None true g g r) x c =
  match m_rest x with
  | String a s => if p a then c (behind p x) else None
  | EmptyString => None
  end.
Proof.
  intros Hr Hc. cbn [matches repeat_from]. rewrite reset_none, Hr.
  destruct x as [prev [|a s] cs]; [done|]. cbn [m_rest m_caps]. destruct (p a) eqn:Ep; [|done].
  change (fewer None) with (@None nat). rewrite (greedy_run i r p) by done.
  unfold behind. cbn [m_rest m_prev m_caps run_from]. by rewrite Ep.
Qed.

Lemma one_char_set i neg rs : one_char i (NSet neg rs) (λ a, xorb neg (set_has i rs (code a))).
Proof. intros x c. apply matches_set. Qed.

Lemma one_char_dot i : one_char i NDot (λ a, negb (is_line_end a)).
Proof. intros x c. cbn. unfold step. destruct (m_rest x) as [|a s]; [done|]. by case_match. Qed.

(** ** Plain words *)

(** The characters that have a meaning in a pattern; a closing bracket or brace
    alone stands for itself. *)
Definition is_meta (c : ascii) : bool := has_char c "\^$.|?*+()[{".

(** The node of a word. *)
Fixpoint word_node (p : string) : node :=
  match p with
  | EmptyString => NEmpty
  | String a p' => NSeq (NChar (code a)) (word_node p')
  end.

(** [s] starts with the word, up to case with the flag [i]. *)
Fixpoint starts_with (i : bool) (p s : string) : bool :=
  match p, s with
  | EmptyString, _ => true
  | String a p', String b s' => same_char i b a && starts_with i p' s'
  | String _ _, EmptyString => false
  end.

(** The word occurs in [s]. *)
Fixpoint occurs (i : bool) (p s : string) : bool :=
  starts_with i p s || match s with String _ s' => occurs i p s' | EmptyString => false end.

Lemma plain_char a :
  is_meta a = false →
  (a =? "|")%char = false ∧ (a =? ")")%char = false ∧ (a =? "^")%char = false ∧ (a =? "$")%char = false ∧
  (a =? "(")%char = false ∧ (a =? ".")%char = false ∧ (a =? "[")%char = false ∧
  (a =? backslash)%char = false ∧ (a =? "*")%char = false ∧ (a =? "+")%char = false ∧
  (a =? "?")%char = false ∧ (a =? "{")%char = false.
Proof.
  unfold is_meta, backslash. cbn [has_char]. rewrite !orb_false_iff. intros H. tauto.
Qed.

Lemma plain_quantifier s :
  match s with String a _ => is_meta a = false | EmptyString => True end → take_quantifier s = None.
Proof.
  destruct s as [|a s]; [done|]. intros Ha. pose proof (plain_char a Ha) as Hp. unfold take_quantifier.
  destruct_and! Hp. by repeat match goal with E : (a =? _)%char = false |- _ => rewrite E; clear E end.
Qed.

Lemma alternative_word total disj k n p :
  (String.length p < k)%nat → all_chars (λ a, negb (is_meta a)) p = true →
  alternative total disj k n p = Some (word_node p, "", n).
Proof.
  revert p. induction k as [|k IH]; intros p Hk Hp; [lia|]. destruct p as [|a p]; [done|].
  cbn [all_chars String.length] in *. apply andb_true_iff in Hp as [Ha%negb_true_iff Hp].
  cbn [alternative]. rewrite (plain_quantifier (String a p)) by done.
  pose proof (plain_char a Ha) as Hm. destruct_and! Hm.
  repeat match goal with E : (a =? _)%char = false |- _ => rewrite E; clear E end. cbn [orb].
  unfold quantified. rewrite (plain_quantifier p).
  2: { destruct p as [|b p]; [done|]. cbn [all_chars] in Hp. zbool. done. }
  cbn [mbind option_bind]. rewrite IH by (done || lia). done.
Qed.

(** A pattern without meta characters stands for the word itself. *)
Lemma parse_word p :
  all_chars (λ a, negb (is_meta a)) p = true → parse_pattern p = Some (word_node p).
Proof.
  intros Hp. unfold parse_pattern. cbn [disjunction]. rewrite alternative_word by (done || lia). done.
Qed.

Lemma matches_word i p x :
  match matches i (word_node p) x Some with Some _ => true | None => false end = starts_with i p (m_rest x).
Proof.
  revert x. induction p as [|a p IH]; intros x; [by destruct (m_rest x)|].
  cbn [word_node]. change (matches i (NSeq ?r ?r') x Some) with (matches i r x (λ y, matches i r' y Some)).
  rewrite matches_char. cbn [starts_with]. destruct (m_rest x) as [|b s]; [done|].
  destruct (same_char i b a); [|done]. by rewrite IH.
Qed.

(** Searching for a word. *)
Lemma found_word i p s : found i (word_node p) s = occurs i p s.
Proof.
  unfold found. generalize (@None ascii). induction s as [|b s IH]; intros prev; cbn [search occurs].
  - pose proof (matches_word i p (mkState prev "" [])) as Hm. cbn [m_rest] in Hm. rewrite <-Hm. by destruct (matches _ _ _ _).
  - pose proof (matches_word i p (mkState prev (String b s) [])) as Hm. cbn [m_rest] in Hm. rewrite <-Hm.
    destruct (matches _ _ _ _); [done|]. apply IH.
Qed.

(** [m] is the word [p], up to case with the flag [i]. *)
Definition same_word (i : bool) (p m : string) : Prop :=
  String.length m = String.length p ∧ starts_with i p m = true.

Lemma same_word_exact p m : same_word false p m ↔ m = p.
Proof.
  unfold same_word. revert m. induction p as [|a p IH]; intros [|b m]; try (split; [by intros []|done]).
  cbn [String.length starts_with]. rewrite same_char_exact, andb_true_iff, Ascii.eqb_eq.
  specialize (IH m). naive_solver.
Qed.

Lemma starts_with_spec i p s : starts_with i p s = true ↔ ∃ m b, s = m +++ b ∧ same_word i p m.
Proof.
  unfold same_word. revert s. induction p as [|a p IH]; intros s.
  - split; [|done]. intros _. by exists "", s.
  - destruct s as [|c s]; cbn [starts_with].
    + split; [done|]. by intros ([|d m] & b & [=] & [=] & ?).
    + rewrite andb_true_iff, IH. split.
      * intros (Hc & m & b & -> & Hl & Hm). exists (String c m), b. cbn. by rewrite Hl, Hc, Hm.
      * intros ([|d m] & b & [=] & [=] & Hm%andb_true_iff). simplify_eq. naive_solver.
Qed.

(** The word occurs if and only if some part of the text is the word. *)
Lemma occurs_spec i p s :
  occurs i p s = true ↔ ∃ a m b, s = a +++ m +++ b ∧ same_word i p m.
Proof.
  induction s as [|c s IH]; cbn [occurs]; rewrite orb_true_iff, starts_with_spec.
  - split; [|intros ([|] & m & b & Hs & Hm); [left; by exists m, b|done]].
    intros [(m & b & Hs & Hm)|]; [|done]. by exists "", m, b.
  - rewrite IH. split.
    + intros [(m & b & Hs & Hm)|(a & m & b & -> & Hm)]; [by exists "", m, b|by exists (String c a), m, b].
    + intros ([|d a] & m & b & Hs & Hm); [left; by exists m, b|right]. rewrite sapp_cons in Hs. injection Hs as -> ->. by exists a, m, b.
Qed.
