(* ===== verification/JsState.v ===== *)
(** * Handlers that change a state and may throw

    A handler is a function from the state to the state it leaves and its
    outcome.  An exception does not undo the changes made before it. *)

From S2P Require Import Prelude.

Definition M (S A : Type) : Type := S → S * res A.

Section monad.
Context {S : Type}.

#[global] Instance M_ret : MRet (M S) := λ A a s, (s, Ok a).
#[global] Instance M_bind : MBind (M S) := λ A B k m s,
  match m s with
  | (s', Ok a) => k a s'
  | (s', Throw e) => (s', Throw e)
  end.

Definition gets {A} (f : S → A) : M S A := λ s, (s, Ok (f s)).
Definition modify (f : S → S) : M S () := λ s, (f s, Ok ()).
Definition throw {A} (e : exn) : M S A := λ s, (s, Throw e).
Definition lift {A} (r : res A) : M S A := λ s, (s, r).
Definition skip : M S () := mret ().
Definition when (b : bool) (m : M S ()) : M S () := if b then m else skip.

Fixpoint forM {A} (l : list A) (f : A → M S ()) : M S () :=
  match l with
  | [] => skip
  | x :: l' => _ ← f x; forM l' f
  end.

(** A loop that carries a local value. *)
Fixpoint foldM {A B} (f : B → A → M S B) (b : B) (l : list A) : M S B :=
  match l with
  | [] => mret b
  | x :: l' => b' ← f b x; foldM f b' l'
  end.

(** ** Specifications

    [wp m Q s]: run from [s], [m] returns, and [Q] holds of the result and the
    state; [always m I s]: [I] holds of the state [m] leaves, also when it
    throws. *)
Definition wp {A} (m : M S A) (Q : A → S → Prop) (s : S) : Prop :=
  match m s with (s', Ok a) => Q a s' | (_, Throw _) => False end.

Definition always {A} (m : M S A) (I : S → Prop) (s : S) : Prop := I (m s).1.

Lemma wp_bind {A B} (m : M S A) (k : A → M S B) Q s :
  wp m (λ a, wp (k a) Q) s → wp (m ≫= k) Q s.
Proof. unfold wp, mbind, M_bind. by destruct (m s) as [s' []]. Qed.

Lemma wp_ret {A} (a : A) (Q : A → S → Prop) s : Q a s → wp (mret a) Q s.
Proof. done. Qed.
Lemma wp_skip (Q : () → S → Prop) s : Q () s → wp skip Q s.
Proof. done. Qed.
Lemma wp_gets {A} (f : S → A) (Q : A → S → Prop) s : Q (f s) s → wp (gets f) Q s.
Proof. done. Qed.
Lemma wp_modify f (Q : () → S → Prop) s : Q () (f s) → wp (modify f) Q s.
Proof. done. Qed.
Lemma wp_lift {A} (r : res A) a (Q : A → S → Prop) s : r = Ok a → Q a s → wp (lift r) Q s.
Proof. by intros ->. Qed.

Lemma wp_mono {A} (m : M S A) (Q Q' : A → S → Prop) s :
  (∀ a s', Q a s' → Q' a s') → wp m Q s → wp m Q' s.
Proof. unfold wp. destruct (m s) as [s' []]; auto. Qed.

(** A loop, by an invariant on what has been done. *)
Lemma wp_forM {A} (l : list A) (f : A → M S ()) (I : list A → S → Prop) (Q : () → S → Prop) s :
  I [] s → (∀ done x rest s', l = done ++ x :: rest → I done s' →
    wp (f x) (λ _, I (done ++ [x])) s') →
  (∀ s', I l s' → Q () s') → wp (forM l f) Q s.
Proof.
  intros H0 Hstep HQ.
  assert (∀ todo done s', l = done ++ todo → I done s' → wp (forM todo f) (λ _, I l) s') as Hl.
  { induction todo as [|x todo IH]; intros done s' E Hs'; simpl.
    - apply wp_skip. by rewrite app_nil_r in E; subst.
    - apply wp_bind. eapply wp_mono; [|by eapply Hstep]. simpl. intros _ s'' Hs''.
      apply (IH (done ++ [x])); [by rewrite <-app_assoc|done]. }
  eapply wp_mono; [|by apply (Hl l [])]. intros []. auto.
Qed.

Lemma wp_foldM {A B} (l : list A) (f : B → A → M S B) (I : list A → B → S → Prop)
    (Q : B → S → Prop) b s :
  I [] b s →
  (∀ done x rest b' s', l = done ++ x :: rest → I done b' s' →
    wp (f b' x) (I (done ++ [x])) s') →
  (∀ b' s', I l b' s' → Q b' s') → wp (foldM f b l) Q s.
Proof.
  intros H0 Hstep HQ.
  assert (∀ todo done b' s', l = done ++ todo → I done b' s' → wp (foldM f b' todo) (I l) s') as Hl.
  { induction todo as [|x todo IH]; intros done b' s' E Hs'; simpl.
    - apply wp_ret. by rewrite app_nil_r in E; subst.
    - apply wp_bind. eapply wp_mono; [|by eapply Hstep]. simpl. intros b'' s'' Hs''.
      apply (IH (done ++ [x])); [by rewrite <-app_assoc|done]. }
  eapply wp_mono; [|by apply (Hl l [])]. auto.
Qed.

(** [ends m Q E s]: run from [s], [m] returns and [Q] holds of the result and the
    state, or it throws and [E] holds of the state. *)
Definition ends {A} (m : M S A) (Q : A → S → Prop) (E : S → Prop) (s : S) : Prop :=
  match m s with (s', Ok a) => Q a s' | (s', Throw _) => E s' end.

Lemma ends_bind {A B} (m : M S A) (k : A → M S B) Q (E : S → Prop) s :
  ends m (λ a, ends (k a) Q E) E s → ends (m ≫= k) Q E s.
Proof. unfold ends, mbind, M_bind. by destruct (m s) as [s' []]. Qed.

Lemma ends_ret {A} (a : A) (Q : A → S → Prop) (E : S → Prop) s : Q a s → ends (mret a) Q E s.
Proof. done. Qed.
Lemma ends_skip (Q : () → S → Prop) (E : S → Prop) s : Q () s → ends skip Q E s.
Proof. done. Qed.
Lemma ends_gets {A} (f : S → A) (Q : A → S → Prop) (E : S → Prop) s : Q (f s) s → ends (gets f) Q E s.
Proof. done. Qed.
Lemma ends_modify f (Q : () → S → Prop) (E : S → Prop) s : Q () (f s) → ends (modify f) Q E s.
Proof. done. Qed.
Lemma ends_lift {A} (r : res A) (Q : A → S → Prop) (E : S → Prop) s :
  E s → (∀ a, r = Ok a → Q a s) → ends (lift r) Q E s.
Proof. unfold ends, lift. destruct r; auto. Qed.

Lemma ends_mono {A} (m : M S A) (Q Q' : A → S → Prop) (E E' : S → Prop) s :
  ends m Q E s → (∀ a s', Q a s' → Q' a s') → (∀ s', E s' → E' s') → ends m Q' E' s.
Proof. unfold ends. destruct (m s) as [s' []]; auto. Qed.

Lemma ends_forM {A} (l : list A) (f : A → M S ()) (I : S → Prop) s :
  I s → (∀ x s', I s' → ends (f x) (λ _, I) I s') → ends (forM l f) (λ _, I) I s.
Proof.
  intros Hs Hf. revert s Hs. induction l as [|x l IH]; intros s Hs; simpl; [done|].
  apply ends_bind. eapply ends_mono; [by apply Hf|auto|auto].
Qed.

Lemma ends_foldM {A B} (l : list A) (f : B → A → M S B) (I : list A → B → S → Prop) (E : S → Prop) b s :
  I [] b s →
  (∀ done x rest b' s', l = done ++ x :: rest → I done b' s' → ends (f b' x) (I (done ++ [x])) E s') →
  ends (foldM f b l) (I l) E s.
Proof.
  intros H0 Hstep.
  assert (∀ todo done b' s', l = done ++ todo → I done b' s' → ends (foldM f b' todo) (I l) E s') as Hl;
    [|by apply (Hl l [])].
  induction todo as [|x todo IH]; intros done b' s' El Hs'; simpl.
  - apply ends_ret. by rewrite app_nil_r in El; subst.
  - apply ends_bind. eapply ends_mono; [by eapply Hstep|simpl|done]. intros b'' s'' Hs''.
    apply (IH (done ++ [x])); [by rewrite <-app_assoc|done].
Qed.

(** A loop that returns, by what its steps that return preserve. *)
Lemma foldM_ok {A B} (l : list A) (f : B → A → M S B) (I : list A → B → S → Prop) b s b' s' :
  I [] b s →
  (∀ done x rest b1 s1 b2 s2, l = done ++ x :: rest → I done b1 s1 →
    f b1 x s1 = (s2, Ok b2) → I (done ++ [x]) b2 s2) →
  foldM f b l s = (s', Ok b') → I l b' s'.
Proof.
  intros H0 Hstep Hf.
  assert (∀ todo done b1 s1, l = done ++ todo → I done b1 s1 →
    foldM f b1 todo s1 = (s', Ok b') → I l b' s') as Hl; [|by apply (Hl l [] b s)].
  clear Hf. induction todo as [|x todo IH]; intros done b1 s1 E Hs1 Hf; simpl in Hf.
  - injection Hf as <- <-. by rewrite app_nil_r in E; subst.
  - unfold mbind, M_bind in Hf. destruct (f b1 x s1) as [s2 [b2|]] eqn:E1; [|done].
    apply (IH (done ++ [x]) b2 s2); [by rewrite <-app_assoc| |done]. by eapply Hstep.
Qed.

Lemma bind_inv {A B} (m : M S A) (k : A → M S B) s s' b :
  (m ≫= k) s = (s', Ok b) → ∃ s1 a, m s = (s1, Ok a) ∧ k a s1 = (s', Ok b).
Proof. unfold mbind, M_bind. destruct (m s) as [s1 [a|]]; [eauto|done]. Qed.

Lemma lift_inv {A} (r : res A) s s' a : lift r s = (s', Ok a) → s' = s ∧ r = Ok a.
Proof. unfold lift. by intros [= -> ->]. Qed.

Lemma always_bind {A B} (m : M S A) (k : A → M S B) (I : S → Prop) s :
  always m I s → (∀ a s', I s' → always (k a) I s') → always (m ≫= k) I s.
Proof.
  unfold always, mbind, M_bind. destruct (m s) as [s' [a|e]]; simpl; auto.
Qed.

Lemma always_gets_bind {A B} (f : S → A) (k : A → M S B) (I : S → Prop) s :
  always (k (f s)) I s → always (gets f ≫= k) I s.
Proof. done. Qed.
Lemma always_modify_bind {B} f (k : () → M S B) (I : S → Prop) s :
  always (k ()) I (f s) → always (modify f ≫= k) I s.
Proof. done. Qed.
Lemma always_lift_bind {A B} (r : res A) (k : A → M S B) (I : S → Prop) s :
  I s → (∀ a, r = Ok a → always (k a) I s) → always (lift r ≫= k) I s.
Proof. unfold always, lift, mbind, M_bind. destruct r; simpl; auto. Qed.
Lemma always_modify f (I : S → Prop) s : I (f s) → always (modify f) I s.
Proof. done. Qed.
Lemma always_skip (I : S → Prop) s : I s → always skip I s.
Proof. done. Qed.

Lemma always_forM {A} (l : list A) (f : A → M S ()) (I : S → Prop) s :
  I s → (∀ x s', x ∈ l → I s' → always (f x) I s') → always (forM l f) I s.
Proof.
  revert s. induction l as [|x l IH]; intros s Hs Hf; simpl; [done|].
  apply always_bind; [apply Hf; [by left|done]|].
  intros _ s' Hs'. apply IH; [done|]. intros y s'' Hy. apply Hf. by right.
Qed.

Lemma wp_always {A} (m : M S A) (Q : A → S → Prop) (I : S → Prop) s :
  wp m Q s → (∀ a s', Q a s' → I s') → always m I s.
Proof. unfold wp, always. destruct (m s) as [s' []]; simpl; [eauto|done]. Qed.

Lemma forM_ext {A} (l : list A) (f g : A → M S ()) s :
  (∀ x s', f x s' = g x s') → forM l f s = forM l g s.
Proof.
  intros Hfg. revert s. induction l as [|x l IH]; intros s; simpl; [done|].
  unfold mbind, M_bind. rewrite Hfg. destruct (g x s) as [s' []]; [apply IH|done].
Qed.

Lemma forM_snoc {A} (l : list A) x (f : A → M S ()) s :
  forM (l ++ [x]) f s = (forM l f ≫= λ _, f x) s.
Proof.
  revert s. induction l as [|y l IH]; intros s; simpl.
  - unfold mbind, M_bind, skip, mret, M_ret. by destruct (f x s) as [s' [[]|]].
  - unfold mbind, M_bind in *. destruct (f y s) as [s1 [[]|]]; [|done]. apply IH.
Qed.

(** [fails m Q s]: [m] throws, and [Q] holds of the exception and the state. *)
Definition fails {A} (m : M S A) (Q : exn → S → Prop) (s : S) : Prop :=
  match m s with (s', Throw e) => Q e s' | (_, Ok _) => False end.

Lemma fails_bind {A B} (m : M S A) (k : A → M S B) Q s :
  wp m (λ a, fails (k a) Q) s → fails (m ≫= k) Q s.
Proof. unfold wp, fails, mbind, M_bind. by destruct (m s) as [s' []]. Qed.

Lemma fails_lift_bind {A B} (r : res A) (k : A → M S B) (Q : exn → S → Prop) e s :
  r = Throw e → Q e s → fails (lift r ≫= k) Q s.
Proof. by intros ->. Qed.

End monad.

Arguments M : simpl never.

(** Steps through a handler in a goal [wp _ _ _]. *)
Ltac wp_step :=
  match goal with
  | |- wp (_ ≫= _) _ _ => apply wp_bind
  | |- wp (mret _) _ _ => apply wp_ret
  | |- wp skip _ _ => apply wp_skip
  | |- wp (gets _) _ _ => apply wp_gets
  | |- wp (modify _) _ _ => apply wp_modify
  end; cbv beta.

Ltac wp_steps := repeat wp_step.

(** Steps through a handler in a goal [always _ _ _]; an exception leaves the
    state as it is, which is the goal left for it. *)
Ltac always_step :=
  match goal with
  | |- always (gets _ ≫= _) _ _ => apply always_gets_bind
  | |- always (modify _ ≫= _) _ _ => apply always_modify_bind
  | |- always (lift _ ≫= _) _ _ => apply always_lift_bind; [|intros ? ?]
  | |- always (modify _) _ _ => apply always_modify
  | |- always skip _ _ => apply always_skip
  end; cbv beta.

(** Steps through a computation in a goal [ends _ _ _ _]. *)
Ltac ends_step :=
  match goal with
  | |- ends (_ ≫= _) _ _ _ => apply ends_bind
  | |- ends (mret _) _ _ _ => apply ends_ret
  | |- ends skip _ _ _ => apply ends_skip
  | |- ends (gets _) _ _ _ => apply ends_gets
  | |- ends (modify _) _ _ _ => apply ends_modify
  | |- ends (lift _) _ _ _ => apply ends_lift; [|intros ? ?]
  end; cbv beta.
