(* ===== verification/JsPromise.v ===== *)
(** * Promises of jQuery

    [jQuery.Deferred] and [jQuery.when] are not part of the program.  A group is
    what [n] new Deferreds and the promise that [jQuery.when] makes of them are
    together, with one function given to its [then]; the model is built on the two
    operations the program uses of a group, and what the documentation of jQuery
    says about them is the class [PromiseLaws]. *)

From S2P Require Import Prelude.

Class PromiseOps := {
  group : Type;
  when_then : nat → group * bool;            (* [when(d_0, ..., d_(n-1)).then(f)]: is [f] called at once? *)
  resolve_one : nat → group → group * bool   (* [d_i.resolve()]: is [f] called? *)
}.

(** "Resolves its master Deferred as soon as all the Deferreds resolve"; "if no
    arguments are passed, it returns a resolved Promise"; a Deferred that is
    resolved stays so, and a function given to [then] is called once, when the
    promise becomes resolved. *)
Class PromiseLaws `{PromiseOps} := {
  size : group → nat;
  resolved : group → nat → bool;             (* [d_i.state() == 'resolved'] *)
  all_resolved p := ∀ i, (i < size p)%nat → resolved p i = true;
  when_size n : size (when_then n).1 = n;
  when_resolved n i : resolved (when_then n).1 i = false;
  when_calls n : (when_then n).2 = true ↔ all_resolved (when_then n).1;
  resolve_size i p : size (resolve_one i p).1 = size p;
  resolve_resolved i p j : (i < size p)%nat →
    resolved (resolve_one i p).1 j = true ↔ resolved p j = true ∨ j = i;
  resolve_calls i p : (i < size p)%nat →
    (resolve_one i p).2 = true ↔ all_resolved (resolve_one i p).1 ∧ ¬ all_resolved p
}.

(** With something to wait for, nothing is called at once. *)
Lemma when_waits `{PromiseLaws} n : n ≠ 0%nat → (when_then n).2 = false.
Proof.
  intros Hn. apply not_true_iff_false. intros Hc%when_calls. specialize (Hc 0%nat).
  rewrite when_size, when_resolved in Hc. by discriminate Hc; lia.
Qed.

(** Deferreds as flags, for examples. *)
Definition FlagPromises : PromiseOps := {|
  group := list bool;
  when_then n := (replicate n false, (n =? 0)%nat);
  resolve_one i p := (<[i := true]> p, forallb id (<[i := true]> p) && negb (forallb id p))
|}.

Lemma all_flags (p : list bool) :
  forallb id p = true ↔ ∀ i, (i < length p)%nat → default false (p !! i) = true.
Proof.
  rewrite forallb_forall. split.
  - intros Hall i Hi. destruct (lookup_lt_is_Some_2 p i Hi) as [b Hb]. rewrite Hb.
    apply Hall, list_elem_of_In. by eapply list_elem_of_lookup_2.
  - intros Hall b Hb. apply list_elem_of_In, list_elem_of_lookup in Hb as [i Hi].
    specialize (Hall i (lookup_lt_Some _ _ _ Hi)). by rewrite Hi in Hall.
Qed.

#[export] Program Instance FlagPromises_laws : @PromiseLaws FlagPromises := {|
  size := @length bool;
  resolved p i := default false (p !! i)
|}.
Next Obligation. intros n. apply length_replicate. Qed.
Next Obligation.
  intros n i. cbn. destruct (replicate n false !! i) eqn:E; [|done]. by apply lookup_replicate in E as [-> _].
Qed.
Next Obligation.
  intros n. cbn. rewrite Nat.eqb_eq, <-all_flags. destruct n; by split.
Qed.
Next Obligation. intros i p. apply length_insert. Qed.
Next Obligation.
  intros i p j Hi. cbn in *. destruct (decide (j = i)) as [->|Hne].
  - rewrite list_lookup_insert_eq by done. split; auto.
  - rewrite list_lookup_insert_ne by done. split; [auto|]. by intros [|].
Qed.
Next Obligation.
  intros i p Hi. cbn in *. rewrite andb_true_iff, negb_true_iff, <-not_true_iff_false, !all_flags. done.
Qed.
