(* ===== verification/TableData.v ===== *)
(** * Table renderer: settings and data pipeline

    src/site_deprecated/renderers/renderer.table.js, [render] up to the page of
    rows that is displayed: header and data initialisation, detection of sort
    types, filtering, sorting, selection of the page.

    The settings object is the record [settings] (the fields of [about.defaults]
    and the ones that [render] and [update] add).  A row object is a finite map
    from column names to cells; rows live in the store [heap] and the arrays
    [tdata] and [filtered_data] hold references into it, since both arrays share
    their rows and a cell edit is visible through both. *)

From Stdlib Require Import SpecFloat.
From S2P Require Import Prelude JsString JsNumber JsValue JsJson JsRegExp.

Abbreviation row := (gmap string value).

Section table.
Context `{RegExpOps}.

(** ** Data *)

(** An entry of [settings.filter]. *)
Record filter := mkFilter {
  ftype : string;
  searchword : option string;
  case_sensitive : bool;
  operator : option (list string);
  active_operator : option nat;
  re : option regexp;
  minmax : option (list string)
}.

#[global] Instance filter_eta : Eta filter := λ f,
  mkFilter (ftype f) (searchword f) (case_sensitive f) (operator f) (active_operator f)
    (re f) (minmax f).

(** [settings.data]: an array of rows, or an object with a header and rows. *)
Inductive rawdata :=
| RawArray (rows : list (list value))
| RawObj (hdr : option (list string)) (rows : option (list (list value))).

(** [settings.navigation_callback]: the [update] of the renderer, or a function
    of the page that created the table. *)
Inductive navcb :=
| NavUpdate
| NavUser.

(** An entry of [settings.query].  Its [comparison] is the operators of a filter,
    the text [=] where it has none, or missing; nothing reads it. *)
Inductive comparison := CmpMissing | CmpEqual | CmpOperators (l : list string).

Record qentry := mkQ {
  q_field : string;
  q_searchword : string;
  q_comparison : comparison
}.

Record settings := mkSettings {
  (* about.defaults *)
  rows_per_page : jsint;
  sortcol : nat;
  sorted : bool;
  offset : jsint;
  invisible_columns : gset nat;
  disable_sort : gset nat;
  sortdir : string;
  sorttype : gmap nat string;
  filter_autodetect : bool;
  filter_autodetect_select_max : jsint;
  sort_autodetect : bool;
  filters : list (nat * filter);
  hide_options : bool;
  filter_changed : bool;
  editable : gset nat;
  edit_callback : bool;
  navigation_callback : option navcb;
  navigation_url : option string;
  data : rawdata;
  synchronous : bool;
  query_type : string;
  asynch_column_mapping : option (list (string * string));
  (* set by render, update or the page *)
  header : option (list string);
  tdata : option (list nat);
  filtered_data : option (list nat);
  numrows : option jsint;
  query : list (string * qentry);
  sort : option string;
  sortDir : option string;
  onclick : bool;
  minwidths : gmap nat Z;
  data_manipulation : option (option json → res (list row));
  (* the row objects *)
  heap : list row
}.

#[global] Instance settings_eta : Eta settings := λ s,
  mkSettings (rows_per_page s) (sortcol s) (sorted s) (offset s) (invisible_columns s)
    (disable_sort s) (sortdir s) (sorttype s) (filter_autodetect s)
    (filter_autodetect_select_max s) (sort_autodetect s) (filters s) (hide_options s)
    (filter_changed s) (editable s) (edit_callback s) (navigation_callback s)
    (navigation_url s) (data s) (synchronous s) (query_type s) (asynch_column_mapping s)
    (header s) (tdata s) (filtered_data s) (numrows s) (query s) (sort s) (sortDir s)
    (onclick s) (minwidths s) (data_manipulation s) (heap s).

(** [about.defaults]; the default data is what [exampleData()] returns. *)
Definition exampleData : rawdata :=
  let r a b c := [VStr a; VStr b; VStr c] in
  RawObj (Some ["column A"; "column B"; "column C"])
    (Some [ r "a1" "b1" "c1"; r "a3" "b2" "c2"; r "a4" "b3" "c3"; r "a2" "b4" "c4";
            r "a1" "b1" "c1"; r "a3" "b2" "c2"; r "a4" "b3" "c3"; r "a2" "b4" "c4";
            r "a1" "b1" "c1"; r "a3" "b2" "c2"; r "a4" "b3" "c3"; r "a2" "b4" "c4";
            r "a1" "b3" "c1"; r "a3" "b2" "c2"; r "a4" "b3" "c3"; r "a2" "b4" "c4";
            r "a5" "b5" "c5" ]).

Definition defaults : settings := {|
  rows_per_page := JInt 10; sortcol := 0; sorted := false; offset := JInt 0;
  invisible_columns := ∅; disable_sort := ∅; sortdir := "asc"; sorttype := ∅;
  filter_autodetect := false; filter_autodetect_select_max := JInt 10;
  sort_autodetect := false; filters := []; hide_options := false;
  filter_changed := false; editable := ∅; edit_callback := false;
  navigation_callback := None; navigation_url := None; data := exampleData;
  synchronous := true; query_type := "infix"; asynch_column_mapping := None;
  header := None; tdata := None; filtered_data := None; numrows := None; query := [];
  sort := None; sortDir := None; onclick := false; minwidths := ∅;
  data_manipulation := None; heap := []
|}.

Implicit Types (s : settings) (f : filter) (hdr : list string).

(** An optional string setting as a condition. *)
Definition set_str (o : option string) : bool :=
  match o with Some u => negb (u =? "")%string | None => false end.

(** The property name of column [i]: [header[i]], [undefined] out of range. *)
Definition hkey (hdr : list string) (i : nat) : string := default "undefined" (hdr !! i).

Definition deref (hp : list row) (r : nat) : row := default ∅ (hp !! r).

(** [tdata[r][header[i]]] *)
Definition cell (hp : list row) (hdr : list string) (r i : nat) : value :=
  default VUndef (deref hp r !! hkey hdr i).

(** [filter[i]] and [filter[i] = f]; the keys are column numbers, so [for ... in]
    enumerates them ascending. *)
Fixpoint fget (i : nat) (fs : list (nat * filter)) : option filter :=
  match fs with
  | [] => None
  | (j, f) :: fs' => if (i =? j)%nat then Some f else fget i fs'
  end.

Fixpoint fset (i : nat) (f : filter) (fs : list (nat * filter)) : list (nat * filter) :=
  match fs with
  | [] => [(i, f)]
  | (j, g) :: fs' =>
      if (i =? j)%nat then (i, f) :: fs'
      else if (i <? j)%nat then (i, f) :: (j, g) :: fs'
      else (j, g) :: fset i f fs'
  end.

(** ** Header and data *)

(** A table with a navigation URL navigates by [update]. *)
Definition init_navigation s : settings :=
  if set_str (navigation_url s) then s <| navigation_callback := Some NavUpdate |> else s.

(** A plain array: its first row is the header. *)
Definition init_data s : settings :=
  match data s with
  | RawArray (r :: rows) => s <| data := RawObj (Some (to_str <$> r)) (Some rows) |>
  | _ => s
  end.

Definition init_header s : res (settings * list string) :=
  match header s with
  | Some h => Ok (s, h)
  | None =>
      match data s with
      | RawObj (Some h) rows => Ok (s <| header := Some h |> <| data := RawObj None rows |>, h)
      | RawObj None (Some (r :: rows)) =>
          let h := to_str <$> r in
          Ok (s <| header := Some h |> <| data := RawObj None (Some rows) |>, h)
      | RawObj None (Some []) => Throw TypeError   (* header.length of undefined *)
      | RawObj None None | RawArray _ => Throw TypeError   (* data.data.shift of undefined *)
      end
  end.

(** One parsed row: a falsy cell becomes the empty string. *)
Definition parse_row (hdr : list string) (cells : list value) : row :=
  foldl (λ r '(h, v), <[hkey hdr h := vor v (VStr "")]> r) ∅ (imap pair cells).

Definition init_tdata (hdr : list string) s : res (settings * list nat) :=
  match tdata s with
  | Some t => Ok (s, t)
  | None =>
      match data s with
      | RawObj h (Some rows) =>
          let t := seq (length (heap s)) (length rows) in
          Ok (s <| heap := heap s ++ (parse_row hdr <$> rows) |>
                <| tdata := Some t |> <| data := RawObj h None |>, t)
      | _ => Throw TypeError
      end
  end.

(** ** Detection of the sort types *)

Definition detect_sorttype (hp : list row) (hdr : list string) (t : list nat) (i : nat)
    : res string :=
  match t with
  | [] => Ok "number"
  | r :: _ =>
      let v := cell hp hdr r i in
      is_str ← has_replace v;
      if negb is_str then Ok "number"
      else testval ← strip v;
           Ok (if is_nan (parseFloat testval) then "string" else "number")
  end.

Definition autodetect_sort (hdr : list string) (t : list nat) s : res settings :=
  if sort_autodetect s then
    st ← foldR (λ (st : gmap nat string) i,
           match st !! i with
           | Some ty => if (ty =? "")%string
                        then ty' ← detect_sorttype (heap s) hdr t i; Ok (<[i := ty']> st)
                        else Ok st
           | None => ty' ← detect_sorttype (heap s) hdr t i; Ok (<[i := ty']> st)
           end) (sorttype s) (seq 0 (length hdr));
    Ok (s <| sorttype := st |>)
  else Ok s.

(** ** Filtering *)

Definition nonempty_word (f : filter) : option string :=
  match searchword f with
  | Some w => if (w =? "")%string then None else Some w
  | None => None
  end.

Definition filter_present s : bool :=
  existsb (λ '(_, f), match nonempty_word f with Some _ => true | None => false end) (filters s).

Definition active_op (f : filter) : option string :=
  match operator f, active_operator f with
  | Some ops, Some a => ops !! a
  | _, _ => None
  end.

Definition range_alert (w : string) : string :=
  "'" +++ w +++ "' is not a valid inclusive range." +++ String newline "" +++
  "Ranges must be noted as the minimum" +++ String newline "" +++
  "and the maximum range, separated by ','" +++ String newline "" +++ "i.e. '-2.1, 5.2'".

(** Compile the search word; a range must have two ends, otherwise the user is
    told so and the word is dropped. *)
Definition prepare_filter (f : filter) : res (filter * list string) :=
  r ← need SyntaxError (new_RegExp (default "" (searchword f)) (negb (case_sensitive f)));
  let f1 := f <| re := Some r |> in
  match nonempty_word f with
  | Some w =>
      if bool_decide (active_op f = Some "><") then
        let mm := split_on "," w in
        let f2 := f1 <| minmax := Some mm |> in
        if (length mm =? 2)%nat then Ok (f2, [])
        else Ok (f2 <| searchword := Some "" |>, [range_alert w])
      else Ok (f1, [])
  | None => Ok (f1, [])
  end.

Definition prepare_filters (fs : list (nat * filter)) : res (list (nat * filter) * list string) :=
  ps ← mapR (λ '(i, f), p ← prepare_filter f; Ok (i, p.1, p.2)) fs;
  Ok ((λ p, (p.1.1, p.1.2)) <$> ps, concat ((λ p, p.2) <$> ps)).

(** Whether the filter [f] with search word [w] rejects the cell [v]. *)
Definition rejects (f : filter) (w : string) (v : value) : res bool :=
  match operator f with
  | Some _ =>
      match active_op f with
      | Some op =>
          if (op =? "=")%string then Ok (negb (loose_eq v (VStr w)))
          else if (op =? ">")%string then Ok (num_le (parse_float v) (parseFloat w))
          else if (op =? "<")%string then Ok (num_le (parseFloat w) (parse_float v))
          else if (op =? "><")%string then
            mm ← need TypeError (minmax f);
            let bound k := parseFloat (default "undefined" (mm !! k)) in
            Ok (num_lt (bound 1%nat) (parse_float v) || num_lt (parse_float v) (bound 0%nat))
          else Ok false
      | None => Ok false
      end
  | None =>
      match v with
      | VStr t => Ok (match re f with Some r => negb (re_match r t) | None => false end)
      | _ => Throw TypeError   (* no method match *)
      end
  end.

(** The loop over the filters for one row; the first rejection ends it. *)
Fixpoint row_passes (hp : list row) (hdr : list string) (fs : list (nat * filter)) (r : nat)
    : res bool :=
  match fs with
  | [] => Ok true
  | (i, f) :: fs' =>
      match nonempty_word f with
      | Some w =>
          rej ← rejects f w (cell hp hdr r i);
          if (rej : bool) then Ok false else row_passes hp hdr fs' r
      | None => row_passes hp hdr fs' r
      end
  end.

(** The rows the table is about after filtering, and the alerts shown. *)
Definition apply_filter (hdr : list string) (t : list nat) s
    : res (settings * list nat * list string) :=
  if filter_present s && synchronous s then
    if filter_changed s then
      p ← prepare_filters (filters s);
      new ← filterR (row_passes (heap s) hdr p.1) t;
      Ok (s <| offset := JInt 0 |> <| filters := p.1 |> <| filter_changed := false |>
            <| filtered_data := Some new |>, new, p.2)
    else
      new ← need TypeError (filtered_data s);   (* tdata.length of undefined *)
      Ok (s, new, [])
  else Ok (s, t, []).

(** ** Sorting *)

Definition cmp_of (eq lt : bool) : Z := if eq then 0 else if lt then -1 else 1.

(** The comparison of two cells for a sort type; a type that is neither
    [number] nor [string] falls through the switch and compares equal. *)
Definition compare_cells (ty : option string) (a b : value) : res Z :=
  let strings :=
    x ← strip a; y ← strip b; Ok (cmp_of (x =? y)%string (String.ltb x y)) in
  match ty with
  | None => strings
  | Some ty =>
      if (ty =? "")%string then strings
      else if (ty =? "number")%string then
        is_str ← has_replace a;
        if (is_str : bool) then
          x ← strip a; y ← strip b;
          Ok (cmp_of (num_eq (parseFloat x) (parseFloat y)) (num_lt (parseFloat x) (parseFloat y)))
        else Ok (cmp_of (loose_eq a b) (less a b))
      else if (ty =? "string")%string then strings
      else Ok 0
  end.

Definition compare_rows (hdr : list string) s (a b : nat) : res Z :=
  let '(a, b) := if (sortdir s =? "desc")%string then (b, a) else (a, b) in
  compare_cells (sorttype s !! sortcol s)
    (cell (heap s) hdr a (sortcol s)) (cell (heap s) hdr b (sortcol s)).

(** Sorting is in place: the sorted array is [settings.tdata], or
    [settings.filtered_data] while a filter is applied. *)
Definition sort_rows (hdr : list string) (filtered : bool) (t : list nat) s
    : res (settings * list nat) :=
  if sorted s then Ok (s, t)
  else
    t' ← array_sort (compare_rows hdr s) t;
    let s' := if filtered then s <| filtered_data := Some t' |> else s <| tdata := Some t' |> in
    Ok (s' <| sorted := true |>, t').

(** ** The page *)

Definition page_rows s (t : list nat) : jsint :=
  if jlt (rows_per_page s) (JInt 0) then JInt (Z.of_nat (length t)) else rows_per_page s.

Definition page s (t : list nat) : list nat :=
  if synchronous s then slice t (offset s) (jadd (offset s) (page_rows s t)) else t.

Definition visible (hdr : list string) s : list nat :=
  List.filter (λ i, bool_decide (i ∉ invisible_columns s)) (seq 0 (length hdr)).

(** The cells of the table body. *)
Definition body (hdr : list string) s (disp : list nat) : list (list string) :=
  (λ r, (λ h, inner_html (cell (heap s) hdr r h)) <$> visible hdr s) <$> disp.

End table.
