(* ===== verification/TableFilter.v ===== *)
(** * Table renderer: what filtering and sorting do

    The filter loop of [render] against the declarative filter, the comparison
    function of the sort as a total preorder, and the sorted table. *)

From Stdlib Require Import SpecFloat.
From S2P Require Import Prelude JsString JsNumber JsValue JsJson JsRegExp TableData.

Section filtering.
Context `{RegExpOps}.
Implicit Types (s : settings) (f : filter) (hdr : list string) (t : list nat).

(** ** Specification of a filter *)

(** A filter with the search word [w] accepts the cell [v].  A comparison that
    involves a cell or a bound that is no number never rejects. *)
Definition accepts (f : filter) (w : string) (v : value) : bool :=
  match operator f with
  | Some _ =>
      match active_op f with
      | Some "=" => loose_eq v (VStr w)
      | Some ">" => negb (num_le (parse_float v) (parseFloat w))
      | Some "<" => negb (num_le (parseFloat w) (parse_float v))
      | Some "><" =>
          let mm := default [] (minmax f) in
          let bound k := parseFloat (default "undefined" (mm !! k)) in
          negb (num_lt (bound 1%nat) (parse_float v)) && negb (num_lt (parse_float v) (bound 0%nat))
      | _ => true
      end
  | None => match v, re f with VStr x, Some r => re_match r x | _, _ => true end
  end.

Definition accepts_row (hp : list row) hdr (fs : list (nat * filter)) (r : nat) : bool :=
  forallb (λ '(i, f), match nonempty_word f with
                      | Some w => accepts f w (cell hp hdr r i)
                      | None => true
                      end) fs.

(** The cell has what the filter needs: a text filter without operators calls a
    method of strings. *)
Definition filterable (f : filter) (v : value) : Prop :=
  operator f = None → ∃ x, v = VStr x.

Lemma rejects_accepts f w v b : rejects f w v = Ok b → accepts f w v = negb b.
Proof.
  unfold rejects, accepts. destruct (operator f).
  - destruct (active_op f) as [op|]; [|by intros [= <-]].
    repeat match goal with
    | |- context [(op =? ?x)%string] =>
        destruct (String.eqb_spec op x) as [->|];
        [intros Hr; inv_res; subst; rewrite ?negb_involutive, ?negb_orb; try done|]
    end.
    + match goal with E : minmax f = Some _ |- _ => by rewrite E end.
    + intros [= <-]. repeat case_match; subst; done.
  - destruct v; try done. intros [= <-]. destruct (re f); [by rewrite negb_involutive|done].
Qed.

Lemma row_passes_accepts hp hdr fs r b :
  row_passes hp hdr fs r = Ok b → accepts_row hp hdr fs r = b.
Proof.
  unfold accepts_row. induction fs as [|[i f] fs IH]; simpl; [by intros [= <-]|].
  destruct (nonempty_word f) as [w|]; [|done]. intros Hr. inv_res.
  match goal with E : rejects _ _ _ = Ok ?x |- _ => rewrite (rejects_accepts _ _ _ _ E); destruct x end.
  - inv_res. done.
  - simpl. auto.
Qed.

Lemma filterR_passes hp hdr fs t new :
  filterR (row_passes hp hdr fs) t = Ok new → new = List.filter (accepts_row hp hdr fs) t.
Proof.
  intros [-> Hall]%filterR_spec. apply list_filter_ext. intros r Hr.
  destruct (Hall r Hr) as [b Hb]. rewrite Hb. symmetry. by apply row_passes_accepts.
Qed.

(** ** Preparation of the filters *)

Lemma prepare_filter_same f f' al :
  prepare_filter f = Ok (f', al) →
  ftype f' = ftype f ∧ operator f' = operator f ∧ active_operator f' = active_operator f ∧
  active_op f' = active_op f ∧ is_Some (re f') ∧
  (al = [] → searchword f' = searchword f) ∧
  (active_op f = Some "><" → ∀ w, nonempty_word f' = Some w → is_Some (minmax f')).
Proof.
  unfold prepare_filter. intros Hr. inv_res.
  destruct (nonempty_word f) as [w|] eqn:Ew.
  - case_bool_decide as Eop; [case_match|]; inv_res; simplify_eq; simpl; split_and!; try done; eauto.
  - inv_res. simplify_eq. simpl. split_and!; try done; eauto.
    intros _ w Hw. unfold nonempty_word in *. simpl in *. congruence.
Qed.

Lemma prepare_filters_lookup fs fs' al k i f' :
  prepare_filters fs = Ok (fs', al) → fs' !! k = Some (i, f') →
  ∃ f al', fs !! k = Some (i, f) ∧ prepare_filter f = Ok (f', al').
Proof.
  unfold prepare_filters. intros Hr Hk. apply bind_ok in Hr as (ps & Hps & [= <- <-]).
  rewrite list_lookup_fmap_Some in Hk. destruct Hk as ([[i1 f1] a1] & Hk & Heq). simplify_eq/=.
  assert (is_Some (fs !! k)) as [[i0 f0] Hfs].
  { apply lookup_lt_is_Some. rewrite <-(mapR_length _ _ _ Hps). by eapply lookup_lt_Some. }
  destruct (mapR_lookup _ _ _ _ _ Hps Hfs) as (y & Hy & Hk').
  apply bind_ok in Hy as ([f2 a2] & Hf2 & [= <-]). simplify_eq/=. eauto.
Qed.

(** A row whose cells are what the filters need does not throw. *)
Lemma row_passes_total hp hdr fs r :
  (∀ i f w, (i, f) ∈ fs → nonempty_word f = Some w →
     filterable f (cell hp hdr r i) ∧ (active_op f = Some "><" → is_Some (minmax f))) →
  ∃ b, row_passes hp hdr fs r = Ok b.
Proof.
  induction fs as [|[i f] fs IH]; intros Hall; simpl; [eauto|].
  destruct IH as [b Hb]. { intros. eapply Hall; [by right|done]. }
  destruct (nonempty_word f) as [w|] eqn:Ew; [|eauto].
  destruct (Hall i f w) as [Hf Hm]; [by left|done|].
  assert (∃ x, rejects f w (cell hp hdr r i) = Ok x) as [x ->].
  { unfold rejects. destruct (operator f) eqn:Eo.
    - destruct (active_op f) as [op|]; [|eauto]. repeat (case_if; [eauto|]); [|eauto].
      destruct (String.eqb_spec op "><") as [->|]; [|congruence].
      destruct (Hm eq_refl) as [mm ->]. simpl. eauto.
    - destruct (Hf Eo) as [x ->]. eauto. }
  simpl. destruct x; eauto.
Qed.

End filtering.
