(* ===== verification/TableSort.v ===== *)
(** * Table renderer: what sorting does

    The comparison function that [render] passes to [Array.prototype.sort] is
    the comparison of sort keys (the text of a cell without its tags, or the
    number in it), a total preorder on the rows that have a key, so the sort is
    the stable sort by that key. *)

From Stdlib Require Import SpecFloat.
From S2P Require Import Prelude JsString JsNumber JsValue JsJson JsRegExp TableData.

(** ** Sort keys *)

(** Text without tags, the number in a text, a number, or nothing (a sort type
    the renderer does not know). *)
Inductive sort_key :=
| KText (s : string)
| KParsed (n : num)
| KNum (n : num)
| KNone.

Definition kind (k : sort_key) : nat :=
  match k with KText _ => 0 | KParsed _ => 1 | KNum _ => 2 | KNone => 3 end.

Definition text_key (v : value) : option sort_key :=
  match v with VStr x => Some (KText (strip_tags x)) | _ => None end.

Definition number_key (v : value) : option sort_key :=
  match v with
  | VStr x => let n := parseFloat (strip_tags x) in if is_nan n then None else Some (KParsed n)
  | VNum n => if is_nan n then None else Some (KNum n)
  | _ => None
  end.

Definition cell_key (ty : option string) (v : value) : option sort_key :=
  match ty with
  | None => text_key v
  | Some ty =>
      if (ty =? "")%string then text_key v
      else if (ty =? "number")%string then number_key v
      else if (ty =? "string")%string then text_key v
      else Some KNone
  end.

(** The order of keys of the same kind. *)
Definition key_cmp (a b : sort_key) : Z :=
  match a, b with
  | KText x, KText y => cmp_of (x =? y)%string (String.ltb x y)
  | KParsed x, KParsed y | KNum x, KNum y => cmp_of (num_eq x y) (num_lt x y)
  | _, _ => 0
  end.

Lemma compare_cells_key ty a b ka kb :
  cell_key ty a = Some ka → cell_key ty b = Some kb → kind ka = kind kb →
  compare_cells ty a b = Ok (key_cmp ka kb).
Proof.
  assert (∀ a b, text_key a = Some ka → text_key b = Some kb →
    (x ← strip a; y ← strip b; Ok (cmp_of (x =? y)%string (String.ltb x y))) =
    Ok (key_cmp ka kb)) as Htext.
  { intros [] []; simpl; try done. by intros [= <-] [= <-]. }
  unfold cell_key, compare_cells. intros Ha Hb Hk. destruct ty as [ty|]; [|by apply Htext].
  repeat (case_match; [by apply Htext|]); simplify_eq; try done.
  case_match; [|case_match; [by apply Htext|by simplify_eq]].
  destruct a as [| | |na|xa|], b as [| | |nb|xb|]; simpl in Ha, Hb; try done;
    repeat case_match; simplify_eq/=; done.
Qed.

(** ** Keys are totally preordered *)

Lemma cmp_of_le eq lt : cmp_of eq lt ≤ 0 ↔ eq = true ∨ lt = true.
Proof. unfold cmp_of. destruct eq, lt; split; intros; try done; auto; intuition congruence. Qed.

Lemma text_cmp_le x y : cmp_of (x =? y)%string (String.ltb x y) ≤ 0 ↔ String.le x y.
Proof.
  rewrite cmp_of_le, String.eqb_eq. unfold String.le, String.leb, String.ltb.
  destruct (x ?= y)%string eqn:E; simpl; split; intros; try done; auto.
  - left. by apply String.compare_eq_iff.
  - destruct H as [->|?]; [|done]. pose proof (String.compare_antisym y y) as E'.
    by rewrite E in E'.
Qed.

Lemma num_cmp_le x y :
  is_nan x = false → is_nan y = false →
  cmp_of (num_eq x y) (num_lt x y) ≤ 0 ↔ lex (rank x) (rank y) ≠ Gt.
Proof.
  intros Hx Hy. rewrite cmp_of_le. unfold num_eq, num_lt, SFeqb, SFltb.
  rewrite (SFcompare_rank x y Hx Hy). destruct (lex _ _); split; intros; try done; auto.
  by destruct H.
Qed.

Definition key_ok (k : sort_key) : Prop :=
  match k with KParsed n | KNum n => is_nan n = false | _ => True end.

Lemma cell_key_ok ty v k : cell_key ty v = Some k → key_ok k.
Proof.
  unfold cell_key, text_key, number_key. intros. repeat case_match; simplify_eq; done.
Qed.

Lemma key_cmp_total a b :
  key_ok a → key_ok b → kind a = kind b → key_cmp a b ≤ 0 ∨ key_cmp b a ≤ 0.
Proof.
  destruct a as [x|x|x|], b as [y|y|y|]; try done; simpl; intros Ha Hb _; [| | |by left];
    rewrite ?text_cmp_le, ?num_cmp_le by done; [apply String.le_total| |];
    rewrite (lex_antisym (rank x) (rank y)); destruct (lex _ _); auto.
Qed.

Lemma key_cmp_trans a b c :
  key_ok a → key_ok b → key_ok c → kind a = kind b → kind b = kind c →
  key_cmp a b ≤ 0 → key_cmp b c ≤ 0 → key_cmp a c ≤ 0.
Proof.
  destruct a as [x|x|x|], b as [y|y|y|]; try done;
    destruct c as [z|z|z|]; try done; simpl; intros Ha Hb Hc _ _;
    rewrite ?text_cmp_le, ?num_cmp_le by done;
    [apply (transitivity (R := String.le))|apply lex_le_trans..].
Qed.

Section sorting.
Context `{RegExpOps}.
Implicit Types (s : settings) (hdr : list string) (t : list nat).

(** The sort key of a row, and the rows that have one of the kind [kd]. *)
Definition row_key hdr s (r : nat) : option sort_key :=
  cell_key (sorttype s !! sortcol s) (cell (heap s) hdr r (sortcol s)).

Definition has_key hdr s (kd : nat) (r : nat) : Prop :=
  ∃ k, row_key hdr s r = Some k ∧ kind k = kd.

(** The order of rows in the direction of the table. *)
Definition row_cmp hdr s (a b : nat) : Z :=
  let '(a, b) := if (sortdir s =? "desc")%string then (b, a) else (a, b) in
  key_cmp (default KNone (row_key hdr s a)) (default KNone (row_key hdr s b)).

Lemma compare_rows_key hdr s kd a b :
  has_key hdr s kd a → has_key hdr s kd b → compare_rows hdr s a b = Ok (row_cmp hdr s a b).
Proof.
  intros (ka & Ha & Hka) (kb & Hb & Hkb). unfold compare_rows, row_cmp.
  destruct (sortdir s =? "desc")%string; rewrite Ha, Hb; simpl;
    apply compare_cells_key; try done; congruence.
Qed.

Lemma row_cmp_consistent hdr s kd : consistent (has_key hdr s kd) (row_cmp hdr s).
Proof.
  split.
  - intros x y (kx & Hx & Ex) (ky & Hy & Ey). unfold row_cmp.
    destruct (sortdir s =? "desc")%string; rewrite Hx, Hy; simpl;
      apply key_cmp_total; try congruence; by eapply cell_key_ok.
  - intros x y z (kx & Hx & Ex) (ky & Hy & Ey) (kz & Hz & Ez). unfold row_cmp.
    destruct (sortdir s =? "desc")%string; rewrite Hx, Hy, Hz; simpl; intros H1 H2.
    + eapply (key_cmp_trans kz ky kx); try congruence; by eapply cell_key_ok.
    + eapply (key_cmp_trans kx ky kz); try congruence; by eapply cell_key_ok.
Qed.

(** Sorting rows that have keys of one kind returns the stable sort by key. *)
Lemma sort_rows_pure hdr filtered t s kd :
  sorted s = false → Forall (has_key hdr s kd) t →
  ∃ s', sort_rows hdr filtered t s = Ok (s', pure_sort (row_cmp hdr s) t) ∧ sorted s' = true ∧
    (if filtered then filtered_data s' else tdata s') = Some (pure_sort (row_cmp hdr s) t).
Proof.
  intros Hs Ht. unfold sort_rows. rewrite Hs.
  rewrite (array_sort_pure _ (row_cmp hdr s)).
  - simpl. eexists. split; [done|]. by destruct filtered.
  - rewrite Forall_forall in Ht. intros. eapply compare_rows_key; auto.
Qed.

Lemma sort_rows_perm hdr filtered t s s' t' :
  sort_rows hdr filtered t s = Ok (s', t') → t' ≡ₚ t.
Proof.
  unfold sort_rows. destruct (sorted s); [by intros [= <- <-]|].
  intros Hr. inv_res. simplify_eq. by eapply array_sort_perm.
Qed.

End sorting.
