(* ===== verification/TableView.v ===== *)
(** * Table renderer: the rendered table

    src/site_deprecated/renderers/renderer.table.js, the rest of [render]: the
    header cells with their sort icons and filter elements, the body, the
    navigation below the table and the options panel.  A [view] is what the
    target element holds after [render], with the values its event handlers
    have captured. *)

From Stdlib Require Import SpecFloat.
From S2P Require Import Prelude JsString JsNumber JsValue JsJson JsRegExp TableData.

(** ** The array used as a set of options

    [selopts] is an array to which cells are added as properties.  A name that
    [Array.prototype] or [Object.prototype] defines is found on it from the
    start; an index extends its length; storing under [length] truncates it. *)

Definition inherited_names : list string :=
  ["at"; "concat"; "constructor"; "copyWithin"; "entries"; "every"; "fill"; "filter";
   "find"; "findIndex"; "findLast"; "findLastIndex"; "flat"; "flatMap"; "forEach";
   "includes"; "indexOf"; "join"; "keys"; "lastIndexOf"; "map"; "pop"; "push"; "reduce";
   "reduceRight"; "reverse"; "shift"; "slice"; "some"; "sort"; "splice";
   "toLocaleString"; "toString"; "unshift"; "values";
   "hasOwnProperty"; "isPrototypeOf"; "propertyIsEnumerable"; "valueOf"; "__proto__";
   "__defineGetter__"; "__defineSetter__"; "__lookupGetter__"; "__lookupSetter__"].

Record selopts := mkSel { sel_keys : list string; sel_len : Z }.

Definition sel_empty : selopts := mkSel [] 0.

Definition sel_has (k : string) (o : selopts) : bool :=
  if (k =? "length")%string then negb (sel_len o =? 0)
  else bool_decide (k ∈ sel_keys o) || bool_decide (k ∈ inherited_names).

Definition sel_add (k : string) (o : selopts) : selopts :=
  if (k =? "length")%string then
    mkSel (List.filter (λ k', match array_index k' with Some z => z <? 1 | None => true end)
             (sel_keys o)) 1
  else if (k =? "__proto__")%string then o
  else
    mkSel (if bool_decide (k ∈ sel_keys o) then sel_keys o else sel_keys o ++ [k])
      (match array_index k with Some z => Z.max (sel_len o) (z + 1) | None => sel_len o end).

Section view.
Context `{RegExpOps}.
Implicit Types (s : settings) (hdr : list string).

(** ** Header *)

(** A sort icon; the handler sorts by the column in the direction given. *)
Record icon := mkIcon {
  ic_class : string;
  ic_title : string;
  ic_onclick : option (nat * string)
}.

Inductive widget :=
| WText (col : nat) (value : string) (ops : list (string * bool))
| WSelect (col : nat) (options : list (string * bool)).

Definition widget_col (w : widget) : nat :=
  match w with WText c _ _ => c | WSelect c _ => c end.

Record hcell := mkHcell {
  hc_col : nat;
  hc_label : string;
  hc_asc : icon;
  hc_desc : icon;
  hc_minwidth : Z;
  hc_caret : bool;
  hc_search : option string;   (* the search icon and the word it reports *)
  hc_widget : option widget;
  hc_open : bool;              (* the filter element is shown *)
  hc_labelled : bool           (* the label is shown *)
}.

#[global] Instance hcell_eta : Eta hcell := λ c,
  mkHcell (hc_col c) (hc_label c) (hc_asc c) (hc_desc c) (hc_minwidth c) (hc_caret c)
    (hc_search c) (hc_widget c) (hc_open c) (hc_labelled c).

(** The icons of column [i] (ascending, descending). *)
Definition sort_icons s (i : nat) : icon * icon :=
  let asc := mkIcon "icon-chevron-down" "sort ascending" (Some (i, "asc")) in
  let desc := mkIcon "icon-chevron-up" "sort descending" (Some (i, "desc")) in
  if (i =? sortcol s)%nat then
    if (sortdir s =? "asc")%string then
      (mkIcon "icon-chevron-down icon-white" "current sorting: ascending" None, desc)
    else
      (asc, mkIcon "icon-chevron-up icon-white" "current sorting: descending" None)
  else (asc, desc).

(** Autodetection of the filter of a column: operators for numbers, a select
    box for few distinct values. *)
Definition count_options (hp : list row) hdr (t : list nat) (i : nat) : Z :=
  (foldl (λ '(n, o) r,
     let k := to_str (cell hp hdr r i) in
     (if sel_has k o then n else n + 1, sel_add k o)) (0, sel_empty) t).1.

Definition autodetect_filter hdr (t : list nat) (i : nat) s : settings :=
  if filter_autodetect s then
    match fget i (filters s) with
    | Some _ => s
    | None =>
        let f0 := mkFilter "text" None false None None None None in
        let f1 := if bool_decide (sorttype s !! i = Some "number")
                  then f0 <| operator := Some ["="; "<"; ">"; "><"] |>
                          <| active_operator := Some 0%nat |>
                  else f0 in
        let n := count_options (heap s) hdr t i in
        let f2 := if jlt (filter_autodetect_select_max s) (JInt n) then f1
                  else if bool_decide (filter_autodetect_select_max s = JNaN) then f1
                  else f1 <| ftype := "select" |> in
        s <| filters := fset i f2 (filters s) |>
    end
  else s.

(** The options of a select box: every non-empty string of the column. *)
Definition select_options (hp : list row) hdr (t : list nat) (i : nat) : res (list string) :=
  o ← foldR (λ o r,
        match cell hp hdr r i with
        | VUndef | VNull => Throw TypeError
        | VStr v => Ok (if (v =? "")%string then o else sel_add v o)
        | _ => Ok o
        end) sel_empty t;
  Ok (for_in_keys (sel_keys o)).

(** The filter element of a column.  [stale] is the value the variable
    [filter_elem] has kept from an earlier column: a filter of a type other
    than [text] and [select] does not assign it. *)
Definition filter_element hdr (t : list nat) (hp : list row) (i : nat) (f : filter)
    (stale : option widget) : res (option widget) :=
  if (ftype f =? "text")%string then
    let ops := match operator f with
               | Some l => imap (λ h o, (o, bool_decide (Some h = active_operator f))) l
               | None => []
               end in
    Ok (Some (WText i (default "" (searchword f)) ops))
  else if (ftype f =? "select")%string then
    opts ← select_options hp hdr t i;
    Ok (Some (WSelect i ((λ o, (o, (o =? default "" (searchword f))%string)) <$> opts)))
  else Ok stale.

(** [th.appendChild(w)] moves an element that already has a parent. *)
Definition detach (w : widget) (cs : list hcell) : list hcell :=
  (λ c, match hc_widget c with
        | Some w' => if (widget_col w' =? widget_col w)%nat then c <| hc_widget := None |> else c
        | None => c
        end) <$> cs.

(** One visible column of the header row: the settings, the cells so far and
    the variable [filter_elem]. *)
Definition header_step hdr (t : list nat) (st : settings * list hcell * option widget) (i : nat)
    : res (settings * list hcell * option widget) :=
  let '(s, cs, fe) := st in
  let '(asc, desc) := sort_icons s i in
  let s1 := autodetect_filter hdr t i s in
  let mw := match minwidths s1 !! i with
            | Some w => if w =? 0 then 153 else w | None => 153 end in
  let th := mkHcell i (hkey hdr i) asc desc mw (bool_decide (i ∉ disable_sort s1)) None None false true in
  match fget i (filters s1) with
  | None => Ok (s1, cs ++ [th], fe)
  | Some f0 =>
      let f := if set_str (searchword f0) then f0 else f0 <| searchword := Some "" |> in
      let s2 := s1 <| filters := fset i f (filters s1) |> in
      fe' ← filter_element hdr t (heap s2) i f fe;
      w ← need TypeError fe';   (* appendChild(undefined) *)
      Ok (s2, detach w cs ++ [th <| hc_search := searchword f |> <| hc_widget := Some w |>], fe')
  end.

Definition build_header hdr (t : list nat) s : res (settings * list hcell) :=
  r ← foldR (header_step hdr t) (s, [], None) (visible hdr s);
  Ok (r.1.1, r.1.2).

(** ** Options panel *)

Definition colsel_html (index : nat) hdr s : string :=
  "<input type='button' class='btn btn-mini' style='float: right;' value='OK' onclick='Retina.RendererInstances.table["
  +++ show (Z.of_nat index) +++ "].update_visible_columns(" +++ show (Z.of_nat index)
  +++ ");'><table id='table_colsel_table_" +++ show (Z.of_nat index) +++ "'>"
  +++ String.concat "" (imap (λ ii h,
        "<tr><td><input style='margin-right: 5px;' type='checkbox'"
        +++ (if bool_decide (ii ∈ invisible_columns s) then "" else " checked")
        +++ "></td><td>" +++ h +++ "</td></tr>") hdr)
  +++ "</table>".

(** ** The view *)

Record view := mkView {
  v_header : list hcell;
  v_body : list (list string);
  v_disp : list nat;              (* the rows shown *)
  v_hdr : list string;            (* captured: header *)
  v_offset : jsint;               (* captured: offset *)
  v_rows : jsint;                 (* captured: rows *)
  v_total : Z;                    (* captured: tdata.length *)
  v_nav : option navcb;           (* what the first/previous/next/last handlers call *)
  v_prev : bool;                  (* first and previous are shown *)
  v_next : bool;                  (* next and last are shown *)
  v_showing : string;
  v_goto : string;
  v_perpage : string;
  v_colsel : string;
  v_options : bool;               (* there is an options panel *)
  v_options_open : bool;          (* it is shown, and not its icon *)
  v_colsel_open : bool;           (* the selection of columns is shown *)
  v_onclick : bool;               (* a click on a cell is reported *)
  v_editable : list bool;         (* per column shown: a click on a cell opens a field *)
  v_edit : option (nat * nat * string)   (* the open field: row, position, text *)
}.

#[global] Instance view_eta : Eta view := λ v,
  mkView (v_header v) (v_body v) (v_disp v) (v_hdr v) (v_offset v) (v_rows v) (v_total v) (v_nav v)
    (v_prev v) (v_next v) (v_showing v) (v_goto v) (v_perpage v) (v_colsel v) (v_options v)
    (v_options_open v) (v_colsel_open v) (v_onclick v) (v_editable v) (v_edit v).

Definition total_rows s (t : list nat) : jsint :=
  let n := JInt (Z.of_nat (length t)) in
  match numrows s with Some m => jor m n | None => n end.

Definition showing s (t disp : list nat) : string :=
  let o := jor (offset s) (offset s) in
  "showing rows " +++ jshow (jadd o (JInt 1)) +++ "-"
  +++ jshow (jadd (JInt (Z.of_nat (length disp))) o) +++ " of " +++ jshow (total_rows s t).

Definition make_view (index : nat) hdr (t : list nat) s (cells : list hcell) : view :=
  let disp := page s t in
  let rows := page_rows s t in
  {| v_header := cells;
     v_body := body hdr s disp;
     v_disp := disp;
     v_hdr := hdr;
     v_offset := offset s;
     v_rows := rows;
     v_total := Z.of_nat (length t);
     v_nav := navigation_callback s;
     v_prev := jlt (JInt 0) (offset s);
     v_next := jlt (jadd (offset s) rows) (total_rows s t);
     v_showing := showing s t disp;
     v_goto := jshow (jadd (offset s) (JInt 1));
     v_perpage := jshow rows;
     v_colsel := colsel_html index (default hdr (header s)) s;
     v_options := negb (hide_options s);
     v_options_open := false;
     v_colsel_open := false;
     v_onclick := onclick s;
     v_editable := (λ h, bool_decide (h ∈ editable s)) <$> visible hdr s;
     v_edit := None |}.

(** [render]: the settings afterwards, the view and the alerts shown. *)
Definition render (index : nat) s : res (settings * view * list string) :=
  p1 ← init_header (init_data (init_navigation s));
  let hdr := p1.2 in
  p2 ← init_tdata hdr p1.1;
  s3 ← autodetect_sort hdr p2.2 p2.1;
  let filtered := filter_present s3 && synchronous s3 in
  p4 ← apply_filter hdr p2.2 s3;
  let '(s4, t4, alerts) := p4 in
  p5 ← build_header hdr t4 s4;
  p6 ← sort_rows hdr filtered t4 p5.1;
  Ok (p6.1, make_view index hdr p6.2 p6.1 p5.2, alerts).

(** The column selection: the unchecked boxes become the invisible columns. *)
Definition update_visible_columns (checked : list bool) s : settings :=
  s <| invisible_columns :=
         list_to_set (omap (λ '(i, b), if (b : bool) then None else Some i) (imap pair checked)) |>.

End view.
