(* ===== verification/TableRender.v ===== *)
(** * Table renderer: what [render] displays

    The phases of [render] composed: the view shows the page, at the current
    offset, of the stable sort of the rows that pass the filters, restricted to
    the visible columns; and [render] returns on every table whose cells have
    the types its filters and its sort need. *)

From Stdlib Require Import SpecFloat.
From S2P Require Import Prelude JsString JsNumber JsValue JsJson JsRegExp RegExpEngine TableData TableFilter TableSort TableView.

Section frame.
Context `{RegExpOps}.
Implicit Types (s : settings) (f : filter) (hdr : list string) (t : list nat).

(** ** What the phases leave alone *)

(** Settings that agree on everything but the filters. *)
Definition same_but_filters s s' : Prop := s' = s <| filters := filters s' |>.

#[local] Instance same_but_filters_preorder : PreOrder same_but_filters.
Proof.
  split; unfold same_but_filters.
  - by intros [].
  - intros s1 s2 s3 E1 E2. rewrite E2, E1. done.
Qed.

Lemma autodetect_filter_frame hdr t i s : same_but_filters s (autodetect_filter hdr t i s).
Proof.
  unfold autodetect_filter. case_if; [|reflexivity]. by case_match; [reflexivity|].
Qed.

Lemma header_step_frame hdr t s cs fe i s' cs' fe' :
  header_step hdr t (s, cs, fe) i = Ok (s', cs', fe') →
  same_but_filters s s' ∧ hc_col <$> cs' = (hc_col <$> cs) ++ [i].
Proof.
  unfold header_step. destruct (sort_icons s i) as [asc desc].
  pose proof (autodetect_filter_frame hdr t i s) as Hf.
  destruct (fget i _) as [f0|].
  - intros Hr. inv_res. simplify_eq. split.
    + etrans; [exact Hf|]. done.
    + rewrite fmap_app. f_equal. unfold detach. rewrite <-list_fmap_compose.
      apply list_fmap_ext. intros k c _. simpl. by repeat case_match.
  - intros [= <- <- <-]. split; [done|]. by rewrite fmap_app.
Qed.

Lemma build_header_frame hdr t s s' cs :
  build_header hdr t s = Ok (s', cs) → same_but_filters s s' ∧ hc_col <$> cs = visible hdr s.
Proof.
  unfold build_header. intros Hr. apply bind_ok in Hr as ([[s1 cs1] fe1] & Hr & [= <- <-]).
  assert (∀ l s0 cs0 fe0, foldR (header_step hdr t) (s0, cs0, fe0) l = Ok (s1, cs1, fe1) →
    same_but_filters s0 s1 ∧ hc_col <$> cs1 = (hc_col <$> cs0) ++ l) as Hl.
  { clear. induction l as [|i l IH]; intros s0 cs0 fe0 Hr; cbn [foldR] in Hr.
    - inv_res. simplify_eq. split; [reflexivity|]. by rewrite app_nil_r.
    - apply bind_ok in Hr as ([[s2 cs2] fe2] & H1 & H2).
      apply header_step_frame in H1 as [F1 C1]. apply IH in H2 as [F2 C2].
      split; [by etrans|]. rewrite C2, C1. by rewrite <-app_assoc. }
  by apply Hl in Hr.
Qed.

(** The fields the later phases read. *)
Definition same_data s s' : Prop :=
  heap s' = heap s ∧ sorted s' = sorted s ∧ synchronous s' = synchronous s ∧
  offset s' = offset s ∧ invisible_columns s' = invisible_columns s ∧
  rows_per_page s' = rows_per_page s.

Lemma same_but_filters_data s s' : same_but_filters s s' → same_data s s'.
Proof. intros E. unfold same_data. rewrite E. by split_and!. Qed.

Lemma same_but_filters_visible hdr s s' : same_but_filters s s' → visible hdr s' = visible hdr s.
Proof. intros ->. done. Qed.

Lemma autodetect_sort_frame hdr t s s' :
  autodetect_sort hdr t s = Ok s' → s' = s <| sorttype := sorttype s' |>.
Proof.
  unfold autodetect_sort. case_if; intros Hr; inv_res; [done|]. by destruct s'.
Qed.

(** A table that is rendered for the first time. *)
Record fresh s hdr (rows : list (list value)) : Prop := {
  fresh_data : data s = RawObj (Some hdr) (Some rows);
  fresh_header : header s = None;
  fresh_tdata : tdata s = None;
  fresh_heap : heap s = []
}.

(** The rows a filter lets through, and the alerts of its preparation. *)
Definition passing s hdr (hp : list row) (t : list nat) (fs : list (nat * filter)) : list nat :=
  if filter_present s then List.filter (accepts_row hp hdr fs) t else t.

(** Settings that agree on what the user chose. *)
Definition agree s s' : Prop :=
  filters s' = filters s ∧ filter_changed s' = filter_changed s ∧ sorted s' = sorted s ∧
  synchronous s' = synchronous s ∧ offset s' = offset s ∧
  invisible_columns s' = invisible_columns s ∧ rows_per_page s' = rows_per_page s ∧
  filtered_data s' = filtered_data s.

Lemma init_header_fresh s hdr rows :
  fresh s hdr rows → ∃ s1, init_header (init_data (init_navigation s)) = Ok (s1, hdr) ∧
    agree s s1 ∧ data s1 = RawObj None (Some rows) ∧ tdata s1 = None ∧ heap s1 = [] ∧
    sortcol s1 = sortcol s.
Proof.
  intros [Ed Eh Et Ep].
  assert (∃ n, init_navigation s = s <| navigation_callback := n |>) as [n ->].
  { unfold init_navigation. case_if; [eauto|]. exists (navigation_callback s). by destruct s. }
  unfold init_data, init_header. simpl data. rewrite Ed. simpl header. rewrite Eh.
  simpl data. rewrite Ed. eexists. split; [reflexivity|].
  unfold agree. split_and!; try reflexivity; done.
Qed.

Lemma init_tdata_fresh s hdr rows :
  data s = RawObj None (Some rows) → tdata s = None → heap s = [] →
  ∃ s2, init_tdata hdr s = Ok (s2, seq 0 (length rows)) ∧ agree s s2 ∧
    heap s2 = parse_row hdr <$> rows ∧ sortcol s2 = sortcol s.
Proof.
  intros Ed Et Ep. unfold init_tdata. rewrite Et, Ed, Ep. eexists. split; [reflexivity|].
  unfold agree. split_and!; reflexivity.
Qed.

Lemma autodetect_sort_agree hdr t s s' :
  autodetect_sort hdr t s = Ok s' → agree s s' ∧ heap s' = heap s ∧ sortcol s' = sortcol s.
Proof. intros ->%autodetect_sort_frame. unfold agree. split_and!; reflexivity. Qed.

Lemma filter_present_ext s s' : filters s' = filters s → filter_present s' = filter_present s.
Proof. unfold filter_present. by intros ->. Qed.

Lemma apply_filter_spec hdr t s s' t' al :
  synchronous s = true → filter_changed s = true → apply_filter hdr t s = Ok (s', t', al) →
  ∃ fs, (if filter_present s then prepare_filters (filters s) = Ok (fs, al) else al = []) ∧
    t' = passing s hdr (heap s) t fs ∧ heap s' = heap s ∧ sorted s' = sorted s ∧
    synchronous s' = true ∧ offset s' = (if filter_present s then JInt 0 else offset s) ∧
    invisible_columns s' = invisible_columns s ∧ rows_per_page s' = rows_per_page s.
Proof.
  intros Hs Hc. unfold apply_filter, passing. rewrite Hs, Hc, andb_true_r.
  destruct (filter_present s).
  - intros H4. apply bind_ok in H4 as ([fs alp] & Hp & H4).
    apply bind_ok in H4 as (new & Hnew & H4). cbn [fst snd] in *. injection H4 as <- <- <-.
    exists fs. split_and!; try reflexivity; [done|by apply filterR_passes|done].
  - intros [= <- <- <-]. exists []. by split_and!.
Qed.

Lemma sort_rows_frame hdr filtered t s s' t' :
  sort_rows hdr filtered t s = Ok (s', t') →
  heap s' = heap s ∧ synchronous s' = synchronous s ∧ offset s' = offset s ∧
  invisible_columns s' = invisible_columns s ∧ rows_per_page s' = rows_per_page s ∧
  sorttype s' = sorttype s ∧ sortcol s' = sortcol s ∧ sortdir s' = sortdir s ∧ sorted s' = true.
Proof.
  unfold sort_rows. destruct (sorted s) eqn:E; intros Hr.
  - injection Hr as <- <-. by split_and!.
  - apply bind_ok in Hr as (u & _ & Hr). injection Hr as <- <-.
    destruct filtered; split_and!; reflexivity.
Qed.

Lemma visible_ext hdr s s' : invisible_columns s' = invisible_columns s → visible hdr s' = visible hdr s.
Proof. unfold visible. by intros ->. Qed.

(** The data phases of [render] on a fresh synchronous table. *)
Lemma render_fresh index s hdr rows s' v al :
  fresh s hdr rows → synchronous s = true → filter_changed s = true →
  render index s = Ok (s', v, al) →
  ∃ fs s5 t,
    (if filter_present s then prepare_filters (filters s) = Ok (fs, al) else al = []) ∧
    heap s5 = parse_row hdr <$> rows ∧ sorted s5 = sorted s ∧ synchronous s5 = true ∧
    offset s5 = (if filter_present s then JInt 0 else offset s) ∧
    invisible_columns s5 = invisible_columns s ∧ rows_per_page s5 = rows_per_page s ∧
    sort_rows hdr (filter_present s)
      (passing s hdr (heap s5) (seq 0 (length rows)) fs) s5 = Ok (s', t) ∧
    v_disp v = page s' t ∧ v_body v = body hdr s' (page s' t) ∧
    hc_col <$> v_header v = visible hdr s'.
Proof.
  intros Hf Hsync Hch Hr. unfold render in Hr.
  destruct (init_header_fresh _ _ _ Hf) as (s1 & E1 & A1 & D1 & T1 & P1 & _). rewrite E1 in Hr.
  apply bind_ok in Hr as (p1 & [= <-] & Hr). cbn [fst snd] in Hr.
  destruct (init_tdata_fresh s1 hdr rows D1 T1 P1) as (s2 & E2 & A2 & P2 & _). rewrite E2 in Hr.
  apply bind_ok in Hr as (p2 & [= <-] & Hr). cbn [fst snd] in Hr. clear E1 E2 D1 T1 P1 Hf.
  apply bind_ok in Hr as (s3 & (A3 & P3 & _)%autodetect_sort_agree & Hr).
  unfold agree in *. destruct_and!.
  assert (filter_present s3 = filter_present s) as Efp by (apply filter_present_ext; congruence).
  assert (synchronous s3 = true) as Es3 by congruence. rewrite Efp, Es3, andb_true_r in Hr.
  apply bind_ok in Hr as ([[s4 t4] al4] & Hflt & Hr).
  apply apply_filter_spec in Hflt as (fs & Hp & -> & F1 & F2 & F3 & F4 & F5 & F6); [|congruence..].
  apply bind_ok in Hr as ([s5 cs] & [G C]%build_header_frame & Hr).
  apply same_but_filters_data in G as (G1 & G2 & G3 & G4 & G5 & G6).
  apply bind_ok in Hr as ([s6 t6] & Hsort & [= <- <- <-]). cbn [fst snd] in *.
  pose proof (sort_rows_frame _ _ _ _ _ _ Hsort) as (K1 & K2 & K3 & K4 & K5 & K6).
  rewrite Efp in Hp, F4. exists fs, s5, t6. unfold passing in *. rewrite Efp in Hsort.
  replace (filters s3) with (filters s) in Hp by congruence.
  replace (offset s3) with (offset s) in F4 by congruence.
  replace (heap s3) with (heap s5) in Hsort by congruence.
  split_and!; try congruence; try done. simpl. rewrite C. apply visible_ext. congruence.
Qed.

(** C1: the rows on the screen. On the first [render] of a synchronous table (its data
    not parsed yet, its filters just changed, not sorted) whose cells in the sort
    column have a sort key of one kind, the rows shown are the page, at the
    offset the settings have then, of the stable sort by the sort column and
    direction of exactly the rows that every filter with a search word accepts;
    the body has the visible columns of those rows, in the order of the header,
    and the offset is 0 when a filter is present. *)
Theorem render_shows_sorted_filtered_page index s hdr rows s' v al kd :
  fresh s hdr rows → synchronous s = true → filter_changed s = true → sorted s = false →
  render index s = Ok (s', v, al) →
  (∀ r, r ∈ seq 0 (length rows) → has_key hdr s' kd r) →
  ∃ fs shown,
    (if filter_present s then prepare_filters (filters s) = Ok (fs, al) else al = []) ∧
    is_stable_sort (has_key hdr s' kd) (row_cmp hdr s')
      (passing s hdr (heap s') (seq 0 (length rows)) fs) shown ∧
    heap s' = parse_row hdr <$> rows ∧
    offset s' = (if filter_present s then JInt 0 else offset s) ∧
    v_disp v = slice shown (offset s') (jadd (offset s') (page_rows s' shown)) ∧
    v_body v = (λ r, (λ h, inner_html (cell (heap s') hdr r h)) <$> visible hdr s') <$> v_disp v ∧
    hc_col <$> v_header v = visible hdr s'.
Proof.
  intros Hf Hs Hc Hso Hr Hkeys.
  destruct (render_fresh _ _ _ _ _ _ _ Hf Hs Hc Hr)
    as (fs & s5 & t & Hp & Hh & Hso5 & Hs5 & Ho & Hi & Hrp & Hsort & Hd & Hb & Hhd).
  pose proof (sort_rows_frame _ _ _ _ _ _ Hsort) as (K1 & K2 & K3 & K4 & K5 & K6 & K7 & K8 & K9).
  assert (∀ a, row_key hdr s' a = row_key hdr s5 a) as Hkey.
  { intros a. unfold row_key. by rewrite K1, K6, K7. }
  assert (Forall (has_key hdr s5 kd) (passing s hdr (heap s5) (seq 0 (length rows)) fs)) as Hall.
  { apply Forall_forall. intros r Hin.
    assert (r ∈ seq 0 (length rows)) as Hr'.
    { unfold passing in Hin. case_match; [|done]. by apply elem_of_list_filter_b in Hin as [? _]. }
    destruct (Hkeys r Hr') as (k & Hk & Ek). exists k. by rewrite <-Hkey. }
  assert (row_cmp hdr s' = row_cmp hdr s5) as Ecmp.
  { unfold row_cmp. rewrite K8. unfold row_key. by rewrite K1, K6, K7. }
  destruct (sort_rows_pure hdr (filter_present s) _ s5 kd ltac:(congruence) Hall)
    as (s6 & Hs6 & _).
  rewrite Hsort in Hs6. injection Hs6 as <- ->.
  exists fs, (pure_sort (row_cmp hdr s5) (passing s hdr (heap s5) (seq 0 (length rows)) fs)).
  rewrite K1, Ecmp. split_and!; try done; try congruence.
  - destruct (pure_sort_spec _ _ (row_cmp_consistent hdr s5 kd) _ Hall) as (P1 & P2 & P3).
    split_and!; [done|done|]. intros z (k & Hz & Ez). apply P3. exists k. by rewrite <-Hkey.
  - rewrite Hd. unfold page. by rewrite K2, Hs5.
  - by rewrite Hb, Hd, <-K1.
Qed.

(** ** Termination without an exception *)

(** Every cell of the column is a string. *)
Definition string_cell (hp : list row) hdr (r i : nat) : Prop := ∃ x, cell hp hdr r i = VStr x.

Lemma parse_row_string hdr cells i :
  length cells = length hdr → Forall (λ v, ∃ x, v = VStr x) cells → (i < length hdr)%nat →
  ∃ x, parse_row hdr cells !! hkey hdr i = Some (VStr x).
Proof.
  intros Hlen Hall Hi. unfold parse_row.
  assert (∀ l r k, Forall (λ p : nat * value, ∃ x, p.2 = VStr x) l →
    (∃ p, p ∈ l ∧ hkey hdr p.1 = k) ∨ (∃ x, r !! k = Some (VStr x)) →
    ∃ x, foldl (λ (r : row) '(h, v), <[hkey hdr h := vor v (VStr "")]> r) r l !! k
         = Some (VStr x)) as Hf.
  { clear. induction l as [|[h v] l IH]; intros r k Hl Hk; simpl.
    - destruct Hk as [(p & Hp & _)|Hk]; [by apply elem_of_nil in Hp|done].
    - inversion_clear Hl as [|?? [x Hx] Hl']. simpl in Hx. subst v. apply IH; [done|].
      destruct (decide (hkey hdr h = k)) as [<-|Hne].
      + right. rewrite lookup_insert_eq. unfold vor. case_if; eauto.
      + destruct Hk as [(p & [->|Hp]%elem_of_cons & Hpk)|[y Hy]]; [done|eauto|].
        right. rewrite lookup_insert_ne; eauto. }
  apply Hf.
  - apply Forall_forall. intros [h v] Hp. apply list_elem_of_lookup in Hp as [k Hk].
    rewrite list_lookup_imap in Hk. apply fmap_Some in Hk as (v' & Hv' & [= -> ->]).
    rewrite Forall_forall in Hall. apply Hall. by eapply list_elem_of_lookup_2.
  - left. destruct (lookup_lt_is_Some_2 cells i) as [v Hv]; [lia|].
    exists (i, v). split; [|done]. apply (list_elem_of_lookup_2 _ i).
    rewrite list_lookup_imap, Hv. done.
Qed.

(** What the filters of a table need to be rendered: known types, columns of
    the table, search words that compile. *)
Definition filter_ok hdr (f : filter) (i : nat) : Prop :=
  (ftype f = "text" ∨ ftype f = "select") ∧ (i < length hdr)%nat ∧
  is_Some (new_RegExp (default "" (searchword f)) (negb (case_sensitive f))).

Lemma prepare_filters_total hdr fs :
  (∀ i f, (i, f) ∈ fs → filter_ok hdr f i) → ∃ p, prepare_filters fs = Ok p.
Proof.
  intros Hfs. unfold prepare_filters.
  destruct (mapR_total (λ '(i, f), p ← prepare_filter f; Ok (i, p.1, p.2)) fs) as [ps ->].
  - intros [i f] Hin. destruct (Hfs i f Hin) as (_ & _ & [r Hr]).
    unfold prepare_filter. rewrite Hr. simpl. repeat case_match; simpl; eauto.
  - simpl. eauto.
Qed.

(** The types and columns survive the preparation. *)
Lemma prepare_filters_ok hdr fs fs' al :
  (∀ i f, (i, f) ∈ fs → filter_ok hdr f i) → prepare_filters fs = Ok (fs', al) →
  ∀ i f, (i, f) ∈ fs' → (ftype f = "text" ∨ ftype f = "select") ∧ (i < length hdr)%nat ∧
    (active_op f = Some "><" → ∀ w, nonempty_word f = Some w → is_Some (minmax f)).
Proof.
  intros Hfs Hp i f [k Hk]%list_elem_of_lookup.
  destruct (prepare_filters_lookup _ _ _ _ _ _ Hp Hk) as (f0 & al' & Hk0 & Hf0).
  destruct (Hfs i f0) as (Ht & Hi & _); [by eapply list_elem_of_lookup_2|].
  apply prepare_filter_same in Hf0 as (E1 & E2 & E3 & E4 & _ & _ & Hm).
  rewrite E1, E4. split_and!; done.
Qed.

Lemma fget_elem i fs f : fget i fs = Some f → (i, f) ∈ fs.
Proof.
  induction fs as [|[j g] fs IH]; simpl; [done|].
  destruct (Nat.eqb_spec i j) as [->|]; [intros [= ->]; by left|right; auto].
Qed.

Lemma fset_elem i f fs j g : (j, g) ∈ fset i f fs → (j, g) = (i, f) ∨ (j, g) ∈ fs.
Proof.
  induction fs as [|[k h] fs IH]; simpl; [rewrite list_elem_of_singleton; auto|].
  destruct (i =? k)%nat; [|destruct (i <? k)%nat]; rewrite !elem_of_cons; intuition.
Qed.

(** The header of a table of strings is built without an exception. *)
Lemma build_header_total hdr t s :
  (∀ r i, r ∈ t → (i < length hdr)%nat → string_cell (heap s) hdr r i) →
  (∀ i f, (i, f) ∈ filters s → ftype f = "text" ∨ ftype f = "select") →
  ∃ p, build_header hdr t s = Ok p.
Proof.
  intros Hcell Hfs. unfold build_header.
  destruct (foldR_inv (λ st : settings * list hcell * option widget,
    heap st.1.1 = heap s ∧ ∀ i f, (i, f) ∈ filters st.1.1 → ftype f = "text" ∨ ftype f = "select")
    (header_step hdr t) (visible hdr s) (s, [], None)) as (st & -> & _); [done| |by eauto].
  intros [[s1 cs] fe] i Hi [Hh Hty]. cbn [fst snd] in *.
  assert (i < length hdr)%nat as Hlt.
  { unfold visible in Hi. apply elem_of_list_filter_b in Hi as [Hi _].
    apply elem_of_seq in Hi. lia. }
  unfold header_step. destruct (sort_icons s1 i) as [asc desc].
  assert (heap (autodetect_filter hdr t i s1) = heap s ∧
    ∀ j f, (j, f) ∈ filters (autodetect_filter hdr t i s1) → ftype f = "text" ∨ ftype f = "select")
    as [Hh1 Hty1].
  { unfold autodetect_filter. case_if; [|done]. case_match; [done|]. simpl. split; [done|].
    intros j g [[= -> ->]|?]%fset_elem; [|by eapply Hty].
    repeat case_match; simpl; auto. }
  destruct (fget i (filters (autodetect_filter hdr t i s1))) as [f0|] eqn:Ef;
    [|by eexists; split].
  set (f := if set_str (searchword f0) then f0 else f0 <| searchword := Some "" |>).
  assert (ftype f = "text" ∨ ftype f = "select") as Hf.
  { assert (ftype f = ftype f0) as -> by (unfold f; by case_if).
    apply fget_elem in Ef. by eapply Hty1. }
  assert (∃ w, filter_element hdr t (heap s) i f fe = Ok (Some w)) as [w Hw].
  { unfold filter_element. destruct Hf as [-> | ->]; simpl; [eauto|].
    unfold select_options.
    destruct (foldR_inv (λ _ : selopts, True) (λ o r,
        match cell (heap s) hdr r i with
        | VUndef | VNull => Throw TypeError
        | VStr v => Ok (if (v =? "")%string then o else sel_add v o)
        | _ => Ok o
        end) t sel_empty) as (o & -> & _); [done| |by simpl; eauto].
    intros o r Hr _. destruct (Hcell r i Hr Hlt) as [x ->]. eauto. }
  simpl heap. rewrite Hh1, Hw. simpl. eexists. split; [done|]. simpl. split; [done|].
  intros j g [[= -> ->]|?]%fset_elem; [done|by eapply Hty1].
Qed.

Lemma heap_string hdr rows r i :
  Forall (λ cells, length cells = length hdr ∧ Forall (λ v, ∃ x, v = VStr x) cells) rows →
  r ∈ seq 0 (length rows) → (i < length hdr)%nat → string_cell (parse_row hdr <$> rows) hdr r i.
Proof.
  intros Hrows Hr Hi. apply elem_of_seq in Hr.
  destruct (lookup_lt_is_Some_2 rows r) as [cells Hc]; [lia|].
  destruct (proj1 (Forall_lookup _ _) Hrows r cells Hc) as [Hl Hs].
  destruct (parse_row_string hdr cells i Hl Hs Hi) as [x Hx].
  exists x. unfold cell, deref. rewrite list_lookup_fmap, Hc. simpl. by rewrite Hx.
Qed.

Lemma autodetect_sort_total hdr t s :
  (∀ r i, r ∈ t → (i < length hdr)%nat → string_cell (heap s) hdr r i) →
  ∃ s', autodetect_sort hdr t s = Ok s'.
Proof.
  intros Hc. unfold autodetect_sort. case_if; [|eauto].
  assert (∀ i, (i < length hdr)%nat → ∃ ty, detect_sorttype (heap s) hdr t i = Ok ty) as Hd.
  { intros i Hi. unfold detect_sorttype. destruct t as [|r t]; [eauto|].
    destruct (Hc r i) as [x ->]; [by left|done|]. simpl. eauto. }
  match goal with |- context [foldR ?f ?st ?l] =>
    destruct (foldR_inv (λ _, True) f l st) as (st' & -> & _); [done| |by simpl; eauto] end.
  intros st i Hi _. apply elem_of_seq in Hi. destruct (Hd i) as [ty Hty]; [lia|].
  rewrite Hty. simpl. repeat case_match; eauto.
Qed.

Lemma compare_cells_strings ty x y : ∃ c, compare_cells ty (VStr x) (VStr y) = Ok c.
Proof. unfold compare_cells. simpl. repeat case_match; eauto. Qed.

Lemma sort_rows_total hdr filtered t s :
  (sortcol s < length hdr)%nat →
  (∀ r i, r ∈ t → (i < length hdr)%nat → string_cell (heap s) hdr r i) →
  ∃ p, sort_rows hdr filtered t s = Ok p.
Proof.
  intros Hcol Hc. unfold sort_rows. destruct (sorted s); [eauto|].
  destruct (array_sort_total (compare_rows hdr s) t) as [t' ->]; [|simpl; eauto].
  intros a b Ha Hb. unfold compare_rows.
  destruct (Hc a (sortcol s) Ha Hcol) as [x Hx], (Hc b (sortcol s) Hb Hcol) as [y Hy].
  destruct (sortdir s =? "desc")%string; rewrite Hx, Hy; apply compare_cells_strings.
Qed.

Lemma apply_filter_total hdr t s :
  synchronous s = true → (filter_present s = true → filter_changed s = true) →
  (∀ r i, r ∈ t → (i < length hdr)%nat → string_cell (heap s) hdr r i) →
  (∀ i f, (i, f) ∈ filters s → filter_ok hdr f i) →
  ∃ s' t' al, apply_filter hdr t s = Ok (s', t', al) ∧ heap s' = heap s ∧ sortcol s' = sortcol s ∧
    (∀ r, r ∈ t' → r ∈ t) ∧
    (∀ i f, (i, f) ∈ filters s' → ftype f = "text" ∨ ftype f = "select").
Proof.
  intros Hs Hch Hc Hfs. unfold apply_filter. rewrite Hs, andb_true_r.
  destruct (filter_present s).
  - rewrite Hch by done. destruct (prepare_filters_total hdr (filters s) Hfs) as [[fs al] Hp]. rewrite Hp. simpl.
    pose proof (prepare_filters_ok hdr _ _ _ Hfs Hp) as Hok.
    destruct (filterR_total (row_passes (heap s) hdr fs) t) as [new Hnew].
    { intros r Hr. apply row_passes_total. intros i f w Hin Hw.
      destruct (Hok i f Hin) as (_ & Hi & Hm). split; [|by eauto].
      intros _. by apply Hc. }
    rewrite Hnew. simpl. do 3 eexists. split; [reflexivity|]. split_and!; try reflexivity.
    + intros r Hr. rewrite (filterR_passes _ _ _ _ _ Hnew) in Hr.
      by apply elem_of_list_filter_b in Hr as [? _].
    + intros i f Hin. apply (Hok i f Hin).
  - do 3 eexists. split; [reflexivity|]. split_and!; try done.
    intros i f Hin. apply (Hfs i f Hin).
Qed.

(** C10: the first [render] of a synchronous table of strings. With data not parsed yet,
    rows as long as the header, filters of the two known types on existing columns
    whose search words are regular expressions, nothing filtered yet and the sort
    column in the header, it returns a view if and only if no filter has a search
    word or the settings say that the filters have changed: a search word that is
    preset while [filter_changed] has its default makes it throw, and nothing else
    does. *)
Theorem render_returns index s hdr rows :
  fresh s hdr rows → filtered_data s = None → synchronous s = true →
  Forall (λ cells, length cells = length hdr ∧ Forall (λ v, ∃ x, v = VStr x) cells) rows →
  (∀ i f, (i, f) ∈ filters s → filter_ok hdr f i) → (sortcol s < length hdr)%nat →
  (∃ s' v al, render index s = Ok (s', v, al)) ↔ (filter_present s = true → filter_changed s = true).
Proof.
  intros Hf Hfd Hsync Hrows Hfs Hcol. unfold render.
  destruct (init_header_fresh _ _ _ Hf) as (s1 & -> & A1 & D1 & T1 & P1 & C1). simpl.
  destruct (init_tdata_fresh s1 hdr rows D1 T1 P1) as (s2 & -> & A2 & P2 & C2). simpl.
  assert (∀ r i, r ∈ seq 0 (length rows) → (i < length hdr)%nat → string_cell (heap s2) hdr r i)
    as Hcell by (rewrite P2; intros; by apply heap_string).
  destruct (autodetect_sort_total hdr (seq 0 (length rows)) s2 Hcell) as [s3 H3].
  rewrite H3. simpl. apply autodetect_sort_agree in H3 as (A3 & P3 & C3).
  unfold agree in *. destruct_and!.
  assert (filters s3 = filters s) as Efs by congruence.
  assert (filter_present s3 = filter_present s) as Efp by by apply filter_present_ext.
  split.
  { intros (s' & v & al & Hr) Hp. apply not_false_is_true. intros Hch.
    apply bind_ok in Hr as (p & Hflt & _). unfold apply_filter in Hflt.
    replace (filter_changed s3) with false in Hflt by congruence.
    replace (filtered_data s3) with (@None (list nat)) in Hflt by congruence.
    replace (synchronous s3) with true in Hflt by congruence. by rewrite Efp, Hp in Hflt. }
  intros Hch. destruct (apply_filter_total hdr (seq 0 (length rows)) s3)
    as (s4 & t4 & al & -> & P4 & C4 & Hsub & Hty); [congruence|rewrite Efp; intros; rewrite <-Hch; congruence|by rewrite P3|by rewrite Efs|].
  simpl. destruct (build_header_total hdr t4 s4) as [[s5 cs] Hbh]; [|done|].
  { rewrite P4, P3. intros. apply Hcell; auto. }
  rewrite Hbh. simpl. apply build_header_frame in Hbh as [G _].
  assert (heap s5 = heap s2 ∧ sortcol s5 = sortcol s) as [P5 C5].
  { rewrite G. simpl. split; congruence. }
  destruct (sort_rows_total hdr (filter_present s3 && synchronous s3) t4 s5) as [[s6 t6] ->].
  - by rewrite C5.
  - rewrite P5. intros. apply Hcell; auto.
  - simpl. eauto.
Qed.

End frame.

(** ** A table to run *)

Definition text_filter `{RegExpOps} (ty : string) (w : option string) : filter :=
  mkFilter ty w false None None None None.

Definition ex_header : list string := ["name"; "size"].
Definition ex_rows : list (list value) :=
  [[VStr "<b>gamma</b>"; VStr "2"]; [VStr "alpha"; VStr "10"]; [VStr "beta"; VStr "1"];
   [VStr "delta"; VStr "7 kb"]].

(** Three columns' worth of features: a numeric filter on the size, a text
    filter on the name, sorting by the name. *)
Definition ex_table : @settings EsRegExp :=
  defaults <| data := RawObj (Some ex_header) (Some ex_rows) |>
           <| filters := [(0%nat, text_filter "text" (Some "A"));
                          (1%nat, (text_filter "text" (Some "1"))
                                    <| operator := Some ["="; "<"; ">"; "><"] |>
                                    <| active_operator := Some 2%nat |>)] |>
           <| filter_changed := true |> <| rows_per_page := JInt 2 |>.

Definition ex_result : @settings EsRegExp * @view * list string :=
  ok_or (ex_table, make_view 1 [] [] ex_table [], []) (@render EsRegExp 1 ex_table).

Example ex_runs :
  v_body ex_result.1.2 = [["alpha"; "10"]; ["delta"; "7 kb"]] ∧
  v_showing ex_result.1.2 = "showing rows 1-2 of 3" ∧ v_next ex_result.1.2 = true.
Proof. vm_compute. done. Qed.

Lemma ex_result_ok : @render EsRegExp 1 ex_table = Ok (ex_result.1.1, ex_result.1.2, ex_result.2).
Proof. unfold ex_result. apply ok_or_parts; [vm_eq|reflexivity]. Qed.

Lemma ex_fresh : @fresh EsRegExp ex_table ex_header ex_rows.
Proof. by split. Qed.

Lemma render_shows_sorted_filtered_page_witness :
  ∃ fs shown,
    @prepare_filters EsRegExp (filters ex_table) = Ok (fs, ex_result.2) ∧
    is_stable_sort (has_key ex_header ex_result.1.1 0) (row_cmp ex_header ex_result.1.1)
      (passing ex_table ex_header (heap ex_result.1.1) (seq 0 4) fs) shown ∧
    v_disp ex_result.1.2 = take 2 shown.
Proof.
  destruct (render_shows_sorted_filtered_page 1 ex_table ex_header ex_rows
    ex_result.1.1 ex_result.1.2 ex_result.2 0 ex_fresh eq_refl eq_refl eq_refl)
    as (fs & shown & Hp & Hs & _ & Ho & Hd & _).
  - exact ex_result_ok.
  - intros r Hr.
    assert (r = 0 ∨ r = 1 ∨ r = 2 ∨ r = 3)%nat as Hcases by (apply elem_of_seq in Hr; simpl in Hr; lia).
    destruct Hcases as [->|[->|[->| ->]]]; vm_compute; eauto.
  - exists fs, shown. split; [exact Hp|]. split; [exact Hs|].
    rewrite Hd, Ho. change (slice shown (JInt 0) (jadd (JInt 0) (JInt 2)) = take 2 shown).
    exact (slice_nat shown 0 2 ltac:(lia)).
Defined.

Lemma render_returns_witness :
  (∃ s' v al, @render EsRegExp 1 ex_table = Ok (s', v, al)) ∧
  ¬ ∃ s' v al, @render EsRegExp 1 (ex_table <| filter_changed := false |>) = Ok (s', v, al).
Proof.
  assert (∀ i f, (i, f) ∈ filters ex_table → @filter_ok EsRegExp ex_header f i) as Hfs.
  { intros i f Hin. repeat (apply elem_of_cons in Hin as [[= -> ->]|Hin]);
      [..|by apply elem_of_nil in Hin]; (split; [by left|]; split; [vm_compute; lia|by eexists]). }
  assert (Forall (λ cells, length cells = length ex_header ∧ Forall (λ v, ∃ x, v = VStr x) cells) ex_rows)
    as Hrows by (repeat constructor; eauto).
  split.
  - apply (render_returns 1 ex_table ex_header ex_rows ex_fresh eq_refl eq_refl Hrows Hfs);
      [vm_compute; lia|done].
  - rewrite (render_returns 1 (ex_table <| filter_changed := false |>) ex_header ex_rows ltac:(by split)
      eq_refl eq_refl Hrows Hfs); [|vm_compute; lia].
    intros Hch. by discriminate (Hch eq_refl).
Defined.
