(* ===== verification/TableUpdate.v ===== *)
(** * Table renderer: navigation by the server

    src/site_deprecated/renderers/renderer.table.js, [update]: a navigation
    action changes the settings, the page is requested from the server and the
    response replaces the rows. *)

From Stdlib Require Import SpecFloat.
From S2P Require Import Prelude JsString JsNumber JsValue JsJson JsRegExp TableData.

(** The argument of a navigation callback: one of the strings [first],
    [previous], [next], [last], or an object. *)
Inductive query_arg :=
| QWord (w : string)
| QList (l : list (string * qentry)).

Record nav_object := mkNav {
  p_sort : option string;
  p_dir : option string;
  p_query : option query_arg;
  p_clear : bool;
  p_goto : option jsint;
  p_limit : option jsint
}.

Inductive params :=
| PWord (w : string)
| PObject (o : nav_object).

Definition no_params : nav_object := mkNav None None None false None None.
#[export] Instance nav_eta : Eta nav_object := λ o,
  mkNav (p_sort o) (p_dir o) (p_query o) (p_clear o) (p_goto o) (p_limit o).

Section update.
Context `{RegExpOps}.
Implicit Types (s : settings).

Definition clamp0 (o : jsint) : jsint := if jlt o (JInt 0) then JInt 0 else o.

(** [typeof params == 'string'] *)
Definition update_word (w : string) s : settings :=
  if (w =? "first")%string then s <| offset := JInt 0 |>
  else if (w =? "previous")%string then
    s <| offset := clamp0 (jsub (offset s) (rows_per_page s)) |>
  else if (w =? "next")%string then s <| offset := jadd (offset s) (rows_per_page s) |>
  else if (w =? "last")%string then
    s <| offset := clamp0 (jsub (default JNaN (numrows s)) (rows_per_page s)) |>
  else s.

Definition map_column (m : list (string * string)) (k : string) : option string := get k m.

Definition update_sort (o : nav_object) s : settings :=
  match p_sort o with
  | Some col =>
      if (col =? "")%string then s
      else if (col =? "default")%string then
        s <| sort := Some "name" |> <| sortDir := Some "asc" |>
      else
        s <| sort := match asynch_column_mapping s with
                     | Some m => map_column m col
                     | None => Some col
                     end |> <| sortDir := p_dir o |>
  | None => s
  end.

(** The fields of a query are renamed to the server's; a column without a
    mapping gives the text of [undefined]. *)
Definition map_query (m : option (list (string * string))) (l : list (string * qentry))
    : list (string * qentry) :=
  match m with
  | Some m => (λ '(k, e), (k, mkQ (default "undefined" (map_column m (q_field e))) (q_searchword e)
                              (q_comparison e)))
              <$> l
  | None => l
  end.

Definition update_query (o : nav_object) s : settings :=
  match p_query o with
  | Some (QWord w) => if (w =? "")%string then s else s <| query := [] |>
  | Some (QList l) => s <| query := map_query (asynch_column_mapping s) l |>
  | None => s
  end.

Definition update_object (o : nav_object) s : settings :=
  let s1 := update_query o (update_sort o s) in
  let s2 := match p_goto o with Some g => s1 <| offset := g |> | None => s1 end in
  match p_limit o with
  | Some l => if jtruthy l then s2 <| rows_per_page := l |> else s2
  | None => s2
  end.

Definition update_settings (p : params) s : settings :=
  match p with PWord w => update_word w s | PObject o => update_object o s end.

(** The URL.  A parameter is introduced by [?] when there is none yet and by
    [&] after that. *)
Definition qmark : ascii := "?".
Definition amp : ascii := "&".
Definition sep (u : string) : string := if has_char qmark u then "&" else "?".

Definition query_term (qtype : string) (e : qentry) : string :=
  if (qtype =? "infix")%string
  then q_field e +++ "=*" +++ q_searchword e +++ "*"
  else q_field e +++ "=" +++ q_searchword e.

Definition query_string (qtype : string) (l : list (string * qentry)) : string :=
  foldl (λ acc '(_, e),
    if (q_searchword e =? "")%string then acc
    else acc +++ sep acc +++ query_term qtype e) "" l.

(** The query behind the navigation URL; where both have a question mark the
    query's first one becomes [&]. *)
Definition attach_query (nav qs : string) : string :=
  nav +++ (if has_char qmark nav && has_char qmark qs then replace_first qmark amp qs else qs).

Definition page_url (u : string) s : string :=
  let u1 := u +++ sep u +++ "limit=" +++ jshow (rows_per_page s) +++ "&offset=" +++ jshow (offset s) in
  let u2 := if set_str (sort s) then u1 +++ "&order=" +++ default "" (sort s) else u1 in
  if set_str (sortDir s) then u2 +++ "&direction=" +++ default "" (sortDir s) else u2.

Definition update_url s : res string :=
  nav ← need TypeError (navigation_url s);
  Ok (page_url (attach_query nav (query_string (query_type s) (query s))) s).

(** ** The response *)

Record response := mkResponse {
  rs_data : option json;
  rs_total : option jsint
}.

(** The rows of a response: what [data_manipulation] makes of it, or its elements.
    A falsy [data] has none. *)
Definition response_rows s (d : option json) : res (list row) :=
  match data_manipulation s with
  | Some f => f d
  | None => if truthy (to_value d) then l ← json_items d; Ok (map json_row l) else Throw TypeError
  end.

(** The rows replace [settings.tdata].  Without [data_manipulation] a falsy [data]
    is stored as it is, and [render] then parses [settings.data] again. *)
Definition store_rows (d : option json) s : res settings :=
  match data_manipulation s, truthy (to_value d) with
  | None, false => Ok (s <| tdata := None |>)
  | _, _ =>
      rows ← response_rows s d;
      Ok (s <| tdata := Some (seq (length (heap s)) (length rows)) |>
            <| heap := heap s ++ rows |>)
  end.

Definition update_success (r : response) s : res settings :=
  s1 ← store_rows (rs_data r) s;
  Ok (s1 <| filter_changed := false |> <| sorted := true |> <| numrows := rs_total r |>).

End update.
