(* ===== verification/TableEvents.v ===== *)
(** * Table renderer: event handlers

    src/site_deprecated/renderers/renderer.table.js, the handlers that [render]
    attaches and [update] with its callback.  A [world] has every table of the
    page ([Retina.RendererInstances.table]), the requests under way and
    [current], the variable [renderer] of the file: [render] and [update] assign
    it, so it is the table that did so last, and most handlers read their
    navigation callback from it rather than from the table they belong to. *)

From Stdlib Require Import SpecFloat.
From S2P Require Import Prelude JsString JsNumber JsValue JsJson JsRegExp TableData TableView TableUpdate.

(** What a handler shows or calls outside of the renderer. *)
Inductive effect :=
| EAlert (msg : string)
| ENavUser (p : params) (index : nat)
| EOnclick (row : list string) (clicked : string) (ri : jsint) (ci : nat)
| EEditCallback (index : nat).

(** A request of [update] that has not been answered. *)
Record request := mkRequest { rq_index : nat; rq_url : string }.

Section events.
Context `{RegExpOps}.

Record instance := mkInst { i_set : settings; i_view : option view }.

Record world := mkWorld {
  tables : list instance;
  current : option nat;
  pending : list request;
  effects : list effect
}.

#[global] Instance world_eta : Eta world := λ w,
  mkWorld (tables w) (current w) (pending w) (effects w).

Implicit Types (w : world) (index : nat).

(** [Retina.RendererInstances.table[index]] *)
Definition table_at index w : res instance := need TypeError (tables w !! index).

Definition put_table index (i : instance) w : world := w <| tables := <[index := i]> (tables w) |>.

Definition emit (e : list effect) w : world := w <| effects := effects w ++ e |>.

(** Change the settings of a table in place. *)
Definition on_settings index (f : settings → settings) w : res world :=
  i ← table_at index w;
  Ok (put_table index (mkInst (f (i_set i)) (i_view i)) w).

(** [table[index].render()] *)
Definition do_render index w : res world :=
  i ← table_at index w;
  r ← render index (i_set i);
  let '(s, v, alerts) := r in
  Ok (emit (EAlert <$> alerts) (put_table index (mkInst s (Some v)) w <| current := Some index |>)).

(** [table[index].update(p, index)], up to the request. *)
Definition do_update (p : params) index w : res world :=
  i ← table_at index w;
  let s := update_settings p (i_set i) in
  u ← update_url s;
  Ok (put_table index (mkInst s (i_view i)) w <| current := Some index |>
        <| pending := pending w ++ [mkRequest index u] |>).

(** The success callback of the request at position [k] of the pending ones. *)
Definition on_response (k : nat) (r : response) w : res world :=
  rq ← need TypeError (pending w !! k);
  let index := rq_index rq in
  i ← table_at index w;
  s ← update_success r (i_set i);
  do_render index (put_table index (mkInst s (i_view i)) w <| pending := delete k (pending w) |>).

(** [cb(p, index)] *)
Definition call_nav (cb : navcb) (p : params) index w : res world :=
  match cb with
  | NavUpdate => do_update p index w
  | NavUser => Ok (emit [ENavUser p index] w)
  end.

(** [renderer.settings.navigation_callback] of the current table. *)
Definition current_nav w : res (option navcb) :=
  match current w with
  | None => Throw TypeError   (* the renderer class has no settings *)
  | Some c => i ← table_at c w; Ok (navigation_callback (i_set i))
  end.

(** Ask the callback if there is one, otherwise change the table and render. *)
Definition navigate (p : params) (f : settings → settings) index w : res world :=
  cb ← current_nav w;
  match cb with
  | Some cb => call_nav cb p index w
  | None => w' ← on_settings index f w; do_render index w'
  end.

(** ** Sorting *)

(** The sort icon of column [i]. *)
Definition on_sort index (i : nat) (dir : string) w : res world :=
  w1 ← on_settings index (λ s, s <| sortcol := i |> <| sortdir := dir |>) w;
  t ← table_at index w1;
  hdr ← need TypeError (header (i_set t));
  navigate (PObject (no_params <| p_sort := Some (hkey hdr i) |> <| p_dir := Some dir |>))
    (λ s, s <| sorted := false |>) index w1.

(** ** Filters *)

(** [filter[i].searchword = v]; a missing filter throws. *)
Definition set_searchword index (i : nat) (v : string) w : res world :=
  t ← table_at index w;
  f ← need TypeError (fget i (filters (i_set t)));
  on_settings index
    (λ s, s <| filters := fset i (f <| searchword := Some v |>) (filters s) |>) w.

(** The query of the filters that have a search word. *)
Definition filter_query (hdr : list string) (fs : list (nat * filter)) : list (string * qentry) :=
  imap (λ n e, (show (Z.of_nat n), e))
    (omap (λ '(x, f), w ← nonempty_word f; Some (mkQ (hkey hdr x) w
       match operator f with Some l => CmpOperators l | None => CmpEqual end)) fs).

(** Enter in the text field of column [i]. *)
Definition on_filter_enter index (i : nat) (v : string) w : res world :=
  w1 ← set_searchword index i v w;
  t ← table_at index w1;
  hdr ← need TypeError (header (i_set t));
  navigate (PObject (no_params <| p_query := Some (QList (filter_query hdr (filters (i_set t)))) |>))
    (λ s, s <| filter_changed := true |>) index w1.

(** A choice in the select box of column [i]. *)
Definition on_filter_select index (i : nat) (v : string) w : res world :=
  w1 ← set_searchword index i v w;
  w2 ← on_settings index (λ s, s <| filter_changed := true |>) w1;
  do_render index w2.

(** A click on the operator: the loop over the child elements, [flags] saying
    which are displayed.  It hides a displayed one, shows the next, cyclically,
    and skips over it. *)
Fixpoint operator_loop (fuel : nat) (x : nat) (flags : list bool) (active : option nat)
    : list bool * option nat :=
  match fuel with
  | O => (flags, active)
  | S fuel' =>
      match flags !! x with
      | None => (flags, active)
      | Some false => operator_loop fuel' (S x) flags active
      | Some true =>
          let hidden := <[x := false]> flags in
          if (x =? length flags - 1)%nat
          then operator_loop fuel' (S x) (<[0%nat := true]> hidden) (Some 0%nat)
          else operator_loop fuel' (S (S x)) (<[S x := true]> hidden) (Some (S x))
      end
  end.

Definition set_flags (col : nat) (flags : list bool) (v : view) : view :=
  v <| v_header :=
    (λ c, match hc_widget c with
          | Some (WText c' t ops) =>
              if (c' =? col)%nat
              then c <| hc_widget := Some (WText c' t (zip (ops.*1) flags)) |> else c
          | _ => c
          end) <$> v_header v |>.

Definition widget_flags (col : nat) (v : view) : option (list bool) :=
  head (omap (λ c, match hc_widget c with
                   | Some (WText c' _ ops) => if (c' =? col)%nat then Some (ops.*2) else None
                   | _ => None
                   end) (v_header v)).

Definition on_operator index (i : nat) w : res world :=
  t ← table_at index w;
  v ← need TypeError (i_view t);
  flags ← need TypeError (widget_flags i v);
  let '(flags', active) := operator_loop (length flags) 0 flags None in
  match active with
  | None => Ok w
  | Some a =>
      f ← need TypeError (fget i (filters (i_set t)));
      let s := (i_set t) <| filters := fset i (f <| active_operator := Some a |>)
                                      (filters (i_set t)) |> in
      Ok (put_table index (mkInst s (Some (set_flags i flags' v))) w)
  end.

(** The button that clears all filters. *)
Definition on_clear index w : res world :=
  w1 ← on_settings index
         (λ s, s <| filters := (λ '(i, f), (i, f <| searchword := Some "" |>)) <$> filters s |>) w;
  navigate (PObject (no_params <| p_goto := Some (JInt 0) |> <| p_query := Some (QWord "default") |>
                               <| p_sort := Some "default" |>))
    (λ s, s <| sorted := false |>) index w1.

(** ** Paging *)

(** The first, previous, next and last icons: [v] is the view they belong to. *)
Definition page_nav (word : string) (f : view → settings → settings) index w : res world :=
  t ← table_at index w;
  v ← need TypeError (i_view t);
  match v_nav v with
  | Some _ =>
      cb ← need TypeError (navigation_callback (i_set t));
      call_nav cb (PWord word) index w
  | None => w' ← on_settings index (f v) w; do_render index w'
  end.

Definition first_offset (v : view) (s : settings) : settings := s <| offset := JInt 0 |>.

Definition prev_offset (v : view) (s : settings) : settings :=
  s <| offset := clamp0 (jsub (offset s) (v_rows v)) |>.

Definition last_offset (v : view) (s : settings) : settings :=
  s <| offset := clamp0 (jsub (JInt (v_total v)) (v_rows v)) |>.

Definition next_offset (v : view) (s : settings) : settings :=
  let o := jadd (offset s) (v_rows v) in
  s <| offset := if jgt o (JInt (v_total v - 1))
                 then clamp0 (jsub (JInt (v_total v)) (v_rows v)) else o |>.

Definition on_first := page_nav "first" first_offset.
Definition on_prev := page_nav "previous" prev_offset.
Definition on_next := page_nav "next" next_offset.
Definition on_last := page_nav "last" last_offset.

(** Enter in the goto field. *)
Definition goto_offset (v : view) (value : string) (s : settings) : settings :=
  let o := clamp0 (jsub (parseInt value) (JInt 1)) in
  s <| offset := if jgt o (v_rows v) then v_rows v else o |>.

Definition on_goto index (value : string) w : res world :=
  t ← table_at index w;
  v ← need TypeError (i_view t);
  navigate (PObject (no_params <| p_goto := Some (jsub (parseInt value) (JInt 1)) |>))
    (goto_offset v value) index w.

(** Enter in the rows per page field. *)
Definition on_perpage index (value : string) w : res world :=
  navigate (PObject (no_params <| p_limit := Some (parseInt value) |>))
    (λ s, s <| offset := JInt 0 |> <| rows_per_page := parseInt value |>) index w.

(** ** Columns and cells *)

Definition on_columns index (checked : list bool) w : res world :=
  w1 ← on_settings index (update_visible_columns checked) w;
  do_render index w1.

(** A click on the cell at row [y] and position [x] of the body. *)
Definition on_click index (y x : nat) w : res world :=
  t ← table_at index w;
  v ← need TypeError (i_view t);
  cells ← need TypeError (v_body v !! y);
  c ← need TypeError (cells !! x);
  if v_onclick v
  then Ok (emit [EOnclick cells c (jadd (JInt (Z.of_nat y)) (v_offset v)) x] w)
  else Ok w.

Definition jlookup {A} (l : list A) (i : jsint) : option A :=
  match i with JInt z => zlookup l z | _ => None end.

(** What the input field of the cell at row [y] and position [x] does: it writes
    to row [y + offset] of [settings.tdata] and to the column at position [x] of
    the header. *)
Definition edit_cell (v : view) (y x : nat) (value : string) (s : settings) : res settings :=
  t ← need TypeError (tdata s);
  r ← need TypeError (jlookup t (jadd (JInt (Z.of_nat y)) (v_offset v)));
  let k := hkey (v_hdr v) x in
  Ok (s <| heap := <[r := <[k := VStr value]> (deref (heap s) r)]> (heap s) |>).

(** A click on the cell at row [y] and position [x] of the body, where the column
    is editable: the cell gets an input field with the value that the handler
    takes for the cell's. *)
Definition on_cell index (y x : nat) w : res world :=
  t ← table_at index w;
  v ← need TypeError (i_view t);
  cells ← need TypeError (v_body v !! y);
  editable ← need TypeError (v_editable v !! x);
  if (editable : bool) then
    td ← need TypeError (tdata (i_set t));
    r ← need TypeError (jlookup td (jadd (JInt (Z.of_nat y)) (v_offset v)));
    let field := to_str (cell (heap (i_set t)) (v_hdr v) r x) in
    Ok (put_table index (mkInst (i_set t) (Some (v <| v_edit := Some (y, x, field) |>))) w)
  else Ok w.

(** Enter in the input field of a cell. *)
Definition on_edit index (value : string) w : res world :=
  t ← table_at index w;
  v ← need TypeError (i_view t);
  e ← need TypeError (v_edit v);
  let '(y, x, _) := e in
  s ← edit_cell v y x value (i_set t);
  let w1 := put_table index (mkInst s (i_view t)) w in
  let w2 := if edit_callback s then emit [EEditCallback index] w1 else w1 in
  do_render index w2.

(** The field loses the focus. *)
Definition on_blur index w : res world :=
  t ← table_at index w;
  v ← need TypeError (i_view t);
  _ ← need TypeError (v_edit v);
  do_render index w.

(** ** Showing and hiding *)

(** Change what is shown of a table. *)
Definition on_view index (f : view → res view) w : res world :=
  t ← table_at index w;
  v ← need TypeError (i_view t);
  v' ← f v;
  Ok (put_table index (mkInst (i_set t) (Some v')) w).

(** The search icon of the header cell at position [k]: it shows the element
    behind it and hides the label, two elements in front of it, or the other way
    round.  In a column that cannot be sorted the label is only one element in
    front of it. *)
Definition toggle_filter (k : nat) (v : view) : res view :=
  c ← need TypeError (v_header v !! k);
  _ ← need TypeError (hc_search c);
  _ ← need TypeError (hc_widget c);
  if hc_caret c
  then Ok (v <| v_header := <[k := c <| hc_open := negb (hc_open c) |> <| hc_labelled := hc_open c |>]>
                              (v_header v) |>)
  else Throw TypeError.

Definition on_search_icon index (k : nat) : world → res world := on_view index (toggle_filter k).

(** The icon of the options panel and the panel's closing button. *)
Definition on_options index (open : bool) : world → res world :=
  on_view index (λ v, Ok (v <| v_options_open := open |>)).

(** The button of the column selection. *)
Definition on_colsel index : world → res world :=
  on_view index (λ v, Ok (v <| v_colsel_open := negb (v_colsel_open v) |>)).

(** ** Runs *)

Inductive event :=
| EvRender
| EvSort (i : nat) (dir : string)
| EvFilterEnter (i : nat) (v : string)
| EvFilterSelect (i : nat) (v : string)
| EvOperator (i : nat)
| EvClear
| EvFirst
| EvPrev
| EvNext
| EvLast
| EvGoto (v : string)
| EvPerpage (v : string)
| EvColumns (checked : list bool)
| EvClick (y x : nat)
| EvCell (y x : nat)
| EvEdit (v : string)
| EvBlur
| EvSearchIcon (k : nat)
| EvOptions (open : bool)
| EvColsel
| EvUpdate (p : params)
| EvResponse (k : nat) (r : response).

Definition handle index (e : event) w : res world :=
  match e with
  | EvRender => do_render index w
  | EvSort i d => on_sort index i d w
  | EvFilterEnter i v => on_filter_enter index i v w
  | EvFilterSelect i v => on_filter_select index i v w
  | EvOperator i => on_operator index i w
  | EvClear => on_clear index w
  | EvFirst => on_first index w
  | EvPrev => on_prev index w
  | EvNext => on_next index w
  | EvLast => on_last index w
  | EvGoto v => on_goto index v w
  | EvPerpage v => on_perpage index v w
  | EvColumns c => on_columns index c w
  | EvClick y x => on_click index y x w
  | EvCell y x => on_cell index y x w
  | EvEdit v => on_edit index v w
  | EvBlur => on_blur index w
  | EvSearchIcon k => on_search_icon index k w
  | EvOptions open => on_options index open w
  | EvColsel => on_colsel index w
  | EvUpdate p => do_update p index w
  | EvResponse k r => on_response k r w
  end.

(** A sequence of events, each on one of the tables. *)
Fixpoint run (es : list (nat * event)) w : res world :=
  match es with
  | [] => Ok w
  | (index, e) :: es' => w' ← handle index e w; run es' w'
  end.

End events.
