(* ===== verification/TableThrows.v ===== *)
(** * Table renderer: what an exception leaves behind

    The handlers of [TableEvents] say what happens when they return.  Here they
    are computations that also say which state they leave when they throw:
    [render] has by then emptied the target and changed part of the settings, a
    handler has changed its setting before it reads the callback.  [handle_agrees]
    shows that they return exactly when those of [TableEvents] do, with the same
    state, and otherwise throw the same exception. *)

From Stdlib Require Import SpecFloat.
From S2P Require Import Prelude JsString JsNumber JsValue JsJson JsRegExp JsState TableData TableView TableUpdate TableEvents.

(** ** Outcomes *)

(** The outcome of a computation, without the state an exception leaves. *)
Definition outcome {S A} (m : M S A) (s : S) : res (S * A) :=
  match m s with (s', Ok a) => Ok (s', a) | (_, Throw e) => Throw e end.

Section outcome.
Context {S : Type}.

Lemma outcome_bind {A B} (m : M S A) (k : A → M S B) s :
  outcome (m ≫= k) s = ('(s', a) ← outcome m s; outcome (k a) s').
Proof. unfold outcome, mbind, M_bind. by destruct (m s) as [s' [a|e]]. Qed.

Lemma outcome_ret {A} (a : A) (s : S) : outcome (mret a) s = Ok (s, a).
Proof. done. Qed.
Lemma outcome_gets {A} (f : S → A) s : outcome (gets f) s = Ok (s, f s).
Proof. done. Qed.
Lemma outcome_modify f (s : S) : outcome (modify f) s = Ok (f s, ()).
Proof. done. Qed.
Lemma outcome_lift {A} (r : res A) (s : S) : outcome (lift r) s = (a ← r; Ok (s, a)).
Proof. by destruct r. Qed.
End outcome.

Ltac out_step :=
  first [rewrite outcome_bind | rewrite outcome_ret | rewrite outcome_gets | rewrite outcome_modify
        | rewrite outcome_lift]; cbn [mbind res_bind fst snd].

Section throws.
Context `{RegExpOps}.
Implicit Types (s : settings) (w : world) (index : nat) (hdr : list string).

(** ** [render]

    The state is the settings and the alerts shown so far.  After the filter
    phase the variable [tdata] can be [undefined]. *)

Abbreviation R A := (M (settings * list string) A).

Definition get_s : R settings := gets fst.
Definition set_s (f : settings → settings) : R () := modify (λ p, (f p.1, p.2)).
Definition say (l : list string) : R () := modify (λ p, (p.1, p.2 ++ l)).

(** A phase that throws before it changes anything. *)
Definition phase {A} (f : settings → res (settings * A)) : R A :=
  s ← get_s;
  p ← lift (f s);
  _ ← set_s (λ _, p.1);
  mret p.2.

(** The sort types are stored one by one. *)
Definition detect_st hdr (t : list nat) (i : nat) : R () :=
  s ← get_s;
  if match sorttype s !! i with Some ty => (ty =? "")%string | None => true end then
    ty ← lift (detect_sorttype (heap s) hdr t i);
    set_s (λ s, s <| sorttype := <[i := ty]> (sorttype s) |>)
  else skip.

Definition autodetect_sort_st hdr (t : list nat) : R () :=
  s ← get_s;
  when (sort_autodetect s) (forM (seq 0 (length hdr)) (detect_st hdr t)).

(** The filters are prepared one by one. *)
Fixpoint prepare_st (done todo : list (nat * filter)) : R (list (nat * filter)) :=
  match todo with
  | [] => mret done
  | (i, f) :: todo' =>
      p ← lift (prepare_filter f);
      _ ← set_s (λ s, s <| filters := done ++ (i, p.1) :: todo' |>);
      _ ← say p.2;
      prepare_st (done ++ [(i, p.1)]) todo'
  end.

Definition apply_filter_st hdr (t : list nat) : R (option (list nat)) :=
  s ← get_s;
  if filter_present s && synchronous s then
    if filter_changed s then
      _ ← set_s (λ s, s <| offset := JInt 0 |>);
      fs ← prepare_st [] (filters s);
      new ← lift (filterR (row_passes (heap s) hdr fs) t);
      _ ← set_s (λ s, s <| filter_changed := false |> <| filtered_data := Some new |>);
      mret (Some new)
    else mret (filtered_data s)
  else mret (Some t).

(** The filter of a column that has none: it is stored before the rows are
    counted. *)
Definition new_filter s (i : nat) : filter :=
  let f0 := mkFilter "text" None false None None None None in
  if bool_decide (sorttype s !! i = Some "number")
  then f0 <| operator := Some ["="; "<"; ">"; "><"] |> <| active_operator := Some 0%nat |>
  else f0.

Definition autodetect_filter_st hdr (t : option (list nat)) (i : nat) : R () :=
  s ← get_s;
  match fget i (filters s) with
  | Some _ => skip
  | None =>
      when (filter_autodetect s) (
        let f1 := new_filter s i in
        _ ← set_s (λ s, s <| filters := fset i f1 (filters s) |>);
        t ← lift (need TypeError t);
        let n := count_options (heap s) hdr t i in
        let f2 := if jlt (filter_autodetect_select_max s) (JInt n) then f1
                  else if bool_decide (filter_autodetect_select_max s = JNaN) then f1
                  else f1 <| ftype := "select" |> in
        set_s (λ s, s <| filters := fset i f2 (filters s) |>))
  end.

Definition filter_element_st hdr (t : option (list nat)) (hp : list row) (i : nat) (f : filter)
    (stale : option widget) : res (option widget) :=
  if (ftype f =? "text")%string then filter_element hdr [] hp i f stale
  else if (ftype f =? "select")%string then
    t ← need TypeError t; filter_element hdr t hp i f stale
  else Ok stale.

Definition header_st hdr (t : option (list nat)) (st : list hcell * option widget) (i : nat)
    : R (list hcell * option widget) :=
  let '(cs, fe) := st in
  s ← get_s;
  let '(asc, desc) := sort_icons s i in
  _ ← autodetect_filter_st hdr t i;
  s1 ← get_s;
  let mw := match minwidths s1 !! i with
            | Some w => if w =? 0 then 153 else w | None => 153 end in
  let th := mkHcell i (hkey hdr i) asc desc mw (bool_decide (i ∉ disable_sort s1)) None None false true in
  match fget i (filters s1) with
  | None => mret (cs ++ [th], fe)
  | Some f0 =>
      let f := if set_str (searchword f0) then f0 else f0 <| searchword := Some "" |> in
      _ ← set_s (λ s, s <| filters := fset i f (filters s) |>);
      fe' ← lift (filter_element_st hdr t (heap s1) i f fe);
      w ← lift (need TypeError fe');
      mret (detach w cs ++ [th <| hc_search := searchword f |> <| hc_widget := Some w |>], fe')
  end.

(** The rest of [render], up to the view.  A sort that throws leaves the array as
    it was. *)
Definition finish_st (index : nat) hdr (filtered : bool) (t : option (list nat)) : R view :=
  s ← get_s;
  _ ← lift (if jlt (rows_per_page s) (JInt 0) then need TypeError t else Ok []);
  cells ← foldM (header_st hdr t) ([], None) (visible hdr s);
  t ← lift (need TypeError t);
  t' ← phase (sort_rows hdr filtered t);
  s' ← get_s;
  mret (make_view index hdr t' s' cells.1).

(** [render], after the target has been emptied.  The phases [init_header] and
    [init_tdata] throw before they change anything, but for a table without a
    header whose data is an object with an empty array of rows only, which stays
    out of account. *)
Definition render_st (index : nat) : R view :=
  _ ← set_s (λ s, init_data (init_navigation s));
  hdr ← phase init_header;
  t ← phase (init_tdata hdr);
  _ ← autodetect_sort_st hdr t;
  s ← get_s;
  t' ← apply_filter_st hdr t;
  finish_st index hdr (filter_present s && synchronous s) t'.

(** ** Agreement of the phases *)

Lemma outcome_phase {A} (f : settings → res (settings * A)) s al :
  outcome (phase f) (s, al) = (p ← f s; Ok ((p.1, al), p.2)).
Proof. unfold phase, get_s, set_s. do 3 out_step. by destruct (f s) as [[s' a]|e]. Qed.

Lemma autodetect_sort_agrees hdr t s al :
  outcome (autodetect_sort_st hdr t) (s, al) = (s' ← autodetect_sort hdr t s; Ok ((s', al), ())).
Proof.
  unfold autodetect_sort_st, autodetect_sort, get_s. do 2 out_step.
  destruct (sort_autodetect s); [|done]. cbn [when].
  assert (∀ l st, outcome (forM l (detect_st hdr t)) (s <| sorttype := st |>, al) =
    (st' ← foldR (λ (st : gmap nat string) i,
           match st !! i with
           | Some ty => if (ty =? "")%string
                        then ty' ← detect_sorttype (heap s) hdr t i; Ok (<[i := ty']> st)
                        else Ok st
           | None => ty' ← detect_sorttype (heap s) hdr t i; Ok (<[i := ty']> st)
           end) st l; Ok ((s <| sorttype := st' |>, al), ()))) as Hl.
  { induction l as [|i l IH]; intros st; [done|]. cbn [forM foldR]. out_step.
    unfold detect_st, get_s, set_s. do 2 out_step. upd_simpl.
    destruct (st !! i) as [ty|]; [destruct (ty =? "")%string|]; cbn [mbind res_bind].
    - do 2 out_step. destruct (detect_sorttype _ _ _ _) as [ty'|e]; [|done]. cbn [mbind res_bind]. apply IH.
    - apply IH.
    - do 2 out_step. destruct (detect_sorttype _ _ _ _) as [ty'|e]; [|done]. cbn [mbind res_bind]. apply IH. }
  pose proof (Hl (seq 0 (length hdr)) (sorttype s)) as E.
  replace (s <| sorttype := sorttype s |>) with s in E by by destruct s. rewrite E. by destruct (foldR _ _ _).
Qed.

Lemma prepare_agrees todo done s al :
  outcome (prepare_st done todo) (s <| filters := done ++ todo |>, al) =
    (p ← prepare_filters todo;
     Ok ((s <| filters := done ++ p.1 |>, al ++ p.2), done ++ p.1)).
Proof.
  revert done al. induction todo as [|[i f] todo IH]; intros done al.
  { cbn. by rewrite !app_nil_r. }
  cbn [prepare_st]. unfold set_s, say. do 2 out_step. unfold prepare_filters in *. cbn [mapR].
  destruct (prepare_filter f) as [p|e]; [|done]. cbn [mbind res_bind]. do 4 out_step.
  match goal with |- outcome _ (?st, _) = _ =>
    replace st with (s <| filters := (done ++ [(i, p.1)]) ++ todo |>) by (by rewrite <-app_assoc) end.
  rewrite IH.
  destruct (mapR _ todo) as [ps|e]; [|done]. cbn [mbind res_bind fst snd fmap list_fmap concat].
  by rewrite <-!app_assoc.
Qed.

Lemma apply_filter_agrees hdr t s al :
  outcome (apply_filter_st hdr t) (s, al) =
    if filter_present s && synchronous s && negb (filter_changed s) then Ok ((s, al), filtered_data s)
    else '(s', t', al') ← apply_filter hdr t s; Ok ((s', al ++ al'), Some t').
Proof.
  unfold apply_filter_st, apply_filter, get_s. do 2 out_step.
  destruct (filter_present s && synchronous s); [destruct (filter_changed s)|]; cbn [andb negb].
  - unfold set_s. do 3 out_step.
    replace (s <| offset := JInt 0 |>) with (s <| offset := JInt 0 |> <| filters := [] ++ filters s |>)
      by by destruct s.
    rewrite prepare_agrees. destruct (prepare_filters (filters s)) as [p|e]; [|done].
    cbn [mbind res_bind fst snd app]. do 2 out_step. destruct (filterR _ t) as [new|e]; done.
  - done.
  - cbn. by rewrite app_nil_r.
Qed.

Lemma autodetect_filter_agrees hdr t i s al :
  outcome (autodetect_filter_st hdr (Some t) i) (s, al) = Ok ((autodetect_filter hdr t i s, al), ()).
Proof.
  unfold autodetect_filter_st, autodetect_filter, get_s. do 2 out_step.
  destruct (fget i (filters s)) as [f|] eqn:Ef; [by destruct (filter_autodetect s)|].
  destruct (filter_autodetect s); [|done]. cbn [when]. unfold set_s. repeat out_step. cbn [need mbind res_bind]. repeat out_step. upd_simpl.
  assert (∀ f g, fset i f (fset i g (filters s)) = fset i f (filters s)) as Hff.
  { intros f g. clear Ef. induction (filters s) as [|[j h] fs IH]; cbn [fset]; [by rewrite Nat.eqb_refl|].
    destruct (Nat.eqb_spec i j) as [->|Hne]; cbn [fset]; [by rewrite Nat.eqb_refl|].
    destruct (Nat.ltb_spec i j); cbn [fset]; [by rewrite Nat.eqb_refl|].
    rewrite (proj2 (Nat.eqb_neq _ _)) by done. rewrite (proj2 (Nat.ltb_ge _ _)) by done. by rewrite IH. }
  by rewrite Hff.
Qed.

Lemma filter_element_agrees hdr t hp i f fe :
  filter_element_st hdr (Some t) hp i f fe = filter_element hdr t hp i f fe.
Proof. unfold filter_element_st, filter_element. by repeat case_if. Qed.

Lemma header_agrees hdr t st i s al :
  outcome (header_st hdr (Some t) st i) (s, al) =
    ('(s', cs', fe') ← header_step hdr t (s, st.1, st.2) i; Ok ((s', al), (cs', fe'))).
Proof.
  destruct st as [cs fe]. unfold header_st, header_step, get_s. do 2 out_step.
  destruct (sort_icons s i) as [asc desc]. out_step. rewrite autodetect_filter_agrees.
  cbn [mbind res_bind]. do 2 out_step. set (s1 := autodetect_filter hdr t i s).
  destruct (fget i (filters s1)) as [f0|]; [|done].
  unfold set_s. do 4 out_step. rewrite filter_element_agrees. upd_simpl.
  destruct (filter_element _ _ _ _ _ _) as [fe'|e]; [|done]. cbn [mbind res_bind]. do 2 out_step.
  by destruct fe'.
Qed.

Lemma headers_agree hdr t l st s al :
  outcome (foldM (header_st hdr (Some t)) st l) (s, al) =
    ('(s', cs', fe') ← foldR (header_step hdr t) (s, st.1, st.2) l; Ok ((s', al), (cs', fe'))).
Proof.
  revert st s. induction l as [|i l IH]; intros [cs fe] s; [done|]. cbn [foldM foldR]. out_step.
  rewrite header_agrees. destruct (header_step _ _ _ _) as [[[s' cs'] fe']|e]; [|done].
  cbn [mbind res_bind]. apply IH.
Qed.

(** Without rows, the header can only fail with a [TypeError]. *)
Definition only_type_error {S A} (m : M S A) : Prop := ∀ (st : S) e, outcome m st = Throw e → e = TypeError.

Lemma only_bind {S A B} (m : M S A) (k : A → M S B) :
  only_type_error m → (∀ a, only_type_error (k a)) → only_type_error (m ≫= k).
Proof.
  intros Hm Hk s e. rewrite outcome_bind. destruct (outcome m s) as [[s' a]|e'] eqn:E; cbn.
  - apply Hk.
  - intros [= ->]. by eapply Hm.
Qed.
Lemma only_state {S A} (f : S → S) (g : S → A) : only_type_error (λ st : S, (f st, Ok (g st))).
Proof. by intros s e. Qed.
Lemma only_lift {S A} (r : res A) : (∀ e, r = Throw e → e = TypeError) → only_type_error (S := S) (lift r).
Proof. intros Hr s e. rewrite outcome_lift. destruct r; [done|]. intros [= ->]. by apply Hr. Qed.

Lemma header_no_rows hdr st i : only_type_error (header_st hdr None st i).
Proof.
  destruct st as [cs fe]. unfold header_st. apply only_bind; [apply only_state|]. intros s.
  destruct (sort_icons s i) as [asc desc]. apply only_bind; [|intros _].
  - unfold autodetect_filter_st. apply only_bind; [apply only_state|]. intros s1.
    destruct (fget i _); [apply only_state|]. unfold when. destruct (filter_autodetect s1); [|apply only_state].
    apply only_bind; [apply only_state|]. intros _. apply only_bind; [|intros ?; apply only_state].
    apply only_lift. by intros e [= ->].
  - apply only_bind; [apply only_state|]. intros s1. destruct (fget i _) as [f0|]; [|apply only_state].
    apply only_bind; [apply only_state|]. intros _. apply only_bind; [apply only_lift|intros fe'].
    + intros e. unfold filter_element_st, filter_element. repeat case_if; try done; by intros [= <-].
    + apply only_bind; [apply only_lift|intros; apply only_state]. destruct fe'; [done|]. by intros e [= ->].
Qed.

Lemma headers_no_rows hdr l st : only_type_error (foldM (header_st hdr None) st l).
Proof.
  revert st. induction l as [|i l IH]; intros st; [apply only_state|].
  cbn [foldM]. apply only_bind; [apply header_no_rows|apply IH].
Qed.

Lemma outcome_then_throw {S A B} (m : M S A) (k : A → M S B) (s : S) :
  only_type_error m → (∀ a (s' : S), outcome (k a) s' = Throw TypeError) → outcome (m ≫= k) s = Throw TypeError.
Proof.
  intros Hm Hk. rewrite outcome_bind. destruct (outcome m s) as [[s' a]|e] eqn:E; cbn; [apply Hk|].
  by rewrite (Hm s e E).
Qed.

Lemma finish_agrees index hdr b t s al :
  outcome (finish_st index hdr b (Some t)) (s, al) =
    (p5 ← build_header hdr t s; p6 ← sort_rows hdr b t p5.1;
     Ok ((p6.1, al), make_view index hdr p6.2 p6.1 p5.2)).
Proof.
  unfold finish_st, build_header, get_s. do 2 out_step. out_step.
  assert (outcome (lift (if jlt (rows_per_page s) (JInt 0) then need TypeError (Some t) else Ok [])) (s, al) =
    Ok ((s, al), if jlt (rows_per_page s) (JInt 0) then t else [])) as -> by (by destruct (jlt _ _)).
  cbn [mbind res_bind]. out_step. rewrite headers_agree. cbn [fst snd].
  destruct (foldR _ _ _) as [[[s5 cs] fe]|e]; [|done]. cbn [mbind res_bind fst snd]. do 2 out_step.
  cbn [need mbind res_bind]. out_step. rewrite outcome_phase.
  by destruct (sort_rows hdr b t s5) as [[s6 t6]|e].
Qed.

Lemma finish_no_rows index hdr b st : outcome (finish_st index hdr b None) st = Throw TypeError.
Proof.
  unfold finish_st, get_s. do 2 out_step.
  apply outcome_then_throw; [apply only_lift; intros e; case_if; [by intros [= <-]|done]|].
  intros l s'. by apply outcome_then_throw; [apply headers_no_rows|].
Qed.

(** [render_st] returns exactly when [render] does, with the same result. *)
Lemma render_agrees index s :
  outcome (render_st index) (s, []) = ('(s', v, al) ← render index s; Ok ((s', al), v)).
Proof.
  unfold render_st, render. unfold set_s at 1. do 2 out_step. out_step. rewrite outcome_phase.
  destruct (init_header _) as [[s1 hdr]|e]; [|done]. cbn [mbind res_bind fst snd].
  out_step. rewrite outcome_phase. destruct (init_tdata hdr s1) as [[s2 t2]|e]; [|done].
  cbn [mbind res_bind fst snd]. out_step. rewrite autodetect_sort_agrees.
  destruct (autodetect_sort hdr t2 s2) as [s3|e]; [|done]. cbn [mbind res_bind].
  unfold get_s. do 2 out_step. out_step. rewrite apply_filter_agrees.
  set (b := filter_present s3 && synchronous s3).
  assert (∀ s4 t4 al, outcome (finish_st index hdr b (Some t4)) (s4, al) =
    ('(s', v, al) ← (p5 ← build_header hdr t4 s4; p6 ← sort_rows hdr b t4 p5.1;
       Ok (p6.1, make_view index hdr p6.2 p6.1 p5.2, al)); Ok ((s', al), v))) as Hfin.
  { intros s4 t4 al. rewrite finish_agrees. destruct (build_header _ _ _) as [p5|]; [|done].
    cbn [mbind res_bind]. by destruct (sort_rows _ _ _ _). }
  destruct (b && negb (filter_changed s3)) eqn:Ec.
  - apply andb_true_iff in Ec as [Ec Ech%negb_true_iff]. unfold apply_filter. fold b. rewrite Ec, Ech.
    rewrite Ec in Hfin. cbn [mbind res_bind].
    destruct (filtered_data s3) as [t4|]; cbn [need mbind res_bind]; [by apply Hfin|apply finish_no_rows].
  - destruct (apply_filter hdr t2 s3) as [[[s4 t4] al]|e]; [|done]. cbn [mbind res_bind app]. by apply Hfin.
Qed.

(** ** The handlers *)

Abbreviation W := (M world ()).

(** Read something of the page; do something that throws before it changes the
    page. *)
Definition asks {A} (g : world → res A) : M world A := λ w, (w, g w).
Definition atomic (f : world → res world) : W := λ w,
  match f w with Ok w' => (w', Ok ()) | Throw e => (w, Throw e) end.

(** [table[index].render()]: when it throws the target is empty. *)
Definition do_render_st index : W := λ w,
  match table_at index w with
  | Throw e => (w, Throw e)
  | Ok i =>
      let '((s, alerts), r) := render_st index (i_set i, []) in
      let after o := emit (EAlert <$> alerts) (put_table index (mkInst s o) w <| current := Some index |>) in
      match r with Ok v => (after (Some v), Ok ()) | Throw e => (after None, Throw e) end
  end.

Definition do_update_st (p : params) index : W :=
  i ← asks (table_at index);
  let s := update_settings p (i_set i) in
  _ ← modify (λ w, put_table index (mkInst s (i_view i)) w <| current := Some index |>);
  u ← lift (update_url s);
  modify (λ w, w <| pending := pending w ++ [mkRequest index u] |>).

Definition on_response_st (k : nat) (r : response) : W :=
  rq ← asks (λ w, need TypeError (pending w !! k));
  let index := rq_index rq in
  i ← asks (table_at index);
  _ ← modify (λ w, w <| pending := delete k (pending w) |> <| current := Some index |>);
  s ← lift (update_success r (i_set i));
  _ ← modify (put_table index (mkInst s (i_view i)));
  do_render_st index.

Definition call_nav_st (cb : navcb) (p : params) index : W :=
  match cb with
  | NavUpdate => do_update_st p index
  | NavUser => modify (emit [ENavUser p index])
  end.

(** Change the settings and render. *)
Definition change_st index (f : settings → settings) : W :=
  _ ← atomic (on_settings index f);
  do_render_st index.

Definition navigate_st (p : params) (f : settings → settings) index : W :=
  cb ← asks current_nav;
  match cb with
  | Some cb => call_nav_st cb p index
  | None => change_st index f
  end.

Definition on_sort_st index (i : nat) (dir : string) : W :=
  _ ← atomic (on_settings index (λ s, s <| sortcol := i |> <| sortdir := dir |>));
  t ← asks (table_at index);
  hdr ← lift (need TypeError (header (i_set t)));
  navigate_st (PObject (no_params <| p_sort := Some (hkey hdr i) |> <| p_dir := Some dir |>))
    (λ s, s <| sorted := false |>) index.

Definition on_filter_enter_st index (i : nat) (v : string) : W :=
  _ ← atomic (set_searchword index i v);
  t ← asks (table_at index);
  hdr ← lift (need TypeError (header (i_set t)));
  navigate_st (PObject (no_params <| p_query := Some (QList (filter_query hdr (filters (i_set t)))) |>))
    (λ s, s <| filter_changed := true |>) index.

Definition on_filter_select_st index (i : nat) (v : string) : W :=
  _ ← atomic (set_searchword index i v);
  change_st index (λ s, s <| filter_changed := true |>).

Definition on_clear_st index : W :=
  _ ← atomic (on_settings index
        (λ s, s <| filters := (λ '(i, f), (i, f <| searchword := Some "" |>)) <$> filters s |>));
  navigate_st (PObject (no_params <| p_goto := Some (JInt 0) |> <| p_query := Some (QWord "default") |>
                                  <| p_sort := Some "default" |>))
    (λ s, s <| sorted := false |>) index.

Definition page_nav_st (word : string) (f : view → settings → settings) index : W :=
  t ← asks (table_at index);
  v ← lift (need TypeError (i_view t));
  match v_nav v with
  | Some _ =>
      cb ← lift (need TypeError (navigation_callback (i_set t)));
      call_nav_st cb (PWord word) index
  | None => change_st index (f v)
  end.

Definition on_goto_st index (value : string) : W :=
  t ← asks (table_at index);
  v ← lift (need TypeError (i_view t));
  navigate_st (PObject (no_params <| p_goto := Some (jsub (parseInt value) (JInt 1)) |>))
    (goto_offset v value) index.

Definition on_edit_st index (value : string) : W :=
  t ← asks (table_at index);
  v ← lift (need TypeError (i_view t));
  e ← lift (need TypeError (v_edit v));
  let '(y, x, _) := e in
  s ← lift (edit_cell v y x value (i_set t));
  _ ← modify (put_table index (mkInst s (i_view t)));
  _ ← when (edit_callback s) (modify (emit [EEditCallback index]));
  do_render_st index.

Definition on_blur_st index : W :=
  t ← asks (table_at index);
  v ← lift (need TypeError (i_view t));
  _ ← lift (need TypeError (v_edit v));
  do_render_st index.

(** The search icon of a column that cannot be sorted shows or hides the filter
    element before it fails to find the label. *)
Definition on_search_icon_st index (k : nat) : W :=
  t ← asks (table_at index);
  v ← lift (need TypeError (i_view t));
  c ← lift (need TypeError (v_header v !! k));
  _ ← lift (need TypeError (hc_search c));
  _ ← lift (need TypeError (hc_widget c));
  let c1 := c <| hc_open := negb (hc_open c) |> in
  let shows c := modify (put_table index (mkInst (i_set t) (Some (v <| v_header := <[k := c]> (v_header v) |>)))) in
  _ ← shows c1;
  if hc_caret c then shows (c1 <| hc_labelled := hc_open c |>) else lift (Throw TypeError).

Definition handle_st index (e : event) : W :=
  match e with
  | EvRender => do_render_st index
  | EvSort i d => on_sort_st index i d
  | EvFilterEnter i v => on_filter_enter_st index i v
  | EvFilterSelect i v => on_filter_select_st index i v
  | EvOperator i => atomic (on_operator index i)
  | EvClear => on_clear_st index
  | EvFirst => page_nav_st "first" first_offset index
  | EvPrev => page_nav_st "previous" prev_offset index
  | EvNext => page_nav_st "next" next_offset index
  | EvLast => page_nav_st "last" last_offset index
  | EvGoto v => on_goto_st index v
  | EvPerpage v =>
      navigate_st (PObject (no_params <| p_limit := Some (parseInt v) |>))
        (λ s, s <| offset := JInt 0 |> <| rows_per_page := parseInt v |>) index
  | EvColumns c => change_st index (update_visible_columns c)
  | EvClick y x => atomic (on_click index y x)
  | EvCell y x => atomic (on_cell index y x)
  | EvEdit v => on_edit_st index v
  | EvBlur => on_blur_st index
  | EvSearchIcon k => on_search_icon_st index k
  | EvOptions o => atomic (on_options index o)
  | EvColsel => atomic (on_colsel index)
  | EvUpdate p => do_update_st p index
  | EvResponse k r => on_response_st k r
  end.

(** The page after a sequence of events: an exception ends the handler, not the
    page. *)
Definition page_run (es : list (nat * event)) w : world :=
  foldl (λ w '(index, e), (handle_st index e w).1) w es.

(** ** Agreement of the handlers *)

(** The computation [m] returns when [f] does, with the same page, and throws
    when it does, with the same exception. *)
Definition agrees (m : W) (f : world → res world) : Prop :=
  ∀ w, outcome m w = (w' ← f w; Ok (w', ())).

Lemma agrees_atomic f : agrees (atomic f) f.
Proof. intros w. unfold outcome, atomic. by destruct (f w). Qed.

Lemma agrees_modify f : agrees (modify f) (λ w, Ok (f w)).
Proof. done. Qed.

Lemma agrees_then m f (n : W) g : agrees m f → agrees n g → agrees (_ ← m; n) (λ w, w1 ← f w; g w1).
Proof. intros Hm Hn w. rewrite outcome_bind, Hm. destruct (f w); [apply Hn|done]. Qed.

Lemma agrees_asks {A} (r : world → res A) (k : A → W) (g : A → world → res world) :
  (∀ a, agrees (k a) (g a)) → agrees (a ← asks r; k a) (λ w, a ← r w; g a w).
Proof.
  intros Hk w. rewrite outcome_bind.
  assert (outcome (asks r) w = (a ← r w; Ok (w, a))) as -> by (unfold outcome, asks; by destruct (r w)).
  destruct (r w) as [a|e]; [apply Hk|done].
Qed.

Lemma agrees_lift {A} (r : res A) (k : A → W) (g : A → world → res world) :
  (∀ a, agrees (k a) (g a)) → agrees (a ← lift r; k a) (λ w, a ← r; g a w).
Proof. exact (agrees_asks (λ _, r) k g). Qed.

Lemma do_render_agrees index : agrees (do_render_st index) (do_render index).
Proof.
  intros w. unfold outcome, do_render_st, do_render. destruct (table_at index w) as [i|e]; [|done].
  cbn [mbind res_bind]. pose proof (render_agrees index (i_set i)) as E. unfold outcome in E.
  destruct (render_st index (i_set i, [])) as [[s al] [v|e]];
    destruct (render index (i_set i)) as [[[s' v'] al']|e']; try done; by injection E as <- <- <- || injection E as <-.
Qed.

Lemma do_update_agrees p index : agrees (do_update_st p index) (do_update p index).
Proof.
  apply agrees_asks. intros i w. rewrite outcome_bind, outcome_modify. cbn [mbind res_bind].
  out_step. out_step. by destruct (update_url _).
Qed.

Lemma on_response_agrees k r : agrees (on_response_st k r) (on_response k r).
Proof.
  apply (agrees_asks (λ w, need _ _)). intros rq. apply agrees_asks. intros i w.
  do 2 out_step. do 2 out_step. destruct (update_success r (i_set i)) as [s|e]; [|done].
  cbn [mbind res_bind]. do 2 out_step. rewrite do_render_agrees. done.
Qed.

Lemma call_nav_agrees cb p index : agrees (call_nav_st cb p index) (call_nav cb p index).
Proof. destruct cb; [apply do_update_agrees|apply agrees_modify]. Qed.

Lemma change_agrees index f :
  agrees (change_st index f) (λ w, w1 ← on_settings index f w; do_render index w1).
Proof. apply agrees_then; [apply agrees_atomic|apply do_render_agrees]. Qed.

Lemma navigate_agrees p f index : agrees (navigate_st p f index) (navigate p f index).
Proof. apply agrees_asks. intros [cb|]; [apply call_nav_agrees|apply change_agrees]. Qed.

Lemma page_nav_agrees word f index : agrees (page_nav_st word f index) (page_nav word f index).
Proof.
  apply agrees_asks. intros t. apply agrees_lift. intros v. destruct (v_nav v); [|apply change_agrees].
  apply agrees_lift. intros cb. apply call_nav_agrees.
Qed.

Lemma on_edit_agrees index value : agrees (on_edit_st index value) (on_edit index value).
Proof.
  apply agrees_asks. intros t. apply agrees_lift. intros v. apply agrees_lift. intros [[y x] z].
  apply agrees_lift. intros s w. out_step. out_step. destruct (edit_callback s); cbn [when]; unfold skip;
    do 2 out_step; apply do_render_agrees.
Qed.

Lemma on_search_icon_agrees index k : agrees (on_search_icon_st index k) (on_search_icon index k).
Proof.
  unfold on_search_icon, on_view, toggle_filter. apply agrees_asks. intros t. apply agrees_lift. intros v w.
  out_step. out_step. destruct (v_header v !! k) as [c|]; [|done]. cbn [need mbind res_bind].
  do 2 out_step. destruct (hc_search c); [|done]. cbn [need mbind res_bind].
  do 2 out_step. destruct (hc_widget c); [|done]. cbn [need mbind res_bind].
  do 2 out_step. destruct (hc_caret c); [|done]. rewrite outcome_modify. cbn [mbind res_bind].
  unfold put_table. cbn. by rewrite list_insert_insert_eq.
Qed.

(** The handlers with their partial effects refine those of [TableEvents]. *)
Lemma handle_agrees index e : agrees (handle_st index e) (handle index e).
Proof.
  destruct e; cbn [handle_st handle].
  - apply do_render_agrees.
  - apply agrees_then; [apply agrees_atomic|]. apply agrees_asks. intros t. apply agrees_lift.
    intros hdr. apply navigate_agrees.
  - apply agrees_then; [apply agrees_atomic|]. apply agrees_asks. intros t. apply agrees_lift.
    intros hdr. apply navigate_agrees.
  - apply agrees_then; [apply agrees_atomic|apply change_agrees].
  - apply agrees_atomic.
  - apply agrees_then; [apply agrees_atomic|apply navigate_agrees].
  - apply page_nav_agrees.
  - apply page_nav_agrees.
  - apply page_nav_agrees.
  - apply page_nav_agrees.
  - apply agrees_asks. intros t. apply agrees_lift. intros v0. apply navigate_agrees.
  - apply navigate_agrees.
  - apply change_agrees.
  - apply agrees_atomic.
  - apply agrees_atomic.
  - apply on_edit_agrees.
  - apply agrees_asks. intros t. apply agrees_lift. intros v0. apply agrees_lift. intros _. apply do_render_agrees.
  - apply on_search_icon_agrees.
  - apply agrees_atomic.
  - apply agrees_atomic.
  - apply do_update_agrees.
  - apply on_response_agrees.
Qed.

(** Where no handler throws, the page is the one [run] gives. *)
Lemma page_run_ok es w w' : run es w = Ok w' → page_run es w = w'.
Proof.
  revert w. induction es as [|[index e] es IH]; intros w; cbn [run page_run foldl].
  - by intros [= <-].
  - intros (w1 & H1 & Hr)%bind_ok. pose proof (handle_agrees index e w) as E. rewrite H1 in E.
    unfold outcome in E. destruct (handle_st index e w) as [w2 [u|]]; [|done]. injection E as -> _. by apply IH.
Qed.

End throws.
