(* ===== verification/TableTypes.v ===== *)
(** * Table renderer: well-formed tables

    The invariant of the tables of a page, and its preservation by every event,
    whether its handler returns or throws: a rendered table shows, in one row of
    the body for each of its rows and one cell for each visible column, what the
    row objects hold now; no row is shown or kept twice; and no row gets lost. *)

From S2P Require Import Prelude JsString JsNumber JsValue JsJson JsRegExp RegExpEngine JsState TableData TableFilter TableView TableRender TableUpdate TableEvents TableThrows.

(** ** References to row objects *)







Section types.
Context `{RegExpOps}.
Implicit Types (s : settings) (v : view) (w : world) (fs : list (nat * filter)) (hdr : list string) (fresh edited : bool).

(** ** The invariant *)

Definition rows s : list nat := default [] (tdata s).
Definition filtered_rows s : list nat := default [] (filtered_data s).

(** The filters in the order of their columns, each column once. *)
Definition keys_ok fs : Prop := Sorted.StronglySorted lt (fs.*1).

Definition has_filter fs (i : nat) : Prop := is_Some (fget i fs).





(** What a table keeps from settings [s] to settings [s']: the header; unless the
    server gives [fresh] rows, the rows of [tdata], in some order, and that the
    filtered rows are among them; unless a cell is [edited], the row objects. *)
Record keeps fresh edited s s' : Prop := {
  kept_header : ∀ h, header s = Some h → header s' = Some h;
  kept_rows : fresh = false → ∀ t, tdata s = Some t → ∃ t', tdata s' = Some t' ∧ t' ≡ₚ t;
  kept_filtered : fresh = false → filtered_rows s ⊆ rows s → filtered_rows s' ⊆ rows s';
  kept_objects : edited = false → heap s `prefix_of` heap s'
}.

#[local] Instance keeps_preorder fresh edited : PreOrder (keeps fresh edited).
Proof.
  split; [intros s; split; try done; by eauto|].
  intros s1 s2 s3 [A1 A2 A3 A4] [B1 B2 B3 B4]. split.
  - auto.
  - intros Hf t Ht. destruct (A2 Hf t Ht) as (t2 & Ht2 & P2). destruct (B2 Hf t2 Ht2) as (t3 & Ht3 & P3).
    exists t3. split; [done|]. by rewrite P3.
  - auto.
  - intros He. etrans; [by apply A4|by apply B4].
Qed.





(** A change of settings other than the rows, the header and the data. *)
Record frame s s' : Prop := {
  fr_tdata : tdata s' = tdata s;
  fr_filtered : filtered_data s' = filtered_data s;
  fr_heap : heap s' = heap s;
  fr_header : header s' = header s;
  fr_data : data s' = data s;
  fr_keys : keys_ok (filters s) → keys_ok (filters s')
}.



(** A change that also leaves what is shown as it is. *)
Record quiet s s' : Prop := {
  qu_frame : frame s s';
  qu_invisible : invisible_columns s' = invisible_columns s;
  qu_has : ∀ i, has_filter (filters s) i → has_filter (filters s') i
}.


(** ** Filters *)








#[local] Instance quiet_preorder : PreOrder quiet.
Proof.
  split; [done|]. intros s1 s2 s3 [[] ? ?] [[] ? ?].
  split; [split| |]; try congruence; auto.
Qed.


(** ** [render]

    Phases that return or throw with what is shown as it was. *)

























(** ** Pages *)
























(** ** Handlers *)

























End types.

(** ** An example *)

Definition two_tables : @world EsRegExp :=
  mkWorld [mkInst ex_table None; mkInst (ex_table <| editable := {[1%nat]} |>) None] None [] [].

(** The word that the first table is to be filtered by does not compile; the
    second is edited and loses a column. *)
Definition some_events : list (nat * event) :=
  [(0%nat, EvRender); (1%nat, EvRender); (0%nat, EvSort 1 "desc"); (0%nat, EvFilterEnter 0 "(");
   (1%nat, EvCell 0 1); (1%nat, EvEdit "11"); (1%nat, EvColumns [true; false]); (0%nat, EvRender)].

(** The page goes on after the exceptions; the first table stays empty. *)
Example exceptions_leave_page :
  match run some_events two_tables with Throw e => Some e | Ok _ => None end = Some SyntaxError ∧
  (λ i, v_body <$> i_view i) <$> tables (page_run some_events two_tables) =
    [None; Some [["alpha"]; ["delta"]]].
Proof. split; vm_compute; done. Qed.

