(* ===== verification/TablePaging.v ===== *)
(** * Table renderer: paging

    The first, previous, next and last icons and the goto field of a table that
    pages by itself: they keep the offset on the table, walking with [next]
    shows every row once, [previous] undoes [next]; the goto field only reaches
    the first two pages. *)

From Stdlib Require Import SpecFloat.
From S2P Require Import Prelude JsString JsNumber JsValue JsJson JsRegExp RegExpEngine TableData TableView TableUpdate TableEvents.

Section paging.
Context `{RegExpOps}.
Implicit Types (s : settings) (hdr : list string) (t : list nat) (v : view).

(** Sizes for which the arithmetic of the handlers is exact. *)
Definition fits (z : Z) : Prop := Z.abs z ≤ 2 ^ 52.

Lemma jadd_fits x y : fits x → fits y → jadd (JInt x) (JInt y) = JInt (x + y).
Proof. unfold fits. intros. unfold jadd. apply jround_small. lia. Qed.

Lemma jsub_fits x y : fits x → fits y → jsub (JInt x) (JInt y) = JInt (x - y).
Proof. unfold fits. intros. unfold jsub, jadd, jopp. apply jround_small. lia. Qed.

Lemma clamp0_int z : clamp0 (JInt z) = JInt (Z.max z 0).
Proof. unfold clamp0. simpl. destruct (Z.ltb_spec z 0); f_equal; lia. Qed.

(** A synchronous table of [length t] rows at offset [o] with [r] rows per page;
    a negative [r] shows all rows. *)
Record paged s t (o r : Z) : Prop := {
  pg_sync : synchronous s = true;
  pg_local : numrows s = None;
  pg_offset : offset s = JInt o;
  pg_rows : rows_per_page s = JInt r;
  pg_fits : fits o ∧ fits r ∧ fits (Z.of_nat (length t))
}.

Definition page_size t (r : Z) : Z := if r <? 0 then Z.of_nat (length t) else r.

Lemma page_rows_paged s t o r : paged s t o r → page_rows s t = JInt (page_size t r).
Proof. intros []. unfold page_rows, page_size. rewrite pg_rows0. simpl. by case_if. Qed.

Lemma page_size_fits s t o r : paged s t o r → fits (page_size t r).
Proof. intros [? ? ? ? (? & ? & ?)]. unfold page_size. by case_if. Qed.

Lemma total_rows_paged s t o r : paged s t o r → total_rows s t = JInt (Z.of_nat (length t)).
Proof. intros []. unfold total_rows. by rewrite pg_local0. Qed.

Section at_view.
Context (index : nat) (hdr : list string) (cells : list hcell).
Context (s : settings) (t : list nat) (o r : Z) (Hp : paged s t o r).
Let v := make_view index hdr t s cells.

Lemma v_next_paged : v_next v = (o + page_size t r <? Z.of_nat (length t)).
Proof.
  simpl. rewrite (page_rows_paged _ _ _ _ Hp), (total_rows_paged _ _ _ _ Hp).
  destruct Hp as [? ? -> ? (? & ? & ?)].
  rewrite jadd_fits by (done || by eapply page_size_fits). done.
Qed.

Lemma v_prev_paged : v_prev v = (0 <? o).
Proof. simpl. destruct Hp as [? ? -> ? ?]. done. Qed.

Lemma next_offset_paged :
  offset (next_offset v s) =
    JInt (if Z.of_nat (length t) - 1 <? o + page_size t r
          then Z.max (Z.of_nat (length t) - page_size t r) 0 else o + page_size t r).
Proof.
  unfold next_offset. simpl. rewrite (page_rows_paged _ _ _ _ Hp).
  pose proof (page_size_fits _ _ _ _ Hp). destruct Hp as [? ? -> ? (? & ? & ?)].
  rewrite jadd_fits by done. unfold jgt. simpl. case_if; [|done].
  rewrite jsub_fits by done. by rewrite clamp0_int.
Qed.

Lemma prev_offset_paged : offset (prev_offset v s) = JInt (Z.max (o - page_size t r) 0).
Proof.
  unfold prev_offset. simpl. rewrite (page_rows_paged _ _ _ _ Hp).
  pose proof (page_size_fits _ _ _ _ Hp). destruct Hp as [? ? -> ? (? & ? & ?)].
  rewrite jsub_fits by done. by rewrite clamp0_int.
Qed.

Lemma last_offset_paged :
  offset (last_offset v s) = JInt (Z.max (Z.of_nat (length t) - page_size t r) 0).
Proof.
  unfold last_offset. simpl. rewrite (page_rows_paged _ _ _ _ Hp).
  pose proof (page_size_fits _ _ _ _ Hp). destruct Hp as [? ? _ ? (? & ? & ?)].
  rewrite jsub_fits by done. by rewrite clamp0_int.
Qed.

End at_view.

(** The offset is on the table, or zero. *)
Definition in_range t (o : Z) : Prop := 0 ≤ o ∧ (o = 0 ∨ o < Z.of_nat (length t)).

(** C28: the first, previous, next and last icons, when they are shown, move to an
    offset that is 0 or that of a row of the table. *)
Theorem paging_stays_on_table index hdr cells s t o r :
  paged s t o r → r ≠ 0 → in_range t o →
  let v := make_view index hdr t s cells in
  let ok s' := ∃ o', offset s' = JInt o' ∧ in_range t o' in
  (v_prev v = true → ok (first_offset v s) ∧ ok (prev_offset v s)) ∧
  (v_next v = true → ok (next_offset v s) ∧ ok (last_offset v s)).
Proof.
  intros Hp Hr [Ho Hlt] v ok. unfold v, ok.
  rewrite (v_next_paged index hdr cells _ _ _ _ Hp), (v_prev_paged index hdr cells _ _ _ _ Hp).
  rewrite (next_offset_paged index hdr cells _ _ _ _ Hp),
    (prev_offset_paged index hdr cells _ _ _ _ Hp), (last_offset_paged index hdr cells _ _ _ _ Hp).
  assert (0 ≤ page_size t r ∧ (r < 0 → page_size t r = Z.of_nat (length t)) ∧
          (0 < r → 0 < page_size t r)) as (Hs & Hs1 & Hs2)
    by (unfold page_size; destruct (Z.ltb_spec r 0); lia).
  unfold in_range. split; intros Hv; zbool; split; eexists; (split; [reflexivity|]);
    try lia; case_if; zbool; lia.
Qed.

(** After a click on the next icon, the previous icon goes back to the offset
    from which it was clicked. *)
Theorem previous_undoes_next index hdr cells cells' s t o r :
  paged s t o r → 0 ≤ o → 0 < r →
  let v := make_view index hdr t s cells in
  v_next v = true →
  let s1 := next_offset v s in
  offset (prev_offset (make_view index hdr t s1 cells') s1) = offset s.
Proof.
  intros Hp Ho Hr v Hv s1.
  unfold v in Hv. rewrite (v_next_paged index hdr cells _ _ _ _ Hp) in Hv. zbool.
  pose proof (next_offset_paged index hdr cells _ _ _ _ Hp) as Hn.
  assert (page_size t r = r) as Er by (unfold page_size; destruct (Z.ltb_spec r 0); lia).
  rewrite Er in *.
  assert (paged s1 t (o + r) r) as Hp1.
  { destruct Hp as [? ? ? ? (? & ? & ?)]. split; try done.
    - unfold s1, v. rewrite Hn. destruct (Z.ltb_spec (Z.of_nat (length t) - 1) (o + r)); [lia|done].
    - unfold fits in *. lia. }
  rewrite (prev_offset_paged index hdr cells' _ _ _ _ Hp1), Er.
  destruct Hp as [? ? -> ? ?]. f_equal. lia.
Qed.

(** The pages shown by clicking [next] for as long as it is shown. *)
Fixpoint walk (fuel : nat) (index : nat) hdr (cells : list hcell) t s : list (list nat) :=
  let v := make_view index hdr t s cells in
  v_disp v ::
    (if v_next v
     then match fuel with O => [] | S fuel' => walk fuel' index hdr cells t (next_offset v s) end
     else []).

Lemma v_disp_paged index hdr cells s t (o r : nat) :
  paged s t (Z.of_nat o) (Z.of_nat r) →
  v_disp (make_view index hdr t s cells) = take r (drop o t).
Proof.
  intros Hp. simpl. unfold page. rewrite (page_rows_paged _ _ _ _ Hp).
  unfold page_size. rewrite (proj2 (Z.ltb_ge _ _)) by lia.
  destruct Hp as [-> ? -> ? (? & ? & ?)]. apply slice_nat. unfold fits in *. lia.
Qed.

Lemma walk_drop index hdr cells t fuel : ∀ s (o r : nat),
  paged s t (Z.of_nat o) (Z.of_nat r) → (0 < r)%nat → (length t ≤ o + fuel)%nat →
  concat (walk fuel index hdr cells t s) = drop o t.
Proof.
  induction fuel as [|fuel IH]; intros s o r Hp Hr Hf; cbn [walk concat];
    rewrite (v_disp_paged index hdr cells s t o r Hp),
      (v_next_paged index hdr cells _ _ _ _ Hp);
    replace (page_size t (Z.of_nat r)) with (Z.of_nat r)
      by (unfold page_size; destruct (Z.ltb_spec (Z.of_nat r) 0); lia);
    destruct (Z.ltb_spec (Z.of_nat o + Z.of_nat r) (Z.of_nat (length t))) as [Hlt|Hge].
  - lia.
  - rewrite app_nil_r. apply take_ge. rewrite length_drop. lia.
  - rewrite (IH _ (o + r)%nat r); [|
      pose proof (next_offset_paged index hdr cells _ _ _ _ Hp) as Hn;
      destruct Hp as [? ? ? ? (? & ? & ?)]; split; try done|done|lia].
    + rewrite <-drop_drop. apply take_drop.
    + rewrite Hn. replace (page_size t (Z.of_nat r)) with (Z.of_nat r)
        by (unfold page_size; destruct (Z.ltb_spec (Z.of_nat r) 0); lia).
      destruct (Z.ltb_spec (Z.of_nat (length t) - 1) (Z.of_nat o + Z.of_nat r)); [lia|].
      f_equal. lia.
    + unfold fits in *. lia.
  - rewrite app_nil_r. apply take_ge. rewrite length_drop. lia.
Qed.

(** C3: starting on the first page and clicking the next icon as long as it is
    shown, the pages shown contain every row of the table exactly once, in order;
    as many clicks as there are rows are enough. *)
Theorem walk_shows_every_row index hdr cells t s r :
  paged s t 0 r → 0 < r → concat (walk (length t) index hdr cells t s) = t.
Proof.
  intros Hp Hr.
  rewrite (walk_drop index hdr cells t (length t) s 0 (Z.to_nat r)); [apply drop_0| |lia..].
  rewrite Z2Nat.id by lia. done.
Qed.

(** ** The goto field *)

(** The page shown after asking for the row with number [k] (counted from
    one) starts at [min (k - 1) r]: a row behind the second page is not on it. *)
Theorem goto_misses_later_pages index hdr cells t s r value k :
  paged s t 0 r → 0 < r → parseInt value = JInt k → fits k → NoDup t →
  2 * r < k ≤ Z.of_nat (length t) →
  let s' := goto_offset (make_view index hdr t s cells) value s in
  offset s' = JInt r ∧
  (∀ x, t !! Z.to_nat (k - 1) = Some x → x ∉ v_disp (make_view index hdr t s' cells)).
Proof.
  intros Hp Hr Hk Hkf Hnd Hkr s'.
  assert (page_size t r = r) as Er by (unfold page_size; destruct (Z.ltb_spec r 0); lia).
  assert (offset s' = JInt r) as Ho.
  { unfold s', goto_offset. simpl. rewrite Hk, (page_rows_paged _ _ _ _ Hp), Er.
    rewrite jsub_fits by (done || unfold fits; lia). rewrite clamp0_int. unfold jgt. simpl.
    destruct (Z.ltb_spec r (Z.max (k - 1) 0)); [done|lia]. }
  split; [done|]. intros x Hx.
  assert (paged s' t (Z.of_nat (Z.to_nat r)) (Z.of_nat (Z.to_nat r))) as Hp'.
  { rewrite !Z2Nat.id by lia. destruct Hp as [? ? ? ? (? & ? & ?)]. by split. }
  rewrite (v_disp_paged index hdr cells s' t _ _ Hp'). intros Hin.
  apply elem_of_take in Hin as (i & Hi & Hlt). rewrite lookup_drop in Hi.
  pose proof (NoDup_lookup _ _ _ _ Hnd Hi Hx). lia.
Qed.

End paging.

(** ** Witnesses *)

Definition wide_table (n : nat) (o r : Z) : @settings EsRegExp :=
  defaults <| tdata := Some (seq 0 n) |> <| rows_per_page := JInt r |> <| offset := JInt o |>.

Lemma wide_paged n o r :
  fits o → fits r → fits (Z.of_nat n) → paged (wide_table n o r) (seq 0 n) o r.
Proof. intros. split; try done. by rewrite length_seq. Qed.

Lemma paging_stays_on_table_witness :
  let v := make_view 1 [] (seq 0 25) (wide_table 25 10 10) [] in
  v_prev v = true ∧ v_next v = true ∧
  ∃ o', offset (next_offset v (wide_table 25 10 10)) = JInt o' ∧ in_range (seq 0 25) o'.
Proof.
  split; [reflexivity|]. split; [reflexivity|].
  apply (paging_stays_on_table 1 [] [] (wide_table 25 10 10) (seq 0 25) 10 10).
  - apply wide_paged; unfold fits; lia.
  - lia.
  - vm_compute. split; [discriminate|]. right. reflexivity.
  - reflexivity.
Defined.

Lemma previous_undoes_next_witness :
  let s := wide_table 25 10 10 in
  let v := make_view 1 [] (seq 0 25) s [] in
  offset (prev_offset (make_view 1 [] (seq 0 25) (next_offset v s) []) (next_offset v s)) = JInt 10.
Proof.
  apply (previous_undoes_next 1 [] [] [] (wide_table 25 10 10) (seq 0 25) 10 10).
  - apply wide_paged; unfold fits; lia.
  - lia.
  - lia.
  - reflexivity.
Defined.

Lemma walk_shows_every_row_witness :
  concat (walk (length (seq 0 25)) 1 [] [] (seq 0 25) (wide_table 25 0 10)) = seq 0 25.
Proof.
  apply (walk_shows_every_row 1 [] [] (seq 0 25) (wide_table 25 0 10) 10).
  - apply wide_paged; unfold fits; lia.
  - lia.
Defined.

Lemma goto_misses_later_pages_witness :
  let s' := goto_offset (make_view 1 [] (seq 0 100) (wide_table 100 0 10) []) "95" (wide_table 100 0 10) in
  offset s' = JInt 10 ∧
  (∀ x, seq 0 100 !! Z.to_nat (95 - 1) = Some x →
    x ∉ v_disp (make_view 1 [] (seq 0 100) s' [])).
Proof.
  apply (goto_misses_later_pages 1 [] [] (seq 0 100) (wide_table 100 0 10) 10 "95" 95).
  - apply wide_paged; unfold fits; lia.
  - lia.
  - reflexivity.
  - unfold fits; lia.
  - apply NoDup_seq.
  - rewrite length_seq. lia.
Defined.
