(* ===== verification/TableUrl.v ===== *)
(** * Table renderer: the request of [update]

    The URL that [update] asks the server for carries exactly the query of the
    settings, the page and the order; what each navigation action does to the
    page it asks for. *)

From Stdlib Require Import SpecFloat.
From S2P Require Import Prelude JsString JsNumber JsValue JsJson JsRegExp RegExpEngine TableData TableView TableUpdate TableEvents.

Section url.
Context `{RegExpOps}.
Implicit Types (s : settings).

(** The parameters of a request, in order. *)
Definition query_params (qtype : string) (l : list (string * qentry)) : list string :=
  omap (λ '(_, e), if (q_searchword e =? "")%string then None else Some (query_term qtype e)) l.

Definition page_params s : list string :=
  ["limit=" +++ jshow (rows_per_page s); "offset=" +++ jshow (offset s)]
  ++ (if set_str (sort s) then ["order=" +++ default "" (sort s)] else [])
  ++ (if set_str (sortDir s) then ["direction=" +++ default "" (sortDir s)] else []).

Definition url_params s : list string := query_params (query_type s) (query s) ++ page_params s.

(** The parts of a query string behind its question mark. *)
Definition after_qmark (ts : list string) : string :=
  match ts with [] => "" | _ => "?" +++ join "&" ts end.

Lemma query_string_params qtype l : query_string qtype l = after_qmark (query_params qtype l).
Proof.
  unfold query_string.
  assert (∀ ts, foldl (λ acc '(_, e), if (q_searchword e =? "")%string then acc
      else acc +++ sep acc +++ query_term qtype e) (after_qmark ts) l =
      after_qmark (ts ++ query_params qtype l)) as Hl; [|apply (Hl [])].
  induction l as [|[k e] l IH]; intros ts; cbn [foldl query_params omap list_omap].
  - by rewrite app_nil_r.
  - destruct (q_searchword e =? "")%string; [apply IH|].
    replace (after_qmark ts +++ sep (after_qmark ts) +++ query_term qtype e)
      with (after_qmark (ts ++ [query_term qtype e])).
    + rewrite IH, <-app_assoc. done.
    + destruct ts as [|t ts]; [done|]. unfold after_qmark. cbn [app].
      rewrite app_comm_cons, join_snoc by done.
      assert (sep ("?" +++ join "&" (t :: ts)) = "&") as -> by done.
      by rewrite !sapp_assoc.
Qed.

Lemma attach_query_params nav ts :
  attach_query nav (after_qmark ts) =
    match ts with [] => nav | _ => nav +++ sep nav +++ join "&" ts end.
Proof.
  unfold attach_query. destruct ts as [|t ts].
  - simpl. rewrite andb_false_r. apply sapp_nil_r.
  - unfold after_qmark, sep. destruct (has_char qmark nav); done.
Qed.

Lemma page_url_params u s : page_url u s = u +++ sep u +++ join "&" (page_params s).
Proof.
  unfold page_url, page_params. destruct (set_str (sort s)), (set_str (sortDir s));
    cbn [app join]; rewrite ?sapp_assoc; done.
Qed.

Lemma sep_app_join nav ts : sep (nav +++ sep nav +++ join "&" ts) = "&".
Proof.
  unfold sep at 1. rewrite !has_char_app. unfold sep.
  destruct (has_char qmark nav) eqn:E; [done|]. simpl. done.
Qed.

(** The request: the navigation URL, then the parameters. *)
Theorem update_url_carries_params s nav :
  navigation_url s = Some nav →
  update_url s = Ok (nav +++ sep nav +++ join "&" (url_params s)).
Proof.
  intros Hn. unfold update_url. rewrite Hn. simpl. f_equal.
  rewrite query_string_params, page_url_params, attach_query_params. unfold url_params.
  destruct (query_params _ _) as [|t ts]; [done|].
  rewrite sep_app_join, join_app by done. by rewrite !sapp_assoc.
Qed.

(** The parameters are readable back from the URL when no part of the query
    contains a separator. *)
Definition clean (x : string) : Prop := has_char amp x = false ∧ has_char qmark x = false.

Lemma jshow_clean n : clean (jshow n).
Proof.
  destruct n as [|[]|z]; [by split..|]. split; by apply show_no_char.
Qed.

Lemma clean_app x y : clean x → clean y → clean (x +++ y).
Proof. intros [? ?] [? ?]. split; rewrite has_char_app; by apply orb_false_iff. Qed.

Definition clean_query s : Prop :=
  (∀ k e, (k, e) ∈ query s → clean (q_field e) ∧ clean (q_searchword e)) ∧
  clean (default "" (sort s)) ∧ clean (default "" (sortDir s)).

Lemma url_params_clean s : clean_query s → Forall clean (url_params s).
Proof.
  intros (Hq & Hs & Hd). unfold url_params. apply Forall_app. split.
  - apply Forall_forall. intros x Hx. unfold query_params in Hx.
    apply list_elem_of_omap in Hx as ([k e] & Hin & Hx).
    destruct (q_searchword e =? "")%string; [done|]. injection Hx as <-.
    destruct (Hq k e Hin). unfold query_term.
    case_if; repeat apply clean_app; try done; by split.
  - unfold page_params. repeat apply Forall_app_2; repeat case_if; repeat constructor;
      apply clean_app; try done; try apply jshow_clean; by split.
Qed.

(** C9: when no field, search word or order contains an ampersand or a question mark,
    the URL of a page request is the navigation URL and the parameters, and
    splitting what follows at the ampersands gives back exactly the parameters of
    the query, the page size, the offset and the order; the URL has one question
    mark, whether the navigation URL has one or not. *)
Theorem update_url_round_trip s nav u :
  navigation_url s = Some nav → clean_query s → (count_char qmark nav ≤ 1)%nat →
  update_url s = Ok u →
  count_char qmark u = 1%nat ∧
  ∃ rest, u = nav +++ sep nav +++ rest ∧ split_on amp rest = url_params s.
Proof.
  intros Hn Hc Hq Hu. rewrite (update_url_carries_params s nav Hn) in Hu. injection Hu as <-.
  pose proof (url_params_clean s Hc) as Hp.
  assert (url_params s ≠ []) as Hne by (unfold url_params, page_params; by destruct (query_params _ _)).
  split.
  - rewrite !count_char_app.
    assert (count_char qmark (join "&" (url_params s)) = 0%nat) as ->.
    { clear -Hp. induction Hp as [|x l Hx Hl IH]; [done|].
      destruct l; [by apply has_char_false, Hx|]. rewrite join_cons, !count_char_app, IH by done.
      destruct Hx as [_ ->%has_char_false]. done. }
    unfold sep. rewrite has_char_count. destruct (Nat.eqb_spec (count_char qmark nav) 0) as [->|];
      simpl; [done|]. lia.
  - eexists. split; [done|]. apply (split_on_join_parts amp); [done|].
    eapply Forall_impl; [exact Hp|]. by intros x [? _].
Qed.

(** C30: the page a table with a server asks for: "first" is offset 0, "previous" and
    "next" stay at 0 or above, "last" is a page with the last row on it, and
    "previous" undoes "next". *)
Theorem update_page p s r :
  rows_per_page s = JInt r → 0 < r ≤ 2 ^ 52 →
  (∃ o, offset s = JInt o ∧ 0 ≤ o ≤ 2 ^ 52) →
  (∀ n, numrows s = Some n → ∃ z, n = JInt z ∧ 0 ≤ z ≤ 2 ^ 52) →
  (p = PWord "first" → offset (update_settings p s) = JInt 0) ∧
  (p = PWord "previous" ∨ p = PWord "next" → ∃ o, offset (update_settings p s) = JInt o ∧ 0 ≤ o) ∧
  (p = PWord "last" → ∀ n, numrows s = Some n →
     ∃ o z, n = JInt z ∧ offset (update_settings p s) = JInt o ∧ 0 ≤ o ∧ o < Z.max z 1 ∧ z ≤ o + r) ∧
  (p = PWord "next" → offset (update_settings (PWord "previous") (update_settings p s)) = offset s).
Proof.
  intros Hr Hrb (o & Ho & Hob) Hn.
  assert (∀ z, Z.abs z ≤ 2 ^ 52 + 2 ^ 52 → jround z = JInt z) as Hrnd
    by (intros; apply jround_small; lia).
  split_and!.
  - by intros ->.
  - intros [-> | ->]; simpl; rewrite Ho, Hr; unfold jsub, jadd, jopp, clamp0;
      rewrite Hrnd by lia; eauto with lia.
    simpl. destruct (Z.ltb_spec (o + - r) 0); eauto with lia.
  - intros -> n En. destruct (Hn n En) as (z & -> & Hz). simpl. rewrite En, Hr.
    unfold jsub, jadd, jopp, clamp0. simpl. rewrite Hrnd by lia. simpl.
    destruct (Z.ltb_spec (z + - r) 0); eexists _, z; split_and!; try done; lia.
  - intros ->. simpl. rewrite Ho, Hr. unfold jsub, jadd, jopp, clamp0.
    rewrite (Hrnd (o + r)) by lia. rewrite Hrnd by lia. simpl.
    destruct (Z.ltb_spec (o + r + - r) 0); [lia|]. f_equal. lia.
Qed.

End url.

(** ** Witnesses *)

Definition jobs_like : @settings EsRegExp :=
  defaults <| navigation_url := Some "http://awe/job?query" |> <| query_type := "prefix" |>
           <| query := [("0", mkQ "info.name" "mgm" CmpEqual); ("1", mkQ "state" "" CmpEqual);
                      ("2", mkQ "id" "7" CmpMissing)] |>
           <| sort := Some "state" |> <| sortDir := Some "desc" |>
           <| rows_per_page := JInt 20 |> <| offset := JInt 40 |> <| numrows := Some (JInt 95) |>
           <| synchronous := false |>.

Lemma update_url_carries_params_witness :
  update_url jobs_like =
  Ok "http://awe/job?query&info.name=mgm&id=7&limit=20&offset=40&order=state&direction=desc".
Proof.
  rewrite (update_url_carries_params jobs_like "http://awe/job?query" eq_refl).
  vm_compute. reflexivity.
Defined.

Lemma update_url_round_trip_witness :
  ∃ rest, "http://awe/job?query&info.name=mgm&id=7&limit=20&offset=40&order=state&direction=desc" =
    "http://awe/job?query" +++ "&" +++ rest ∧
    split_on amp rest =
      ["info.name=mgm"; "id=7"; "limit=20"; "offset=40"; "order=state"; "direction=desc"].
Proof.
  apply (update_url_round_trip jobs_like "http://awe/job?query"); [reflexivity| | |].
  - split_and!; try (by split). intros k e Hin.
    repeat (apply elem_of_cons in Hin as [[= -> ->]|Hin]); [by split..|by apply elem_of_nil in Hin].
  - vm_compute. lia.
  - vm_compute. reflexivity.
Defined.

Lemma update_page_witness :
  ∃ o z, JInt 95 = JInt z ∧ offset (update_settings (PWord "last") jobs_like) = JInt o ∧
    0 ≤ o ∧ o < Z.max z 1 ∧ z ≤ o + 20.
Proof.
  apply (update_page (PWord "last") jobs_like 20); try reflexivity.
  - lia.
  - exists 40. split; [reflexivity|lia].
  - intros n [= <-]. exists 95. split; [reflexivity|lia].
Defined.
