(* ===== verification/TableCells.v ===== *)
(** * Table renderer: cells, columns and operators

    The cell editor, the column selection, the operator switch, and what
    happens to cells that are no strings. *)

From Stdlib Require Import SpecFloat.
From S2P Require Import Prelude JsString JsNumber JsValue JsJson JsRegExp RegExpEngine TableData TableFilter TableSort TableView TableRender TableUpdate TableEvents TablePaging.

Section cells.
Context `{RegExpOps}.
Implicit Types (s : settings) (hdr : list string) (t : list nat) (v : view).

(** ** Cells that are no strings *)

Definition is_string (v : value) : bool := match v with VStr _ => true | _ => false end.

Definition text_sorted s : Prop :=
  sorttype s !! sortcol s = None ∨ sorttype s !! sortcol s = Some "" ∨
  sorttype s !! sortcol s = Some "string".

Definition sort_cell hdr s (r : nat) : value := cell (heap s) hdr r (sortcol s).

Lemma compare_rows_text hdr s a b :
  text_sorted s →
  compare_rows hdr s a b =
    if is_string (sort_cell hdr s a) && is_string (sort_cell hdr s b)
    then Ok (row_cmp hdr s a b) else Throw TypeError.
Proof.
  intros Hty. unfold compare_rows, row_cmp, row_key, sort_cell.
  assert (∀ x y, compare_cells (sorttype s !! sortcol s) x y =
    if is_string x && is_string y
    then Ok (key_cmp (default KNone (cell_key (sorttype s !! sortcol s) x))
                     (default KNone (cell_key (sorttype s !! sortcol s) y)))
    else Throw TypeError) as Hc.
  { intros x y. destruct Hty as [E|[E|E]]; rewrite E; by destruct x, y. }
  destruct (sortdir s =? "desc")%string; rewrite Hc; [|done]. by rewrite andb_comm.
Qed.

(** A column that is sorted as text and has a cell that is no string makes
    every sort of two or more rows throw. *)
Theorem sort_nonstring_throws hdr filtered t s r :
  text_sorted s → sorted s = false → (2 ≤ length t)%nat → r ∈ t →
  is_string (sort_cell hdr s r) = false → sort_rows hdr filtered t s = Throw TypeError.
Proof.
  intros Hty Hs Hlen Hr Hbad. unfold sort_rows. rewrite Hs.
  assert (∀ l, (2 ≤ length l)%nat → (∃ x, x ∈ l ∧ is_string (sort_cell hdr s x) = false) →
    array_sort (compare_rows hdr s) l = Throw TypeError) as Hthrow;
    [|rewrite (Hthrow t); [done|done|by eauto]].
  clear t r Hlen Hr Hbad Hs. intros l. induction l as [|x l IH]; simpl; [lia|].
  intros Hlen (y & Hy & Hbad).
  destruct (decide (Exists (λ z, is_string (sort_cell hdr s z) = false) l)) as [Hex|Hno].
  - apply Exists_exists in Hex as (z & Hz & Hbz). destruct l as [|a [|b l]].
    + by apply elem_of_nil in Hz.
    + apply list_elem_of_singleton in Hz as ->. simpl.
      rewrite compare_rows_text by done. by rewrite Hbz, andb_false_r.
    + rewrite IH; [done|simpl; lia|eauto].
  - rewrite <-Forall_Exists_neg in Hno.
    assert (∀ z, z ∈ l → is_string (sort_cell hdr s z) = true) as Hall.
    { intros z Hz. rewrite Forall_forall in Hno. specialize (Hno z Hz).
      cbv beta in Hno. by apply not_false_is_true. }
    rewrite (array_sort_pure _ (row_cmp hdr s)); simpl.
    + apply elem_of_cons in Hy as [->|Hy]; [|by rewrite Hall in Hbad].
      pose proof (pure_sort_perm (row_cmp hdr s) l) as Hp.
      destruct (pure_sort (row_cmp hdr s) l) as [|z l'].
      * apply Permutation_nil_l in Hp. subst. simpl in Hlen. lia.
      * simpl. rewrite compare_rows_text by done. by rewrite Hbad.
    + intros a b Ha Hb. rewrite compare_rows_text by done. by rewrite !Hall.
Qed.

(** The row [r] gets past the filters in front of a text filter without
    operators whose column has no string there. *)
Definition meets_nonstring (hp : list row) hdr (fs : list (nat * filter)) (r : nat) : Prop :=
  ∃ fs1 i f fs2 w, fs = fs1 ++ (i, f) :: fs2 ∧ row_passes hp hdr fs1 r = Ok true ∧
    operator f = None ∧ nonempty_word f = Some w ∧ is_string (cell hp hdr r i) = false.

Lemma row_passes_app hp hdr fs1 fs2 r :
  row_passes hp hdr (fs1 ++ fs2) r =
    (b ← row_passes hp hdr fs1 r; if (b : bool) then row_passes hp hdr fs2 r else Ok false).
Proof.
  induction fs1 as [|[i f] fs1 IH]; [done|]. cbn [app row_passes].
  destruct (nonempty_word f) as [w|]; [|done]. destruct (rejects f w _) as [[]|e]; [done|exact IH|done].
Qed.

Lemma meets_throws hp hdr fs r : meets_nonstring hp hdr fs r → row_passes hp hdr fs r = Throw TypeError.
Proof.
  intros (fs1 & i & f & fs2 & w & -> & Hp & Hop & Hw & Hbad). rewrite row_passes_app, Hp.
  cbn [mbind res_bind row_passes]. rewrite Hw. unfold rejects. rewrite Hop. by destruct (cell hp hdr r i).
Qed.

(** The filters have been prepared: a range has its two ends. *)
Definition ranges_ok (fs : list (nat * filter)) : Prop :=
  ∀ i f w, (i, f) ∈ fs → nonempty_word f = Some w → active_op f = Some "><" → is_Some (minmax f).

Lemma prepared_ranges fs fs' al : prepare_filters fs = Ok (fs', al) → ranges_ok fs'.
Proof.
  intros Hp i f w [k Hk]%list_elem_of_lookup Hw Hop.
  destruct (prepare_filters_lookup _ _ _ _ _ _ Hp Hk) as (f0 & al' & _ & Hf0).
  apply prepare_filter_same in Hf0 as (_ & _ & _ & E & _ & _ & Hm). by eapply Hm; [congruence|].
Qed.

Lemma throws_meets hp hdr fs r e :
  ranges_ok fs → row_passes hp hdr fs r = Throw e → e = TypeError ∧ meets_nonstring hp hdr fs r.
Proof.
  induction fs as [|[i f] fs IH]; intros Hok Hr; [done|]. cbn [row_passes] in Hr.
  assert (ranges_ok fs) as Hok' by (intros j g w Hin; apply (Hok j); by right).
  destruct (nonempty_word f) as [w|] eqn:Ew.
  - destruct (rejects f w (cell hp hdr r i)) as [[]|e'] eqn:Ej; [done| |].
    + destruct (IH Hok' Hr) as [-> (fs1 & j & g & fs2 & w' & -> & Hp & ?)]. split; [done|].
      exists ((i, f) :: fs1), j, g, fs2, w'. split; [done|]. split; [|done].
      cbn [row_passes]. by rewrite Ew, Ej.
    + injection Hr as ->. clear IH. unfold rejects in Ej. destruct (operator f) as [ops|] eqn:Eo.
      * destruct (active_op f) as [op|] eqn:Ea; [|done].
        destruct (op =? "=")%string, (op =? ">")%string, (op =? "<")%string; try done.
        destruct (String.eqb_spec op "><") as [->|]; [|done].
        destruct (Hok i f w ltac:(by left) Ew Ea) as [mm Em]. by rewrite Em in Ej.
      * assert (is_string (cell hp hdr r i) = false ∧ e = TypeError) as [Hb ->].
        { destruct (cell hp hdr r i); try done; by injection Ej as <-. }
        split; [done|]. by exists [], i, f, fs, w.
  - destruct (IH Hok' Hr) as [-> (fs1 & j & g & fs2 & w' & -> & Hp & ?)]. split; [done|].
    exists ((i, f) :: fs1), j, g, fs2, w'. split; [done|]. split; [|done].
    cbn [row_passes]. by rewrite Ew.
Qed.

(** C40: when filtering throws. On a synchronous table whose filters have changed,
    one of them with a search word, and whose search words compile, the filter
    phase throws if and only if some row gets past the filters in front of a text
    filter without operators that has a search word and finds a cell that is no
    string in its column; the exception is a [TypeError]. *)
Theorem filter_nonstring_throws hdr t s fs al :
  synchronous s = true → filter_present s = true → filter_changed s = true →
  prepare_filters (filters s) = Ok (fs, al) →
  (apply_filter hdr t s = Throw TypeError ↔ ∃ r, r ∈ t ∧ meets_nonstring (heap s) hdr fs r) ∧
  ∀ e, apply_filter hdr t s = Throw e → e = TypeError.
Proof.
  intros Hs Hpres Hc Hp. pose proof (prepared_ranges _ _ _ Hp) as Hok.
  assert (∀ e, apply_filter hdr t s = Throw e → e = TypeError ∧ ∃ r, r ∈ t ∧ meets_nonstring (heap s) hdr fs r)
    as Hthrow.
  { intros e. unfold apply_filter. rewrite Hs, Hpres, Hc, Hp. cbn [mbind res_bind andb fst snd].
    destruct (filterR _ t) as [new|e'] eqn:Ef; [done|]. intros [= ->].
    apply filterR_throw_inv in Ef as (r & Hr & Ht). apply throws_meets in Ht as [-> Hm]; eauto. }
  split; [split|].
  - apply Hthrow.
  - intros (r & Hr & Hm). unfold apply_filter. rewrite Hs, Hpres, Hc, Hp. cbn [mbind res_bind andb fst snd].
    rewrite (filterR_throw _ TypeError t r); [done| |done|by apply meets_throws].
    intros x _. destruct (row_passes (heap s) hdr fs x) as [b|e] eqn:E; [eauto|].
    right. f_equal. by eapply throws_meets.
  - intros e He. by apply Hthrow.
Qed.

(** ** The cell editor *)

(** A rendered table of strings without an active filter. *)
Record settled s hdr t : Prop := {
  st_header : header s = Some hdr;
  st_tdata : tdata s = Some t;
  st_sorted : sorted s = true;
  st_filters : filter_present s = false;
  st_types : ∀ i f, (i, f) ∈ filters s → ftype f = "text" ∨ ftype f = "select";
  st_rows : NoDup t ∧ Forall (λ a, a < length (heap s))%nat t;
  st_cells : ∀ r i, r ∈ t → (i < length hdr)%nat → string_cell (heap s) hdr r i
}.

(** Rendering it again shows the same rows. *)
Lemma rerender_settled index s hdr t :
  settled s hdr t → ∃ s' v al, render index s = Ok (s', v, al) ∧
    heap s' = heap s ∧ tdata s' = Some t ∧ v_body v = body hdr s (page s t).
Proof.
  intros [Hh Ht Hso Hfp Hty _ Hc]. unfold render.
  assert (∃ n, init_navigation s = s <| navigation_callback := n |>) as [n ->].
  { unfold init_navigation. case_if; [eauto|]. exists (navigation_callback s). by destruct s. }
  set (s0 := init_data _). assert (∃ d, s0 = s <| navigation_callback := n |> <| data := d |>) as [d E0].
  { unfold s0, init_data. exists (data s0). unfold s0, init_data. repeat case_match; by destruct s. }
  rewrite E0. clear s0 E0. unfold init_header, init_tdata. upd_simpl. rewrite Hh. cbn [mbind res_bind fst snd].
  upd_simpl. rewrite Ht. cbn [mbind res_bind fst snd].
  edestruct autodetect_sort_total as [s3 H3]; [|rewrite H3]; [exact Hc|].
  apply autodetect_sort_frame in H3. rewrite H3. cbn [mbind res_bind]. unfold apply_filter.
  match goal with |- context [filter_present ?s3] =>
    assert (filter_present s3 = false) as Hfp3 by (etrans; [by apply (filter_present_ext s)|done]) end.
  rewrite Hfp3. cbn [andb mbind res_bind].
  edestruct build_header_total as [[s5 cs] H5]; [| |rewrite H5]; [exact Hc|exact Hty|].
  apply build_header_frame in H5 as [G _]. cbn [mbind res_bind fst snd]. unfold sort_rows.
  assert (sorted s5 = true) as -> by (by rewrite G). cbn [mbind res_bind fst snd].
  do 3 eexists. split; [done|]. rewrite G. by split_and!.
Qed.

Lemma visible_all hdr s : invisible_columns s = ∅ → visible hdr s = seq 0 (length hdr).
Proof.
  intros Hi. unfold visible. rewrite Hi. induction (seq 0 (length hdr)) as [|k ks IH]; [done|].
  cbn. rewrite bool_decide_true by set_solver. by f_equal.
Qed.

(** The cells of a row, all columns shown. *)
Lemma body_all hdr s (l : list nat) :
  invisible_columns s = ∅ →
  body hdr s l = (λ r, (λ h, inner_html (cell (heap s) hdr r h)) <$> seq 0 (length hdr)) <$> l.
Proof. intros Hi. unfold body. by rewrite visible_all. Qed.

(** A cell of one row object is changed. *)
Definition write_cell hdr (r x : nat) (value : string) (hp : list row) : list row :=
  <[r := <[hkey hdr x := VStr value]> (deref hp r)]> hp.

Lemma write_cell_at hdr r x value hp :
  (r < length hp)%nat → cell (write_cell hdr r x value hp) hdr r x = VStr value.
Proof.
  intros Hr. unfold cell, deref, write_cell. rewrite list_lookup_insert_eq by done. cbn.
  by rewrite lookup_insert_eq.
Qed.

Lemma write_cell_other hdr r x value hp a i :
  NoDup hdr → (x < length hdr)%nat → (i < length hdr)%nat → (a, i) ≠ (r, x) →
  cell (write_cell hdr r x value hp) hdr a i = cell hp hdr a i.
Proof.
  intros Hnd Hx Hi Hne. unfold cell, deref, write_cell. destruct (decide (a = r)) as [->|];
    [|by rewrite list_lookup_insert_ne].
  destruct (decide (r < length hp)%nat) as [Hr|Hr]; [|by rewrite list_insert_ge by lia].
  rewrite list_lookup_insert_eq by done. cbn. rewrite lookup_insert_ne; [done|]. unfold hkey.
  destruct (lookup_lt_is_Some_2 hdr x Hx) as [kx Ekx], (lookup_lt_is_Some_2 hdr i Hi) as [ki Eki].
  rewrite Ekx, Eki. cbn. intros ->. apply Hne. f_equal. by eapply NoDup_lookup.
Qed.

(** The body after a cell has been written: that cell, and no other. *)
Lemma body_write hdr s (s' : settings) (l : list nat) y x r value texts :
  invisible_columns s = ∅ → invisible_columns s' = ∅ → NoDup hdr → NoDup l →
  heap s' = write_cell hdr r x value (heap s) →
  (r < length (heap s))%nat → (x < length hdr)%nat → l !! y = Some r → body hdr s l !! y = Some texts →
  body hdr s' l = <[y := <[x := value]> texts]> (body hdr s l).
Proof.
  intros Hi Hi' Hnd Hl Hw Hr Hx Hy. rewrite !body_all by done. rewrite list_lookup_fmap, Hy. cbn.
  intros [= <-]. apply list_eq. intros k. rewrite list_lookup_fmap.
  destruct (decide (k = y)) as [->|Hk].
  - rewrite Hy, list_lookup_insert_eq by (rewrite length_fmap; by eapply lookup_lt_Some). cbn. f_equal.
    apply list_eq. intros i. destruct (decide (i < length hdr)%nat) as [Hlt|Hge].
    + rewrite list_lookup_fmap, lookup_seq_lt by done. cbn. rewrite Hw. destruct (decide (i = x)) as [->|Hix].
      * rewrite list_lookup_insert_eq by (by rewrite length_fmap, length_seq). by rewrite write_cell_at.
      * rewrite list_lookup_insert_ne, list_lookup_fmap, lookup_seq_lt by done. cbn.
        rewrite write_cell_other by (done || congruence). done.
    + rewrite !lookup_ge_None_2; rewrite ?length_insert, ?length_fmap, ?length_seq; [done|lia|lia].
  - rewrite list_lookup_insert_ne, list_lookup_fmap by done. destruct (l !! k) as [a|] eqn:Ha; [|done]. cbn. f_equal.
    apply list_fmap_ext. intros j i [-> Hj]%lookup_seq. rewrite Hw, write_cell_other; [done..|].
    intros [= -> _]. apply Hk. by eapply NoDup_lookup.
Qed.

(** The row at position [y] of the page, as the handlers find it. *)
Lemma clicked_row index hdr cells t s o r y rw :
  paged s t (Z.of_nat o) (Z.of_nat r) → Z.of_nat y ≤ 2 ^ 52 → page s t !! y = Some rw →
  rw ∈ t ∧ jlookup t (jadd (JInt (Z.of_nat y)) (v_offset (make_view index hdr t s cells))) = Some rw.
Proof.
  intros Hp Hy Hv. change (page s t) with (v_disp (make_view index hdr t s cells)) in Hv.
  rewrite (v_disp_paged index hdr cells s t o r Hp) in Hv.
  apply lookup_take_Some in Hv as [Hv _]. rewrite lookup_drop in Hv.
  split; [by eapply list_elem_of_lookup_2|]. destruct Hp as [_ _ Eo _ (Ho & _ & _)]. cbn [make_view v_offset].
  rewrite Eo, jadd_fits by (unfold fits in *; lia). cbn [jlookup].
  by rewrite <-Nat2Z.inj_add, zlookup_nat, Nat.add_comm.
Qed.

Lemma settled_write s hdr t rw x value :
  settled s hdr t → NoDup hdr → (x < length hdr)%nat → rw ∈ t →
  settled (s <| heap := write_cell hdr rw x value (heap s) |>) hdr t.
Proof.
  intros [Hh Ht Hso Hfp Hty [Hnd Hall] Hc] Hndh Hx Hrw. split; try done; cbn.
  - split; [done|]. unfold write_cell. by rewrite length_insert.
  - intros a i Ha Hi. unfold string_cell. destruct (decide ((a, i) = (rw, x))) as [[= -> ->]|Hne].
    + rewrite write_cell_at; [by eauto|]. rewrite Forall_forall in Hall. by apply Hall.
    + rewrite write_cell_other by done. by apply Hc.
Qed.

Lemma on_cell_opens index w s v y x texts t rw c :
  tables w !! index = Some (mkInst s (Some v)) → v_body v !! y = Some texts →
  v_editable v !! x = Some true → tdata s = Some t →
  jlookup t (jadd (JInt (Z.of_nat y)) (v_offset v)) = Some rw → cell (heap s) (v_hdr v) rw x = VStr c →
  on_cell index y x w = Ok (put_table index (mkInst s (Some (v <| v_edit := Some (y, x, c) |>))) w).
Proof.
  intros Hw Hb He Ht Hj Hc. unfold on_cell, table_at. rewrite Hw. cbn [need mbind res_bind i_view i_set].
  rewrite Hb. cbn [need mbind res_bind]. rewrite He. cbn [need mbind res_bind]. rewrite Ht. cbn [need mbind res_bind].
  rewrite Hj. cbn [need mbind res_bind]. by rewrite Hc.
Qed.

Lemma on_edit_rerenders index w s v y x field value t rw s2 v2 al :
  tables w !! index = Some (mkInst s (Some v)) → v_edit v = Some (y, x, field) → tdata s = Some t →
  jlookup t (jadd (JInt (Z.of_nat y)) (v_offset v)) = Some rw →
  render index (s <| heap := write_cell (v_hdr v) rw x value (heap s) |>) = Ok (s2, v2, al) →
  ∃ w2, on_edit index value w = Ok w2 ∧ tables w2 !! index = Some (mkInst s2 (Some v2)).
Proof.
  intros Hw He Ht Hj Hr. unfold on_edit, table_at, edit_cell. rewrite Hw. cbn [need mbind res_bind i_view i_set].
  rewrite He. cbn [need mbind res_bind]. rewrite Ht. cbn [need mbind res_bind]. rewrite Hj. cbn [need mbind res_bind].
  set (s1 := s <| heap := _ |>). set (w1 := put_table index (mkInst s1 (Some v)) w).
  assert (tables w1 !! index = Some (mkInst s1 (Some v))) as Hw1.
  { cbn. apply list_lookup_insert_eq. by eapply lookup_lt_Some. }
  assert (∀ w3, tables w3 = tables w1 → ∃ w2, do_render index w3 = Ok w2 ∧
    tables w2 !! index = Some (mkInst s2 (Some v2))) as Hd.
  { intros w3 E. unfold do_render, table_at. rewrite E, Hw1. cbn [need mbind res_bind i_set].
    change (render index s1 = Ok (s2, v2, al)) in Hr. rewrite Hr. cbn [mbind res_bind]. eexists. split; [done|].
    cbn [emit put_table]. upd_simpl. cbn. rewrite E. apply list_lookup_insert_eq. by eapply lookup_lt_Some. }
  apply Hd. by destruct (edit_callback s1).
Qed.

(** C33: the editor changes the cell that was clicked. On a synchronous table of
    strings that is rendered, sorted and not filtered, with all its columns visible
    and their names different: a click on the cell at row [y] and position [x] of
    the body, in an editable column, opens a field with the text of that cell, and
    entering a value there gives the body with that value at row [y], position [x],
    and all else as it was; of the row objects only that cell of that row is
    changed. *)
Theorem edit_writes_clicked_cell w index hdr cells t s o r y x value texts c :
  settled s hdr t → paged s t (Z.of_nat o) (Z.of_nat r) → invisible_columns s = ∅ → NoDup hdr →
  (Z.of_nat y ≤ 2 ^ 52) →
  let v := make_view index hdr t s cells in
  tables w !! index = Some (mkInst s (Some v)) → x ∈ editable s →
  v_body v !! y = Some texts → texts !! x = Some c →
  ∃ w1 w2 s2 v2 rw,
    on_cell index y x w = Ok w1 ∧
    tables w1 !! index = Some (mkInst s (Some (v <| v_edit := Some (y, x, c) |>))) ∧
    on_edit index value w1 = Ok w2 ∧ tables w2 !! index = Some (mkInst s2 (Some v2)) ∧
    v_body v2 = <[y := <[x := value]> texts]> (v_body v) ∧
    v_disp v !! y = Some rw ∧ cell (heap s2) hdr rw x = VStr value ∧
    (∀ a i, (i < length hdr)%nat → (a, i) ≠ (rw, x) → cell (heap s2) hdr a i = cell (heap s) hdr a i).
Proof.
  intros Hs Hp Hinv Hnd Hy v Hw He Hb Hx. pose proof Hs as [Hh Ht Hso Hfp Hty [Hndt Hall] Hc].
  assert (NoDup (page s t)) as Hndp.
  { unfold page. rewrite (pg_sync _ _ _ _ Hp). by apply slice_NoDup. }
  assert (∃ rw, page s t !! y = Some rw) as [rw Hrw].
  { apply lookup_lt_is_Some_2. apply lookup_lt_Some in Hb. revert Hb. cbn. unfold body. by rewrite length_fmap. }
  destruct (clicked_row index hdr cells t s o r y rw Hp Hy Hrw) as [Hin Hj]. fold v in Hj.
  assert (texts = (λ h, inner_html (cell (heap s) hdr rw h)) <$> seq 0 (length hdr)) as Etexts.
  { cbn in Hb. rewrite body_all, list_lookup_fmap, Hrw in Hb by done. by injection Hb as <-. }
  rewrite Etexts, list_lookup_fmap in Hx. apply fmap_Some in Hx as (h & [-> Hlt]%lookup_seq & ->). cbn [Nat.add] in *.
  destruct (Hc rw x Hin Hlt) as [c Ec]. rewrite Ec. cbn [inner_html to_str].
  assert (rw < length (heap s))%nat as Hlen by (rewrite Forall_forall in Hall; by apply Hall).
  set (i1 := mkInst s (Some (v <| v_edit := Some (y, x, c) |>))). set (w1 := put_table index i1 w).
  assert (tables w1 !! index = Some i1) as Hw1.
  { cbn. apply list_lookup_insert_eq. by eapply lookup_lt_Some. }
  destruct (rerender_settled index _ hdr t (settled_write s hdr t rw x value Hs Hnd Hlt Hin))
    as (s2 & v2 & al & Hr & E1 & E2 & E3).
  destruct (on_edit_rerenders index w1 s (v <| v_edit := Some (y, x, c) |>) y x c value t rw s2 v2 al)
    as (w2 & Hedit & Hw2); try done.
  exists w1, w2, s2, v2, rw. split_and!; try done.
  - eapply on_cell_opens; try done. cbn. rewrite visible_all, list_lookup_fmap, lookup_seq_lt by done. cbn.
    by rewrite bool_decide_true.
  - rewrite E3. change (page (s <| heap := _ |>) t) with (page s t). by eapply body_write.
  - rewrite E1. by apply write_cell_at.
  - intros a i Hi Hne. rewrite E1. by apply write_cell_other.
Qed.



(** ** Operators *)

(** The flags of [n] operators of which the one at [a] is displayed. *)
Definition one_hot (n a : nat) : list bool := (λ i, bool_decide (i = a)) <$> seq 0 n.

Lemma one_hot_lookup n a x : (x < n)%nat → one_hot n a !! x = Some (bool_decide (x = a)).
Proof.
  intros Hx. unfold one_hot. rewrite list_lookup_fmap, lookup_seq_lt by done. done.
Qed.

Lemma one_hot_length n a : length (one_hot n a) = n.
Proof. unfold one_hot. by rewrite length_fmap, length_seq. Qed.

Lemma operator_loop_skip fuel n a : ∀ x act,
  (a < x)%nat → operator_loop fuel x (one_hot n a) act = (one_hot n a, act).
Proof.
  induction fuel as [|fuel IH]; intros x act Hx; simpl; [done|].
  destruct (decide (x < n)%nat) as [Hn|Hn].
  - rewrite one_hot_lookup by done. rewrite bool_decide_false by lia. apply IH. lia.
  - rewrite lookup_ge_None_2; [done|]. rewrite one_hot_length. lia.
Qed.

Lemma one_hot_move n a b :
  (a < n)%nat → (b < n)%nat → a ≠ b →
  <[b := true]> (<[a := false]> (one_hot n a)) = one_hot n b.
Proof.
  intros Ha Hb Hne. apply list_eq_same_length with (n := n);
    rewrite ?length_insert, ?one_hot_length; try done.
  intros i c d Hi Hc Hd. rewrite one_hot_lookup in Hd by done. injection Hd as <-.
  destruct (decide (i = b)) as [->|Hib].
  - rewrite list_lookup_insert_eq in Hc by (by rewrite length_insert, one_hot_length).
    injection Hc as <-. by rewrite bool_decide_true.
  - rewrite list_lookup_insert_ne in Hc by done. rewrite bool_decide_false by done.
    destruct (decide (i = a)) as [->|Hia].
    + rewrite list_lookup_insert_eq in Hc by (by rewrite one_hot_length). congruence.
    + rewrite list_lookup_insert_ne, one_hot_lookup in Hc by done.
      injection Hc as <-. by rewrite bool_decide_false.
Qed.

(** C35: a click on the operator of a filter with two or more of them shows the next
    one instead of the active one, and the first one instead of the last, and
    makes it the active one. *)
Theorem operator_click_cycles n a :
  (2 ≤ n)%nat → (a < n)%nat →
  operator_loop n 0 (one_hot n a) None =
    let b := if (a =? n - 1)%nat then 0%nat else S a in (one_hot n b, Some b).
Proof.
  intros Hn Ha.
  assert (∀ k fuel x act, x + k = a → k < fuel →
    operator_loop fuel x (one_hot n a) act =
      let b := if (a =? n - 1)%nat then 0%nat else S a in
      if (a =? n - 1)%nat
      then operator_loop (fuel - k - 1) (S a) (one_hot n b) (Some b)
      else operator_loop (fuel - k - 1) (S (S a)) (one_hot n b) (Some b))%nat as Hk.
  { induction k as [|k IH]; intros fuel x act Hx Hf; (destruct fuel as [|fuel]; [lia|]);
      cbn [operator_loop]; rewrite one_hot_lookup by lia.
    - assert (x = a) as -> by lia. rewrite bool_decide_true by done. rewrite one_hot_length.
      replace (S fuel - 0 - 1)%nat with fuel by lia.
      destruct (Nat.eqb_spec a (n - 1)); (rewrite one_hot_move by lia; done).
    - rewrite bool_decide_false by lia. rewrite (IH fuel (S x)) by lia.
      replace (S fuel - S k - 1)%nat with (fuel - k - 1)%nat by lia. done. }
  rewrite (Hk a) by lia. destruct (Nat.eqb_spec a (n - 1)).
  - destruct (n - a - 1)%nat eqn:E; [done|lia].
  - cbn beta zeta. apply operator_loop_skip. lia.
Qed.

(** ** Columns *)

(** The visible columns are the checked ones. *)
Theorem visible_columns_are_checked hdr checked s :
  length checked = length hdr →
  visible hdr (update_visible_columns checked s) =
    List.filter (λ i, default false (checked !! i)) (seq 0 (length hdr)).
Proof.
  intros Hlen. unfold visible. apply list_filter_ext. intros i Hi.
  apply elem_of_seq in Hi. destruct (lookup_lt_is_Some_2 checked i) as [b Hb]; [lia|].
  rewrite Hb. simpl.
  assert (i ∈ (omap (λ '(i, b), if (b : bool) then None else Some i) (imap pair checked)) ↔
          b = false) as Hmem.
  { rewrite list_elem_of_omap. split.
    - intros ([j c] & Hjc & E). apply list_elem_of_lookup in Hjc as [k Hk].
      rewrite list_lookup_imap in Hk. apply fmap_Some in Hk as (c' & Hc' & [= -> ->]).
      destruct c'; [done|]. injection E as ->. congruence.
    - intros ->. exists (i, false). split; [|done]. apply (list_elem_of_lookup_2 _ i).
      by rewrite list_lookup_imap, Hb. }
  destruct b.
  - apply bool_decide_true. rewrite elem_of_list_to_set, Hmem. done.
  - apply bool_decide_false. rewrite elem_of_list_to_set, Hmem. tauto.
Qed.

End cells.

(** ** Witnesses *)

(** A table with a number among the cells of its column. *)
Definition mixed_table : @settings EsRegExp :=
  defaults <| header := Some ["n"; "m"] |> <| tdata := Some [0; 1]%nat |>
           <| heap := [{["n" := VStr "a"; "m" := VStr "x"]};
                       {["n" := VNum (num_of_Z 5); "m" := VStr "y"]}] |>
           <| filters := [(0%nat, mkFilter "text" (Some "a") false None None None None)] |>
           <| filter_changed := true |>.

Lemma sort_nonstring_throws_witness :
  sort_rows ["n"; "m"] false [0; 1]%nat mixed_table = Throw TypeError.
Proof.
  apply (sort_nonstring_throws ["n"; "m"] false [0; 1]%nat mixed_table 1%nat).
  - left. reflexivity.
  - reflexivity.
  - simpl. lia.
  - right. left.
  - reflexivity.
Defined.

(** The filter of the column, with its word compiled. *)
Definition mixed_filter : @filter EsRegExp :=
  (mkFilter "text" (Some "a") false None None None None) <| re := new_RegExp "a" true |>.

Lemma filter_nonstring_throws_witness :
  apply_filter ["n"; "m"] [0; 1]%nat mixed_table = Throw TypeError.
Proof.
  apply (filter_nonstring_throws ["n"; "m"] [0; 1]%nat mixed_table [(0%nat, mixed_filter)] []);
    try reflexivity.
  exists 1%nat. split; [right; left|]. exists [], 0%nat, mixed_filter, [], "a".
  by split_and!.
Defined.

(** A rendered table whose second column can be edited. *)
Definition edit_table : @settings EsRegExp :=
  defaults <| header := Some ["n"; "m"] |> <| tdata := Some [0; 1]%nat |> <| sorted := true |>
           <| heap := [{["n" := VStr "a"; "m" := VStr "x"]}; {["n" := VStr "b"; "m" := VStr "y"]}] |>
           <| editable := {[1%nat]} |>.

Definition edit_world : @world EsRegExp :=
  mkWorld [mkInst edit_table (Some (make_view 0 ["n"; "m"] [0; 1]%nat edit_table []))] (Some 0%nat) [] [].

Lemma edit_writes_clicked_cell_witness :
  ∃ w1 w2 s2 v2, on_cell 0 1 1 edit_world = Ok w1 ∧ on_edit 0 "new" w1 = Ok w2 ∧
    tables w2 !! 0%nat = Some (mkInst s2 (Some v2)) ∧ v_body v2 = [["a"; "x"]; ["b"; "new"]].
Proof.
  destruct (edit_writes_clicked_cell edit_world 0 ["n"; "m"] [] [0; 1]%nat edit_table 0 10 1 1 "new" ["b"; "y"] "y")
    as (w1 & w2 & s2 & v2 & rw & H1 & _ & H2 & H3 & H4 & _).
  - split; try reflexivity.
    + intros i f Hin. by apply elem_of_nil in Hin.
    + split; [|repeat constructor]. apply NoDup_cons; split; [set_solver|]. apply NoDup_singleton.
    + intros r i [->|[->|Hr%elem_of_nil]%elem_of_cons]%elem_of_cons Hi; [..|done];
        (destruct i as [|[|i]]; [eexists; reflexivity..|]; simpl in Hi; lia).
  - split; try reflexivity. unfold fits. simpl. lia.
  - reflexivity.
  - apply NoDup_cons; split; [set_solver|]. apply NoDup_singleton.
  - lia.
  - reflexivity.
  - set_solver.
  - vm_compute. reflexivity.
  - reflexivity.
  - exists w1, w2, s2, v2. split_and!; [exact H1|exact H2|exact H3|]. rewrite H4. vm_compute. reflexivity.
Defined.

Lemma operator_click_cycles_witness :
  operator_loop 4 0 (one_hot 4 3) None = (one_hot 4 0, Some 0%nat).
Proof. apply (operator_click_cycles 4 3); lia. Defined.

Lemma visible_columns_are_checked_witness :
  visible ["n"; "m"] (update_visible_columns [false; true] mixed_table) = [1%nat].
Proof.
  rewrite (visible_columns_are_checked ["n"; "m"] [false; true] mixed_table eq_refl).
  reflexivity.
Defined.
