(* ===== verification/TableAsync.v ===== *)
(** * Table renderer: several tables, responses and the order of actions

    The interplay of the handlers: which callback a handler of one table calls
    when another table was rendered last, what a table shows when responses
    arrive out of order, and what becomes of the sort order when a filter
    changes. *)

From Stdlib Require Import SpecFloat.
From S2P Require Import Prelude JsString JsNumber JsValue JsJson JsRegExp RegExpEngine TableData TableFilter TableSort TableView TableRender TableUpdate TableEvents.

Section async.
Context `{RegExpOps}.
Implicit Types (s : settings) (hdr : list string) (t : list nat) (v : view) (w : world).

(** ** The callback of another table *)

Lemma update_settings_url p s : navigation_url (update_settings p s) = navigation_url s.
Proof.
  destruct p as [u|o]; unfold update_settings.
  - unfold update_word. by repeat case_if.
  - unfold update_object, update_query, update_sort. by repeat case_match.
Qed.

Lemma do_update_local p index w i :
  tables w !! index = Some i → navigation_url (i_set i) = None →
  do_update p index w = Throw TypeError.
Proof.
  intros Hi Hu. unfold do_update, table_at. rewrite Hi. simpl. unfold update_url.
  by rewrite update_settings_url, Hu.
Qed.

(** The table rendered last navigates by [update]. *)
Definition server_current w : Prop :=
  ∃ c j, current w = Some c ∧ tables w !! c = Some j ∧ navigation_callback (i_set j) = Some NavUpdate.

Lemma navigate_foreign p f index w i :
  tables w !! index = Some i → navigation_url (i_set i) = None → server_current w →
  navigate p f index w = Throw TypeError.
Proof.
  intros Hi Hu (c & j & Hc & Hj & Hn). unfold navigate, current_nav, table_at.
  rewrite Hc, Hj. simpl. rewrite Hn. simpl. by eapply do_update_local.
Qed.

(** Changing settings but for the callback and the URL keeps both facts. *)
Lemma on_settings_server index f w i :
  tables w !! index = Some i →
  (∀ s, navigation_callback (f s) = navigation_callback s) → server_current w →
  ∃ w', on_settings index f w = Ok w' ∧ server_current w' ∧
    tables w' !! index = Some (mkInst (f (i_set i)) (i_view i)).
Proof.
  intros Hi Hf (c & j & Hc & Hj & Hn). unfold on_settings, table_at. rewrite Hi. simpl.
  eexists. split; [done|]. split.
  - destruct (decide (c = index)) as [->|Hne].
    + exists index, (mkInst (f (i_set i)) (i_view i)). split; [done|]. split; simpl.
      * apply list_lookup_insert_eq. by eapply lookup_lt_Some.
      * rewrite Hf. congruence.
    + exists c, j. split; [done|]. split; [|done]. simpl. by rewrite list_lookup_insert_ne.
  - simpl. apply list_lookup_insert_eq. by eapply lookup_lt_Some.
Qed.

(** C37: on a table without a server, the sort icons, the goto and page size
    fields and the clear button throw while the table rendered last is one that
    navigates by the server. *)
Theorem foreign_callback_throws index w i hdr col dir value :
  tables w !! index = Some i → navigation_url (i_set i) = None → header (i_set i) = Some hdr →
  is_Some (i_view i) → server_current w →
  on_sort index col dir w = Throw TypeError ∧ on_goto index value w = Throw TypeError ∧
  on_perpage index value w = Throw TypeError ∧ on_clear index w = Throw TypeError.
Proof.
  intros Hi Hu Hh [v Hv] Hc. split_and!.
  - unfold on_sort.
    destruct (on_settings_server index (λ s, s <| sortcol := col |> <| sortdir := dir |>) w i)
      as (w1 & -> & Hc1 & Hi1); [done|done|done|]. simpl. unfold table_at at 1. rewrite Hi1.
    cbn [mbind res_bind need]. simpl header. rewrite Hh. simpl. by eapply navigate_foreign.
  - unfold on_goto, table_at. rewrite Hi. simpl. rewrite Hv. simpl. by eapply navigate_foreign.
  - unfold on_perpage. by eapply navigate_foreign.
  - unfold on_clear.
    destruct (on_settings_server index (λ s, s <| filters :=
      (λ '(i, f), (i, f <| searchword := Some "" |>)) <$> filters s |>) w i)
      as (w1 & -> & Hc1 & Hi1); [done|done|done|]. simpl. by eapply navigate_foreign.
Qed.

(** ** Responses *)

(** What a render leaves alone in a table that has its rows. *)
Definition same_rows s s' : Prop :=
  heap s' = heap s ∧ offset s' = offset s ∧ rows_per_page s' = rows_per_page s ∧
  synchronous s' = synchronous s ∧ header s' = header s ∧ tdata s' = tdata s ∧
  numrows s' = numrows s ∧ data_manipulation s' = data_manipulation s.

Lemma init_frame s : same_rows s (init_data (init_navigation s)) ∧
  sorted (init_data (init_navigation s)) = sorted s ∧
  filters (init_data (init_navigation s)) = filters s.
Proof.
  assert (∃ n, init_navigation s = s <| navigation_callback := n |>) as [n ->].
  { unfold init_navigation. case_if; [eauto|]. exists (navigation_callback s). by destruct s. }
  unfold init_data, same_rows. repeat case_match; split_and!; reflexivity.
Qed.

(** A table that is paged by the server shows the rows it was given. *)
Lemma render_server_table index s hdr t s' v al :
  synchronous s = false → sorted s = true → header s = Some hdr → tdata s = Some t →
  render index s = Ok (s', v, al) → v_disp v = t ∧ same_rows s s' ∧ al = [].
Proof.
  intros Hsy Hso Hh Ht Hr. unfold render in Hr.
  destruct (init_frame s) as ((F1 & F2 & F3 & F4 & F5 & F6 & F7 & F8) & F9 & F10).
  set (s0 := init_data (init_navigation s)) in *. clearbody s0.
  unfold init_header in Hr. rewrite F5, Hh in Hr. apply bind_ok in Hr as (p & [= <-] & Hr).
  cbn [fst snd] in Hr. unfold init_tdata in Hr. rewrite F6, Ht in Hr.
  apply bind_ok in Hr as (p & [= <-] & Hr). cbn [fst snd] in Hr.
  apply bind_ok in Hr as (s3 & H3%autodetect_sort_frame & Hr).
  assert (same_rows s s3 ∧ sorted s3 = true) as [G G9].
  { rewrite H3. unfold same_rows. split_and!; try done; simpl; congruence. }
  clear H3 F1 F2 F3 F4 F5 F6 F7 F8 F9 F10. destruct G as (G1 & G2 & G3 & G4 & G5 & G6 & G7 & G8).
  apply bind_ok in Hr as ([[s4 t4] al4] & H4 & Hr).
  unfold apply_filter in H4. rewrite G4, Hsy, andb_false_r in H4. injection H4 as <- <- <-.
  apply bind_ok in Hr as ([s5 cs] & [E5 _]%build_header_frame & Hr).
  assert (same_rows s s5 ∧ sorted s5 = true) as [K K9].
  { rewrite E5. unfold same_rows. split_and!; try done; simpl; congruence. }
  apply bind_ok in Hr as ([s6 t6] & H6 & Hr). unfold sort_rows in H6.
  cbn [fst snd] in H6, Hr. rewrite K9 in H6. injection H6 as <- <-. injection Hr as <- <- <-.
  split_and!; [|done|done]. simpl. unfold page. destruct K as (_ & _ & _ & K4 & _).
  by rewrite K4, Hsy.
Qed.

(** The rows a table has, as objects. *)
Definition rows_of s : list row := deref (heap s) <$> default [] (tdata s).

Lemma alloc_rows (hp rows : list row) :
  deref (hp ++ rows) <$> seq (length hp) (length rows) = rows.
Proof.
  apply list_eq. intros k. rewrite list_lookup_fmap.
  destruct (decide (k < length rows)%nat) as [Hk|Hk].
  - rewrite lookup_seq_lt by done. simpl. unfold deref.
    rewrite lookup_app_r by lia. replace (length hp + k - length hp)%nat with k by lia.
    destruct (lookup_lt_is_Some_2 rows k Hk) as [x ->]. done.
  - rewrite lookup_seq_ge by lia. simpl. symmetry. apply lookup_ge_None. lia.
Qed.

(** What the success callback leaves to [render]. *)
Lemma update_success_facts r s rows s1 :
  response_rows s (rs_data r) = Ok rows → update_success r s = Ok s1 →
  heap s1 = heap s ++ rows ∧ tdata s1 = Some (seq (length (heap s)) (length rows)) ∧
  sorted s1 = true ∧ numrows s1 = rs_total r ∧ offset s1 = offset s ∧
  rows_per_page s1 = rows_per_page s ∧ synchronous s1 = synchronous s ∧ header s1 = header s ∧
  data_manipulation s1 = data_manipulation s.
Proof.
  intros Hrows Hr. unfold update_success in Hr.
  assert (store_rows (rs_data r) s = (rows ← response_rows s (rs_data r);
    Ok (s <| tdata := Some (seq (length (heap s)) (length rows)) |> <| heap := heap s ++ rows |>))) as E.
  { unfold store_rows, response_rows in *. destruct (data_manipulation s); [done|]. by destruct (truthy _). }
  rewrite E, Hrows in Hr. injection Hr as <-. split_and!; reflexivity.
Qed.

Lemma do_render_ok index w i w' :
  tables w !! index = Some i → do_render index w = Ok w' →
  ∃ s' v al, render index (i_set i) = Ok (s', v, al) ∧
    tables w' !! index = Some (mkInst s' (Some v)) ∧ pending w' = pending w ∧
    current w' = Some index.
Proof.
  intros Hi Hr. unfold do_render, table_at in Hr. rewrite Hi in Hr. cbn [need mbind res_bind] in Hr.
  apply bind_ok in Hr as ([[s' v] al] & Hrend & Hr). injection Hr as <-.
  exists s', v, al. split_and!; try done. cbn. apply list_lookup_insert_eq.
  by eapply lookup_lt_Some.
Qed.

(** A response replaces the rows of its table by its own, whatever page the
    table asked for last. *)
Lemma on_response_rows k r w rq i hdr rows w' :
  pending w !! k = Some rq → tables w !! rq_index rq = Some i →
  synchronous (i_set i) = false → header (i_set i) = Some hdr →
  response_rows (i_set i) (rs_data r) = Ok rows → on_response k r w = Ok w' →
  ∃ s' v, tables w' !! rq_index rq = Some (mkInst s' (Some v)) ∧
    deref (heap s') <$> v_disp v = rows ∧ rows_of s' = rows ∧ numrows s' = rs_total r ∧
    offset s' = offset (i_set i) ∧ rows_per_page s' = rows_per_page (i_set i) ∧
    synchronous s' = false ∧ header s' = Some hdr ∧
    data_manipulation s' = data_manipulation (i_set i) ∧ pending w' = delete k (pending w).
Proof.
  intros Hk Hi Hsy Hh Hrows Hr. unfold on_response in Hr. rewrite Hk in Hr.
  cbn [need mbind res_bind] in Hr. unfold table_at in Hr. rewrite Hi in Hr.
  cbn [need mbind res_bind] in Hr. apply bind_ok in Hr as (s1 & Hs1 & Hr).
  destruct (update_success_facts _ _ _ _ Hrows Hs1) as (F1 & F2 & F3 & F4 & F5 & F6 & F7 & F8 & F9).
  clear Hs1. eapply (do_render_ok _ _ (mkInst s1 (i_view i))) in Hr
    as (s' & v & al & Hrend & Ht & Hp & _);
    [|cbn; apply list_lookup_insert_eq; by eapply lookup_lt_Some].
  cbn [i_set] in Hrend.
  destruct (render_server_table (rq_index rq) s1 hdr _ s' v al
    ltac:(congruence) F3 ltac:(congruence) F2 Hrend)
    as (Hd & (E1 & E2 & E3 & E4 & E5 & E6 & E7 & E8) & ->).
  exists s', v. split_and!; try congruence.
  - by rewrite Hd, E1, F1, alloc_rows.
  - unfold rows_of. rewrite E6, F2, E1, F1. apply alloc_rows.
  - rewrite Hp. done.
Qed.

(** C36: of two requests of a table that are answered in the wrong order, the
    older one's rows stay, under the offset of the newer one. *)
Theorem out_of_order_responses index w i hdr u1 u2 r1 r2 rows1 rows2 w1 w2 :
  pending w = [mkRequest index u1; mkRequest index u2] → tables w !! index = Some i →
  synchronous (i_set i) = false → header (i_set i) = Some hdr →
  response_rows (i_set i) (rs_data r1) = Ok rows1 →
  response_rows (i_set i) (rs_data r2) = Ok rows2 →
  on_response 1 r2 w = Ok w1 → on_response 0 r1 w1 = Ok w2 →
  ∃ s' v, tables w2 !! index = Some (mkInst s' (Some v)) ∧
    deref (heap s') <$> v_disp v = rows1 ∧ offset s' = offset (i_set i) ∧ pending w2 = [].
Proof.
  intros Hp Hi Hsy Hh H1 H2 Hr2 Hr1.
  destruct (on_response_rows 1 r2 w (mkRequest index u2) i hdr rows2 w1)
    as (s1 & v1 & Ht1 & _ & _ & _ & Ho1 & _ & Hsy1 & Hh1 & Hdm1 & Hp1); try done; [by rewrite Hp|].
  rewrite Hp in Hp1. simpl in Hp1.
  destruct (on_response_rows 0 r1 w1 (mkRequest index u1) (mkInst s1 (Some v1)) hdr rows1 w2)
    as (s2 & v2 & Ht2 & Hd2 & _ & _ & Ho2 & _ & _ & _ & _ & Hp2); try done.
  - by rewrite Hp1.
  - unfold response_rows in *. simpl i_set. by rewrite Hdm1.
  - exists s2, v2. simpl in *. split_and!; try done; [congruence|]. by rewrite Hp2, Hp1.
Qed.

(** ** The sort order after a change of the filter *)

(** When the filter of a sorted table changes, the rows that pass are shown
    in the order of [settings.tdata], whatever the current sort column is. *)
Theorem refilter_does_not_sort index s hdr t s' v al fs :
  header s = Some hdr → tdata s = Some t → sorted s = true → synchronous s = true →
  sort_autodetect s = false → filter_changed s = true → filter_present s = true →
  prepare_filters (filters s) = Ok (fs, al) → render index s = Ok (s', v, al) →
  v_disp v = slice (List.filter (accepts_row (heap s) hdr fs) t) (JInt 0) (jadd (JInt 0)
    (page_rows s (List.filter (accepts_row (heap s) hdr fs) t))).
Proof.
  intros Hh Ht Hso Hsy Hsa Hc Hfp Hfs Hr. unfold render in Hr.
  destruct (init_frame s) as ((F1 & F2 & F3 & F4 & F5 & F6 & F7 & F8) & F9 & F10).
  assert (filter_changed (init_data (init_navigation s)) = true ∧
          sort_autodetect (init_data (init_navigation s)) = false) as [F11 F12].
  { unfold init_data, init_navigation. case_if; simpl; repeat case_match; by split. }
  set (s0 := init_data (init_navigation s)) in *. clearbody s0.
  unfold init_header in Hr. rewrite F5, Hh in Hr. apply bind_ok in Hr as (p & [= <-] & Hr).
  cbn [fst snd] in Hr. unfold init_tdata in Hr. rewrite F6, Ht in Hr.
  apply bind_ok in Hr as (p & [= <-] & Hr). cbn [fst snd] in Hr.
  unfold autodetect_sort in Hr. rewrite F12 in Hr. apply bind_ok in Hr as (s3 & [= <-] & Hr).
  assert (filter_present s0 = true) as Hfp0 by (rewrite <-Hfp; by apply filter_present_ext).
  rewrite Hfp0, F4, Hsy in Hr. cbn [andb] in Hr.
  apply bind_ok in Hr as ([[s4 t4] al4] & H4 & Hr).
  pose proof (apply_filter_spec hdr t s0 s4 t4 al4) as Hspec.
  destruct Hspec as (fs4 & Hp4 & Ht4 & G1 & G2 & G3 & G4 & G5 & G6); [congruence|done|done|].
  rewrite Hfp0 in Hp4, G4. rewrite F10, Hfs in Hp4. injection Hp4 as <- <-.
  unfold passing in Ht4. rewrite Hfp0, F1 in Ht4.
  apply bind_ok in Hr as ([s5 cs] & [E5 _]%build_header_frame & Hr).
  apply same_but_filters_data in E5 as (K1 & K2 & K3 & K4 & K5 & K6).
  apply bind_ok in Hr as ([s6 t6] & H6 & Hr). unfold sort_rows in H6.
  cbn [fst snd] in H6, Hr. replace (sorted s5) with true in H6 by congruence.
  injection H6 as <- <-. injection Hr as <- <-.
  simpl. unfold page. replace (synchronous s5) with true by congruence.
  replace (offset s5) with (JInt 0) by congruence. rewrite Ht4. f_equal. f_equal.
  unfold page_rows. by replace (rows_per_page s5) with (rows_per_page s) by congruence.
Qed.

End async.

(** ** Witnesses *)

(** A page with a table of its own rows and a table of the server's, rendered
    in this order. *)
Definition ex_local : @settings EsRegExp :=
  defaults <| header := Some ["n"] |> <| tdata := Some [0; 1]%nat |>
           <| heap := [{["n" := VStr "b"]}; {["n" := VStr "a"]}] |>.

Definition ex_server : @settings EsRegExp :=
  defaults <| header := Some ["id"] |> <| navigation_url := Some "http://awe/job" |>
           <| synchronous := false |> <| rows_per_page := JInt 2 |> <| sorted := true |>
           <| tdata := Some [] |>.

Definition ex_world : @world EsRegExp :=
  let w := mkWorld [mkInst ex_local None; mkInst ex_server None] None [] [] in
  ok_or w (run [(0%nat, EvRender); (1%nat, EvRender)] w).

(** The table [n] of a world; the default is not used. *)
Definition inst (n : nat) (w : @world EsRegExp) : @instance EsRegExp :=
  default (mkInst ex_local None) (tables w !! n).

Lemma inst_lookup n w : (n <? length (tables w))%nat = true → tables w !! n = Some (inst n w).
Proof. intros Hn%Nat.ltb_lt. unfold inst. by destruct (lookup_lt_is_Some_2 _ _ Hn) as [i ->]. Qed.

Lemma has_view (i : @instance EsRegExp) :
  match i_view i with Some _ => true | None => false end = true → is_Some (i_view i).
Proof. destruct (i_view i); [eauto|done]. Qed.

Lemma foreign_callback_throws_witness :
  on_sort 0 0 "asc" ex_world = Throw TypeError ∧ on_goto 0 "2" ex_world = Throw TypeError ∧
  on_perpage 0 "2" ex_world = Throw TypeError ∧ on_clear 0 ex_world = Throw TypeError.
Proof.
  apply (foreign_callback_throws 0 ex_world (inst 0 ex_world) ["n"] 0 "asc" "2").
  - apply inst_lookup. vm_eq.
  - vm_eq.
  - vm_eq.
  - apply has_view. vm_eq.
  - exists 1%nat, (inst 1 ex_world). split_and!; [vm_eq|apply inst_lookup; vm_eq|vm_eq].
Defined.

Definition id_response (ids : list string) : response :=
  mkResponse (Some (JArr ((λ i, JObj [("id", JStr i)]) <$> ids))) (Some (JInt 4)).

(** The second page is asked for, then the first again; the answers come in the
    other order. *)
Definition ex_requests : @world EsRegExp :=
  ok_or ex_world (run [(1%nat, EvUpdate (PWord "next")); (1%nat, EvUpdate (PWord "first"))] ex_world).

Definition ex_answered : @world EsRegExp :=
  ok_or ex_world (on_response 1 (id_response ["a"; "b"]) ex_requests).

Definition ex_late : @world EsRegExp :=
  ok_or ex_world (on_response 0 (id_response ["c"; "d"]) ex_answered).

Lemma out_of_order_responses_witness :
  ∃ s' v, tables ex_late !! 1%nat = Some (mkInst s' (Some v)) ∧
    deref (heap s') <$> v_disp v = [{["id" := VStr "c"]}; {["id" := VStr "d"]}] ∧
    offset s' = JInt 0.
Proof.
  destruct (out_of_order_responses 1 ex_requests (inst 1 ex_requests) ["id"]
    "http://awe/job?limit=2&offset=2" "http://awe/job?limit=2&offset=0"
    (id_response ["c"; "d"]) (id_response ["a"; "b"])
    [{["id" := VStr "c"]}; {["id" := VStr "d"]}] [{["id" := VStr "a"]}; {["id" := VStr "b"]}]
    ex_answered ex_late) as (s' & v & Ht & Hd & Ho & _).
  { vm_eq. }
  { apply inst_lookup. vm_eq. }
  1-4: vm_eq.
  1-2: apply ok_or_ok; vm_eq.
  exists s', v. split; [exact Ht|]. split; [exact Hd|]. rewrite Ho. vm_eq.
Defined.

Definition ex_word : @filter EsRegExp :=
  @mkFilter EsRegExp "text" (Some "x") false None None (Some (pattern "x", true)) None.

Definition ex_refilter : @settings EsRegExp :=
  ex_local <| heap := [{["n" := VStr "xb"]}; {["n" := VStr "xa"]}] |> <| sorted := true |>
           <| filters := [(0%nat, ex_word)] |> <| filter_changed := true |>.

Definition ex_refiltered : @settings EsRegExp * @view * list string :=
  ok_or (ex_refilter, make_view 0 [] [] ex_refilter [], []) (render 0 ex_refilter).

Lemma ex_refiltered_ok : render 0 ex_refilter = Ok (ex_refiltered.1.1, ex_refiltered.1.2, []).
Proof. unfold ex_refiltered. apply ok_or_parts; vm_eq. Qed.

Lemma refilter_does_not_sort_witness : v_disp ex_refiltered.1.2 = [0; 1]%nat.
Proof.
  rewrite (refilter_does_not_sort 0 ex_refilter ["n"] [0; 1]%nat ex_refiltered.1.1
    ex_refiltered.1.2 [] [(0%nat, ex_word)]); [vm_eq..|exact ex_refiltered_ok].
Defined.
