(* ===== verification/Workflow.v ===== *)
(** * Workflow editor

    src/site_deprecated/widgets/widget.awe_workflow.js: the form in which a
    workflow is written, the visual editor with a box per task, and the handlers
    of both.  A workflow document is shared between [widget.data] and
    [widget.api_workflows], so documents live in a store and both hold
    references.  A form element is found by its id. *)

From Stdlib Require Import SpecFloat.
From S2P Require Import Prelude JsString JsNumber JsDecimal JsValue JsJson JsState.

(** ** Documents *)

Record command := mkCommand { c_name : string; c_args : string }.

(** An element of [data.tasks].  The editor writes the dependencies as strings;
    a loaded document may have numbers. *)
Record task := mkTask {
  taskid : value;
  cmd : command;
  dependsOn : list value;
  t_inputs : list (string * value);
  outputs : list string
}.

Abbreviation object := (list (string * json)).

(** [widget.data]; a loaded document may lack any of the properties. *)
Record doc := mkDoc {
  workflow_info : option object;
  job_info : option object;
  raw_inputs : option object;
  data_server : option json;
  variables : option object;
  d_tasks : option (list task)
}.

#[export] Instance doc_eta : Eta doc := λ d,
  mkDoc (workflow_info d) (job_info d) (raw_inputs d) (data_server d) (variables d) (d_tasks d).

Definition initial_doc : doc := mkDoc
  (Some [("name", JStr ""); ("author", JStr ""); ("contact", JStr ""); ("update_date", JStr "");
         ("description", JStr "")])
  (Some [("jobname", JStr "#default_jobname"); ("project", JStr "#default_project");
         ("user", JStr "#default_user"); ("queue", JStr "#default_queue");
         ("splits", JNum (num_of_Z 8))])
  (Some [("#i_1", JStr "#data_url")])
  (Some (JStr "#shock_host"))
  (Some [])
  (Some []).

(** [o[k]] as a condition, for an object of which [ks] have been set to [true]. *)
Definition flagged (ks : list string) (k : string) : bool :=
  bool_decide (k ∈ ks) || bool_decide (k ∈ object_names).

(** ** The state *)

(** A task in the playground: its id, its style, its class, its text and the
    marks (title and distance in pixels) of its inputs, outputs and dependencies. *)
Record box := mkBox {
  boxid : value;
  box_top : string;
  box_left : string;
  className : string;
  html : string;
  in_marks : list (string * Z);
  out_marks : list (string * Z);
  dep_marks : list (string * Z)
}.

#[export] Instance box_eta : Eta box := λ b,
  mkBox (boxid b) (box_top b) (box_left b) (className b) (html b) (in_marks b) (out_marks b) (dep_marks b).

(** [widget.box]: where the mouse went down on which box. *)
Record grip := mkGrip { g_x : Z; g_y : Z; g_xorig : jsint; g_yorig : jsint; g_elem : nat }.

Record date := mkDate { year : Z; month : Z; day : Z }.   (* month: 0 to 11 *)

Abbreviation options := (list (string * bool)).

Record editor := mkEditor {
  (* the widget *)
  docs : list doc;
  data : nat;
  api_workflows : list (string * nat);
  inputs : list string;
  tasks : list string;
  loading : bool;
  curr_x : Z;
  curr_y : Z;
  moving : bool;
  grip_ : option grip;
  (* the page *)
  fields : gmap string string;
  variable_list : options;
  task_depends : options;
  task_input : options;
  task_output : options;
  api_options : list (string * string);
  api_selected : nat;
  task_legend : string;
  add_button : string;
  cancel_shown : bool;
  edit_active : bool;
  json_out : option doc;
  playground : list box;
  alerts : list string;
  now : date
}.

#[export] Instance editor_eta : Eta editor := λ e,
  mkEditor (docs e) (data e) (api_workflows e) (inputs e) (tasks e) (loading e) (curr_x e)
    (curr_y e) (moving e) (grip_ e) (fields e) (variable_list e) (task_depends e) (task_input e)
    (task_output e) (api_options e) (api_selected e) (task_legend e) (add_button e)
    (cancel_shown e) (edit_active e) (json_out e) (playground e) (alerts e) (now e).

(** The widget before [display], with the form that [display] writes. *)
Definition initial (d : date) : editor := {|
  docs := [initial_doc]; data := 0; api_workflows := []; inputs := ["#i_1 [0]"];
  tasks := ["0"]; loading := false; curr_x := 10; curr_y := 10; moving := false; grip_ := None;
  fields := ∅; variable_list := []; task_depends := []; task_input := []; task_output := [];
  api_options := []; api_selected := 0; task_legend := "New Task"; add_button := "add task";
  cancel_shown := false; edit_active := false; json_out := None; playground := [];
  alerts := []; now := d
|}.

Definition box_size : Z := 100.
Definition playground_width : Z := 699.
Definition playground_height : Z := 749.
Definition box_padding : Z := 20.

Abbreviation handler := (M editor ()).

(** [document.getElementById(id).value] *)
Definition field (id : string) (e : editor) : string := default "" (fields e !! id).
Definition set_field (id v : string) : handler := modify (λ e, e <| fields := <[id := v]> (fields e) |>).

(** The value an input shows when it is assigned a property of a document. *)
Definition input_text (o : option json) : string :=
  match o with Some JNull => "" | _ => jtext o end.

Definition alert (msg : string) : handler := modify (λ e, e <| alerts := alerts e ++ [msg] |>).

(** The document [widget.data]. *)
Definition the_doc (e : editor) : doc := default initial_doc (docs e !! data e).
Definition set_doc (f : doc → doc) : handler :=
  modify (λ e, e <| docs := <[data e := f (the_doc e)]> (docs e) |>).

(** [vl.selectedIndex] of a list box; [None] is -1. *)
Fixpoint selectedIndex (o : options) : option nat :=
  match o with
  | [] => None
  | (_, true) :: _ => Some 0%nat
  | (_, false) :: o' => S <$> selectedIndex o'
  end.

Definition options_of (l : list string) : options := (λ v, (v, false)) <$> l.
Definition selected_values (o : options) : list string :=
  omap (λ '(v, b), if (b : bool) then Some v else None) o.

(** ** [update] *)

Definition pad (n : Z) : string := (if n <? 10 then "0" else "") +++ show n.

Definition datum (d : date) : string := show (year d) +++ "-" +++ pad (month d) +++ "-" +++ pad (day d).

Definition update : handler :=
  e ← gets (λ e, e);
  info ← lift (need TypeError (workflow_info (the_doc e)));
  _ ← set_doc (λ d, d <| workflow_info := Some (set "update_date" (JStr (datum (now e))) info) |>);
  modify (λ e, e <| json_out := Some (the_doc e) |>).

(** ** The playground *)

Definition box_id (id : string) : string := "taskbox" +++ id.

(** [document.getElementById]: the first box with the id. *)
Definition find_box (id : string) (l : list box) : option nat :=
  fst <$> list_find (λ b, box_id (to_str (boxid b)) = id) l.

Definition set_class (elem cls : string) : handler :=
  l ← gets playground;
  n ← lift (need TypeError (find_box elem l));
  modify (λ e, e <| playground := alter (λ b, b <| className := cls |>) n (playground e) |>).

(** The marks of a box, 15 pixels apart. *)
Definition marks (from : Z) (titles : list string) : list (string * Z) :=
  imap (λ n t, (t, from + 15 * Z.of_nat n)) titles.

Definition label (file : string) (id : string) : string := file +++ " [" +++ id +++ "]".

(** The next position: to the right, or at the start of the next row. *)
Definition next_pos (x y : Z) : Z * Z :=
  if playground_width <? x + box_size * 2 + box_padding * 2
  then (box_padding / 2, y + (box_padding * 2 + box_size))
  else (x + (box_size + box_padding * 2), y).

Definition make_box (t : task) (x y : Z) : box := {|
  boxid := taskid t;
  box_top := show y +++ "px";
  box_left := show x +++ "px";
  className := "taskbox";
  html := "<h3 style='width: 100%; text-align: center;'>" +++ to_str (taskid t) +++
          "</h3><p style='width: 100%; text-align: center; word-wrap: break-word;'>" +++
          c_name (cmd t) +++ "</p>";
  in_marks := marks 20 ((λ k, label k (to_str (default VUndef (get k (t_inputs t)))))
                <$> for_in_keys (keys (t_inputs t)));
  out_marks := marks 20 (outputs t);
  dep_marks := marks 20 (to_str <$> dependsOn t)
|}.

Definition add_box (t : task) : handler :=
  modify (λ e, e <| playground := playground e ++ [make_box t (curr_x e) (curr_y e)] |>
                 <| curr_x := (next_pos (curr_x e) (curr_y e)).1 |>
                 <| curr_y := (next_pos (curr_x e) (curr_y e)).2 |>).

(** ** [new_task] *)

Definition lbracket : ascii := "[".
Definition rbracket : ascii := "]".

(** The file and the task of an input label. *)
Definition label_num (val : string) : string :=
  substring val (last_index_of lbracket val + 1) (last_index_of rbracket val).
Definition label_file (val : string) : string :=
  substring val 0 (last_index_of lbracket val - 1).

Definition collect_inputs (l : list string) : list (string * value) :=
  foldl (λ o val, assign (label_file val) (VStr (label_num val)) o) [] l.

(** [widget.tasks[id] = 1] *)
Definition add_key (k : string) (ks : list string) : list string :=
  if bool_decide (k ∈ ks) || (k =? "__proto__")%string then ks else ks ++ [k].

(** The task that the form describes, the [n]-th of the document. *)
Definition form_task (n : nat) (e : editor) : task := {|
  taskid := VNum (num_of_Z (Z.of_nat n));
  cmd := mkCommand (field "task_command" e) (field "task_args" e);
  dependsOn := VStr <$> selected_values (task_depends e);
  t_inputs := collect_inputs (selected_values (task_input e));
  outputs := (task_output e).*1
|}.

Definition refresh_selects : handler :=
  modify (λ e, e <| task_input := options_of (inputs e) |>
                 <| task_depends := options_of (for_in_keys (tasks e)) |>).

Definition new_task : handler :=
  e ← gets (λ e, e);
  _ ← when (negb (field "task_command" e =? "")%string) (
    ts ← lift (need TypeError (d_tasks (the_doc e)));
    let t := form_task (length ts + 1) e in
    let tid := to_str (taskid t) in
    _ ← modify (λ e, e <| inputs := inputs e ++ ((λ o, label o tid) <$> outputs t) |>);
    _ ← set_field "task_args" "";
    _ ← set_field "task_command" "";
    _ ← modify (λ e, e <| task_output := [] |>);
    _ ← modify (λ e, e <| tasks := add_key tid (tasks e) |>);
    _ ← set_doc (λ d, d <| d_tasks := Some (default [] (d_tasks d) ++ [t]) |>);
    _ ← add_box t;
    update);
  refresh_selects.

(** ** The form *)

(** The handlers of the name, author, contact and description fields. *)
Definition on_info (prop id : string) : handler :=
  e ← gets (λ e, e);
  if loading e then skip else
  info ← lift (need TypeError (workflow_info (the_doc e)));
  _ ← set_doc (λ d, d <| workflow_info := Some (set prop (JStr (field id e)) info) |>);
  update.

Definition on_name := on_info "name" "wf_name".
Definition on_author := on_info "author" "wf_author".
Definition on_contact := on_info "contact" "wf_contact".
Definition on_description := on_info "description" "wf_description".

Definition on_splits : handler :=
  e ← gets (λ e, e);
  if loading e then skip else
  let splits := parseInt (field "wf_splits" e) in
  if negb (jtruthy splits) then
    _ ← alert "splits must be an integer value";
    set_field "wf_splits" ""
  else
    info ← lift (need TypeError (job_info (the_doc e)));
    _ ← set_doc (λ d, d <| job_info := Some (set "splits" (JNum (num_of_jsint splits)) info) |>);
    update.

(** [/^#i_\d+ \[0\]$/] *)
Definition is_raw_label (s : string) : bool :=
  match take_prefix "#i_" s with
  | Some s1 =>
      let '(_, n, rest) := scan_digits digit_val 10 s1 0 0 in
      negb (n =? 0)%nat && (rest =? " [0]")%string
  | None => false
  end.

Definition raw_name (n : nat) : string := "#i_" +++ show (Z.of_nat n).

(** An array holds at most 2^32 - 1 elements; [push] throws beyond that. *)
Definition max_length : Z := 2 ^ 32 - 1.

Definition push_input (l : string) : handler :=
  e ← gets (λ e, e);
  if Z.of_nat (length (inputs e)) <? max_length
  then modify (λ e, e <| inputs := inputs e ++ [l] |>) else throw RangeError.

(** The passes of [for (i=0;i<n;i++)]; pushing to an array throws before pass
    2^32. *)
Definition passes (n : jsint) : list nat :=
  match n with
  | JInt z => seq 1 (Z.to_nat (Z.min z (2 ^ 32)))
  | JInf false => seq 1 (Z.to_nat (2 ^ 32))
  | _ => []
  end.

Definition on_infiles : handler :=
  e ← gets (λ e, e);
  if loading e then skip else
  let infiles := parseInt (field "wf_infiles" e) in
  if negb (jtruthy infiles) then
    _ ← alert "number of input files must be an integer value";
    set_field "wf_infiles" ""
  else
    _ ← set_doc (λ d, d <| raw_inputs := Some [] |>);
    _ ← modify (λ e, e <| inputs := List.filter (λ l, negb (is_raw_label l)) (inputs e) |>);
    _ ← forM (passes infiles) (λ n,
      _ ← set_doc (λ d, d <| raw_inputs :=
            Some (set (raw_name n) (JStr "#data_url") (default [] (raw_inputs d))) |>);
      push_input (label (raw_name n) "0"));
    _ ← update;
    new_task.

Definition list_variables (vars : option object) : handler :=
  modify (λ e, e <| variable_list := options_of (for_in_keys (keys (default [] vars))) |>).

Definition on_variable_add : handler :=
  e ← gets (λ e, e);
  let name := field "v_name" e in
  let dflt := field "v_default" e in
  if (name =? "")%string || (dflt =? "")%string then skip else
  vars ← lift (need TypeError (variables (the_doc e)));
  let vars' := assign name (JStr dflt) vars in
  _ ← set_doc (λ d, d <| variables := Some vars' |>);
  _ ← list_variables (Some vars');
  _ ← set_field "v_name" "";
  _ ← set_field "v_default" "";
  update.

Definition on_variable_remove : handler :=
  e ← gets (λ e, e);
  match selectedIndex (variable_list e) with
  | None => skip
  | Some n =>
      vars ← lift (need TypeError (variables (the_doc e)));
      let vars' := unset (default "" ((variable_list e).*1 !! n)) vars in
      _ ← set_doc (λ d, d <| variables := Some vars' |>);
      _ ← list_variables (Some vars');
      update
  end.

Definition on_output_add : handler :=
  e ← gets (λ e, e);
  let v := field "new_output" e in
  if (v =? "")%string then skip else
  _ ← modify (λ e, e <| task_output := task_output e ++ [(v, false)] |>);
  set_field "new_output" "".

Definition on_output_remove : handler :=
  modify (λ e, match selectedIndex (task_output e) with
               | Some n => e <| task_output := delete n (task_output e) |>
               | None => e
               end).

Definition edit_task : handler := alert "editing".

Definition on_add_task : handler :=
  e ← gets (λ e, e);
  if (task_legend e =? "New Task")%string then new_task else edit_task.

(** ** Loading *)

Definition parse_workflow : handler :=
  _ ← modify (λ e, e <| loading := true |>);
  e ← gets (λ e, e);
  let d := the_doc e in
  info0 ← lift (need TypeError (workflow_info d));
  let info := set "splits" (JNum (num_of_Z 8)) info0 in
  _ ← set_doc (λ d, d <| workflow_info := Some info |>);
  _ ← set_field "wf_name" (input_text (get "name" info));
  _ ← set_field "wf_author" (input_text (get "author" info));
  _ ← set_field "wf_contact" (input_text (get "contact" info));
  _ ← set_field "wf_description" (input_text (get "description" info));
  _ ← set_field "wf_splits" (input_text (get "splits" info));
  _ ← list_variables (variables d);
  let numfiles := length (default [] (raw_inputs d)) in
  _ ← modify (λ e, e <| inputs := raw_name <$> seq 1 numfiles |>);
  _ ← set_field "wf_infiles" (show (Z.of_nat numfiles));
  _ ← modify (λ e, e <| tasks := ["0"] |>);
  ts ← lift (need TypeError (d_tasks d));
  _ ← forM ts (λ t,
    let tid := to_str (taskid t) in
    _ ← modify (λ e, e <| tasks := add_key tid (tasks e) |>
                       <| inputs := inputs e ++ ((λ o, label o tid) <$> outputs t) |>);
    add_box t);
  _ ← modify (λ e, e <| loading := false |>);
  _ ← refresh_selects;
  update.

(** [widget.data = d] for a document of its own. *)
Definition fresh_doc (d : doc) (e : editor) : editor :=
  e <| docs := docs e ++ [d] |> <| data := length (docs e) |>.

(** The file has been read; [r] is what [JSON.parse] gives. *)
Definition load_workflow (r : res doc) : handler :=
  d ← lift r;
  _ ← modify (fresh_doc d);
  parse_workflow.

(** The response of the workflow API; the select box is filled at the end. *)
Definition api_name (info : object) : string := jtext (get "name" info).

Definition on_api (l : list doc) : handler :=
  _ ← forM l (λ d,
    info ← lift (need TypeError (workflow_info d));
    modify (λ e,
      e <| api_workflows := assign (api_name info) (length (docs e)) (api_workflows e) |>
        <| docs := docs e ++ [d] |>));
  modify (λ e,
    e <| api_options := (λ d, let info := default [] (workflow_info d) in
                           (api_name info, jtext (get "description" info))) <$> l |>
      <| api_selected := 0%nat |>).

Definition on_load_api : handler :=
  e ← gets (λ e, e);
  match (api_options e).*1 !! api_selected e with
  | None => skip
  | Some name =>
      match get name (api_workflows e) with
      | Some r => _ ← modify (λ e, e <| data := r |>); parse_workflow
      | None => skip
      end
  end.

(** ** The visual editor *)

(** The task of a box: the first with its id. *)
Definition task_of (id : value) (ts : list task) : option task :=
  snd <$> list_find (λ t, loose_eq (taskid t) id = true) ts.

Definition select_where (p : string → bool) (o : options) : options := (λ '(v, _), (v, p v)) <$> o.

(** A click on box [n].  The inputs are selected by the values of the
    dependency options at the same positions. *)
Definition on_box_click (n : nat) : handler :=
  e ← gets (λ e, e);
  b ← lift (need TypeError (playground e !! n));
  if negb (edit_active e) then skip else
  ts ← lift (need TypeError (d_tasks (the_doc e)));
  t ← lift (need TypeError (task_of (boxid b) ts));
  _ ← modify (λ e, e <| task_legend := "Edit Task " +++ to_str (boxid b) |>
                     <| add_button := "save changes" |> <| cancel_shown := true |>);
  _ ← set_field "task_command" (c_name (cmd t));
  _ ← set_field "task_args" (c_args (cmd t));
  _ ← modify (λ e, e <| task_depends :=
        select_where (flagged (to_str <$> dependsOn t)) (task_depends e) |>);
  _ ← forM (seq 0 (length (task_input e))) (λ i,
    tdep ← gets task_depends;
    o ← lift (need TypeError (tdep !! i));
    modify (λ e, e <| task_input :=
      alter (λ '(v, _), (v, has_own o.1 (t_inputs t))) i (task_input e) |>));
  modify (λ e, e <| task_output := select_where (flagged (outputs t)) (task_output e) |>).

(** The mouse enters box [n]: the boxes of the tasks that depend on it and of
    those it depends on are marked. *)
Definition on_box_over (n : nat) : handler :=
  e ← gets (λ e, e);
  b ← lift (need TypeError (playground e !! n));
  ts ← lift (need TypeError (d_tasks (the_doc e)));
  _ ← forM (imap pair ts) (λ '(i, t),
    forM (dependsOn t) (λ d,
      when (loose_eq d (boxid b)) (set_class (box_id (show (Z.of_nat i + 1))) "taskbox dependor")));
  t ← lift (need TypeError (last (List.filter (λ t, loose_eq (taskid t) (boxid b)) ts)));
  forM (dependsOn t) (λ d,
    if loose_eq d (VNum (num_of_Z 0)) then skip
    else set_class (box_id (to_str d)) "taskbox dependant").

Definition on_box_out : handler :=
  e ← gets (λ e, e);
  ts ← lift (need TypeError (d_tasks (the_doc e)));
  forM (seq 1 (length ts)) (λ i, set_class (box_id (show (Z.of_nat i))) "taskbox").

(** Dragging *)

Definition on_box_down (n : nat) (x y : Z) : handler :=
  e ← gets (λ e, e);
  b ← lift (need TypeError (playground e !! n));
  modify (λ e, e <| grip_ := Some (mkGrip x y (jor (parseInt (box_left b)) (JInt 0))
                                    (jor (parseInt (box_top b)) (JInt 0)) n) |>
                 <| moving := true |>).

Definition style (f : box → box) (n : nat) : handler :=
  modify (λ e, e <| playground := alter f n (playground e) |>).

Definition on_move (x y : Z) : handler :=
  e ← gets (λ e, e);
  if negb (moving e) then skip else
  g ← lift (need TypeError (grip_ e));
  let dy := jsub (JInt y) (JInt (g_y g)) in
  let dx := jsub (JInt x) (JInt (g_x g)) in
  style (λ b, b <| box_top := jshow (jadd (g_yorig g) dy) +++ "px" |>
                <| box_left := jshow (jadd (g_xorig g) dx) +++ "px" |>) (g_elem g).

(** Back into the playground: the four tests of [end_move], in their order. *)
Definition clamp_style (lo hi : Z) (s : string) : string :=
  let s1 := if jlt (parseInt s) (JInt lo) then show lo +++ "px" else s in
  if jgt (parseInt s1) (JInt hi) then show hi +++ "px" else s1.

Definition end_move : handler :=
  e ← gets (λ e, e);
  match grip_ e with
  | None => skip
  | Some g => style (λ b, b <| box_top := clamp_style 0 649 (box_top b) |>
                            <| box_left := clamp_style 0 599 (box_left b) |>) (g_elem g)
  end.

Definition on_up : handler :=
  _ ← modify (λ e, e <| moving := false |>);
  end_move.

(** ** Events *)

Inductive select_id := SVariables | SDepends | SInput | SOutput.

Inductive event :=
| EvClock (d : date)
| EvType (id v : string)
| EvSelect (s : select_id) (flags : list bool)
| EvApiSelect (n : nat)
| EvToggleEdit
| EvName | EvAuthor | EvContact | EvDescription | EvSplits | EvInfiles
| EvVariableAdd | EvVariableRemove | EvOutputAdd | EvOutputRemove
| EvAddTask
| EvLoadFile (r : res doc)
| EvApi (l : list doc)
| EvLoadApi
| EvBoxClick (n : nat)
| EvBoxOver (n : nat)
| EvBoxOut
| EvBoxDown (n : nat) (x y : Z)
| EvMove (x y : Z)
| EvUp.

(** The user selects options of a list. *)
Definition reselect (flags : list bool) (o : options) : options :=
  imap (λ i '(v, _), (v, default false (flags !! i))) o.

Definition on_select (s : select_id) (flags : list bool) : handler :=
  modify (λ e, match s with
    | SVariables => e <| variable_list := reselect flags (variable_list e) |>
    | SDepends => e <| task_depends := reselect flags (task_depends e) |>
    | SInput => e <| task_input := reselect flags (task_input e) |>
    | SOutput => e <| task_output := reselect flags (task_output e) |>
    end).

Definition handle (ev : event) : handler :=
  match ev with
  | EvClock d => modify (λ e, e <| now := d |>)
  | EvType id v => set_field id v
  | EvSelect s flags => on_select s flags
  | EvApiSelect n => modify (λ e, if (n <? length (api_options e))%nat
                                  then e <| api_selected := n |> else e)
  | EvToggleEdit => modify (λ e, e <| edit_active := negb (edit_active e) |>)
  | EvName => on_name | EvAuthor => on_author | EvContact => on_contact
  | EvDescription => on_description | EvSplits => on_splits | EvInfiles => on_infiles
  | EvVariableAdd => on_variable_add | EvVariableRemove => on_variable_remove
  | EvOutputAdd => on_output_add | EvOutputRemove => on_output_remove
  | EvAddTask => on_add_task
  | EvLoadFile r => load_workflow r
  | EvApi l => on_api l
  | EvLoadApi => on_load_api
  | EvBoxClick n => on_box_click n
  | EvBoxOver n => on_box_over n
  | EvBoxOut => on_box_out
  | EvBoxDown n x y => on_box_down n x y
  | EvMove x y => on_move x y
  | EvUp => on_up
  end.

(** [display], once the form is there. *)
Definition display : handler := _ ← update; new_task.

(** The browser goes on after an exception in a handler. *)
Definition after (ev : event) (e : editor) : editor := (handle ev e).1.
Definition run (evs : list event) (e : editor) : editor := foldl (λ e ev, after ev e) e evs.

Definition start (d : date) : editor := (display (initial d)).1.
