(* ===== verification/WorkflowText.v ===== *)
(** * Workflow editor: the text of a document

    The text that [update] shows and the file that [load_workflow] reads: a
    document as JSON, written with [JSON.stringify(data, null, 5)] and read with
    [JSON.parse].  The model's documents have the shape the editor gives them;
    [read_doc] has no result for a text that is JSON of another shape. *)

From Stdlib Require Import SpecFloat.
From S2P Require Import Prelude JsString JsNumber JsValue JsJson JsonText JsonRoundTrip JsState Workflow.

(** ** Writing *)

Definition json_of_value (v : value) : json :=
  match v with
  | VBool b => JBool b
  | VNum n => JNum n
  | VStr s => JStr s
  | _ => JNull
  end.

Definition json_of_task (t : task) : json :=
  JObj [("taskid", json_of_value (taskid t));
        ("cmd", JObj [("name", JStr (c_name (cmd t))); ("args", JStr (c_args (cmd t)))]);
        ("dependsOn", JArr (json_of_value <$> dependsOn t));
        ("inputs", JObj ((λ p, (p.1, json_of_value p.2)) <$> t_inputs t));
        ("outputs", JArr (JStr <$> outputs t))].

(** A property that is missing is not written. *)
Definition member (k : string) (v : option json) : list (string * json) :=
  match v with Some j => [(k, j)] | None => [] end.

Definition json_of_doc (d : doc) : json :=
  JObj (member "workflow_info" (JObj <$> workflow_info d) ++ member "job_info" (JObj <$> job_info d)
        ++ member "raw_inputs" (JObj <$> raw_inputs d) ++ member "data_server" (data_server d)
        ++ member "variables" (JObj <$> variables d)
        ++ member "tasks" ((λ ts, JArr (json_of_task <$> ts)) <$> d_tasks d)).

(** The HTML of the text area, and the text that it then has: character
    references and tags, which would change it, are not modelled. *)
Definition json_text (e : editor) : string :=
  match json_out e with Some d => stringify 5 (json_of_doc d) | None => "" end.

Definition shown_text (html : string) : option string :=
  if has_char "&" html || has_char "<" html then None else Some html.

(** [innerHTML] of an element whose content is the text [s]. *)
Fixpoint html_escape (s : string) : string :=
  match s with
  | EmptyString => ""
  | String c s' =>
      (if (c =? "&")%char then "&amp;" else if (c =? "<")%char then "&lt;"
       else if (c =? ">")%char then "&gt;" else if (nat_of_ascii c =? 160)%nat then "&nbsp;"
       else String c "") +++ html_escape s'
  end.

(** The content of the file [workflow.awf] that the save button makes. *)
Definition saved_text (e : editor) : option string := html_escape <$> shown_text (json_text e).

(** ** Reading *)

Definition plain_value (o : option json) : option value :=
  match o with
  | Some (JArr _ | JObj _) | None => None
  | Some j => Some (to_value (Some j))
  end.

Definition text_of (o : option json) : option string := match o with Some (JStr s) => Some s | _ => None end.
Definition list_of (o : option json) : option (list json) := match o with Some (JArr l) => Some l | _ => None end.
Definition object_of (o : option json) : option object := match o with Some (JObj p) => Some p | _ => None end.

(** A property that may be missing. *)
Definition optional {A} (f : option json → option A) (o : option json) : option (option A) :=
  match o with None => Some None | Some j => Some <$> f (Some j) end.

Definition task_of_json (j : json) : option task :=
  o ← object_of (Some j);
  id ← plain_value (get "taskid" o);
  c ← object_of (get "cmd" o);
  name ← text_of (get "name" c);
  args ← text_of (get "args" c);
  deps ← list_of (get "dependsOn" o) ≫= mapM (λ d, plain_value (Some d));
  ins ← object_of (get "inputs" o) ≫= mapM (λ p, pair p.1 <$> plain_value (Some p.2));
  outs ← list_of (get "outputs" o) ≫= mapM (λ s, text_of (Some s));
  Some (mkTask id (mkCommand name args) deps ins outs).

Definition doc_of_json (j : json) : option doc :=
  o ← object_of (Some j);
  info ← optional object_of (get "workflow_info" o);
  job ← optional object_of (get "job_info" o);
  raw ← optional object_of (get "raw_inputs" o);
  vars ← optional object_of (get "variables" o);
  ts ← optional (λ t, list_of t ≫= mapM task_of_json) (get "tasks" o);
  Some (mkDoc info job raw (get "data_server" o) vars ts).

(** What [JSON.parse] gives for the text of a file. *)
Definition read_doc (text : string) : option (res doc) :=
  match json_parse text with
  | Ok j => Ok <$> doc_of_json j
  | Throw e => Some (Throw e)
  end.

(** ** The round trip *)

(** The value is a text, a number, a truth value or [null]. *)
Definition is_plain (v : value) : bool := match v with VUndef | VObj _ => false | _ => true end.

Definition task_plain (t : task) : bool :=
  is_plain (taskid t) && forallb is_plain (dependsOn t) && forallb (λ p, is_plain p.2) (t_inputs t).

(** The document can be written and read back: see [json_ok]. *)
Definition writable (d : doc) : bool :=
  forallb task_plain (default [] (d_tasks d)) && json_ok (json_of_doc d).

Lemma plain_value_json v : is_plain v = true → plain_value (Some (json_of_value v)) = Some v.
Proof. by destruct v. Qed.

Lemma mapM_fmap {A B} (f : B → option A) (g : A → B) l :
  (∀ x, x ∈ l → f (g x) = Some x) → mapM f (g <$> l) = Some l.
Proof.
  induction l as [|x l IH]; intros Hf; [done|]. cbn. rewrite Hf by (by left). cbn.
  rewrite IH; [done|]. intros y Hy. apply Hf. by right.
Qed.

Lemma task_reads_back t : task_plain t = true → task_of_json (json_of_task t) = Some t.
Proof.
  unfold task_plain. rewrite !andb_true_iff, !forallb_forall. intros [[Hid Hdeps] Hins].
  unfold task_of_json, json_of_task. cbn -[mapM plain_value]. rewrite plain_value_json by done. cbn -[mapM plain_value].
  rewrite (mapM_fmap _ json_of_value) by (intros v Hv; by apply plain_value_json, Hdeps, list_elem_of_In). cbn -[mapM plain_value].
  rewrite (mapM_fmap _ (λ p, (p.1, json_of_value p.2))). 2: { intros [k v] Hv. cbn -[plain_value].
    rewrite plain_value_json by (by apply (Hins (k, v)), list_elem_of_In). done. }
  cbn -[mapM]. rewrite (mapM_fmap _ JStr) by done. cbn. by destruct t as [? []].
Qed.

Lemma doc_reads_back d :
  forallb task_plain (default [] (d_tasks d)) = true → doc_of_json (json_of_doc d) = Some d.
Proof.
  destruct d as [info job raw server vars ts]. cbn [d_tasks]. intros Hts.
  assert (∀ l, ts = Some l → mapM task_of_json (json_of_task <$> l) = Some l) as Hl.
  { intros l ->. apply mapM_fmap. intros t Ht. apply task_reads_back.
    rewrite forallb_forall in Hts. by apply Hts, list_elem_of_In. }
  unfold doc_of_json, json_of_doc. cbn [object_of mbind option_bind workflow_info job_info raw_inputs data_server variables d_tasks].
  destruct info as [i|], job as [jo|], raw as [ra|], server as [se|], vars as [va|], ts as [tl|];
    cbn -[mapM task_of_json json_of_task]; rewrite ?(Hl _ eq_refl); done.
Qed.

(** No character of the text is escaped. *)
Definition html_plain (s : string) : bool :=
  all_chars (λ c, negb (has_char c "&<>" || (nat_of_ascii c =? 160)%nat)) s.

Lemma html_escape_plain s : html_plain s = true → html_escape s = s.
Proof.
  unfold html_plain. induction s as [|c s IH]; [done|]. cbn [all_chars html_escape].
  intros [Hc Hs]%andb_true_iff. rewrite IH by done. apply negb_true_iff, orb_false_iff in Hc as [Hc Hn].
  rewrite Hn. cbn [has_char] in Hc.
  destruct (c =? "&")%char, (c =? "<")%char, (c =? ">")%char; done.
Qed.

Lemma html_plain_shown s : html_plain s = true → shown_text s = Some s.
Proof.
  unfold html_plain, shown_text. intros Hs.
  by rewrite (all_chars_no "&" _ s eq_refl Hs), (all_chars_no "<" _ s eq_refl Hs).
Qed.

(** C8: saving and loading. When the editor's text area shows a document that can
    be written (its objects have every property once and in the order in which
    they are enumerated, its numbers are read back from their text, and its
    values are not missing), and its text has none of the characters that HTML
    escapes, then the save button writes a file, and that file is loaded as the
    same document. *)
Theorem saved_document_reloads e d :
  json_out e = Some d → writable d = true → html_plain (json_text e) = true →
  ∃ text, saved_text e = Some text ∧ read_doc text = Some (Ok d).
Proof.
  intros Hd [Hts Hok]%andb_true_iff Hplain. exists (json_text e). split.
  - unfold saved_text. rewrite html_plain_shown by done. cbn. by rewrite html_escape_plain.
  - unfold json_text. rewrite Hd. unfold read_doc. rewrite parse_stringify by done.
    by rewrite doc_reads_back.
Qed.

(** The document of an editor in which a task has been added. *)
Definition ex_doc : doc :=
  initial_doc <| d_tasks := Some [mkTask (VNum (num_of_Z 1)) (mkCommand "blast" (q "-in `@a` \ @b"))
    [VStr "0"] [("#i_1", VStr "0")] ["out.txt"]] |>.

Lemma saved_document_reloads_witness :
  ∃ text, saved_text ((initial (mkDate 2024 0 1)) <| json_out := Some ex_doc |>) = Some text ∧
    read_doc text = Some (Ok ex_doc).
Proof.
  apply (saved_document_reloads ((initial (mkDate 2024 0 1)) <| json_out := Some ex_doc |>)).
  - reflexivity.
  - vm_eq.
  - vm_eq.
Defined.

(** A redirection in the arguments of a command is not the same after a save. *)
Example saved_redirection :
  let d args := initial_doc <| d_tasks := Some [mkTask (VNum (num_of_Z 1)) (mkCommand "sort" args)
                  [] [] []] |> in
  (text ← saved_text ((initial (mkDate 2024 0 1)) <| json_out := Some (d "a > b") |>); read_doc text) =
    Some (Ok (d "a &gt; b")).
Proof. intros d. vm_eq. Qed.
