(* ===== verification/WorkflowEdit.v ===== *)
(** * Workflow editor: the workflow that is written

    Editing without loading: the tasks are numbered in their order, a task
    depends on earlier ones only and takes files that earlier ones write. *)

From Stdlib Require Import SpecFloat.
From S2P Require Import Prelude JsString JsNumber JsDecimal JsValue JsJson JsState Workflow.

(** ** Labels *)

(** The label of a file reads back, whatever the name of the file is. *)
Lemma label_parts f id :
  has_char lbracket id = false → has_char rbracket id = false →
  label_file (label f id) = f ∧ label_num (label f id) = id.
Proof.
  intros Hl Hr.
  assert (last_index_of lbracket (label f id) = slen f + 1) as El.
  { unfold label. destruct (last_index_of_app lbracket f (" [" +++ id +++ "]")) as [-> _].
    - rewrite has_char_app. done.
    - f_equal. change (" [" +++ id +++ "]") with (" " +++ "[" +++ (id +++ "]")).
      destruct (last_index_of_app lbracket " " ("[" +++ (id +++ "]"))) as [-> _]; [done|].
      change (slen " ") with 1.
      assert (last_index_of lbracket (id +++ "]") = -1) as Hn.
      { apply last_index_of_none. rewrite has_char_app, Hl. done. }
      change ("[" +++ (id +++ "]")) with (String "[" (id +++ "]")). simpl. by rewrite Hn. }
  assert (last_index_of rbracket (label f id) = slen f + 2 + slen id) as Er.
  { unfold label. rewrite <-!sapp_assoc.
    destruct (last_index_of_app rbracket ((f +++ " [") +++ id) "]") as [-> _]; [done|].
    rewrite !slen_app. change (slen " [") with 2. simpl. lia. }
  unfold label_file, label_num. rewrite El, Er. split.
  - replace (slen f + 1 - 1) with (slen f) by lia. apply substring_prefix.
  - unfold label. rewrite <-sapp_assoc.
    pose proof (substring_mid (f +++ " [") id "]") as Hs. rewrite slen_app in Hs.
    change (slen " [") with 2 in Hs. replace (slen f + 1 + 1) with (slen f + 2) by lia. exact Hs.
Qed.

Lemma show_label f z : label_file (label f (show z)) = f ∧ label_num (label f (show z)) = show z.
Proof. apply label_parts; by apply show_no_char. Qed.

(** ** Where a file comes from *)

(** File [f] is one of task [k] of [ts]: task 0 stands for the raw inputs. *)
Definition source (ts : list task) (f : string) (k : nat) : Prop :=
  match k with
  | O => ∃ n, f = raw_name n
  | S k' => ∃ t, ts !! k' = Some t ∧ f ∈ outputs t
  end.

Lemma source_app ts t f k : source ts f k → source (ts ++ [t]) f k.
Proof.
  destruct k as [|k]; [done|]. intros (t' & Ht & Hf). exists t'.
  split; [by apply lookup_app_l_Some|done].
Qed.

(** An option of the input list. *)
Definition input_option (ts : list task) (l : string) : Prop :=
  ∃ f k, l = label f (show (Z.of_nat k)) ∧ (k ≤ length ts)%nat ∧ source ts f k.

Definition depend_option (ts : list task) (l : string) : Prop :=
  ∃ k, l = show (Z.of_nat k) ∧ (k ≤ length ts)%nat.

(** Task [t] of the document is its [n]-th, from 1. *)
Record task_ok (ts : list task) (n : nat) (t : task) : Prop := {
  ok_id : taskid t = VNum (num_of_Z (Z.of_nat n));
  ok_deps : ∀ d, d ∈ dependsOn t → ∃ k, d = VStr (show (Z.of_nat k)) ∧ (k < n)%nat;
  ok_inputs : ∀ f v, (f, v) ∈ t_inputs t →
    ∃ k, v = VStr (show (Z.of_nat k)) ∧ (k < n)%nat ∧ source ts f k
}.

Definition tasks_ok (ts : list task) : Prop := ∀ i t, ts !! i = Some t → task_ok ts (S i) t.

Lemma tasks_ok_app ts t :
  tasks_ok ts → task_ok ts (S (length ts)) t → tasks_ok (ts ++ [t]).
Proof.
  assert (∀ n t', task_ok ts n t' → task_ok (ts ++ [t]) n t') as Hmono.
  { intros n t' [H1 H2 H3]. split; [done|done|]. intros f v Hin.
    destruct (H3 f v Hin) as (k & ? & ? & ?). eauto using source_app. }
  intros Hts Ht i t' Hi. apply lookup_app_Some in Hi as [Hi|[Hlen Hi]]; [auto|].
  apply list_lookup_singleton_Some in Hi as [Hi <-].
  replace i with (length ts) by lia. auto.
Qed.

(** ** The invariant *)

(** The part of the state it is about. *)
Record inv (n : nat) (e : editor) : Prop := {
  inv_data : (data e < length (docs e))%nat;
  inv_tasks : ∃ ts, d_tasks (the_doc e) = Some ts ∧ (length ts ≤ n)%nat ∧ tasks_ok ts ∧
    (∀ l, l ∈ inputs e → input_option ts l) ∧
    (∀ l, l ∈ tasks e → depend_option ts l) ∧
    (∀ l, l ∈ (task_depends e).*1 → depend_option ts l) ∧
    (∀ l, l ∈ (task_input e).*1 → input_option ts l) ∧
    boxid <$> playground e = taskid <$> ts
}.

Definition same_core (e e' : editor) : Prop :=
  docs e' = docs e ∧ data e' = data e ∧ inputs e' = inputs e ∧ tasks e' = tasks e ∧
  (task_depends e').*1 = (task_depends e).*1 ∧ (task_input e').*1 = (task_input e).*1 ∧
  boxid <$> playground e' = boxid <$> playground e.

(** The state after a step, known by the fields of the core only. *)
Definition core (e : editor) :=
  (docs e, data e, inputs e, tasks e, (task_depends e).*1, (task_input e).*1, boxid <$> playground e).

Ltac freeze :=
  match goal with
  | |- always _ _ ?st =>
      let e := fresh "e" in
      let C := fresh "C" in
      set (e := st);
      eassert (core e = _) as C by (unfold core, e; upd_simpl; reflexivity);
      clearbody e; unfold core in C;
      repeat (let C' := fresh "C" in apply pair_eq in C as [C C'])
  end.

Lemma inv_same n e e' : same_core e e' → inv n e → inv n e'.
Proof.
  unfold same_core. intros (E1 & E2 & E3 & E4 & E5 & E6 & E7) [H1 H2].
  split; [by rewrite E1, E2|]. unfold the_doc in *. by rewrite E1, E2, E3, E4, E5, E6, E7.
Qed.

Lemma the_doc_set f e :
  (data e < length (docs e))%nat → the_doc (e <| docs := <[data e := f (the_doc e)]> (docs e) |>) = f (the_doc e).
Proof. intros H. unfold the_doc at 1. upd_simpl. by rewrite list_lookup_insert_eq. Qed.

(** A change of the document that leaves its tasks alone. *)
Lemma inv_set_doc n f e :
  (d_tasks (f (the_doc e)) = d_tasks (the_doc e)) → inv n e →
  inv n (e <| docs := <[data e := f (the_doc e)]> (docs e) |>).
Proof.
  intros Hf [H1 H2]. split; [upd_simpl; by rewrite length_insert|].
  rewrite the_doc_set by done. upd_simpl. by rewrite Hf.
Qed.

(** ** The selected inputs *)

Lemma collect_inputs_spec l f v :
  (f, v) ∈ collect_inputs l → ∃ x, x ∈ l ∧ f = label_file x ∧ v = VStr (label_num x).
Proof.
  unfold collect_inputs.
  assert (∀ acc, (f, v) ∈ foldl (λ o val, assign (label_file val) (VStr (label_num val)) o) acc l →
    (f, v) ∈ acc ∨ ∃ x, x ∈ l ∧ f = label_file x ∧ v = VStr (label_num x)) as Hl.
  { induction l as [|x l IH]; intros acc Hin; simpl in Hin; [by left|].
    apply IH in Hin as [Hin|(y & ? & ?)]; [|right; exists y; split; [by right|done]].
    unfold assign in Hin. case_match; [by left|].
    assert (∀ k (w : value) o, (f, v) ∈ set k w o → (f, v) ∈ o ∨ (f = k ∧ v = w)) as Hset.
    { clear. induction o as [|[k' w'] o IH]; simpl.
      - rewrite list_elem_of_singleton. intros [= -> ->]. by right.
      - case_match; rewrite !elem_of_cons; [intros [[= -> ->]|?]|intros [?|?]]; tauto. }
    apply Hset in Hin as [?|[-> ->]]; [by left|]. right. exists x. split; [by left|done]. }
  intros Hin. apply Hl in Hin as [Hin|?]; [by apply elem_of_nil in Hin|done].
Qed.

Lemma selected_values_elem o x : x ∈ selected_values o → x ∈ o.*1.
Proof.
  unfold selected_values. rewrite list_elem_of_omap. intros ([v b] & Hin & E).
  destruct b; [|done]. injection E as ->. apply list_elem_of_fmap. by exists (x, true).
Qed.

(** A task made of the options that the form offers. *)
Lemma form_task_ok n ts e :
  (length ts ≤ n)%nat →
  (∀ l, l ∈ (task_depends e).*1 → depend_option ts l) →
  (∀ l, l ∈ (task_input e).*1 → input_option ts l) →
  task_ok ts (S (length ts)) (form_task (length ts + 1) e).
Proof.
  intros Hn Hd Hi. split.
  - cbn [taskid form_task]. by rewrite Nat.add_1_r.
  - intros d Hin. simpl in Hin. apply list_elem_of_fmap in Hin as (x & -> & Hx).
    apply selected_values_elem, Hd in Hx as (k & -> & Hk). exists k. split; [done|lia].
  - intros f v Hin. simpl in Hin. apply collect_inputs_spec in Hin as (x & Hx & -> & ->).
    apply selected_values_elem, Hi in Hx as (f & k & -> & Hk & Hs). exists k.
    destruct (show_label f (Z.of_nat k)) as [-> ->]. split; [done|]. split; [lia|done].
Qed.

Lemma for_in_keys_elem ks k : k ∈ for_in_keys ks → k ∈ ks.
Proof.
  unfold for_in_keys. rewrite elem_of_app. intros [Hk|Hk].
  - apply list_elem_of_fmap in Hk as (z & -> & Hz).
    assert (∀ l, z ∈ foldr insert_index [] l → z ∈ l) as Hins.
    { clear. induction l as [|y l IH]; simpl; [done|].
      assert (∀ a l', z ∈ insert_index a l' → z = a ∨ z ∈ l') as Hi.
      { clear. induction l' as [|b l' IH]; simpl; [rewrite list_elem_of_singleton; auto|].
        case_match; rewrite !elem_of_cons; [tauto|]. intros [?|?]; [tauto|]. destruct IH; tauto. }
      intros Hz. apply Hi in Hz as [->|Hz]; [by left|]. right. auto. }
    apply Hins, list_elem_of_omap in Hz as (k & Hk & Hz).
    unfold array_index in Hz. destruct (parseInt k) as [| |z']; try done.
    destruct (String.eqb_spec k (show z')) as [E|]; [|by rewrite andb_false_r in Hz].
    case_match; [|done]. injection Hz as ->. by rewrite <-E.
  - apply elem_of_list_filter_b in Hk as [? _]. done.
Qed.

Lemma add_key_elem k ks x : x ∈ add_key k ks → x = k ∨ x ∈ ks.
Proof.
  unfold add_key. case_if; [tauto|]. rewrite elem_of_app, list_elem_of_singleton. tauto.
Qed.

Lemma options_of_values l : (options_of l).*1 = l.
Proof. unfold options_of. rewrite <-list_fmap_compose. apply list_fmap_id. Qed.

(** ** The handlers *)

Lemma set_field_inv n id v e : inv n e → inv n (set_field id v e).1.
Proof. apply inv_same. by split_and!. Qed.

Lemma alert_inv n msg e : inv n e → inv n (alert msg e).1.
Proof. apply inv_same. by split_and!. Qed.

Lemma update_inv n e : inv n e → always update (inv n) e.
Proof.
  intros He. unfold update, set_doc. always_step. always_step; [done|]. do 2 always_step.
  apply (inv_same n (e <| docs := <[data e := (the_doc e) <| workflow_info :=
    Some (set "update_date" (JStr (datum (now e))) a) |>]> (docs e) |>)); [by split_and!|].
  by apply (inv_set_doc n (λ d, d <| workflow_info :=
    Some (set "update_date" (JStr (datum (now e))) a) |>) e).
Qed.

Lemma to_str_id n : Z.of_nat n < 2 ^ 53 → to_str (VNum (num_of_Z (Z.of_nat n))) = show (Z.of_nat n).
Proof. intros Hn. apply num_show_of_Z. lia. Qed.

(** The lists after a task has been added. *)
Lemma options_grow ts t l :
  (input_option ts l → input_option (ts ++ [t]) l) ∧ (depend_option ts l → depend_option (ts ++ [t]) l).
Proof.
  unfold input_option, depend_option. rewrite length_app. simpl. split.
  - intros (f & k & -> & Hk & Hs). exists f, k. split; [done|]. split; [lia|by apply source_app].
  - intros (k & -> & Hk). exists k. split; [done|lia].
Qed.

Lemma refresh_inv n e : inv n e → inv n (refresh_selects e).1.
Proof.
  intros [H1 (ts & Hts & Hn & Hok & Hin & Htk & _ & _ & Hb)]. split; [done|].
  exists ts. unfold refresh_selects, modify. cbn [fst].
  split_and!; try done; upd_simpl; rewrite options_of_values; auto using for_in_keys_elem.
Qed.

(** A task has been added. *)
Lemma inv_grow n e e' ts t tid :
  inv n e → d_tasks (the_doc e) = Some ts → task_ok ts (S (length ts)) t →
  tid = show (Z.of_nat (S (length ts))) →
  core e' = (<[data e := (the_doc e) <| d_tasks := Some (ts ++ [t]) |>]> (docs e), data e,
             inputs e ++ ((λ o, label o tid) <$> outputs t), add_key tid (tasks e),
             (task_depends e).*1, (task_input e).*1, (boxid <$> playground e) ++ [taskid t]) →
  inv (S n) e'.
Proof.
  intros [H1 (ts' & Hts' & Hn & Hok & Hin & Htk & Hdep & Hinp & Hbox)] Hts Hnew Etid Hcore.
  assert (ts' = ts) as -> by congruence. unfold core in Hcore.
  apply pair_eq in Hcore as [Hcore D7]. apply pair_eq in Hcore as [Hcore D5]. apply pair_eq in Hcore as [Hcore D4].
  apply pair_eq in Hcore as [Hcore D3]. apply pair_eq in Hcore as [Hcore D2].
  apply pair_eq in Hcore as [D6 D1].
  split; [by rewrite D1, D6, length_insert|].
  exists (ts ++ [t]). rewrite D2, D3, D4, D5, D7. split_and!.
  - unfold the_doc at 1. rewrite D6, D1, list_lookup_insert_eq by done. done.
  - rewrite length_app. simpl. lia.
  - by apply tasks_ok_app.
  - intros l Hl. apply elem_of_app in Hl as [Hl|Hl]; [apply options_grow; auto|].
    apply list_elem_of_fmap in Hl as (f & -> & Hf). exists f, (S (length ts)).
    rewrite Etid. split; [done|]. rewrite length_app. split; [simpl; lia|]. exists t.
    rewrite lookup_app_r, Nat.sub_diag by lia. done.
  - intros l [->|Hl]%add_key_elem; [|apply options_grow; auto].
    exists (S (length ts)). split; [done|]. rewrite length_app. simpl. lia.
  - intros l Hl. apply options_grow; auto.
  - intros l Hl. apply options_grow; auto.
  - by rewrite Hbox, fmap_app.
Qed.

Lemma inv_mono n e : inv n e → inv (S n) e.
Proof.
  intros [H1 (ts & Hts & Hn & Hrest)]. split; [done|]. exists ts. split_and!; [done|lia|..];
    apply Hrest.
Qed.

Lemma new_task_inv n e : Z.of_nat n + 1 < 2 ^ 53 → inv n e → always new_task (inv (S n)) e.
Proof.
  intros Hbig He. unfold new_task. always_step.
  apply always_bind; [|intros _ e' He1; by apply refresh_inv].
  unfold when. case_if; [|by apply always_skip, inv_mono].
  always_step; [by apply inv_mono|].
  match goal with H : need _ _ = Ok ?x |- _ => rename x into ts; apply need_ok in H as Hts end.
  assert (task_ok ts (S (length ts)) (form_task (length ts + 1) e) ∧ (length ts ≤ n)%nat) as [Hnew Hn].
  { destruct He as [_ (ts' & Hts' & Hn & _ & _ & _ & Hdep & Hinp & _)].
    assert (ts' = ts) as -> by congruence. split; [by apply (form_task_ok n)|done]. }
  set (t := form_task (length ts + 1) e) in *.
  assert (to_str (taskid t) = show (Z.of_nat (S (length ts)))) as Etid.
  { rewrite (ok_id _ _ _ Hnew). apply to_str_id. lia. }
  generalize dependent (to_str (taskid t)). intros tid Etid. clearbody t.
  unfold set_field, set_doc, add_box. do 7 (always_step; freeze). apply update_inv.
  apply (inv_grow n e _ ts t tid); try done.
  assert (∀ x, docs x = docs e → data x = data e → the_doc x = the_doc e) as Hd
    by (intros x Ex Ey; unfold the_doc; by rewrite Ex, Ey).
  assert (default [] (d_tasks (the_doc e4)) ++ [t] = ts ++ [t]) as E4
    by (rewrite Hd by congruence; by rewrite Hts).
  assert (the_doc e4 = the_doc e) as E5 by (apply Hd; congruence).
  assert (docs e6 = <[data e := (the_doc e) <| d_tasks := Some (ts ++ [t]) |>]> (docs e)) as D
    by (rewrite <-E4, <-E5; congruence).
  assert (boxid <$> playground e6 = (boxid <$> playground e) ++ [taskid t]) as D' by
    (etrans; [eassumption|]; rewrite fmap_app; f_equal; congruence).
  unfold core. congruence.
Qed.

Lemma boxids_alter f n (l : list box) :
  (∀ b, boxid (f b) = boxid b) → boxid <$> alter f n l = boxid <$> l.
Proof.
  intros Hf. apply list_eq. intros j. rewrite !list_lookup_fmap, list_lookup_alter.
  destruct (decide (n = j)) as [->|]; [|done]. destruct (l !! j); simpl; [by rewrite Hf|done].
Qed.

(** ** The other handlers *)

Ltac core_same := eapply inv_same; [|eassumption]; unfold same_core; by split_and!.

Lemma set_doc_inv n f e :
  (∀ d, d_tasks (f d) = d_tasks d) → inv n e → inv n (set_doc f e).1.
Proof. intros Hf He. by apply (inv_set_doc n f e). Qed.

Lemma on_info_inv n p id e : inv n e → always (on_info p id) (inv n) e.
Proof.
  intros He. unfold on_info. always_step. case_if; [by apply always_skip|].
  always_step; [done|]. apply always_bind; [by apply set_doc_inv|].
  intros _ e' He'. by apply update_inv.
Qed.

Lemma on_splits_inv n e : inv n e → always on_splits (inv n) e.
Proof.
  intros He. unfold on_splits. always_step. case_if; [by apply always_skip|]. case_if.
  - apply always_bind; [by apply alert_inv|]. intros _ e' He'. by apply set_field_inv.
  - always_step; [done|]. apply always_bind; [by apply set_doc_inv|].
    intros _ e' He'. by apply update_inv.
Qed.

Lemma inputs_inv n e (l : list string) :
  (∀ x ts, x ∈ l → d_tasks (the_doc e) = Some ts → x ∈ inputs e ∨ input_option ts x) → inv n e →
  inv n (e <| inputs := l |>).
Proof.
  intros Hl [H1 (ts & Hts & Hn & Hok & Hin & Hrest)]. split; [done|]. exists ts.
  split_and!; try done; [|by apply Hrest..]. intros x Hx.
  destruct (Hl x ts Hx Hts) as [?|?]; [by apply Hin|done].
Qed.

Lemma on_infiles_inv n e :
  Z.of_nat n + 1 < 2 ^ 53 → inv n e → always on_infiles (inv (S n)) e.
Proof.
  intros Hn He. unfold on_infiles. always_step.
  case_if; [by apply always_skip, inv_mono|]. case_if.
  { apply always_bind; [by apply alert_inv, inv_mono|]. intros _ e' He'. by apply set_field_inv. }
  assert (always (
    _ ← set_doc (λ d, d <| raw_inputs := Some [] |>);
    _ ← modify (λ e, e <| inputs := List.filter (λ l, negb (is_raw_label l)) (inputs e) |>);
    _ ← forM (passes (parseInt (field "wf_infiles" e))) (λ n,
      _ ← set_doc (λ d, d <| raw_inputs :=
            Some (set (raw_name n) (JStr "#data_url") (default [] (raw_inputs d))) |>);
      push_input (label (raw_name n) "0"));
    update) (inv n) e) as Hpre.
  { apply always_bind; [by apply set_doc_inv|]. intros _ e1 He1.
    apply always_bind; [apply inputs_inv; [|done]|].
    { intros x ts [Hx _]%elem_of_list_filter_b _. by left. }
    intros _ e2 He2. apply always_bind; [|intros _ e3; apply update_inv].
    apply always_forM; [done|]. intros k e3 _ He3.
    apply always_bind; [by apply set_doc_inv|]. intros _ e4 He4. unfold push_input.
    always_step. case_if; [|done]. always_step. apply inputs_inv; [|done].
    intros x ts Hx _. apply elem_of_app in Hx as [?| ->%list_elem_of_singleton]; [by left|right].
    exists (raw_name k), 0%nat. split; [done|]. split; [lia|]. by exists k. }
  revert Hpre. unfold always, mbind, M_bind.
  destruct (set_doc _ e) as [s1 [[]|]]; [|by intros ?%inv_mono].
  destruct (modify _ s1) as [s2 [[]|]]; [|by intros ?%inv_mono].
  destruct (forM _ _ s2) as [s3 [[]|]]; [|by intros ?%inv_mono].
  destruct (update s3) as [s4 [[]|]]; [|by intros ?%inv_mono]. by apply new_task_inv.
Qed.

Lemma list_variables_inv n v e : inv n e → inv n (list_variables v e).1.
Proof. intros He. core_same. Qed.

Lemma on_variable_add_inv n e : inv n e → always on_variable_add (inv n) e.
Proof.
  intros He. unfold on_variable_add. always_step. case_if; [by apply always_skip|].
  always_step; [done|]. apply always_bind; [by apply set_doc_inv|]. intros _ e1 He1.
  apply always_bind; [by apply list_variables_inv|]. intros _ e2 He2.
  apply always_bind; [by apply set_field_inv|]. intros _ e3 He3.
  apply always_bind; [by apply set_field_inv|]. intros _ e4 He4. by apply update_inv.
Qed.

Lemma on_variable_remove_inv n e : inv n e → always on_variable_remove (inv n) e.
Proof.
  intros He. unfold on_variable_remove. always_step. case_match; [|by apply always_skip].
  always_step; [done|]. apply always_bind; [by apply set_doc_inv|]. intros _ e1 He1.
  apply always_bind; [by apply list_variables_inv|]. intros _ e2 He2. by apply update_inv.
Qed.

Lemma output_inv n e : inv n e → always on_output_add (inv n) e ∧ always on_output_remove (inv n) e.
Proof.
  intros He. split.
  - unfold on_output_add. always_step. case_if; [by apply always_skip|].
    always_step. apply set_field_inv. core_same.
  - unfold on_output_remove. always_step. case_match; [core_same|done].
Qed.

Lemma select_values (g : nat → string * bool → string * bool) (o : options) :
  (∀ i x, (g i x).1 = x.1) → (imap g o).*1 = o.*1.
Proof.
  intros Hg. apply list_eq. intros i. rewrite !list_lookup_fmap, list_lookup_imap.
  destruct (o !! i); simpl; [by rewrite Hg|done].
Qed.

Lemma reselect_values flags o : (reselect flags o).*1 = o.*1.
Proof. apply select_values. by intros i []. Qed.

Lemma select_where_values p o : (select_where p o).*1 = o.*1.
Proof.
  unfold select_where. rewrite <-list_fmap_compose. apply list_fmap_ext. by intros i [] _.
Qed.

Lemma alter_values (g : string * bool → string * bool) i (o : options) :
  (∀ x, (g x).1 = x.1) → (alter g i o).*1 = o.*1.
Proof.
  intros Hg. apply list_eq. intros j. rewrite !list_lookup_fmap.
  rewrite list_lookup_alter. destruct (decide (i = j)) as [->|]; [|done].
  destruct (o !! j); simpl; [by rewrite Hg|done].
Qed.

Lemma on_select_inv n s flags e : inv n e → inv n (on_select s flags e).1.
Proof.
  intros He. eapply inv_same; [|exact He].
  destruct s; unfold on_select, modify, same_core; split_and!; try done; apply reselect_values.
Qed.

Lemma on_box_click_inv n b e : inv n e → always (on_box_click b) (inv n) e.
Proof.
  intros He. unfold on_box_click. always_step. always_step; [done|].
  case_if; [by apply always_skip|]. do 2 (always_step; [done|]).
  apply always_bind; [core_same|]. intros _ e1 He1.
  apply always_bind; [by apply set_field_inv|]. intros _ e2 He2.
  apply always_bind; [by apply set_field_inv|]. intros _ e3 He3.
  apply always_bind.
  { eapply inv_same; [|exact He3]. split_and!; try done. apply select_where_values. }
  intros _ e4 He4. apply always_bind.
  - apply always_forM; [done|]. intros i e5 _ He5. always_step. always_step; [done|]. always_step.
    eapply inv_same; [|exact He5]. split_and!; try done. apply alter_values. by intros [].
  - intros _ e5 He5. always_step. core_same.
Qed.

Lemma style_inv n f b e : (∀ x, boxid (f x) = boxid x) → inv n e → inv n (style f b e).1.
Proof.
  intros Hf He. eapply inv_same; [|exact He]. split_and!; try done. by apply boxids_alter.
Qed.

Lemma set_class_inv n elem cls e : inv n e → always (set_class elem cls) (inv n) e.
Proof.
  intros He. unfold set_class. always_step. always_step; [done|].
  by apply (style_inv n (λ b, b <| className := cls |>)).
Qed.

Lemma on_box_over_inv n b e : inv n e → always (on_box_over b) (inv n) e.
Proof.
  intros He. unfold on_box_over. always_step. do 2 (always_step; [done|]).
  apply always_bind.
  - apply always_forM; [done|]. intros [i t] e1 _ He1. apply always_forM; [done|].
    intros d e2 _ He2. unfold when. case_if; [by apply set_class_inv|by apply always_skip].
  - intros _ e1 He1. always_step; [done|]. apply always_forM; [done|].
    intros d e2 _ He2. case_if; [by apply always_skip|by apply set_class_inv].
Qed.

Lemma on_box_out_inv n e : inv n e → always on_box_out (inv n) e.
Proof.
  intros He. unfold on_box_out. always_step. always_step; [done|]. apply always_forM; [done|].
  intros i e1 _ He1. by apply set_class_inv.
Qed.

Lemma drag_inv n e : inv n e →
  (∀ b x y, always (on_box_down b x y) (inv n) e) ∧ (∀ x y, always (on_move x y) (inv n) e) ∧
  always on_up (inv n) e.
Proof.
  intros He. split_and!.
  - intros b x y. unfold on_box_down. always_step. always_step; [done|]. always_step. core_same.
  - intros x y. unfold on_move. always_step. case_if; [by apply always_skip|].
    always_step; [done|]. by apply style_inv.
  - unfold on_up, end_move. do 2 always_step.
    assert (inv n (e <| moving := false |>)) by core_same.
    case_match; [by apply style_inv|by apply always_skip].
Qed.

Lemma on_api_inv n l e : inv n e → always (on_api l) (inv n) e.
Proof.
  intros He. unfold on_api. apply always_bind.
  - apply always_forM; [done|]. intros d e1 _ He1. always_step; [done|]. always_step.
    destruct He1 as [H1 H2]. split; [upd_simpl; rewrite length_app; simpl; lia|].
    unfold the_doc in *. upd_simpl. rewrite lookup_app_l by done. exact H2.
  - intros _ e1 He1. always_step. core_same.
Qed.

(** Events that do not load another document. *)
Definition is_edit (ev : event) : bool :=
  match ev with EvLoadFile _ | EvLoadApi => false | _ => true end.

Lemma handle_inv n ev e :
  is_edit ev = true → Z.of_nat n + 1 < 2 ^ 53 → inv n e → inv (S n) (after ev e).
Proof.
  intros Hev Hn He. unfold after. change (always (handle ev) (inv (S n)) e).
  pose proof (inv_mono n e He) as He'.
  destruct ev; simpl; try done; try (by apply on_info_inv); try (by apply drag_inv);
    try (by apply output_inv).
  - always_step. core_same.
  - by apply set_field_inv.
  - by apply on_select_inv.
  - always_step. case_if; [core_same|done].
  - always_step. core_same.
  - by apply on_splits_inv.
  - by apply on_infiles_inv.
  - by apply on_variable_add_inv.
  - by apply on_variable_remove_inv.
  - unfold on_add_task. always_step. case_if; [by apply new_task_inv|by apply alert_inv].
  - by apply on_api_inv.
  - by apply on_box_click_inv.
  - by apply on_box_over_inv.
  - by apply on_box_out_inv.
Qed.

Lemma run_inv evs : ∀ n e,
  forallb is_edit evs = true → Z.of_nat (n + length evs) < 2 ^ 53 → inv n e →
  inv (n + length evs) (run evs e).
Proof.
  induction evs as [|ev evs IH]; intros n e Hev Hn He; simpl in *; [by rewrite Nat.add_0_r|].
  apply andb_true_iff in Hev as [Hev Hevs].
  replace (n + S (length evs))%nat with (S n + length evs)%nat by lia.
  apply IH; [done|lia|]. apply handle_inv; [done|lia|done].
Qed.

Lemma initial_inv d : inv 0 (initial d).
Proof.
  split; [simpl; lia|]. exists []. split_and!; [done|done|done|..].
  - intros l ->%list_elem_of_singleton. exists "#i_1", 0%nat. split_and!; [done|done|by exists 1%nat].
  - intros l ->%list_elem_of_singleton. by exists 0%nat.
  - intros l Hl. by apply elem_of_nil in Hl.
  - intros l Hl. by apply elem_of_nil in Hl.
  - done.
Qed.

Lemma start_inv d : inv 1 (start d).
Proof.
  unfold start. change (always display (inv 1) (initial d)). unfold display.
  pose proof (update_inv 0 (initial d) (initial_inv d)) as Hu. revert Hu.
  unfold always, mbind, M_bind. destruct (update (initial d)) as [s1 [[]|]]; [|apply inv_mono].
  by apply new_task_inv.
Qed.

(** C4: however a workflow is edited, its tasks are numbered from 1 in their
    order, and a task depends only on earlier tasks (or on 0, the raw inputs)
    and takes only raw inputs and files that an earlier task writes. *)
Theorem edited_workflow_is_acyclic d evs :
  forallb is_edit evs = true → Z.of_nat (length evs) < 2 ^ 53 - 1 →
  ∃ ts, d_tasks (the_doc (run evs (start d))) = Some ts ∧
    ∀ i t, ts !! i = Some t →
      taskid t = VNum (num_of_Z (Z.of_nat (S i))) ∧
      (∀ x, x ∈ dependsOn t → ∃ k, x = VStr (show (Z.of_nat k)) ∧ (k ≤ i)%nat) ∧
      (∀ f v, (f, v) ∈ t_inputs t → ∃ k, v = VStr (show (Z.of_nat k)) ∧ (k ≤ i)%nat ∧ source ts f k).
Proof.
  intros Hev Hlen. destruct (run_inv evs 1 (start d)) as [_ (ts & Hts & _ & Hok & _)];
    [done|simpl; lia|apply start_inv|].
  exists ts. split; [done|]. intros i t Hi. destruct (Hok i t Hi) as [H1 H2 H3]. split_and!; [done|..].
  - intros x Hx. destruct (H2 x Hx) as (k & -> & Hk). exists k. split; [done|lia].
  - intros f v Hf. destruct (H3 f v Hf) as (k & -> & Hk & Hs). exists k. split_and!; [done|lia|done].
Qed.

(** ** What [new_task] does *)

(** The state after a step, known by the fields that [new_task] changes. *)
Definition parts (e : editor) :=
  (docs e, data e, inputs e, playground e, fields e, task_output e, now e, curr_x e, curr_y e).

Ltac freeze_parts :=
  match goal with
  | |- wp _ _ ?st =>
      let e := fresh "e" in
      let C := fresh "C" in
      set (e := st);
      eassert (parts e = _) as C by (unfold parts, e; upd_simpl; reflexivity);
      clearbody e; unfold parts in C;
      repeat (let C' := fresh "C" in apply pair_eq in C as [C C'])
  end.

Lemma update_wp e info :
  (data e < length (docs e))%nat → workflow_info (the_doc e) = Some info →
  wp update (λ _ e',
    the_doc e' = (the_doc e) <| workflow_info :=
      Some (set "update_date" (JStr (datum (now e))) info) |> ∧
    json_out e' = Some (the_doc e') ∧ inputs e' = inputs e ∧ playground e' = playground e ∧
    fields e' = fields e ∧ task_output e' = task_output e ∧ loading e' = loading e ∧
    variable_list e' = variable_list e ∧ task_input e' = task_input e ∧
    task_depends e' = task_depends e ∧ data e' = data e ∧ length (docs e') = length (docs e) ∧
    now e' = now e) e.
Proof.
  intros Hd Hi. unfold update, set_doc. wp_step. wp_step. wp_step.
  apply (wp_lift _ info); [by rewrite Hi|]. cbv beta. do 3 wp_step.
  split; [|by split_and!; upd_simpl; rewrite ?length_insert].
  match goal with |- the_doc (upd json_out _ ?r) = _ =>
    change (the_doc (upd json_out (λ _, Some (the_doc r)) r)) with (the_doc r) end.
  by rewrite (the_doc_set (λ d, d <| workflow_info :=
    Some (set "update_date" (JStr (datum (now e))) info) |>)).
Qed.

Lemma selected_options_of l : selected_values (options_of l) = [].
Proof. induction l as [|x l IH]; [done|exact IH]. Qed.

(** [new_task] with a command in the form. *)
Lemma new_task_wp e info ts :
  (data e < length (docs e))%nat → workflow_info (the_doc e) = Some info →
  d_tasks (the_doc e) = Some ts → field "task_command" e ≠ "" →
  let t := form_task (length ts + 1) e in
  wp new_task (λ _ e',
    the_doc e' = (the_doc e) <| d_tasks := Some (ts ++ [t]) |>
      <| workflow_info := Some (set "update_date" (JStr (datum (now e))) info) |> ∧
    json_out e' = Some (the_doc e') ∧
    playground e' = playground e ++ [make_box t (curr_x e) (curr_y e)] ∧
    field "task_command" e' = "" ∧ field "task_args" e' = "" ∧ task_output e' = [] ∧
    inputs e' = inputs e ++ ((λ o, label o (to_str (taskid t))) <$> outputs t) ∧
    (task_input e').*1 = inputs e ++ ((λ o, label o (to_str (taskid t))) <$> outputs t) ∧
    selected_values (task_input e') = [] ∧ selected_values (task_depends e') = []) e.
Proof.
  intros Hd Hi Hts Hcmd t. unfold new_task. wp_step. wp_step. wp_step.
  assert (negb (field "task_command" e =? "")%string = true) as -> by by apply negb_true_iff, String.eqb_neq.
  cbn [when]. wp_step. apply (wp_lift _ ts); [by rewrite Hts|]. cbv beta zeta. fold t.
  generalize (to_str (taskid t)). intros tid. unfold set_field, set_doc, add_box.
  clearbody t. do 6 (wp_step; wp_step; freeze_parts). wp_step. wp_step. freeze_parts.
  assert (the_doc e4 = the_doc e) as E4 by (unfold the_doc; congruence).
  assert (the_doc e6 = (the_doc e) <| d_tasks := Some (ts ++ [t]) |>) as E6.
  { rewrite E4, Hts in *. unfold the_doc at 1. simpl default in *.
    replace (data e6) with (data e4) by congruence.
    replace (docs e6) with (docs e5) by congruence.
    match goal with H : docs e5 = _ |- _ => rewrite H end.
    by rewrite list_lookup_insert_eq by congruence. }
  assert (data e6 < length (docs e6))%nat as Hd6.
  { replace (docs e6) with (docs e5) by congruence.
    match goal with H : docs e5 = _ |- _ => rewrite H end. rewrite length_insert. congruence. }
  eapply wp_mono; [|by apply (update_wp e6 info Hd6); rewrite E6].
  intros _ e' (U1 & U2 & U3 & U4 & U5 & U6 & _). cbv beta. unfold refresh_selects. wp_step.
  assert (now e6 = now e) as En by congruence. rewrite E6, En in U1.
  split_and!; upd_simpl; rewrite ?options_of_values, ?selected_options_of; try done; try congruence.
  - unfold field. replace (fields e') with (<["task_command" := ""]> (<["task_args" := ""]> (fields e)))
      by congruence. by rewrite lookup_insert_eq.
  - unfold field. replace (fields e') with (<["task_command" := ""]> (<["task_args" := ""]> (fields e)))
      by congruence. rewrite lookup_insert_ne by done. by rewrite lookup_insert_eq.
Qed.

(** C12: with a command in the form, [new_task] returns; the document has one
    more task, made of the form, its date is set, the text area shows the
    document, the playground has one more box, the form is cleared and the
    files the task writes can be chosen as inputs. *)
Theorem new_task_adds_task e info ts :
  (data e < length (docs e))%nat → workflow_info (the_doc e) = Some info →
  d_tasks (the_doc e) = Some ts → field "task_command" e ≠ "" →
  let t := form_task (length ts + 1) e in
  wp new_task (λ _ e',
    the_doc e' = (the_doc e) <| d_tasks := Some (ts ++ [t]) |>
      <| workflow_info := Some (set "update_date" (JStr (datum (now e))) info) |> ∧
    json_out e' = Some (the_doc e') ∧
    playground e' = playground e ++ [make_box t (curr_x e) (curr_y e)] ∧
    field "task_command" e' = "" ∧ field "task_args" e' = "" ∧ task_output e' = [] ∧
    (task_input e').*1 = inputs e ++ ((λ o, label o (to_str (taskid t))) <$> outputs t) ∧
    selected_values (task_input e') = [] ∧ selected_values (task_depends e') = []) e.
Proof.
  intros Hd Hi Hts Hcmd t. eapply wp_mono; [|by apply (new_task_wp e info ts)]. intros [] e'. tauto.
Qed.

(** The origin of a file: that of the last of its options. *)
Definition last_origin (f : string) (l : list (string * Z)) : option Z :=
  snd <$> last (List.filter (λ p, p.1 =? f)%string l).

Lemma last_origin_snoc f l g k :
  last_origin f (l ++ [(g, k)]) = if (g =? f)%string then Some k else last_origin f l.
Proof.
  unfold last_origin. rewrite list_filter_app. simpl. destruct (g =? f)%string; [by rewrite last_snoc|].
  by rewrite app_nil_r.
Qed.

(** C31: the options that are selected become the inputs of the task. Whatever
    files of which tasks are selected, the inputs have exactly the selected files
    as their properties, each once, except for a file named like the prototype
    property, and each file has as its value the number of the task that its
    last selected option names. So of several selected files with the same name,
    written by different tasks, only the last is kept; when no two have the same
    name, the inputs are the selected files with their tasks, in their order. *)
Theorem selected_inputs_are_kept (l : list (string * Z)) :
  let o := collect_inputs ((λ '(f, k), label f (show k)) <$> l) in
  NoDup (keys o) ∧
  (∀ f, get f o = if (f =? "__proto__")%string then None
                  else (λ k, VStr (show k)) <$> last_origin f l) ∧
  (NoDup l.*1 → "__proto__" ∉ l.*1 → o = (λ '(f, k), (f, VStr (show k))) <$> l).
Proof.
  unfold collect_inputs. induction l as [|[g k] l (IH1 & IH2 & IH3)] using rev_ind.
  { split_and!; [constructor| |done]. intros f. by destruct (f =? "__proto__")%string. }
  cbv zeta in *. rewrite fmap_app, foldl_app. cbn [fmap list_fmap foldl].
  destruct (show_label g k) as [-> ->]. revert IH1 IH2 IH3. generalize (foldl
    (λ o val, assign (label_file val) (VStr (label_num val)) o) []
    ((λ '(f, k), label f (show k)) <$> l)). intros o IH1 IH2 IH3. unfold assign.
  destruct (String.eqb_spec g "__proto__") as [->|Hg]; split_and!.
  - done.
  - intros f. rewrite IH2, last_origin_snoc, (String.eqb_sym "__proto__" f). by destruct (f =? _)%string.
  - intros _ Hp. destruct Hp. rewrite fmap_app. set_solver.
  - by apply keys_set_NoDup.
  - intros f. rewrite last_origin_snoc. destruct (String.eqb_spec g f) as [->|Hne].
    + rewrite get_set_eq. by rewrite (proj2 (String.eqb_neq f _)).
    + by rewrite get_set_ne, IH2 by done.
  - rewrite !fmap_app. intros (Hnd & Hdis & _)%NoDup_app Hp. rewrite not_elem_of_app in Hp.
    rewrite IH3 by naive_solver. rewrite set_fresh; [done|]. unfold keys. rewrite <-list_fmap_compose.
    rewrite (list_fmap_ext _ fst) by (by intros ? []). intros Hin. apply (Hdis g Hin). by left.
Qed.

(** ** Witnesses *)

Definition today : date := mkDate 2014 0 31.

(** A task that writes two files and a task that takes the second. *)
Definition two_tasks : list event :=
  [EvType "task_command" "split.pl"; EvType "new_output" "a.fa"; EvOutputAdd;
   EvType "new_output" "b [x].fa"; EvOutputAdd; EvSelect SDepends [true];
   EvSelect SInput [true]; EvAddTask;
   EvType "task_command" "join.pl"; EvSelect SDepends [false; true];
   EvSelect SInput [false; false; true]; EvAddTask].

Lemma edited_workflow_is_acyclic_witness :
  ∃ t, default [] (d_tasks (the_doc (run two_tasks (start today)))) !! 1%nat = Some t ∧
    taskid t = VNum (num_of_Z 2) ∧ dependsOn t = [VStr "1"] ∧ t_inputs t = [("b [x].fa", VStr "1")] ∧
    ∀ x, x ∈ dependsOn t → ∃ k, x = VStr (show (Z.of_nat k)) ∧ (k ≤ 1)%nat.
Proof.
  destruct (edited_workflow_is_acyclic today two_tasks) as (ts & Hts & Hok);
    [reflexivity|vm_compute; reflexivity|].
  exists (mkTask (VNum (num_of_Z 2)) (mkCommand "join.pl" "") [VStr "1"] [("b [x].fa", VStr "1")] []).
  assert (default [] (d_tasks (the_doc (run two_tasks (start today)))) !! 1%nat =
    Some (mkTask (VNum (num_of_Z 2)) (mkCommand "join.pl" "") [VStr "1"] [("b [x].fa", VStr "1")] []))
    as Ht by vm_eq.
  split; [exact Ht|]. do 3 (split; [reflexivity|]).
  rewrite Hts in Ht. exact (proj1 (proj2 (Hok _ _ Ht))).
Defined.

Definition form_filled : editor := run [EvType "task_command" "split.pl"] (start today).

Lemma new_task_adds_task_witness :
  wp new_task (λ _ e', length (playground e') = 1%nat ∧ field "task_command" e' = "") form_filled.
Proof.
  eapply wp_mono; [|apply (new_task_adds_task form_filled
    [("name", JStr ""); ("author", JStr ""); ("contact", JStr ""); ("update_date", JStr "2014-00-31");
     ("description", JStr "")] [])].
  - intros [] e' (_ & _ & Hp & Hc & _). rewrite Hp, Hc. split; [vm_compute; reflexivity|reflexivity].
  - vm_compute. lia.
  - vm_eq.
  - vm_eq.
  - vm_compute. discriminate.
Defined.

(** Two files of one name: the second is kept. *)
Lemma selected_inputs_are_kept_witness :
  collect_inputs [label "#i_1" (show 0); label "b [x].fa" (show 1)] =
    [("#i_1", VStr "0"); ("b [x].fa", VStr "1")] ∧
  get "a.fa" (collect_inputs [label "a.fa" (show 1); label "a.fa" (show 2)]) = Some (VStr "2").
Proof.
  split.
  - apply (selected_inputs_are_kept [("#i_1", 0); ("b [x].fa", 1)]).
    + apply NoDup_cons. split; [set_solver|apply NoDup_singleton].
    + set_solver.
  - exact (proj1 (proj2 (selected_inputs_are_kept [("a.fa", 1); ("a.fa", 2)])) "a.fa").
Defined.
