(* ===== verification/WorkflowModes.v ===== *)
(** * Workflow editor: modes and layout

    What the handlers can do to the mode of the editor (loading, editing a task)
    and to the layout, as a step relation that every handler refines; the
    invariants of the runs follow by induction on it. *)

From Stdlib Require Import SpecFloat.
From S2P Require Import Prelude JsString JsNumber JsDecimal JsValue JsJson JsState Workflow WorkflowEdit.

(** ** Steps *)

(** [touch ld]: one assignment, seen from the mode and the layout; only a load
    ([ld]) assigns [widget.loading]. *)
Inductive touch (ld : bool) : editor → editor → Prop :=
| touch_rest e e' :
    loading e' = loading e → task_legend e' = task_legend e → curr_x e' = curr_x e →
    curr_y e' = curr_y e → length (playground e') = length (playground e) → touch ld e e'
| touch_box e t : touch ld e (add_box t e).1
| touch_legend e e' id :
    task_legend e' = "Edit Task " +++ id → loading e' = loading e → curr_x e' = curr_x e →
    curr_y e' = curr_y e → length (playground e') = length (playground e) → touch ld e e'
| touch_loading e b : ld = true → touch ld e (e <| loading := b |>).

Abbreviation touches ld := (rtc (touch ld)).

(** A handler that makes only such steps. *)
Definition refines (ld : bool) {A} (m : M editor A) : Prop :=
  ∀ e, touches ld e (m e).1.

Section refines.
Context {ld : bool}.

Lemma refines_bind {A B} (m : M editor A) (k : A → M editor B) :
  refines ld m → (∀ a, refines ld (k a)) → refines ld (m ≫= k).
Proof.
  intros Hm Hk e. specialize (Hm e). unfold mbind, M_bind. destruct (m e) as [e' [a|x]]; [|done].
  etrans; [exact Hm|apply Hk].
Qed.

Lemma refines_gets {A B} (f : editor → A) (k : A → M editor B) :
  (∀ a, refines ld (k a)) → refines ld (gets f ≫= k).
Proof. intros Hk e. apply Hk. Qed.

Lemma refines_lift {A B} (r : res A) (k : A → M editor B) :
  (∀ a, refines ld (k a)) → refines ld (lift r ≫= k).
Proof. intros Hk e. destruct r; [apply Hk|reflexivity]. Qed.

Lemma refines_skip : refines ld skip.
Proof. intros e. reflexivity. Qed.

Lemma refines_throw {A} x : refines ld (throw (A := A) x).
Proof. intros e. reflexivity. Qed.

Lemma refines_forM {A} (l : list A) (f : A → handler) :
  (∀ x, refines ld (f x)) → refines ld (forM l f).
Proof.
  intros Hf. induction l as [|x l IH]; [apply refines_skip|]. by apply refines_bind.
Qed.

Lemma refines_modify (f : editor → editor) : (∀ e, touch ld e (f e)) → refines ld (modify f).
Proof. intros Hf e. apply rtc_once, Hf. Qed.

Lemma refines_add_box t : refines ld (add_box t).
Proof. intros e. apply rtc_once, touch_box. Qed.

Lemma refines_style f n : refines ld (style f n).
Proof.
  apply refines_modify. intros e. apply touch_rest; try done. upd_simpl. apply length_alter.
Qed.

End refines.

(** An assignment to something else. *)
Ltac rest := apply refines_modify; intros ?; repeat case_match; apply touch_rest; done.

Ltac refine_step :=
  match goal with
  | |- refines _ (gets _ ≫= _) => apply refines_gets; intros ?; cbv beta
  | |- refines _ (lift _ ≫= _) => apply refines_lift; intros ?; cbv beta
  | |- refines _ (_ ≫= _) => apply refines_bind; [|intros ?]; cbv beta
  | |- refines _ skip => apply refines_skip
  | |- refines _ (throw _) => apply refines_throw
  | |- refines _ (forM _ _) => apply refines_forM; intros ?; cbv beta
  | |- refines _ (add_box _) => apply refines_add_box
  | |- refines _ (style _ _) => apply refines_style
  | |- refines _ (set_field _ _) => rest
  | |- refines _ (alert _) => rest
  | |- refines _ (set_doc _) => rest
  | |- refines _ (list_variables _) => rest
  | |- refines _ refresh_selects => rest
  | |- refines _ (when ?b _) => unfold when
  | |- refines _ (if ?b then _ else _) => destruct b
  | |- refines _ (match ?x with _ => _ end) => destruct x
  | |- refines _ (let '(_, _) := ?x in _) => destruct x
  | |- refines _ (modify _) => rest
  end.

Lemma refines_update ld : refines ld update.
Proof. unfold update. repeat refine_step. Qed.

Lemma refines_new_task ld : refines ld new_task.
Proof. unfold new_task. repeat (refine_step || apply refines_update). Qed.

Ltac refine_auto := repeat (refine_step || apply refines_update || apply refines_new_task).

Lemma refines_set_class ld elem cls : refines ld (set_class elem cls).
Proof.
  unfold set_class. do 2 refine_step. apply (refines_style (λ b, b <| className := cls |>)).
Qed.

Lemma refines_on_box_click ld n : refines ld (on_box_click n).
Proof.
  unfold on_box_click. do 2 refine_step. refine_step; [apply refines_skip|]. do 2 refine_step.
  apply refines_bind; [|intros _; refine_auto].
  apply refines_modify. intros e. by eapply touch_legend.
Qed.

Lemma refines_parse_workflow : refines true parse_workflow.
Proof.
  unfold parse_workflow. apply refines_bind; [apply refines_modify; intros; by apply touch_loading|].
  intros _. repeat match goal with
  | |- refines _ (modify (λ e, e <| loading := false |>) ≫= _) =>
      apply refines_bind; [apply refines_modify; intros; by apply touch_loading|intros _]
  | _ => refine_step || apply refines_update
  end.
Qed.

Lemma handle_touches ld ev : ld = true ∨ is_edit ev = true → refines ld (handle ev).
Proof.
  intros Hev. destruct ev; cbn [handle]; unfold on_select, on_name, on_author, on_contact,
    on_description, on_info, on_splits, on_infiles, push_input, on_variable_add,
    on_variable_remove, on_output_add, on_output_remove, on_add_task, edit_task, on_api,
    on_box_over, on_box_out, on_box_down, on_move, on_up, end_move;
    try (by refine_auto); try (apply refines_on_box_click);
    try (repeat (refine_step || apply refines_set_class)).
  all: destruct Hev as [->|?]; [|done].
  - unfold load_workflow. do 2 refine_step; [rest|apply refines_parse_workflow].
  - unfold on_load_api. repeat (refine_step || apply refines_parse_workflow).
Qed.

(** Invariants of the steps are invariants of the runs. *)
Lemma run_invariant ld (I : editor → Prop) evs e :
  (∀ e1 e2, touch ld e1 e2 → I e1 → I e2) → ld = true ∨ forallb is_edit evs = true →
  I e → I (run evs e).
Proof.
  intros Hstep Hev. revert e. induction evs as [|ev evs IH]; intros e He; simpl; [done|].
  apply IH; [by destruct Hev as [?|[_ ?]%andb_true_iff]; auto|].
  assert (touches ld e (after ev e)) as Ht.
  { apply (handle_touches ld ev). destruct Hev as [?|[? _]%andb_true_iff]; auto. }
  clear - Hstep He Ht. induction Ht; eauto.
Qed.

(** ** Layout *)

(** The place of the [k]-th box: five in a row. *)
Definition box_x (k : nat) : Z := 10 + 140 * (Z.of_nat k mod 5).
Definition box_y (k : nat) : Z := 10 + 140 * (Z.of_nat k / 5).

Lemma next_pos_box k : next_pos (box_x k) (box_y k) = (box_x (S k), box_y (S k)).
Proof.
  unfold next_pos, box_x, box_y, playground_width, box_size, box_padding.
  rewrite Nat2Z.inj_succ. generalize (Z.of_nat k). intros z.
  pose proof (Z.div_mod z 5 ltac:(lia)). pose proof (Z.mod_pos_bound z 5 ltac:(lia)).
  pose proof (Z.div_mod (Z.succ z) 5 ltac:(lia)). pose proof (Z.mod_pos_bound (Z.succ z) 5 ltac:(lia)).
  destruct (Z.ltb_spec 699 (10 + 140 * (z mod 5) + 100 * 2 + 20 * 2)).
  - assert (z mod 5 = 4) by lia. assert (Z.succ z mod 5 = 0 ∧ Z.succ z / 5 = z / 5 + 1) as [-> ->] by lia.
    f_equal. lia.
  - assert (z mod 5 ≤ 3) by lia.
    assert (Z.succ z mod 5 = z mod 5 + 1 ∧ Z.succ z / 5 = z / 5) as [-> ->] by lia. f_equal. lia.
Qed.

Definition placed (e : editor) : Prop :=
  curr_x e = box_x (length (playground e)) ∧ curr_y e = box_y (length (playground e)).

Lemma touch_placed e1 e2 : touch true e1 e2 → placed e1 → placed e2.
Proof.
  intros [] [Hx Hy]; unfold placed; try (split; congruence).
  - unfold add_box, modify. cbn [fst]. upd_simpl. rewrite Hx, Hy, next_pos_box, length_app.
    simpl length. by rewrite Nat.add_1_r.
  - done.
Qed.

Lemma start_placed d : placed (start d).
Proof. by split. Qed.

(** Two boxes of the size of the editor that do not overlap. *)
Definition apart (x1 y1 x2 y2 : Z) : Prop :=
  x1 + box_size ≤ x2 ∨ x2 + box_size ≤ x1 ∨ y1 + box_size ≤ y2 ∨ y2 + box_size ≤ y1.

(** C24: whatever happens, the next box is put at a place of its own: no two
    places overlap, every place is inside the width of the playground, and the
    first 25 are inside its height. *)
Theorem boxes_are_placed_apart d evs :
  let e := run evs (start d) in
  curr_x e = box_x (length (playground e)) ∧ curr_y e = box_y (length (playground e)) ∧
  (∀ i j, i ≠ j → apart (box_x i) (box_y i) (box_x j) (box_y j)) ∧
  (∀ i, 0 ≤ box_x i ∧ box_x i + box_size ≤ playground_width) ∧
  (∀ i, box_y i + box_size ≤ playground_height ↔ (i < 25)%nat).
Proof.
  intros e. assert (placed e) as [Hx Hy].
  { apply (run_invariant true); [apply touch_placed|by left|apply start_placed]. }
  split_and!; [done|done|..]; unfold apart, box_x, box_y, box_size, playground_width, playground_height.
  - intros i j Hij.
    pose proof (Z.div_mod (Z.of_nat i) 5 ltac:(lia)). pose proof (Z.div_mod (Z.of_nat j) 5 ltac:(lia)).
    pose proof (Z.mod_pos_bound (Z.of_nat i) 5 ltac:(lia)).
    pose proof (Z.mod_pos_bound (Z.of_nat j) 5 ltac:(lia)). lia.
  - intros i. pose proof (Z.mod_pos_bound (Z.of_nat i) 5 ltac:(lia)). lia.
  - intros i. pose proof (Z.div_mod (Z.of_nat i) 5 ltac:(lia)).
    pose proof (Z.mod_pos_bound (Z.of_nat i) 5 ltac:(lia)). lia.
Qed.

(** ** Edit mode *)

Lemma touch_edit_mode ld e1 e2 :
  touch ld e1 e2 → task_legend e1 ≠ "New Task" → task_legend e2 ≠ "New Task".
Proof.
  intros [e e' _ -> _ _ _|e t|e e' id -> _ _ _ _|e b _] Hl; [done|done|discriminate|done].
Qed.

(** C39: once a task has been opened for editing, no sequence of actions makes the
    add button add a task again: it only reports. *)
Theorem edit_mode_is_never_left e evs :
  task_legend e ≠ "New Task" → handle EvAddTask (run evs e) = alert "editing" (run evs e).
Proof.
  intros Hl. cbn [handle]. unfold on_add_task, mbind, M_bind, gets.
  assert (task_legend (run evs e) ≠ "New Task") as Hr.
  { apply (run_invariant true (λ e, task_legend e ≠ "New Task")); [apply touch_edit_mode|by left|done]. }
  by rewrite (proj2 (String.eqb_neq _ _) Hr).
Qed.

(** ** A load that fails *)

Lemma touch_loading_kept e1 e2 : touch false e1 e2 → loading e1 = true → loading e2 = true.
Proof. intros []; congruence || done. Qed.

Definition form_event (ev : event) : bool :=
  match ev with EvName | EvAuthor | EvContact | EvDescription | EvSplits | EvInfiles => true | _ => false end.

(** A document without the parts that [parse_workflow] needs. *)
Definition broken (d : doc) : Prop := workflow_info d = None ∨ d_tasks d = None.

Lemma parse_workflow_fails e :
  broken (the_doc e) → fails parse_workflow (λ x e', x = TypeError ∧ loading e' = true) e.
Proof.
  intros Hb. unfold parse_workflow. do 2 (apply fails_bind; wp_step).
  match goal with |- context [the_doc ?x] => change (the_doc x) with (the_doc e) end.
  destruct (workflow_info (the_doc e)) as [info|] eqn:Hi; [|by eapply fails_lift_bind].
  destruct Hb as [?|Ht]; [congruence|].
  apply fails_bind, (wp_lift _ info); [done|]. cbv beta.
  unfold set_doc, set_field, list_variables. do 10 (apply fails_bind; wp_step).
  eapply fails_lift_bind; [by rewrite Ht|]. done.
Qed.

Lemma load_fails d e :
  broken d → handle (EvLoadFile (Ok d)) e = (after (EvLoadFile (Ok d)) e, Throw TypeError) ∧
    loading (after (EvLoadFile (Ok d)) e) = true.
Proof.
  intros Hb. assert (fails (handle (EvLoadFile (Ok d))) (λ x e', x = TypeError ∧ loading e' = true) e) as Hf.
  { cbn [handle]. unfold load_workflow. apply fails_bind, (wp_lift _ d); [done|]. cbv beta.
    apply fails_bind. wp_step. apply parse_workflow_fails.
    assert (the_doc (fresh_doc d e) = d) as ->; [|done]. unfold the_doc, fresh_doc. upd_simpl.
    by rewrite lookup_app_r, Nat.sub_diag by lia. }
  unfold fails, after in *. destruct (handle _ e) as [e' [?|x]]; [done|]. by destruct Hf as [-> ?].
Qed.

(** C38: a document without tasks or without its info part makes the load throw
    and leaves the editor in loading mode: from then on, until another document
    is loaded, the handlers of the general fields do nothing. *)
Theorem failed_load_disables_form d e evs ev :
  broken d → forallb is_edit evs = true → form_event ev = true →
  (handle (EvLoadFile (Ok d)) e).2 = Throw TypeError ∧
  let e' := run evs (after (EvLoadFile (Ok d)) e) in handle ev e' = (e', Ok ()).
Proof.
  intros Hb Hevs Hev. destruct (load_fails d e Hb) as [Hf Hl]. split; [by rewrite Hf|]. intros e'.
  assert (loading e' = true) as Hl'.
  { apply (run_invariant false (λ e, loading e = true)); [apply touch_loading_kept|by right|done]. }
  destruct ev; try discriminate; cbn [handle];
    unfold on_name, on_author, on_contact, on_description, on_info, on_splits, on_infiles,
      mbind, M_bind, gets; by rewrite Hl'.
Qed.

(** ** Documents of the workflow API *)

(** The document of the editor, but for its info part. *)
Definition content (e : editor) :=
  (data e, length (docs e), d_tasks (the_doc e), variables (the_doc e), raw_inputs (the_doc e)).

Lemma content_rest e e' : docs e' = docs e → data e' = data e → content e' = content e.
Proof. intros E1 E2. unfold content, the_doc. by rewrite E1, E2. Qed.

Lemma content_info e v :
  (data e < length (docs e))%nat → content (set_doc (λ d, d <| workflow_info := v |>) e).1 = content e.
Proof.
  intros Hd. unfold content, set_doc, modify. cbn [fst]. upd_simpl.
  rewrite (the_doc_set (λ d, d <| workflow_info := v |>)) by done. by rewrite length_insert.
Qed.

Lemma parse_workflow_content e0 e :
  (data e0 < length (docs e0))%nat → content e = content e0 →
  always parse_workflow (λ e', content e' = content e0) e.
Proof.
  intros Hd He. pose (I := λ e', content e' = content e0).
  assert (∀ e', I e' → (data e' < length (docs e'))%nat) as HI.
  { intros e' E. unfold I, content in E. congruence. }
  assert (∀ e' v, I e' → I (set_doc (λ d, d <| workflow_info := v |>) e').1) as Hset.
  { intros e' v E. unfold I in *. rewrite content_info; auto. }
  change (always parse_workflow I e). change (I e) in He.
  unfold parse_workflow. apply always_bind; [exact He|]. intros _ e1 H1. always_step.
  always_step; [exact H1|]. apply always_bind; [by apply Hset|]. intros _ e2 H2.
  do 9 (apply always_bind; [done|]; intros _ ? ?). always_step; [done|].
  apply always_bind.
  { apply always_forM; [done|]. intros t e3 _ Ht. by apply always_bind. }
  intros _ e4 He4. do 2 (apply always_bind; [done|]; intros _ ? ?).
  unfold update. always_step. always_step; [done|]. apply always_bind; [by apply Hset|done].
Qed.

(** A workflow of the API is shared with its entry in the list: loading it
    again does not bring back the state before the editing. *)
Theorem reload_keeps_edits e name :
  (api_options e).*1 !! api_selected e = Some name → get name (api_workflows e) = Some (data e) →
  (data e < length (docs e))%nat →
  let e' := after EvLoadApi e in
  data e' = data e ∧ d_tasks (the_doc e') = d_tasks (the_doc e) ∧
  variables (the_doc e') = variables (the_doc e) ∧ raw_inputs (the_doc e') = raw_inputs (the_doc e).
Proof.
  intros Hn Hr Hd e'. assert (content e' = content e) as E.
  { unfold e', after. cbn [handle]. unfold on_load_api.
    change (always (e ← gets (λ e, e);
      match (api_options e).*1 !! api_selected e with
      | None => skip
      | Some name =>
          match get name (api_workflows e) with
          | Some r => _ ← modify (λ e, e <| data := r |>); parse_workflow
          | None => skip
          end
      end) (λ e', content e' = content e) e).
    always_step. rewrite Hn, Hr. always_step. by apply parse_workflow_content. }
  unfold content in E. split_and!; congruence.
Qed.

(** ** Witnesses *)

Definition sample_task (k : Z) (deps : list value) (outs : list string) : task :=
  mkTask (VNum (num_of_Z k)) (mkCommand "cmd" "") deps [] outs.

Definition sample_doc : doc :=
  mkDoc (Some [("name", JStr "qc")]) None (Some [("#i_1", JStr "#data_url")]) None (Some [])
    (Some [sample_task 1 [VNum (num_of_Z 0)] ["a.fa"; "b.fa"]]).

Definition opened : editor :=
  run [EvLoadFile (Ok sample_doc); EvToggleEdit; EvBoxClick 0] (start today).

Lemma edit_mode_is_never_left_witness :
  task_legend opened = "Edit Task 1" ∧
  handle EvAddTask (run [EvToggleEdit; EvLoadFile (Ok sample_doc)] opened) =
    alert "editing" (run [EvToggleEdit; EvLoadFile (Ok sample_doc)] opened).
Proof.
  split; [vm_compute; reflexivity|]. apply (edit_mode_is_never_left opened).
  vm_compute. discriminate.
Defined.

Lemma failed_load_disables_form_witness :
  (handle (EvLoadFile (Ok (sample_doc <| d_tasks := None |>))) (start today)).2 = Throw TypeError ∧
  let e' := run [EvType "wf_name" "x"]
    (after (EvLoadFile (Ok (sample_doc <| d_tasks := None |>))) (start today)) in
  handle EvName e' = (e', Ok ()).
Proof.
  apply (failed_load_disables_form (sample_doc <| d_tasks := None |>) (start today)
    [EvType "wf_name" "x"] EvName); [right; reflexivity|reflexivity|reflexivity].
Defined.

(** A workflow of the API with a task added to it. *)
Definition api_edited : editor :=
  run [EvApi [sample_doc]; EvLoadApi; EvType "task_command" "more.pl"; EvAddTask] (start today).

Lemma reload_keeps_edits_witness :
  length (default [] (d_tasks (the_doc (after EvLoadApi api_edited)))) = 2%nat.
Proof.
  destruct (reload_keeps_edits api_edited "qc") as (_ & E & _).
  - vm_compute. reflexivity.
  - vm_compute. reflexivity.
  - vm_compute. lia.
  - rewrite E. vm_compute. reflexivity.
Defined.
