(* ===== verification/WorkflowVisual.v ===== *)
(** * Workflow editor: the playground

    Dragging a box, and the boxes that are marked while the mouse is over one. *)

From Stdlib Require Import SpecFloat.
From S2P Require Import Prelude JsString JsNumber JsDecimal JsValue JsJson JsState Workflow WorkflowEdit WorkflowModes.

(** ** Dragging *)

Definition px (z : Z) : string := show z +++ "px".

Lemma parseInt_px z : Z.abs z ≤ 2 ^ 53 → parseInt (px z) = JInt z.
Proof. intros Hz. by apply parseInt_show. Qed.

Definition clamp (lo hi z : Z) : Z := Z.min hi (Z.max lo z).

Lemma clamp_style_px lo hi z :
  0 ≤ lo ≤ hi → hi ≤ 1000 → Z.abs z ≤ 2 ^ 53 → clamp_style lo hi (px z) = px (clamp lo hi z).
Proof.
  intros Hlo Hhi Hz. unfold clamp_style, clamp. rewrite parseInt_px by done. unfold jgt. simpl.
  change (show lo +++ "px") with (px lo). change (show hi +++ "px") with (px hi).
  destruct (Z.ltb_spec z lo); rewrite parseInt_px by lia; simpl;
    match goal with |- context [hi <? ?a] => destruct (Z.ltb_spec hi a) end; f_equal; lia.
Qed.

(** While box [n] is dragged. *)
Definition dragging (n : nat) (g : grip) (old : list box) (e : editor) : Prop :=
  moving e = true ∧ grip_ e = Some g ∧ g_elem g = n ∧ is_Some (playground e !! n) ∧
  ∀ m, m ≠ n → playground e !! m = old !! m.

Lemma on_move_dragging n g old e x y :
  dragging n g old e →
  dragging n g old (after (EvMove x y) e) ∧
  ∃ b, playground (after (EvMove x y) e) !! n = Some b ∧
    box_left b = jshow (jadd (g_xorig g) (jsub (JInt x) (JInt (g_x g)))) +++ "px" ∧
    box_top b = jshow (jadd (g_yorig g) (jsub (JInt y) (JInt (g_y g)))) +++ "px".
Proof.
  intros (Hm & Hg & Hn & [b Hb] & Ho). unfold after. cbn [handle].
  unfold on_move, mbind, M_bind, gets. rewrite Hm, Hg. cbn [negb need lift].
  unfold lift, style, modify. cbn [fst]. rewrite Hn.
  assert (∀ f, alter f n (playground e) !! n = Some (f b)) as Ha.
  { intros f. rewrite list_lookup_alter, decide_True by done. by rewrite Hb. }
  split.
  - split_and!; try done; upd_simpl.
    + rewrite Ha. eauto.
    + intros m Hne. rewrite list_lookup_alter_ne by done. auto.
  - eexists. upd_simpl. rewrite Ha. split; [done|]. by split.
Qed.

Lemma moves_dragging n g old (moves : list (Z * Z)) : ∀ e,
  dragging n g old e → dragging n g old (run ((λ p, EvMove p.1 p.2) <$> moves) e).
Proof.
  induction moves as [|[x y] moves IH]; intros e He; [done|].
  apply IH. by apply on_move_dragging.
Qed.

Definition small (z : Z) : Prop := Z.abs z ≤ 2 ^ 50.

Lemma orig_px z : small z → jor (parseInt (px z)) (JInt 0) = JInt z.
Proof.
  unfold small. intros Hz. rewrite parseInt_px by lia. unfold jor. simpl.
  by destruct (Z.eqb_spec z 0) as [->|].
Qed.

Lemma moved_px o a b :
  small o → small a → small b → jshow (jadd (JInt o) (jsub (JInt a) (JInt b))) +++ "px" = px (o + a - b).
Proof.
  unfold small. intros Ho Ha Hb. unfold jsub, jopp, jadd.
  rewrite (jround_small (a + - b)) by lia. rewrite jround_small by lia. simpl.
  unfold px. do 2 f_equal. lia.
Qed.

(** C14: pressing the mouse on a box, moving it any number of times and releasing
    it moves the box by the way from the first to the last place of the mouse,
    kept inside the playground, and moves no other box. *)
Theorem drag_moves_box e n b l t x y moves x' y' :
  playground e !! n = Some b → box_left b = px l → box_top b = px t →
  Forall small [l; t; x; y; x'; y'] →
  let e' := run ([EvBoxDown n x y] ++ ((λ p, EvMove p.1 p.2) <$> moves) ++ [EvMove x' y'; EvUp]) e in
  (∃ b', playground e' !! n = Some b' ∧
    box_left b' = px (clamp 0 (playground_width - box_size) (l + x' - x)) ∧
    box_top b' = px (clamp 0 (playground_height - box_size) (t + y' - y))) ∧
  moving e' = false ∧ ∀ m, m ≠ n → playground e' !! m = playground e !! m.
Proof.
  intros Hb Hl Ht Hs e'. rewrite !Forall_cons in Hs. destruct Hs as (Sl & St & Sx & Sy & Sx' & Sy' & _).
  set (g := mkGrip x y (JInt l) (JInt t) n).
  assert (dragging n g (playground e) (after (EvBoxDown n x y) e)) as H1.
  { unfold after. cbn [handle]. unfold on_box_down, mbind, M_bind, gets, lift. rewrite Hb.
    cbn [need]. unfold modify. cbn [fst]. rewrite Hl, Ht, !orig_px by done.
    split_and!; try done; upd_simpl; eauto. }
  unfold e'. unfold run. rewrite !foldl_app. cbn [foldl].
  apply (moves_dragging _ _ _ moves) in H1. unfold run in H1.
  set (e1 := foldl _ _ ((λ p, EvMove p.1 p.2) <$> moves)) in *. clearbody e1. clear e'.
  destruct (on_move_dragging _ _ _ _ x' y' H1) as [(M1 & M2 & M3 & _ & M5) (b2 & B1 & B2 & B3)].
  set (e2 := after (EvMove x' y') e1) in *. clearbody e2.
  cbn [g_xorig g_yorig g_x g_y g] in B2, B3. rewrite moved_px in B2, B3 by done.
  assert (after EvUp e2 = e2 <| moving := false |> <| playground := alter (λ b,
    b <| box_top := clamp_style 0 649 (box_top b) |> <| box_left := clamp_style 0 599 (box_left b) |>)
    n (playground e2) |>) as ->.
  { unfold after. cbn [handle]. unfold on_up, end_move, mbind, M_bind, gets, modify at 1.
    change (grip_ (e2 <| moving := false |>)) with (grip_ e2). by rewrite M2. }
  upd_simpl.
  split_and!.
  - eexists. rewrite list_lookup_alter, decide_True by done. rewrite B1. split; [done|].
    unfold small in *. upd_simpl. rewrite B2, B3.
    split; apply clamp_style_px; unfold playground_width, playground_height, box_size; lia.
  - done.
  - intros m Hne. rewrite list_lookup_alter_ne by done. auto.
Qed.

(** ** The boxes that are marked *)

Lemma box_id_inj a b : box_id a = box_id b → a = b.
Proof. unfold box_id. intros E. by simplify_eq/=. Qed.

Lemma VStr_show_inj a b : VStr (show a) = VStr (show b) → a = b.
Proof. intros E. apply show_inj. congruence. Qed.

Lemma loose_eq_id k z :
  0 ≤ k < 2 ^ 53 → 0 ≤ z < 2 ^ 53 → loose_eq (VStr (show k)) (VNum (num_of_Z z)) = (k =? z).
Proof.
  intros Hk Hz. unfold loose_eq, to_number. rewrite string_to_number_show by lia.
  apply num_eq_of_Z; lia.
Qed.

Lemma loose_eq_ids a b :
  Z.abs a < 2 ^ 53 → Z.abs b < 2 ^ 53 → loose_eq (VNum (num_of_Z a)) (VNum (num_of_Z b)) = (a =? b).
Proof. apply num_eq_of_Z. Qed.

Lemma filter_unique {A} (p : A → bool) l n x :
  l !! n = Some x → p x = true → (∀ j y, l !! j = Some y → p y = true → j = n) →
  List.filter p l = [x].
Proof.
  intros Hn Hx Hu. rewrite <-(take_drop_middle l n x Hn), list_filter_app. simpl. rewrite Hx.
  assert (∀ l', (∀ y, y ∈ l' → p y = false) → List.filter p l' = []) as Hnil.
  { clear. induction l' as [|y l' IH]; intros Hl; simpl; [done|].
    rewrite (Hl y) by (by left). apply IH. intros z Hz. apply Hl. by right. }
  rewrite !Hnil; [done|..].
  - intros y [j Hj]%list_elem_of_lookup. rewrite lookup_drop in Hj. destruct (p y) eqn:E; [|done].
    specialize (Hu _ _ Hj E). lia.
  - intros y (j & Hj & Hlt)%elem_of_take. destruct (p y) eqn:E; [|done].
    specialize (Hu _ _ Hj E). lia.
Qed.

Section hover.
Context (ts : list task) (e0 : editor).
Hypothesis Hbig : Z.of_nat (length ts) < 2 ^ 53 - 1.
Hypothesis Hok : tasks_ok ts.
Hypothesis Hboxes : boxid <$> playground e0 = taskid <$> ts.

(** The classes of the boxes, against those of the state at the start. *)
Definition marked (f : nat → option string) (e : editor) : Prop :=
  boxid <$> playground e = taskid <$> ts ∧
  ∀ i b, playground e0 !! i = Some b →
    ∃ b', playground e !! i = Some b' ∧ className b' = default (className b) (f i).

Lemma box_at e i b :
  boxid <$> playground e = taskid <$> ts → playground e !! i = Some b →
  boxid b = VNum (num_of_Z (Z.of_nat (S i))) ∧ (i < length ts)%nat.
Proof.
  intros E Hi. assert ((taskid <$> ts) !! i = Some (boxid b)) as Ht.
  { rewrite <-E, list_lookup_fmap, Hi. done. }
  rewrite list_lookup_fmap in Ht. apply fmap_Some in Ht as (t & Ht & ->).
  split; [apply (ok_id _ _ _ (Hok _ _ Ht))|by eapply lookup_lt_Some].
Qed.

Lemma find_box_at e k :
  boxid <$> playground e = taskid <$> ts → (k < length ts)%nat →
  find_box (box_id (show (Z.of_nat (S k)))) (playground e) = Some k.
Proof.
  intros E Hk. unfold find_box.
  assert (length (playground e) = length ts) as Hlen.
  { rewrite <-(length_fmap boxid), E. apply length_fmap. }
  destruct (lookup_lt_is_Some_2 (playground e) k) as [b Hb]; [lia|].
  assert (∀ i b', playground e !! i = Some b' →
    box_id (to_str (boxid b')) = box_id (show (Z.of_nat (S k))) → i = k) as Hinj.
  { intros i b' Hi Heq%box_id_inj. destruct (box_at e i b' E Hi) as [Eb Hlt].
    rewrite Eb, to_str_id in Heq by lia. apply show_inj in Heq. lia. }
  destruct (list_find_Some (λ b', box_id (to_str (boxid b')) = box_id (show (Z.of_nat (S k))))
    (playground e) k b) as [_ Hf].
  rewrite Hf; [done|]. split_and!; [done| |].
  - destruct (box_at e k b E Hb) as [-> _]. by rewrite to_str_id by lia.
  - intros j y Hj Hjk Hy. specialize (Hinj j y Hj Hy). lia.
Qed.

Lemma set_class_marked f e k cls :
  marked f e → (k < length ts)%nat →
  wp (set_class (box_id (show (Z.of_nat (S k)))) cls)
    (λ _, marked (λ i, if (i =? k)%nat then Some cls else f i)) e.
Proof.
  intros [E Hf] Hk. unfold set_class. do 3 wp_step.
  apply (wp_lift _ k); [by rewrite find_box_at|]. cbv beta. wp_step. split; upd_simpl.
  - rewrite boxids_alter; done.
  - intros i b Hb. destruct (Hf i b Hb) as (b' & Hb' & Hc). rewrite list_lookup_alter.
    destruct (Nat.eqb_spec i k) as [->|Hne].
    + rewrite decide_True by done. rewrite Hb'. eexists. by split.
    + rewrite decide_False by done. eauto.
Qed.

Lemma marked_ext f f' e : (∀ i, f i = f' i) → marked f e → marked f' e.
Proof.
  intros Hff [E Hf]. split; [done|]. intros i b Hb. rewrite <-Hff. auto.
Qed.

(** Task [t] depends on the task of a box with the id [id]. *)
Definition depends (id : value) (t : task) : bool := existsb (λ d, loose_eq d id) (dependsOn t).

Definition first_marks (id : value) (l : list (nat * task)) (i : nat) : option string :=
  if existsb (λ p, (p.1 =? i)%nat && depends id p.2) l then Some "taskbox dependor" else None.

Lemma mark_dependors id e :
  marked (λ _, None) e →
  wp (forM (imap pair ts) (λ '(i, t), forM (dependsOn t) (λ d,
    when (loose_eq d id) (set_class (box_id (show (Z.of_nat i + 1))) "taskbox dependor"))))
    (λ _, marked (first_marks id (imap pair ts))) e.
Proof.
  intros He. apply (wp_forM _ _ (λ l, marked (first_marks id l))); [done| |done].
  intros l [i t] rest e1 El He1.
  assert (i < length ts)%nat as Hi.
  { assert ((i, t) ∈ imap pair ts) as Hin by (rewrite El; set_solver).
    apply list_elem_of_lookup in Hin as [k Hk]. rewrite list_lookup_imap in Hk.
    apply fmap_Some in Hk as (t' & Ht' & [= -> ->]). by eapply lookup_lt_Some. }
  apply (wp_forM _ _ (λ ds, marked (λ j, if (j =? i)%nat && existsb (λ d, loose_eq d id) ds
                                  then Some "taskbox dependor" else first_marks id l j))).
  - eapply marked_ext; [|exact He1]. intros j. simpl. by rewrite andb_false_r.
  - intros ds d rest' e2 _ He2. unfold when. destruct (loose_eq d id) eqn:Ed.
    + replace (Z.of_nat i + 1) with (Z.of_nat (S i)) by lia.
      eapply wp_mono; [|by apply set_class_marked]. intros [] e3. apply marked_ext. intros j.
      rewrite existsb_app. simpl. rewrite Ed, orb_true_r, andb_true_r.
      by destruct (j =? i)%nat.
    + apply wp_skip. eapply marked_ext; [|exact He2]. intros j.
      rewrite existsb_app. simpl. by rewrite Ed, !orb_false_r.
  - intros e2. apply marked_ext. intros j. unfold first_marks. rewrite existsb_app. simpl.
    unfold depends. rewrite (Nat.eqb_sym j i).
    by destruct (i =? j)%nat, (existsb _ (dependsOn t)), (existsb _ l).
Qed.

Definition second_marks (deps : list value) (f : nat → option string) (i : nat) : option string :=
  if bool_decide (VStr (show (Z.of_nat (S i))) ∈ deps) then Some "taskbox dependant" else f i.

Lemma mark_dependants n t f e :
  ts !! n = Some t → marked f e →
  wp (forM (dependsOn t) (λ d,
    if loose_eq d (VNum (num_of_Z 0)) then skip
    else set_class (box_id (to_str d)) "taskbox dependant")) (λ _, marked (second_marks (dependsOn t) f)) e.
Proof.
  intros Ht He. pose proof (lookup_lt_Some _ _ _ Ht) as Hlt.
  apply (wp_forM _ _ (λ l, marked (second_marks l f))); [done| |done].
  intros l d rest e1 El He1.
  destruct (ok_deps _ _ _ (Hok _ _ Ht) d) as (k & -> & Hk); [rewrite El; set_solver|].
  rewrite (loose_eq_id (Z.of_nat k) 0) by lia. destruct k as [|k].
  - simpl. apply wp_skip. eapply marked_ext; [|exact He1]. intros j. unfold second_marks.
    assert (VStr (show (Z.of_nat (S j))) ∈ l ↔ VStr (show (Z.of_nat (S j))) ∈ l ++ [VStr "0"]) as Hiff.
    { rewrite elem_of_app, list_elem_of_singleton. split; [by left|]. intros [?|E]; [done|].
      apply (VStr_show_inj (Z.of_nat (S j)) 0) in E. lia. }
    by rewrite (bool_decide_ext _ _ Hiff).
  - rewrite (proj2 (Z.eqb_neq _ _)) by lia. simpl to_str.
    eapply wp_mono; [|apply set_class_marked; [exact He1|lia]]. intros [] e3. apply marked_ext.
    intros j. unfold second_marks.
    assert (VStr (show (Z.of_nat (S j))) ∈ l ++ [VStr (show (Z.of_nat (S k)))] ↔
            VStr (show (Z.of_nat (S j))) ∈ l ∨ j = k) as Hiff.
    { rewrite elem_of_app, list_elem_of_singleton. split; intros [?|E]; auto.
      - apply VStr_show_inj in E. right. lia.
      - right. by rewrite E. }
    rewrite (bool_decide_ext _ _ Hiff).
    destruct (Nat.eqb_spec j k) as [->|Hne]; [by rewrite bool_decide_true by auto|].
    repeat case_bool_decide; tauto || done.
Qed.

(** The dependencies of a task of the document are the ids of tasks, as text. *)
Lemma depends_spec n i t :
  (n < length ts)%nat → ts !! i = Some t →
  depends (VNum (num_of_Z (Z.of_nat (S n)))) t =
    bool_decide (VStr (show (Z.of_nat (S n))) ∈ dependsOn t).
Proof.
  intros Hn Hi. pose proof (lookup_lt_Some _ _ _ Hi). apply eq_bool_prop_intro.
  rewrite bool_decide_spec. unfold depends. rewrite Is_true_true, existsb_exists.
  setoid_rewrite <-list_elem_of_In. split.
  - intros (d & Hd & Heq). destruct (ok_deps _ _ _ (Hok _ _ Hi) d Hd) as (k & -> & Hk).
    rewrite loose_eq_id in Heq by lia. apply Z.eqb_eq in Heq. by rewrite <-Heq.
  - intros Hin. eexists. split; [exact Hin|]. rewrite loose_eq_id by lia. apply Z.eqb_refl.
Qed.

Lemma first_marks_at id i t :
  ts !! i = Some t →
  first_marks id (imap pair ts) i = if depends id t then Some "taskbox dependor" else None.
Proof.
  intros Hi. unfold first_marks.
  assert (existsb (λ p, (p.1 =? i)%nat && depends id p.2) (imap pair ts) = depends id t) as ->; [|done].
  apply eq_bool_prop_intro. rewrite !Is_true_true, existsb_exists. setoid_rewrite <-list_elem_of_In.
  split.
  - intros ([j t'] & Hin & E). apply list_elem_of_lookup in Hin as [k Hk].
    rewrite list_lookup_imap in Hk. apply fmap_Some in Hk as (t2 & Ht2 & [= -> ->]).
    simpl in E. apply andb_true_iff in E as [->%Nat.eqb_eq E]. congruence.
  - intros Hd. exists (i, t). split; [|simpl; by rewrite Nat.eqb_refl].
    apply (list_elem_of_lookup_2 _ i). by rewrite list_lookup_imap, Hi.
Qed.

End hover.

(** C13: in an edited workflow the mouse over a box marks exactly the boxes of the
    tasks its task depends on and of the tasks that depend on it, and the
    handler returns. *)
Theorem hover_marks_neighbours d evs n :
  forallb is_edit evs = true → Z.of_nat (length evs) < 2 ^ 53 - 2 →
  let e := run evs (start d) in
  (n < length (playground e))%nat →
  ∃ ts t, d_tasks (the_doc e) = Some ts ∧ ts !! n = Some t ∧
    wp (on_box_over n) (λ _ e', ∀ i b ti, playground e !! i = Some b → ts !! i = Some ti →
      ∃ b', playground e' !! i = Some b' ∧
        className b' =
          if bool_decide (VStr (show (Z.of_nat (S i))) ∈ dependsOn t) then "taskbox dependant"
          else if bool_decide (VStr (show (Z.of_nat (S n))) ∈ dependsOn ti) then "taskbox dependor"
          else className b) e.
Proof.
  intros Hev Hlen e Hn.
  destruct (run_inv evs 1 (start d)) as [_ (ts & Hts & Hmax & Hok & _ & _ & _ & _ & Hbox)];
    [done|simpl; lia|apply start_inv|]. fold e in Hts, Hbox.
  assert (Z.of_nat (length ts) < 2 ^ 53 - 1) as Hbig by lia. clear Hmax.
  destruct (lookup_lt_is_Some_2 (playground e) n Hn) as [b Hb].
  destruct (box_at ts Hok e n b Hbox Hb) as [Eb Hlt].
  destruct (lookup_lt_is_Some_2 ts n Hlt) as [t Ht]. exists ts, t. split_and!; [done|done|].
  unfold on_box_over. do 3 wp_step. apply (wp_lift _ b); [by rewrite Hb|]. cbv beta.
  wp_step. apply (wp_lift _ ts); [by rewrite Hts|]. cbv beta. wp_step.
  eapply wp_mono; [|apply (mark_dependors ts e Hbig Hok Hbox (boxid b) e)].
  2: { split; [done|]. intros i b' Hb'. eauto. }
  intros [] e1 He1. cbv beta. wp_step.
  assert (last (List.filter (λ t, loose_eq (taskid t) (boxid b)) ts) = Some t) as Hlast.
  { rewrite (filter_unique _ ts n t); [done|done| |].
    - rewrite (ok_id _ _ _ (Hok _ _ Ht)), Eb, loose_eq_ids by lia. apply Z.eqb_refl.
    - intros j y Hj Heq. pose proof (lookup_lt_Some _ _ _ Hj).
      rewrite (ok_id _ _ _ (Hok _ _ Hj)), Eb, loose_eq_ids in Heq by lia. apply Z.eqb_eq in Heq. lia. }
  apply (wp_lift _ t); [by rewrite Hlast|]. cbv beta.
  eapply wp_mono; [|eapply (mark_dependants ts e Hbig Hok Hbox n t); [exact Ht|exact He1]].
  intros [] e2 [_ He2] i bi ti Hbi Hti. destruct (He2 i bi Hbi) as (b' & Hb' & Hc).
  exists b'. split; [done|]. rewrite Hc. unfold second_marks. case_bool_decide; [done|].
  rewrite (first_marks_at ts (boxid b) i ti Hti), Eb, (depends_spec ts Hbig Hok n i ti Hlt Hti).
  by case_bool_decide.
Qed.
Definition one_box : editor := run [EvLoadFile (Ok sample_doc)] (start today).

Lemma drag_moves_box_witness :
  let e' := run [EvBoxDown 0 15 15; EvMove (-3) 70; EvMove (-500) 900; EvUp] one_box in
  (∃ b', playground e' !! 0%nat = Some b' ∧ box_left b' = "0px" ∧ box_top b' = "649px").
Proof.
  destruct (drag_moves_box one_box 0 (make_box (sample_task 1 [VNum (num_of_Z 0)] ["a.fa"; "b.fa"]) 10 10)
    10 10 15 15 [(-3, 70)] (-500) 900) as [(b' & H1 & H2 & H3) _].
  - vm_eq.
  - vm_eq.
  - vm_eq.
  - unfold small. repeat constructor; lia.
  - exists b'. split; [exact H1|]. split; [exact H2|exact H3].
Defined.

Lemma hover_marks_neighbours_witness :
  wp (on_box_over 0) (λ _ e', ∃ b', playground e' !! 1%nat = Some b' ∧ className b' = "taskbox dependor")
    (run two_tasks (start today)).
Proof.
  destruct (hover_marks_neighbours today two_tasks 0) as (ts & t & Hts & Ht & Hw).
  - reflexivity.
  - vm_compute. reflexivity.
  - vm_compute. lia.
  - eapply wp_mono; [|exact Hw]. intros [] e' He'.
    assert (default [] (d_tasks (the_doc (run two_tasks (start today)))) !! 0%nat =
      Some (mkTask (VNum (num_of_Z 1)) (mkCommand "split.pl" "") [VStr "0"] [("#i_1", VStr "0")]
        ["a.fa"; "b [x].fa"])) as Ht0 by vm_eq.
    assert (default [] (d_tasks (the_doc (run two_tasks (start today)))) !! 1%nat =
      Some (mkTask (VNum (num_of_Z 2)) (mkCommand "join.pl" "") [VStr "1"] [("b [x].fa", VStr "1")] []))
      as Ht1 by vm_eq.
    rewrite Hts in Ht0, Ht1. change (default [] (Some ts)) with ts in Ht0, Ht1.
    rewrite Ht0 in Ht. injection Ht as <-.
    destruct (playground (run two_tasks (start today)) !! 1%nat) as [b1|] eqn:Hb1.
    + destruct (He' 1%nat b1 _ Hb1 Ht1) as (b' & Hb' & Hc). exists b'. split; [exact Hb'|].
      rewrite Hc. vm_compute. reflexivity.
    + assert (bool_decide (playground (run two_tasks (start today)) !! 1%nat = None) = false) as Hx
        by vm_eq.
      rewrite Hb1 in Hx. discriminate.
Defined.
