(* ===== verification/WorkflowLoad.v ===== *)
(** * Workflow editor: loading a document and the general fields *)

From Stdlib Require Import SpecFloat.
From S2P Require Import Prelude JsString JsNumber JsDecimal JsValue JsJson JsState Workflow WorkflowEdit WorkflowModes.

(** ** Loading *)

Definition task_labels (t : task) : list string :=
  (λ o, label o (to_str (taskid t))) <$> outputs t.

Definition task_keys (ts : list task) : list string :=
  foldl (λ ks t, add_key (to_str (taskid t)) ks) ["0"] ts.

(** The state after a step of the load. *)
Definition load_parts (e : editor) :=
  (docs e, data e, fields e, variable_list e, inputs e, tasks e, boxid <$> playground e, loading e,
   now e).

Ltac freeze_load :=
  match goal with
  | |- wp _ _ ?st =>
      let e := fresh "e" in
      let C := fresh "C" in
      set (e := st);
      eassert (load_parts e = _) as C by (unfold load_parts, e; upd_simpl; reflexivity);
      clearbody e; unfold load_parts in C;
      repeat (let C' := fresh "C" in apply pair_eq in C as [C C'])
  end.

(** The loop over the tasks. *)
Lemma load_tasks_wp ts e0 :
  wp (forM ts (λ t,
    let tid := to_str (taskid t) in
    _ ← modify (λ e, e <| tasks := add_key tid (tasks e) |>
                       <| inputs := inputs e ++ ((λ o, label o tid) <$> outputs t) |>);
    add_box t))
    (λ _ e, docs e = docs e0 ∧ data e = data e0 ∧ fields e = fields e0 ∧
      variable_list e = variable_list e0 ∧ now e = now e0 ∧
      inputs e = inputs e0 ++ concat (task_labels <$> ts) ∧
      tasks e = foldl (λ ks t, add_key (to_str (taskid t)) ks) (tasks e0) ts ∧
      boxid <$> playground e = (boxid <$> playground e0) ++ (taskid <$> ts)) e0.
Proof.
  apply (wp_forM _ _ (λ l e, docs e = docs e0 ∧ data e = data e0 ∧ fields e = fields e0 ∧
      variable_list e = variable_list e0 ∧ now e = now e0 ∧
      inputs e = inputs e0 ++ concat (task_labels <$> l) ∧
      tasks e = foldl (λ ks t, add_key (to_str (taskid t)) ks) (tasks e0) l ∧
      boxid <$> playground e = (boxid <$> playground e0) ++ (taskid <$> l))).
  - split_and!; try done; simpl; by rewrite app_nil_r.
  - intros l t rest e _ (H1 & H2 & H3 & H4 & H5 & H6 & H7 & H8). cbv zeta. unfold add_box.
    do 3 wp_step. split_and!; upd_simpl; try done.
    + by rewrite H6, fmap_app, concat_app, <-app_assoc; simpl; rewrite app_nil_r.
    + by rewrite H7, foldl_app.
    + rewrite !fmap_app, H8, <-app_assoc. done.
  - done.
Qed.

(** The options of the task form. *)
Lemma refresh_selects_wp e0 :
  wp refresh_selects (λ _ e,
    docs e = docs e0 ∧ data e = data e0 ∧ now e = now e0 ∧ fields e = fields e0 ∧
    variable_list e = variable_list e0 ∧ (task_input e).*1 = inputs e0 ∧
    (task_depends e).*1 = for_in_keys (tasks e0) ∧
    boxid <$> playground e = boxid <$> playground e0 ∧ loading e = loading e0) e0.
Proof. unfold refresh_selects. wp_step. split_and!; upd_simpl; rewrite ?options_of_values; done. Qed.

(** C15: a document with an info part and tasks is loaded: the editor has it as
    its document, but with the number 8 as [workflow_info.splits], whatever the
    document says, and with the text that [update] makes of the day as its
    [update_date] (its month is counted from 0, so it is a month behind); the text
    area shows this document; the form shows its general fields, 8 splits, the
    number of its raw inputs, its variables, and its tasks and their files as
    options; and a box for each of its tasks is added to the playground. *)
Theorem load_shows_document e d info ts :
  workflow_info d = Some info → d_tasks d = Some ts →
  wp (load_workflow (Ok d)) (λ _ e',
    the_doc e' = d <| workflow_info := Some (set "update_date" (JStr (datum (now e)))
                                         (set "splits" (JNum (num_of_Z 8)) info)) |> ∧
    json_out e' = Some (the_doc e') ∧ loading e' = false ∧
    field "wf_name" e' = input_text (get "name" info) ∧
    field "wf_author" e' = input_text (get "author" info) ∧
    field "wf_contact" e' = input_text (get "contact" info) ∧
    field "wf_description" e' = input_text (get "description" info) ∧
    field "wf_splits" e' = "8" ∧
    field "wf_infiles" e' = show (Z.of_nat (length (default [] (raw_inputs d)))) ∧
    (variable_list e').*1 = for_in_keys (keys (default [] (variables d))) ∧
    (task_input e').*1 = (raw_name <$> seq 1 (length (default [] (raw_inputs d)))) ++
      concat (task_labels <$> ts) ∧
    (task_depends e').*1 = for_in_keys (task_keys ts) ∧
    boxid <$> playground e' = (boxid <$> playground e) ++ (taskid <$> ts)) e.
Proof.
  intros Hi Hts. unfold load_workflow. wp_step. apply (wp_lift _ d); [done|]. cbv beta.
  unfold parse_workflow, set_doc, set_field, list_variables, fresh_doc.
  wp_step. wp_step. freeze_load. wp_step. wp_step. freeze_load. wp_step. wp_step.
  assert (the_doc e1 = d ∧ (data e1 < length (docs e1))%nat) as [E1 Hd1].
  { unfold the_doc. replace (docs e1) with (docs e ++ [d]) by congruence.
    replace (data e1) with (length (docs e)) by congruence.
    rewrite lookup_app_r, Nat.sub_diag by lia. split; [done|]. rewrite length_app. simpl. lia. }
  rewrite E1. wp_step. apply (wp_lift _ info); [by rewrite Hi|]. cbv beta zeta.
  rewrite get_set_eq, !get_set_ne by done. set (info' := set "splits" _ info).
  wp_step. wp_step. freeze_load.
  do 9 (wp_step; wp_step; freeze_load).
  wp_step. apply (wp_lift _ ts); [by rewrite Hts|]. cbv beta. wp_step.
  eapply wp_mono; [|apply load_tasks_wp]. intros [] e12 (L1 & L2 & L3 & L4 & L5 & L6 & L7 & L8).
  cbv beta. wp_step. wp_step. freeze_load. wp_step.
  eapply wp_mono; [|apply refresh_selects_wp]. intros [] e14 (K1 & K2 & K3 & K4 & K5 & K6 & K7 & K8 & K9).
  cbv beta.
  assert (fields e14 = <["wf_infiles" := show (Z.of_nat (length (default [] (raw_inputs d))))]>
    (<["wf_splits" := "8"]> (<["wf_description" := input_text (get "description" info)]>
    (<["wf_contact" := input_text (get "contact" info)]>
    (<["wf_author" := input_text (get "author" info)]>
    (<["wf_name" := input_text (get "name" info)]> (fields e))))))) as Ef.
  { change "8" with (input_text (Some (JNum (num_of_Z 8)))). congruence. }
  assert (the_doc e14 = d <| workflow_info := Some info' |> ∧
    (data e14 < length (docs e14))%nat) as [E14 Hd14].
  { replace (data e14) with (data e1) by congruence.
    assert (docs e14 = <[data e1 := (the_doc e1) <| workflow_info := Some info' |>]> (docs e1)) as Ed
      by congruence.
    unfold the_doc at 1. replace (data e14) with (data e1) by congruence.
    rewrite Ed, length_insert, list_lookup_insert_eq by done. by rewrite E1. }
  assert (now e14 = now e) as En by congruence.
  assert (tasks e13 = task_keys ts) as Etk by (unfold task_keys; congruence).
  assert (inputs e13 = (raw_name <$> seq 1 (length (default [] (raw_inputs d)))) ++
      concat (task_labels <$> ts)) as Ein by congruence.
  assert (boxid <$> playground e14 = (boxid <$> playground e) ++ (taskid <$> ts)) as Ebx by congruence.
  assert (variable_list e14 = options_of (for_in_keys (keys (default [] (variables d))))) as Evl
    by congruence.
  eapply wp_mono; [|by apply (update_wp e14 info' Hd14); rewrite E14].
  intros [] e' (U1 & U2 & U3 & U4 & U5 & U6 & U7 & U8 & U9 & U10 & _).
  unfold field. rewrite U5, Ef, U8, Evl, options_of_values, U9, U10, K6, K7, Etk, Ein, U4, Ebx, U7.
  rewrite E14, En in U1. split_and!; try done; try congruence.
  all: repeat (rewrite lookup_insert_eq || rewrite lookup_insert_ne by done); done.
Qed.

(** ** Raw inputs *)

Lemma raw_name_no_bracket n : has_char lbracket (raw_name n) = false ∧ has_char rbracket (raw_name n) = false.
Proof.
  unfold raw_name. rewrite !has_char_app. split; simpl; by apply show_no_char.
Qed.

(** The raw inputs of a loaded document are offered without the number of
    their task, and a new task that takes any of them gets one input, with an
    empty name and an empty task. *)
Theorem loaded_raw_inputs_lose_their_names (l : list nat) :
  l ≠ [] → collect_inputs (raw_name <$> l) = [("", VStr "")].
Proof.
  assert (∀ n, label_file (raw_name n) = "" ∧ label_num (raw_name n) = "") as Hl.
  { intros n. unfold label_file, label_num. destruct (raw_name_no_bracket n) as [H1 H2].
    rewrite !last_index_of_none by done. unfold substring.
    replace (Z.min (Z.max (-1 - 1) 0) (slen (raw_name n))) with 0 by (pose proof (slen_nonneg (raw_name n)); lia).
    replace (Z.min (Z.max (-1 + 1) 0) (slen (raw_name n))) with 0 by (pose proof (slen_nonneg (raw_name n)); lia).
    replace (Z.min (Z.max 0 0) (slen (raw_name n))) with 0 by (pose proof (slen_nonneg (raw_name n)); lia).
    replace (Z.min (Z.max (-1) 0) (slen (raw_name n))) with 0 by (pose proof (slen_nonneg (raw_name n)); lia).
    done. }
  assert (∀ l, foldl (λ o val, assign (label_file val) (VStr (label_num val)) o) [("", VStr "")]
    (raw_name <$> l) = [("", VStr "")]) as Hf.
  { clear l. induction l as [|n l IH]; [done|]. simpl. destruct (Hl n) as [-> ->]. exact IH. }
  intros Hne. destruct l as [|n l]; [done|]. unfold collect_inputs. simpl.
  destruct (Hl n) as [-> ->]. apply Hf.
Qed.

Lemma raw_name_inj : Inj (=) (=) raw_name.
Proof.
  intros a b E. assert (show (Z.of_nat a) = show (Z.of_nat b)) as E' by (unfold raw_name in E; by simplify_eq/=).
  apply show_inj in E'. lia.
Qed.

Definition raw_label (n : nat) : string := label (raw_name n) "0".

Lemma is_raw_label_raw n : is_raw_label (raw_label n) = true.
Proof.
  unfold is_raw_label, raw_label, label, raw_name. rewrite sapp_assoc.
  assert (∀ s, take_prefix "#i_" ("#i_" +++ s) = Some s) as -> by done.
  destruct (scan_show (Z.of_nat n) " [0]" ltac:(lia) eq_refl) as (k & Hk & Hs).
  change (show (Z.of_nat n) +++ " [" +++ "0" +++ "]") with (show (Z.of_nat n) +++ " [0]").
  rewrite Hs. by rewrite (proj2 (Nat.eqb_neq _ _) Hk).
Qed.

Definition raw_entry (n : nat) : string * json := (raw_name n, JStr "#data_url").

(** The loop that adds the raw inputs. *)
Lemma raw_inputs_wp n e :
  (data e < length (docs e))%nat → raw_inputs (the_doc e) = Some [] →
  Z.of_nat (length (inputs e) + n) ≤ max_length →
  wp (forM (seq 1 n) (λ n,
      _ ← set_doc (λ d, d <| raw_inputs :=
            Some (set (raw_name n) (JStr "#data_url") (default [] (raw_inputs d))) |>);
      push_input (label (raw_name n) "0")))
    (λ _ e', the_doc e' = (the_doc e) <| raw_inputs := Some (raw_entry <$> seq 1 n) |> ∧
      inputs e' = inputs e ++ (raw_label <$> seq 1 n) ∧ data e' = data e ∧
      length (docs e') = length (docs e) ∧ fields e' = fields e ∧ task_input e' = task_input e ∧
      task_depends e' = task_depends e ∧ task_output e' = task_output e) e.
Proof.
  intros Hd Hraw Hmax.
  apply (wp_forM _ _ (λ l e', the_doc e' = (the_doc e) <| raw_inputs := Some (raw_entry <$> l) |> ∧
    inputs e' = inputs e ++ (raw_label <$> l) ∧ data e' = data e ∧
    length (docs e') = length (docs e) ∧ fields e' = fields e ∧ task_input e' = task_input e ∧
    task_depends e' = task_depends e ∧ task_output e' = task_output e)); [| |done].
  - split_and!; try done; [|by rewrite app_nil_r]. simpl. rewrite <-Hraw. by destruct (the_doc e).
  - intros l k rest e1 El (H1 & H2 & H3 & H4 & H5 & H6 & H7 & H8). unfold set_doc. wp_step. wp_step.
    unfold push_input. wp_step. wp_step. upd_simpl.
    assert (length l < n)%nat as Hlen.
    { apply (f_equal length) in El. rewrite length_seq, length_app in El. simpl in El. lia. }
    rewrite (proj2 (Z.ltb_lt _ _)) by (rewrite H2, length_app, length_fmap; lia).
    assert (set (raw_name k) (JStr "#data_url") (raw_entry <$> l) = raw_entry <$> (l ++ [k])) as Eset.
    { rewrite set_fresh; [by rewrite fmap_app|]. unfold keys, raw_entry.
      rewrite <-list_fmap_compose. intros Hin. apply list_elem_of_fmap in Hin as (j & Ej & Hj).
      apply raw_name_inj in Ej as <-. pose proof (NoDup_seq 1 n) as Hnd. rewrite El in Hnd.
      apply NoDup_app in Hnd as (_ & Hdis & _). apply (Hdis k Hj). by left. }
    wp_step. split_and!; upd_simpl; rewrite ?length_insert; try done.
    + change (the_doc (e1 <| docs := <[data e1 := (the_doc e1) <| raw_inputs := Some (set (raw_name k)
        (JStr "#data_url") (default [] (raw_inputs (the_doc e1)))) |>]> (docs e1) |>) =
        (the_doc e) <| raw_inputs := Some (raw_entry <$> (l ++ [k])) |>).
      rewrite (the_doc_set (λ d, d <| raw_inputs := Some (set (raw_name k)
        (JStr "#data_url") (default [] (raw_inputs d))) |>)) by (by rewrite H3, H4).
      rewrite H1. upd_simpl. simpl default. by rewrite Eset.
    + rewrite H2, fmap_app, <-app_assoc. done.
Qed.

(** The labels of the inputs after the number of input files has been set to
    [n]: those of raw inputs are replaced. *)
Definition replaced_labels (n : nat) (l : list string) : list string :=
  List.filter (λ x, negb (is_raw_label x)) l ++ (raw_label <$> seq 1 n).

Lemma replaced_labels_raw n l : List.filter is_raw_label (replaced_labels n l) = raw_label <$> seq 1 n.
Proof.
  unfold replaced_labels. rewrite list_filter_app.
  assert (List.filter is_raw_label (List.filter (λ x, negb (is_raw_label x)) l) = []) as ->.
  { induction l as [|x l IH]; simpl; [done|]. destruct (is_raw_label x) eqn:E; simpl; [done|]. by rewrite E. }
  simpl app. generalize (seq 1 n). clear. induction l as [|k l IH]; [done|].
  rewrite fmap_cons. cbn [List.filter]. by rewrite is_raw_label_raw, IH.
Qed.

Lemma form_task_ext k e e' :
  fields e' = fields e → task_input e' = task_input e → task_depends e' = task_depends e →
  task_output e' = task_output e → form_task k e' = form_task k e.
Proof. intros H1 H2 H3 H4. unfold form_task, field. by rewrite H1, H2, H3, H4. Qed.

(** Up to the call of [new_task]. *)
Lemma infiles_wp e info n (Q : () → editor → Prop) :
  loading e = false → parseInt (field "wf_infiles" e) = JInt (Z.of_nat n) → (1 ≤ n)%nat →
  Z.of_nat (length (inputs e) + n) ≤ max_length → (data e < length (docs e))%nat →
  workflow_info (the_doc e) = Some info →
  (∀ e3, the_doc e3 = (the_doc e) <| raw_inputs := Some (raw_entry <$> seq 1 n) |>
           <| workflow_info := Some (set "update_date" (JStr (datum (now e3))) info) |> →
     inputs e3 = replaced_labels n (inputs e) → fields e3 = fields e → task_input e3 = task_input e →
     task_depends e3 = task_depends e → task_output e3 = task_output e →
     (data e3 < length (docs e3))%nat → wp new_task Q e3) →
  wp on_infiles Q e.
Proof.
  intros Hl Hn Hn1 Hmax Hd Hi HQ. unfold on_infiles. do 2 wp_step. rewrite Hl, Hn.
  assert (jtruthy (JInt (Z.of_nat n)) = true) as -> by (simpl; apply negb_true_iff, Z.eqb_neq; lia).
  simpl negb. cbv iota. wp_step. unfold set_doc at 1. do 3 wp_step.
  assert (passes (JInt (Z.of_nat n)) = seq 1 n) as ->.
  { unfold passes. unfold max_length in Hmax. rewrite Z.min_l by lia. by rewrite Nat2Z.id. }
  match goal with |- context [wp _ _ ?s] => set (e1 := s) end.
  assert (the_doc e1 = (the_doc e) <| raw_inputs := Some [] |> ∧ (data e1 < length (docs e1))%nat ∧
    inputs e1 = List.filter (λ l, negb (is_raw_label l)) (inputs e) ∧ fields e1 = fields e ∧
    task_input e1 = task_input e ∧ task_depends e1 = task_depends e ∧ task_output e1 = task_output e)
    as (D1 & D2 & D3 & D4 & D5 & D6 & D7).
  { unfold e1. split_and!; upd_simpl; rewrite ?length_insert; try done.
    by apply (the_doc_set (λ d, d <| raw_inputs := Some [] |>)). }
  clearbody e1. wp_step.
  eapply wp_mono; [|apply (raw_inputs_wp n e1 D2)].
  2: by rewrite D1.
  2: { rewrite D3. pose proof (list_filter_length (λ l, negb (is_raw_label l)) (inputs e)). lia. }
  intros [] e2 (R1 & R2 & R3 & R4 & R5 & R6 & R7 & R8). cbv beta. wp_step.
  eapply wp_mono; [|apply (update_wp e2 info); [lia|by rewrite R1, D1]].
  intros [] e3 (U1 & _ & U3 & _ & U5 & U6 & _ & _ & U9 & U10 & U11 & U12 & U13).
  apply HQ; unfold replaced_labels; try congruence. by rewrite U1, R1, D1, U13.
Qed.

(** C32: a number of input files replaces the raw inputs, also while a task is in
    the form: the document then has that many raw inputs, numbered from 1; in the
    list of inputs the labels of raw inputs (in the form in which the editor makes
    them; those of a loaded document have no task number, are not recognised and
    stay) are replaced by theirs, and the options of the form are that list. The
    handler then calls [new_task]: without a command in the form the tasks are
    left alone; with one the task in the form is added and the files it writes are
    listed behind the others. *)
Theorem infiles_replaces_raw_inputs e info n ts :
  loading e = false → parseInt (field "wf_infiles" e) = JInt (Z.of_nat n) → (1 ≤ n)%nat →
  Z.of_nat (length (inputs e) + n) ≤ max_length → (data e < length (docs e))%nat →
  workflow_info (the_doc e) = Some info → d_tasks (the_doc e) = Some ts →
  let t := form_task (length ts + 1) e in
  let labels := replaced_labels n (inputs e) in
  List.filter is_raw_label labels = raw_label <$> seq 1 n ∧
  wp on_infiles (λ _ e',
    raw_inputs (the_doc e') = Some (raw_entry <$> seq 1 n) ∧ (task_input e').*1 = inputs e' ∧
    if (field "task_command" e =? "")%string
    then inputs e' = labels ∧ d_tasks (the_doc e') = Some ts
    else inputs e' = labels ++ ((λ o, label o (to_str (taskid t))) <$> outputs t) ∧
         d_tasks (the_doc e') = Some (ts ++ [t])) e.
Proof.
  intros Hl Hn Hn1 Hmax Hd Hi Hts t labels. split; [apply replaced_labels_raw|].
  apply (infiles_wp e info n); try done. intros e3 U1 U2 U3 U4 U5 U6 U7.
  assert (field "task_command" e3 = field "task_command" e) as Ec by (unfold field; by rewrite U3).
  destruct (String.eqb_spec (field "task_command" e) "") as [Hc|Hc].
  - unfold new_task. wp_step. wp_step. rewrite Ec, Hc.
    simpl when. wp_step. wp_step. unfold refresh_selects. wp_step.
    match goal with |- context [the_doc ?s] => change (the_doc s) with (the_doc e3) end.
    upd_simpl. rewrite U1, U2, options_of_values. by split_and!.
  - eapply wp_mono; [|eapply (new_task_wp e3); [done|by rewrite U1|by rewrite U1|by rewrite Ec]].
    intros [] e' (-> & _ & _ & _ & _ & _ & -> & -> & _).
    rewrite (form_task_ext _ e), U1, U2 by done. by split_and!.
Qed.

(** ** The date *)

Lemma pad_no_dash n : 0 ≤ n → has_char "-"%char (pad n) = false.
Proof.
  intros Hn. unfold pad. rewrite has_char_app.
  rewrite (all_chars_no "-"%char is_digit (show n)); [|done|by apply show_digits].
  by destruct (n <? 10).
Qed.

(** The date of an update has the year, the number of the month less one and
    the day: [getMonth] counts from 0. *)
Theorem update_date_month_behind y m d :
  0 ≤ y → 1 ≤ m ≤ 12 → 1 ≤ d ≤ 31 →
  ∃ mm dd, split_on "-"%char (datum (mkDate y (m - 1) d)) = [show y; mm; dd] ∧
    parseInt mm = JInt (m - 1) ∧ parseInt dd = JInt d ∧ slen mm = 2 ∧ slen dd = 2.
Proof.
  intros Hy Hm Hd. exists (pad (m - 1)), (pad d). unfold datum. cbn [year month day].
  split.
  - etrans; [apply (split_on_app "-" (show y) (pad (m - 1) +++ "-" +++ pad d))|].
    { apply (all_chars_no _ is_digit); [done|by apply show_digits]. }
    f_equal. etrans; [apply (split_on_app "-" (pad (m - 1)) (pad d)), pad_no_dash; lia|].
    f_equal. apply split_on_none, pad_no_dash. lia.
  - assert (∀ n, 0 ≤ n ≤ 31 → parseInt (pad n) = JInt n ∧ slen (pad n) = 2) as Hp.
    { intros n Hn. assert (n ∈ seqZ 0 32) as Hin by (apply elem_of_seqZ; lia).
      assert (forallb (λ n, bool_decide (parseInt (pad n) = JInt n) && (slen (pad n) =? 2))
        (seqZ 0 32) = true) as Hall by vm_eq.
      rewrite forallb_forall in Hall. apply list_elem_of_In, Hall in Hin.
      apply andb_true_iff in Hin as [H1%bool_decide_eq_true H2%Z.eqb_eq]. done. }
    destruct (Hp (m - 1)), (Hp d); try lia. done.
Qed.

(** ** Witnesses *)

Lemma load_shows_document_witness :
  wp (load_workflow (Ok sample_doc)) (λ _ e',
    (task_input e').*1 = ["#i_1"; "a.fa [1]"; "b.fa [1]"] ∧ (task_depends e').*1 = ["0"; "1"])
    (start today).
Proof.
  eapply wp_mono; [|apply (load_shows_document (start today) sample_doc [("name", JStr "qc")]
    [sample_task 1 [VNum (num_of_Z 0)] ["a.fa"; "b.fa"]]); reflexivity].
  intros [] e' (_ & _ & _ & _ & _ & _ & _ & _ & _ & _ & -> & -> & _).
  split; vm_compute; reflexivity.
Defined.

Lemma loaded_raw_inputs_lose_their_names_witness :
  collect_inputs ["#i_1"; "#i_2"] = [("", VStr "")].
Proof. apply (loaded_raw_inputs_lose_their_names [1; 2]%nat). discriminate. Defined.

Definition infiles_typed : editor := run [EvType "wf_infiles" "3"] (start today).

Lemma infiles_replaces_raw_inputs_witness :
  wp on_infiles (λ _ e', inputs e' = ["#i_1 [0]"; "#i_2 [0]"; "#i_3 [0]"]) infiles_typed.
Proof.
  eapply wp_mono; [|apply (infiles_replaces_raw_inputs infiles_typed
    [("name", JStr ""); ("author", JStr ""); ("contact", JStr ""); ("update_date", JStr "2014-00-31");
     ("description", JStr "")] 3 [])].
  - intros [] e' (_ & _ & -> & _). vm_compute. reflexivity.
  - vm_eq.
  - vm_eq.
  - lia.
  - vm_compute. discriminate.
  - vm_compute. lia.
  - vm_eq.
  - vm_eq.
Defined.

Lemma update_date_month_behind_witness :
  ∃ mm dd, split_on "-"%char (datum (mkDate 2014 (1 - 1) 31)) = ["2014"; mm; dd] ∧
    parseInt mm = JInt (1 - 1) ∧ parseInt dd = JInt 31 ∧ slen mm = 2 ∧ slen dd = 2.
Proof. apply (update_date_month_behind 2014 1 31); lia. Defined.
