(* ===== verification/MonitorData.v ===== *)
(** * Job monitor: from responses to rows and text

    src/site_deprecated/widgets/widget.awe_monitor.js: the functions that turn
    the server's JSON into the rows of the tables and the text of the detail
    view.  What the widget takes from the Retina library and from the browser's
    locale is an argument: [Retina.Base64.encode], [Number.prototype.byteSize],
    [Retina.keys], [Date.parse] and [toLocaleString]. *)

From Stdlib Require Import SpecFloat.
From S2P Require Import Prelude JsString JsNumber JsDecimal JsValue JsJson JsState.

Abbreviation jrow := (gmap string value).

(** [stm.DataStore.job] *)
Abbreviation job_store := (list (string * json)).

Section data.
Context (base64 : string → string) (byteSize : num → string) (retina_keys : option json → list string).
Context (date_parse : value → num) (locale_date : value → string).
Context (awe_ip : string).

(** ** The dots of a job *)

Definition dot (color title desc : string) : string :=
  q "<span style=`color: " +++ color +++ q ";font-size: 19px; cursor: default;` title=`" +++ title
  +++ ": " +++ desc +++ q "`>&#9679;</span>".

(** The colour and the title for a state; the others are only logged. *)
Definition dot_kind (state : value) : option (string * string) :=
  let eqs t := loose_eq state (VStr t) in
  if eqs "completed" then Some ("green", "completed")
  else if eqs "in-progress" then Some ("blue", "in-progress")
  else if eqs "queued" then Some ("orange", "queued")
  else if eqs "error" || eqs "suspend" then Some ("red", "error")
  else if eqs "init" || eqs "pending" then Some ("gray", "init")
  else None.

Definition stage_dot (stage : json) : res string :=
  state ← vprop (Some stage) "state";
  match dot_kind state with
  | Some (color, title) =>
      desc ← vprop2 (Some stage) "cmd" "description";
      Ok (dot color title (to_str desc))
  | None => Ok ""
  end.

Definition dots (stages : option json) : res string :=
  l ← json_items stages;
  ds ← mapR stage_dot l;
  Ok ("<span>" +++ String.concat "" ds +++ "</span>").

(** The description or the number of the first task that is not completed. *)
Fixpoint currentTask_from (i : nat) (l : list json) : res value :=
  match l with
  | [] => Ok (VNum (num_of_Z 0))
  | t :: l' =>
      state ← vprop (Some t) "state";
      if loose_eq state (VStr "completed") then currentTask_from (S i) l'
      else
        desc ← vprop2 (Some t) "cmd" "description";
        Ok (vor desc (VNum (num_of_Z (Z.of_nat i + 1))))
  end.

Definition currentTask (tasks : option json) : res value :=
  l ← json_items tasks; currentTask_from 0 l.

(** ** Rows of the tables *)

Definition link (call title : string) : string :=
  "<a style='cursor: pointer;' onclick='Retina.WidgetInstances.awe_monitor[1]." +++ call +++ "'>"
  +++ title +++ "</a>".

Definition json_link (url title : string) : string :=
  q "<a onclick='Retina.WidgetInstances.awe_monitor[1].authenticatedJSON(`" +++ url
  +++ q "`);' style='cursor: pointer;'>" +++ title +++ "</a>".

Definition workunit_row (o : json) : res jrow :=
  wuid ← vprop (Some o) "wuid";
  client ← vprop (Some o) "client";
  checkout ← vprop (Some o) "checkout_time";
  name ← vprop2 (Some o) "cmd" "name";
  args ← vprop2 (Some o) "cmd" "args";
  rank ← vprop (Some o) "rank";
  tot ← vprop (Some o) "totalwork";
  state ← vprop (Some o) "state";
  failed ← vprop (Some o) "failed";
  submission ← vprop2 (Some o) "info" "submittime";
  priority ← vprop2 (Some o) "info" "priority";
  Ok (list_to_map [
    ("id", VStr (json_link (awe_ip +++ "/work/base64:" +++ base64 (to_str wuid)) (to_str wuid)));
    ("client", VStr (json_link (awe_ip +++ "/client/" +++ to_str client) (to_str client)));
    ("checkout time", checkout); ("cmd name", name); ("cmd args", args); ("rank", rank);
    ("tot", tot); ("state", state); ("failed", failed); ("submission time", submission);
    ("priority", priority)]).

Definition dashes (ks : list string) : jrow := list_to_map ((λ k, (k, VStr "-")) <$> ks).

Definition no_workunits : jrow :=
  dashes ["id"; "client"; "checkout time"; "cmd name"; "cmd args"; "rank"; "tot"; "state"; "failed"].

Definition or_placeholder (p : jrow) (rows : list jrow) : list jrow :=
  match rows with [] => [p] | _ => rows end.

Definition dataManipulationWorkunits (d : option json) : res (list jrow) :=
  l ← json_items d;
  rows ← mapR workunit_row l;
  Ok (or_placeholder no_workunits rows).

Definition resume_button (id : string) : string :=
  q "<button class='btn btn-mini btn-success' style='margin-left: 5px;' onclick='Retina.WidgetInstances.awe_monitor[1].resumeJobs([`"
  +++ id +++ q "`]);'>resume</button>".

Definition job_row (o : json) : res jrow :=
  id ← vprop (Some o) "id";
  submission ← vprop2 (Some o) "info" "submittime";
  name ← vprop2 (Some o) "info" "name";
  tasks ← prop (Some o) "tasks";
  status ← dots tasks;
  pipeline ← vprop2 (Some o) "info" "pipeline";
  state ← vprop (Some o) "state";
  todo ← vprop (Some o) "remaintasks";
  Ok (list_to_map [
    ("submission", submission);
    ("job name", VStr (link (q "jobTooltip(jQuery(this), `" +++ to_str id +++ q "`)") (to_str name)));
    ("job id", id); ("status", VStr status); ("pipeline", pipeline);
    ("current state", VStr (to_str state +++
        if loose_eq state (VStr "suspend") then resume_button (to_str id) else ""));
    ("todo", todo); ("AWE ID", id)]).

Definition no_jobs : jrow :=
  dashes ["submission"; "job name"; "job id"; "status"; "pipeline"; "current state"; "AWE ID"].

(** The rows; every job seen is remembered under its id. *)
Fixpoint job_rows (l : list json) : M job_store (list jrow) :=
  match l with
  | [] => mret []
  | o :: l' =>
      id ← lift (vprop (Some o) "id");
      _ ← modify (set (to_str id) o);
      r ← lift (job_row o);
      rs ← job_rows l';
      mret (r :: rs)
  end.

Definition dataManipulationJobs (d : option json) : M job_store (list jrow) :=
  l ← lift (json_items d);
  rows ← job_rows l;
  mret (or_placeholder no_jobs rows).

(** [a.join(sep)] *)
Definition json_join (sep : string) (o : option json) : res string :=
  match o with
  | Some (JArr l) => Ok (join sep ((λ j, match j with JNull => "" | _ => json_str j end) <$> l))
  | _ => Throw TypeError
  end.

Definition error_link (j : nat) (wu : json) : string :=
  link (q "workunitTooltip(jQuery(this), `" +++ json_str wu +++ q "`)") (show (Z.of_nat j + 1)).

Definition client_row (o : json) : res (list value) :=
  skip ← prop (Some o) "skip_work";
  errors ← json_items skip;
  id ← vprop (Some o) "id";
  name ← vprop (Some o) "name";
  group ← vprop (Some o) "group";
  host_ip ← vprop (Some o) "host_ip";
  hostname ← vprop (Some o) "hostname";
  cores ← vprop (Some o) "cores";
  apps ← prop (Some o) "apps";
  apps_text ← json_join ", " apps;
  regtime ← vprop (Some o) "regtime";
  serve_time ← vprop (Some o) "serve_time";
  status ← vprop (Some o) "Status";
  checkout ← vprop (Some o) "total_checkout";
  completed ← vprop (Some o) "total_completed";
  failed ← vprop (Some o) "total_failed";
  version ← vprop (Some o) "version";
  work ← prop2 (Some o) "current_work" "data";
  let zero v := vor v (VStr "0") in
  Ok [ VStr (link (q "clientTooltip(jQuery(this), `" +++ to_str id +++ q "`)") (to_str name));
       group;
       if loose_eq host_ip (VStr "") then hostname else host_ip;
       zero cores; VStr apps_text; regtime; serve_time; status;
       zero checkout; zero completed; zero failed;
       VStr (join ", " (imap error_link errors));
       version;
       VStr (default "- none -" (head (retina_keys work))) ].

Definition client_rows (d : option json) : res (list (list value)) :=
  match d with
  | None | Some JNull => Ok [replicate 17 (VStr "-")]
  | _ => l ← json_items d; mapR client_row l
  end.

Definition client_header : list string :=
  ["name"; "group"; "host"; "cores"; "apps"; "register time"; "up-time"; "status"; "c/o"; "done";
   "failed"; "errors"; "version"; "workunit"].

(** ** The overview *)

Definition overview_html (d : option json) : res string :=
  let head k := v ← vprop2 d k "total"; Ok ("<tr><th colspan=2>" +++ k +++ "</th><th>" +++ to_str v +++ "</th></tr>") in
  let line k f := v ← vprop2 d k f; Ok ("<tr><td></td><td>" +++ f +++ "</td><td>" +++ to_str v +++ "</td></tr>") in
  c ← head "clients"; c1 ← line "clients" "busy"; c2 ← line "clients" "idle"; c3 ← line "clients" "suspended";
  j ← head "jobs"; j1 ← line "jobs" "active"; j2 ← line "jobs" "suspended";
  t ← head "tasks"; t1 ← line "tasks" "completed"; t2 ← line "tasks" "failed";
  t3 ← line "tasks" "in-progress"; t4 ← line "tasks" "pending"; t5 ← line "tasks" "queuing";
  t6 ← line "tasks" "suspended";
  w ← head "workunits"; w1 ← line "workunits" "checkout"; w2 ← line "workunits" "queuing";
  w3 ← line "workunits" "suspended";
  Ok (String.concat "" [q "<h4>Overview</h4><table class=`table`>"; c; c1; c2; c3; j; j1; j2;
        t; t1; t2; t3; t4; t5; t6; w; w1; w2; w3; "</table>"]).

(** ** The details of a job *)

Definition prettyAWEdate (date : value) : string :=
  if loose_eq date (VStr "0001-01-01T00:00:00Z") then "-" else locale_date date.

(** [parseInt] of a number reads its text. *)
Definition parse_int_num (a : num) : num := num_of_jsint (parseInt (num_show a)).

Definition times (a : num) (l : list Z) : num := foldl (λ a z, SFmul prec emax a (num_of_Z z)) a l.
Definition minus (a b : num) : num := SFsub prec emax a b.
Definition over (a : num) (z : Z) : num := SFdiv prec emax a (num_of_Z z).

Definition timePassed (start fin : num) : string :=
  let t0 := minus fin start in
  let day := parse_int_num (over t0 (1000 * 60 * 60 * 24)) in
  let t1 := minus t0 (times day [1000; 60; 60; 24]) in
  let hour := parse_int_num (over t1 (1000 * 60 * 60)) in
  let t2 := minus t1 (times hour [1000; 60; 60]) in
  let minute := parse_int_num (over t2 (1000 * 60)) in
  let pos n := num_lt (num_of_Z 0) n in
  (if pos day then num_show day +++ " days " else "") +++
  (if pos hour then num_show hour +++ " hours " else "") +++ num_show minute +++ " minutes".

Definition recomputeButton (job : option json) (stage : nat) : res string :=
  state ← vprop job "state";
  if bool_decide (state = VStr "suspend") then
    id ← vprop job "id";
    Ok (q "<button class='btn btn-mini btn-primary' style='float: right;' onclick='Retina.WidgetInstances.awe_monitor[1].recomputeJob(`"
        +++ to_str id +++ q "`, `" +++ show (Z.of_nat stage) +++ q "`);'>recompute this stage</button>")
  else Ok "".

(** [x.size.byteSize()] *)
Definition size_text (o : option json) : res string :=
  s ← prop o "size";
  match s with Some (JNum n) => Ok (byteSize n) | _ => Throw TypeError end.

(** The own properties of an object, in the order of [for ... in]. *)
Definition json_entries (o : option json) : list (string * json) :=
  match o with
  | Some (JObj ps) => omap (λ k, v ← get k ps; Some (k, v)) (for_in_keys (keys ps))
  | Some (JArr l) => imap (λ i v, (show (Z.of_nat i), v)) l
  | _ => []
  end.

(** [a[k]] for an array *)
Definition json_index (l : list json) (k : string) : option json :=
  match array_index k with Some z => zlookup l z | None => None end.

Definition input_row (tasks : list json) (k : string) (inp : json) : res (option string) :=
  nofile ← vprop (Some inp) "nofile";
  if truthy nofile || (k =? "mysql.tar")%string || (k =? "postgresql.tar")%string then Ok None
  else
    filename ← vprop (Some inp) "filename";
    size ← size_text (Some inp);
    origin ← vprop (Some inp) "origin";
    last ← (if truthy origin then
              desc ← vprop2 (json_index tasks (to_str origin)) "cmd" "description";
              Ok (to_str (vor desc (VStr (jshow (jadd (parseInt (to_str origin)) (JInt 1))))))
            else Ok "-");
    Ok (Some ("<tr><td>" +++ to_str filename +++ "</td><td>" +++ size +++ "</td><td>" +++ last
              +++ "</td></tr>")).

Definition output_text (o : json) : res (option string) :=
  type ← vprop (Some o) "type";
  if loose_eq type (VStr "update") then Ok None
  else
    filename ← vprop (Some o) "filename";
    size ← size_text (Some o);
    temp ← vprop (Some o) "delete";
    Ok (Some (to_str filename +++ " (" +++ size +++ ")" +++
              if truthy temp then " <i>temporary</i>" else "")).

Definition stageDetails (tasks : list json) (index : nat) : res string :=
  let task := tasks !! index in
  ins ← prop task "inputs";
  rows ← mapR (λ '(k, v), input_row tasks k v) (json_entries ins);
  outs ← prop task "outputs";
  texts ← mapR (λ '(_, v), output_text v) (json_entries outs);
  created ← vprop task "createddate";
  completed ← vprop task "completeddate";
  let line t v := "<tr><td><b>" +++ t +++ "</b></td><td>" +++ v +++ "</td></tr>" in
  Ok ("<table class='table table-condensed'>"
      +++ line "started" (prettyAWEdate created)
      +++ line "completed" (prettyAWEdate completed)
      +++ line "duration" (if (prettyAWEdate completed =? "-")%string then "-"
                           else timePassed (date_parse created) (date_parse completed))
      +++ line "inputs" ("<table class='table table-condensed table-striped table-hover'><thead><tr><td>filename</td><td>size</td><td>origin</td></tr></thead><tbody>"
                         +++ String.concat "" (omap id rows) +++ "</tbody></table>")
      +++ line "outputs" (join "<br>" (omap id texts))
      +++ "</table>").

(** A pill: its class, its icon, the text at its right, whether it unfolds. *)
Definition pill_kind (state : value) : option (string * string * bool) :=
  let eqs t := loose_eq state (VStr t) in
  if eqs "completed" then Some ("donepill", "ok", true)
  else if eqs "in-progress" then Some ("runningpill", "settings3", false)
  else if eqs "queued" then Some ("queuedpill", "clock", false)
  else if eqs "error" then Some ("errorpill", "remove", true)
  else if eqs "pending" then Some ("pendingpill", "clock", false)
  else if eqs "suspend" then Some ("errorpill", "remove", true)
  else None.

(** The date a pill shows. *)
Definition pill_date (state : value) (task : json) : res string :=
  let eqs t := loose_eq state (VStr t) in
  if eqs "completed" then d ← vprop (Some task) "completeddate"; Ok (prettyAWEdate d)
  else if eqs "in-progress" then d ← vprop (Some task) "starteddate"; Ok (prettyAWEdate d)
  else if eqs "queued" then Ok "(in queue)"
  else if eqs "pending" then Ok "(not started)"
  else d ← vprop (Some task) "createddate"; Ok (prettyAWEdate d).

Definition toggle (i : string) : string :=
  let e := "document.getElementById('stageDetails" +++ i +++ "').style.display" in
  "if(" +++ e +++ "=='none'){" +++ e +++ "='';}else{" +++ e +++ "='none';};".

Definition pill (job : option json) (tasks : list json) (i : nat) (task : json) : res string :=
  state ← vprop (Some task) "state";
  match pill_kind state with
  | None => Ok ""
  | Some (cls, icon, folds) =>
      desc ← vprop2 (Some task) "cmd" "description";
      date ← pill_date state task;
      let n := show (Z.of_nat i) in
      let head := q "<div class=`pill " +++ cls +++
        (if folds then q " clickable` onclick=`" +++ toggle n else "") +++ q "`>  <img class=`miniicon` src=`Retina/images/"
        +++ icon +++ q ".png`>  " +++ to_str desc +++ q "  <span style=`float: right;`>" +++ date +++ "</span></div>" in
      if folds then
        btn ← recomputeButton job i;
        det ← stageDetails tasks i;
        Ok (head +++ q "<div style=`display: none;` id=`stageDetails" +++ n +++ q "`>" +++ btn +++ det +++ "</div>")
      else Ok head
  end.

(** A configured button, with the result of its condition. *)
Record custom_button := mkButton { b_style : string; b_callback : string; b_title : string;
                                   b_condition : option (option json → res bool) }.

Definition custom_button_html (job : json) (id : string) (b : custom_button) : res string :=
  show_it ← match b_condition b with Some c => c (Some job) | None => Ok true end;
  Ok (if (show_it : bool) then
        "<button class='btn btn-small " +++ b_style b +++
        "' style='float: right; position: relative; bottom: 10px; margin-left: 5px;' onclick='"
        +++ b_callback b +++ q "(stm.DataStore.job[`" +++ id +++ q "`]);'>" +++ b_title b +++ "</button>"
      else "").

(** The part for a suspended job; [resolveError] also sends four requests. *)
Definition resolve_html (id : string) : string :=
  "<b>Workunit</b><div id='workunit'><pre>-</pre></div><div id='errorJob" +++ id +++ "'></div>".

Definition suspended_html (job : json) (id : string) : res string :=
  notes ← vprop (Some job) "notes";
  Ok (q "<button class='btn btn-small btn-danger' style='float: right; position: relative; bottom: 10px;' onclick='if(confirm(`Really delete this job? This cannot be undone!`)){Retina.WidgetInstances.awe_monitor[1].deleteJob(`"
      +++ id +++ q "`);}'>delete job</button>" +++ "<div><b>job notes</b><br><pre>" +++ to_str notes
      +++ "</pre></div>" +++ resolve_html id).

(** The page of a job with tasks: its buttons and the part for a suspended job,
    then the pills. *)
Definition is_suspended (job : json) : res bool :=
  state ← vprop (Some job) "state"; Ok (loose_eq state (VStr "suspend")).

Definition stage_head (buttons : list custom_button) (job : json) : res string :=
  id ← vprop (Some job) "id";
  bs ← mapR (custom_button_html job (to_str id)) buttons;
  suspended ← is_suspended job;
  sus ← (if (suspended : bool) then suspended_html job (to_str id) else Ok "");
  Ok (String.concat "" bs +++ sus).

Definition stage_body (job : json) (tasks : list json) : res string :=
  ps ← mapR (λ '(i, t), pill (Some job) tasks i t) (imap pair tasks);
  Ok (String.concat "" ps).

End data.
