(* ===== verification/Monitor.v ===== *)
(** * Job monitor: tables, requests and actions

    src/site_deprecated/widgets/widget.awe_monitor.js: the page
    with its tables, the requests it sends and what their answers do.
    The tables are those of [TableEvents]; the monitor's own requests wait in
    [requests] with the callback that handles the answer. *)

From Stdlib Require Import SpecFloat.
From S2P Require Import Prelude JsString JsNumber JsDecimal JsValue JsJson JsRegExp JsState JsPromise TableData TableView TableUpdate TableEvents TableThrows MonitorData.

(** What follows a successful action. *)
Inductive followup := ThenDisplay | ThenUpdateJobs.

Inductive callback :=
| CbPipelines
| CbTitle
| CbOverview
| CbClients
| CbJobDetail
| CbAction (f : followup) (done failed : string)
| CbRecompute
| CbResume (group slot : nat)
| CbIds (stage : value)
| CbShow
| CbNotes (job title : string)
| CbHead (file : string).

Record mreq := mkReq { r_method : string; r_url : string; r_cb : callback }.

(** A request to the API of MG-RAST, with its header and its body. *)
Record mgrast_request := mkMgrast { mg_url : string; mg_auth : string; mg_data : string }.

Section monitor.
Context `{RegExpOps} `{PromiseOps}.
Context (base64 : string → string) (byteSize : num → string) (retina_keys : option json → list string).
Context (date_parse : value → num) (locale_date : value → string).

(** [RetinaConfig] and the parameters of the page's URL. *)
Record config := mkConfig {
  awe_ip : string;
  mgrast_api : string;
  custom_buttons : list custom_button;
  cgi_pipeline : option string;
  cgi_jobdetail : option string;
  authorization : option string         (* widget.authHeader.Authorization *)
}.
Context (cfg : config).

Record monitor := mkMonitor {
  tabs : world;
  named : list (string * nat);          (* widget.tables *)
  store : job_store;                    (* stm.DataStore.job *)
  pipelines : option (option json);     (* stm.DataStore.pipelines *)
  requests : list mreq;
  posts : list mgrast_request;          (* what deleteMGRASTJob has sent *)
  groups : list group;                  (* the promises of resumeJobs *)
  serverTitle : string;
  overview : string;
  debug : string;
  error_div : option (string * string); (* the element errorJob<id> *)
  windows : list (option json);
  saved : list (string * option json);
  m_alerts : list string
}.

#[global] Instance monitor_eta : Eta monitor := λ m,
  mkMonitor (tabs m) (named m) (store m) (pipelines m) (requests m) (posts m) (groups m) (serverTitle m)
    (overview m) (debug m) (error_div m) (windows m) (saved m) (m_alerts m).

Abbreviation act := (M monitor ()).

Definition m_alert (msg : string) : act := modify (λ m, m <| m_alerts := m_alerts m ++ [msg] |>).

Definition ajax (method url : string) (cb : callback) : act :=
  modify (λ m, m <| requests := requests m ++ [mkReq method url cb] |>).

(** An operation of the tables. *)
Definition on_tabs (f : M world ()) : act := λ m,
  let '(w, r) := f (tabs m) in (m <| tabs := w |>, r).

Definition table_index (name : string) (m : monitor) : res nat := need TypeError (get name (named m)).

(** ** The tables *)

(** [Retina.Renderer.create("table", ...)] *)
Definition create_table (name : string) : act :=
  modify (λ m,
    let n := length (tables (tabs m)) in
    let s := defaults <| data := RawObj None None |> <| filter_autodetect := true |>
                      <| sort_autodetect := true |> in
    m <| tabs := (tabs m) <| tables := tables (tabs m) ++ [mkInst s None] |> |>
      <| named := set name n (named m) |>).

Definition plain_filter (ty : string) : filter := mkFilter ty None false None None None None.

Definition widths (l : list Z) : gmap nat Z := list_to_map (imap pair l).

Definition job_mapping : list (string * string) :=
  [("submission", "info.submittime"); ("job name", "info.name"); ("job id", "id");
   ("pipeline", "info.pipeline"); ("current state", "state"); ("todo", "remaintasks")].

Definition job_header : list string :=
  ["submission"; "job name"; "job id"; "status"; "pipeline"; "current state"; "todo"; "AWE ID"].

(** The rows of a page of jobs. *)
Definition jobs_manipulation (d : option json) : res (list row) := (dataManipulationJobs d []).2.

Definition jobs_settings (s : settings) : settings :=
  let s1 := s <| synchronous := false |> <| query_type := "prefix" |>
    <| data_manipulation := Some jobs_manipulation |>
    <| navigation_url := Some (awe_ip cfg +++ "/job?query") |> <| rows_per_page := JInt 20 |>
    <| minwidths := widths [1; 150; 150; 1; 95; 125; 65] |> <| invisible_columns := {[7%nat]} |>
    <| disable_sort := {[3%nat]} |>
    <| filters := [(1%nat, plain_filter "text"); (2%nat, plain_filter "text");
                   (4%nat, plain_filter "premade-select"); (5%nat, plain_filter "premade-select");
                   (6%nat, plain_filter "text")] |> in
  let s2 := match cgi_pipeline cfg with
            | Some p =>
                if (p =? "")%string then s1
                else s1 <| filters := fset 4 ((plain_filter "premade-select") <| searchword := Some p |>)
                                        (filters s1) |>
                        <| query := [("4", mkQ "info.pipeline" p CmpMissing)] |>
            | None => s1
            end in
  s2 <| asynch_column_mapping := Some job_mapping |> <| filter_autodetect := false |>
     <| sort_autodetect := false |> <| data := RawObj (Some job_header) (Some []) |>.

Definition work_mapping : list (string * string) :=
  [("id", "id"); ("submission time", "info.submittime"); ("cmd name", "cmd.name");
   ("cmd args", "cmd.args"); ("rank", "rank"); ("tot", "totalwork"); ("state", "state");
   ("failed", "failed"); ("priority", "info.priority")].

Definition work_header : list string :=
  ["id"; "submission time"; "cmd name"; "cmd args"; "rank"; "tot"; "state"; "failed"; "priority"].

Definition workunits_settings (s : settings) : settings :=
  let text := plain_filter "text" in
  s <| synchronous := false |> <| query_type := "prefix" |>
    <| data_manipulation := Some (dataManipulationWorkunits base64 (awe_ip cfg)) |>
    <| navigation_url := Some (awe_ip cfg +++ "/work?query") |> <| rows_per_page := JInt 10 |>
    <| minwidths := widths [1; 1; 1; 1; 65; 78; 75; 75; 83] |>
    <| asynch_column_mapping := Some work_mapping |>
    <| filters := [(0, text); (1, text); (2, text); (3, text); (4, text); (5, text);
                   (6, (plain_filter "premade-select") <| searchword := Some "" |>);
                   (7, text); (8, text)]%nat |>
    <| disable_sort := ∅ |> <| filter_autodetect := false |> <| sort_autodetect := false |>
    <| data := RawObj (Some work_header) (Some []) |>.

Definition clients_settings (rows : list (list value)) (s : settings) : settings :=
  let text := plain_filter "text" in
  s <| rows_per_page := JInt 15 |> <| invisible_columns := {[4%nat; 5%nat]} |>
    <| filter_autodetect := false |>
    <| filters := [(0, text); (1, plain_filter "select"); (2, text);
                   (3, text <| operator := Some ["="; ">"; "<"] |> <| active_operator := Some 0 |>);
                   (4, text); (5, text); (6, text); (7, plain_filter "select"); (8, text); (9, text);
                   (10, text); (11, text); (12, text); (13, text)]%nat |>
    <| minwidths := widths [110; 73; 70; 73; 75; 115; 90; 105; 85; 60; 70; 75; 90; 85; 110] |>
    <| data := RawObj (Some client_header) (Some rows) |>.

(** Change the settings of a named table, render it, and ask for its page. *)
Definition render_named (name : string) (f : settings → settings) : act :=
  m ← gets (λ m, m);
  n ← lift (table_index name m);
  _ ← on_tabs (atomic (on_settings n f));
  on_tabs (do_render_st n).

Definition update_named (name : string) : act :=
  m ← gets (λ m, m);
  n ← lift (table_index name m);
  on_tabs (do_update_st (PObject no_params) n).

Definition update_data (which : string) : act :=
  if (which =? "overview")%string then ajax "GET" (awe_ip cfg +++ "/queue?json") CbOverview
  else if (which =? "jobs")%string then
    m ← gets (λ m, m);
    ps ← lift (need TypeError (pipelines m));
    _ ← lift (json_items ps);
    _ ← render_named "jobs" jobs_settings;
    update_named "jobs"
  else if (which =? "workunits")%string then
    _ ← render_named "workunits" workunits_settings;
    update_named "workunits"
  else if (which =? "clients")%string then ajax "GET" (awe_ip cfg +++ "/client") CbClients
  else skip.

Definition set_param (o : option string) : option string :=
  match o with Some s => if (s =? "")%string then None else Some s | None => None end.

Definition display : act :=
  m ← gets (λ m, m);
  match pipelines m with
  | None => ajax "GET" (awe_ip cfg +++ "/job?distinct=pipeline") CbPipelines
  | Some _ =>
      _ ← ajax "GET" (awe_ip cfg) CbTitle;
      _ ← modify (λ m, m <| tabs := (tabs m) <| tables := take 1 (tables (tabs m)) |> |>
                         <| overview := "" |> <| debug := "" |> <| error_div := None |>);
      _ ← forM ["overview"; "jobs"; "workunits"; "clients"] (λ v,
        _ ← when (negb (v =? "overview")%string) (create_table v);
        update_data v);
      match set_param (cgi_jobdetail cfg) with
      | Some id => ajax "GET" (awe_ip cfg +++ "/job/" +++ id) CbJobDetail
      | None => skip
      end
  end.

(** ** Actions *)

Definition put (path done failed : string) (f : followup) : act :=
  ajax "PUT" (awe_ip cfg +++ path) (CbAction f done failed).

Definition resumeClient (id : string) : act :=
  put ("/client/" +++ id +++ "?resume") "client resumed" "failed to resume client" ThenDisplay.
Definition resumeAllClients : act :=
  put "/client?resumeall" "all clients resumed" "failed to resume all clients" ThenDisplay.
Definition resumeJob (id : string) : act :=
  put ("/job/" +++ id +++ "?resume") "job resumed" "failed to resume job" ThenUpdateJobs.
Definition resumeAllJobs : act :=
  put "/job?resumeall" "all jobs resumed" "failed to resume all jobs" ThenDisplay.
Definition deleteJob (id : string) : act :=
  ajax "DELETE" (awe_ip cfg +++ "/job/" +++ id)
    (CbAction ThenDisplay "job deleted" "failed to delete job").

Definition recompute_url (stage : value) (id : string) : string :=
  awe_ip cfg +++ "/job/" +++ id +++ "?recompute=" +++ to_str stage.

Definition recomputeJob (ids : list string) (stage : value) : act :=
  forM ids (λ id, ajax "PUT" (recompute_url stage id) CbRecompute).

Definition resume_url (id : string) : string := awe_ip cfg +++ "/job/" +++ id +++ "?resume".

(** A request per job; the answer to all of them is reported at once. *)
Definition all_resumed : act := _ ← m_alert "jobs resumed"; display.

Definition resumeJobs (ids : list string) : act :=
  m ← gets (λ m, m);
  let g := length (groups m) in
  _ ← forM (imap pair ids) (λ '(i, id), ajax "PUT" (resume_url id) (CbResume g i));
  let '(p, called) := when_then (length ids) in
  _ ← modify (λ m, m <| groups := groups m ++ [p] |>);
  when called all_resumed.

(** [resumeJobs] of a string goes over its characters. *)
Definition chars (s : string) : list string :=
  (λ c, String c "") <$> String.list_ascii_of_string s.

(** The link "resume job" of a workunit; the tooltip of the clients table is
    made without a job id. *)
Definition workunit_resume (jid : value) : act := resumeJobs (chars (to_str jid)).

Definition authenticatedJSON (url : string) : act := ajax "GET" url CbShow.

Definition downloadHead (url file : string) : act :=
  ajax "GET" (url +++ "&index=size&part=1&chunksize=10240") (CbHead file).

Definition workunitDetails (id which : string) : act :=
  if (which =? "stdout")%string || (which =? "stderr")%string || (which =? "worknotes")%string
  then authenticatedJSON (awe_ip cfg +++ "/work/" +++ id +++ "?report=" +++ which)
  else skip.

(** The url for the ids of the suspended jobs of the current query. *)
Definition ids_url (s : settings) : res string :=
  nav ← need TypeError (navigation_url s);
  let url := attach_query nav (query_string (query_type s)
               (List.filter (λ '(k, _), negb (k =? "state")%string) (query s))) in
  Ok (url +++ sep url +++ "limit=1000&offset=0&state=suspend").

Definition getCurrentIds (stage : value) : act :=
  m ← gets (λ m, m);
  n ← lift (table_index "jobs" m);
  i ← lift (table_at n (tabs m));
  url ← lift (ids_url (i_set i));
  ajax "GET" url (CbIds stage).

(** [resolveError]: the four requests about the last failed workunit. *)
Definition resolveError (id : string) (job : json) : act :=
  last ← lift (vprop (Some job) "lastfailed");
  let base := awe_ip cfg +++ "/work/" +++ to_str last in
  _ ← ajax "GET" base (CbNotes id "notes");
  _ ← ajax "GET" (base +++ "?report=stdout") (CbNotes id "stdout");
  _ ← ajax "GET" (base +++ "?report=stderr") (CbNotes id "stderr");
  ajax "GET" (base +++ "?report=worknotes") (CbNotes id "worknotes").

(** The page of a job, and the element [errorJob<id>] if it has one. *)
Definition stagePills (job : json) : M monitor (string * option (string * string)) :=
  ts ← lift (prop (Some job) "tasks");
  tasks ← lift (json_items ts);
  match tasks with
  | [] => mret ("<h4>this job has no tasks</h4>", None)
  | _ =>
      head ← lift (stage_head (custom_buttons cfg) job);
      suspended ← lift (is_suspended job);
      jid ← lift (vprop (Some job) "id");
      _ ← when suspended (resolveError (to_str jid) job);
      body ← lift (stage_body byteSize date_parse locale_date job tasks);
      mret (head +++ body, if (suspended : bool) then Some (to_str jid, "") else None)
  end.

Definition jobDetails (id : string) (as_json : bool) : act :=
  m ← gets (λ m, m);
  if as_json then
    modify (λ m, m <| windows := windows m ++ [get id (store m)] |>)
  else
    job ← lift (need TypeError (get id (store m)));
    p ← stagePills job;
    modify (λ m, m <| debug := p.1 |> <| error_div := p.2 |>).

(** ** Answers *)

Definition note_text (title : string) (data : option json) : res string :=
  if (title =? "notes")%string then
    v ← vprop2 data "data" "notes"; Ok (to_str (vor v (VStr "-")))
  else v ← vprop data "data"; Ok (to_str v).

Definition response_ids (data : option json) : res (list string) :=
  d ← prop data "data";
  l ← json_items d;
  mapR (λ j, v ← vprop (Some j) "id"; Ok (to_str v)) l.

Definition follow (f : followup) : act :=
  match f with ThenDisplay => display | ThenUpdateJobs => update_named "jobs" end.

(** [this.p.resolve()], for the promise of job [i] of a group. *)
Definition resolve (g i : nat) : act :=
  m ← gets (λ m, m);
  match groups m !! g with
  | None => skip
  | Some p =>
      let '(p', called) := resolve_one i p in
      _ ← modify (λ m, m <| groups := <[g := p']> (groups m) |>);
      when called all_resumed
  end.

Definition on_success (cb : callback) (data : option json) : act :=
  match cb with
  | CbPipelines =>
      d ← lift (prop data "data");
      _ ← modify (λ m, m <| pipelines := Some d |>);
      display
  | CbTitle =>
      match data with
      | Some (JObj ps) =>
          match get "title" ps with
          | Some t => modify (λ m, m <| serverTitle := json_str t |>)
          | None => skip
          end
      | None | Some JNull => throw TypeError
      | _ => skip
      end
  | CbOverview =>
      d ← lift (prop data "data");
      h ← lift (overview_html d);
      modify (λ m, m <| overview := h |>)
  | CbClients =>
      d ← lift (prop data "data");
      rows ← lift (client_rows retina_keys d);
      render_named "clients" (clients_settings rows)
  | CbJobDetail =>
      d ← lift (prop data "data");
      id ← lift (vprop d "id");
      _ ← modify (λ m, m <| store := set (to_str id) (default JNull d) (store m) |>);
      jobDetails (to_str id) false
  | CbAction f done _ => _ ← follow f; m_alert done
  | CbRecompute => skip
  | CbResume g i => resolve g i
  | CbIds stage =>
      ids ← lift (response_ids data);
      if bool_decide (stage = VNull) then resumeJobs ids else recomputeJob ids stage
  | CbShow => modify (λ m, m <| windows := windows m ++ [data] |>)
  | CbNotes id title =>
      txt ← lift (note_text title data);
      m ← gets (λ m, m);
      div ← lift (need TypeError (error_div m));
      if (div.1 =? id)%string then
        modify (λ m, m <| error_div := Some (id, div.2 +++ "<div><b>workunit " +++ title
                                     +++ "</b><br><pre>" +++ txt +++ "</pre></div>") |>)
      else throw TypeError
  | CbHead file => modify (λ m, m <| saved := saved m ++ [(file, data)] |>)
  end.

(** The answer is an error; [body] is what it says. *)
Definition on_failure (cb : callback) (body : option json) : act :=
  match cb with
  | CbAction _ _ failed => m_alert failed
  | CbRecompute => m_alert "failed to start recomputation"
  | CbHead _ => m_alert "could not get head of file"
  | CbShow =>
      e ← lift (prop body "error");
      v ← lift (match e with
                | Some (JArr l) => Ok (to_value (head l))
                | None | Some JNull => Throw TypeError
                | _ => Ok VUndef
                end);
      m_alert (to_str v)
  | _ => skip
  end.

(** Request [k] is answered. *)
Definition answer (k : nat) (ok : bool) (data : option json) : act :=
  m ← gets (λ m, m);
  r ← lift (need TypeError (requests m !! k));
  _ ← modify (λ m, m <| requests := delete k (requests m) |>);
  if ok then on_success (r_cb r) data else on_failure (r_cb r) data.

(** A page of a table arrives; the jobs of the jobs table are remembered. *)
Definition table_answer (k : nat) (r : response) : act :=
  m ← gets (λ m, m);
  rq ← lift (need TypeError (pending (tabs m) !! k));
  _ ← when (bool_decide (get "jobs" (named m) = Some (rq_index rq)))
        (modify (λ m, m <| store := (dataManipulationJobs (rs_data r) (store m)).1 |>));
  on_tabs (on_response_st k r).

(** ** Setup

    A promise for the table renderer and one for each custom button.  The
    callbacks share the variable [promise], which is the last one when they run. *)
Definition setup (buttons : nat) : nat := S buttons.

Inductive load := RendererLoaded | ScriptLoaded (i : nat).

(** The promise that is resolved. *)
Definition loaded (buttons : nat) (l : load) : nat :=
  match l with
  | RendererLoaded => 0
  | ScriptLoaded _ => buttons
  end.

End monitor.
