(* ===== verification/MonitorActions.v ===== *)
(** * Job monitor: what the actions do *)

From Stdlib Require Import SpecFloat.
From S2P Require Import Prelude JsString JsNumber JsDecimal JsValue JsJson JsRegExp RegExpEngine JsState JsPromise TableData TableView TableUpdate TableEvents TableThrows MonitorData Monitor.

(** ** Parts of the page that are left alone *)

Section keeps.
Context `{RegExpOps} `{PromiseOps}.

(** An action that leaves a part of the page as it is, whether it returns or
    throws. *)
Definition keeps {X A} (f : monitor → X) (a : M monitor A) : Prop := ∀ m, f (a m).1 = f m.

Lemma keeps_bind {X A B} (f : monitor → X) (a : M monitor A) (k : A → M monitor B) :
  keeps f a → (∀ x, keeps f (k x)) → keeps f (a ≫= k).
Proof.
  intros Ha Hk m. unfold mbind, M_bind. specialize (Ha m).
  destruct (a m) as [m' [x|e]]; simpl in *; [|done]. by rewrite Hk.
Qed.

Lemma keeps_modify {X} (f : monitor → X) g : (∀ m, f (g m) = f m) → keeps f (modify g).
Proof. intros Hg m. apply Hg. Qed.
Lemma keeps_pure {X A} (f : monitor → X) (a : M monitor A) : (∀ m, (a m).1 = m) → keeps f a.
Proof. intros Ha m. by rewrite Ha. Qed.
Lemma keeps_on_tabs {X} (f : monitor → X) g :
  (∀ m w, f (m <| tabs := w |>) = f m) → keeps f (on_tabs g).
Proof. intros Hf m. unfold on_tabs. destruct (g (tabs m)). apply Hf. Qed.
Lemma keeps_forM {X A} (f : monitor → X) (l : list A) (g : A → M monitor ()) :
  (∀ x, keeps f (g x)) → keeps f (forM l g).
Proof. intros Hg. induction l; simpl; [by apply keeps_pure|by apply keeps_bind]. Qed.

End keeps.

(** One step of a proof that an action keeps a part of the page. *)
Ltac keeps_step :=
  match goal with
  | |- keeps _ (_ ≫= _) => apply keeps_bind; [|intros ?]
  | |- keeps _ (lift _) => by apply keeps_pure
  | |- keeps _ (gets _) => by apply keeps_pure
  | |- keeps _ (mret _) => by apply keeps_pure
  | |- keeps _ (throw _) => by apply keeps_pure
  | |- keeps _ skip => by apply keeps_pure
  | |- keeps _ (on_tabs _) => by apply keeps_on_tabs
  | |- keeps _ (modify _) => by apply keeps_modify
  | |- keeps _ (ajax _ _ _) => by apply keeps_modify
  | |- keeps _ (create_table _) => by apply keeps_modify
  | |- keeps _ (forM _ _) => apply keeps_forM; intros ?
  | |- keeps _ (when _ _) => unfold when
  | |- keeps _ (if ?b then _ else _) => destruct b
  | |- keeps _ (match ?x with _ => _ end) => destruct x
  end.

Section actions.
Context `{RegExpOps} `{PromiseLaws}.
Context (base64 : string → string) (byteSize : num → string) (retina_keys : option json → list string).
Context (date_parse : value → num) (locale_date : value → string).
Context (cfg : config).

Implicit Types (m : monitor).

(** Sending requests one after the other. *)
Lemma ajax_all {A} (l : list A) (f : A → mreq) m :
  forM l (λ a, ajax (r_method (f a)) (r_url (f a)) (r_cb (f a))) m =
    (m <| requests := requests m ++ (f <$> l) |>, Ok ()).
Proof.
  revert m. induction l as [|a l IH]; intros m; simpl.
  - unfold skip, mret, M_ret. rewrite app_nil_r. by destruct m.
  - unfold mbind, M_bind, ajax at 1, modify. rewrite IH. upd_simpl. rewrite <-app_assoc.
    by destruct (f a), m.
Qed.

(** ** Resuming and recomputing *)

Definition recompute_request (stage : value) (id : string) : mreq :=
  mkReq "PUT" (recompute_url cfg stage id) CbRecompute.

(** The button "resume selected jobs" calls [getCurrentIds] without a stage,
    and its answer makes every selected job be recomputed at the stage
    [undefined] instead of being resumed. *)
Theorem resume_selected_recomputes data ids m :
  response_ids data = Ok ids →
  on_success base64 byteSize retina_keys date_parse locale_date cfg (CbIds VUndef) data m =
    (m <| requests := requests m ++
       ((λ id, mkReq "PUT" (awe_ip cfg +++ "/job/" +++ id +++ "?recompute=undefined") CbRecompute)
          <$> ids) |>, Ok ()).
Proof.
  intros Hids. unfold on_success, mbind, M_bind, lift. rewrite Hids.
  rewrite bool_decide_false by done. unfold recomputeJob.
  rewrite <-(ajax_all ids (recompute_request VUndef) m) at 1. done.
Qed.

(** ** Resuming several jobs *)

(** Nothing on the page but an alert reports to the user. *)
Abbreviation quiet := (keeps m_alerts).

Lemma display_quiet : quiet (display base64 cfg).
Proof.
  unfold display, update_data, render_named, update_named. repeat keeps_step.
Qed.

(** The group [g] has [n] promises, of which those of [l] are resolved. *)
Definition group_state (g n : nat) (l : list nat) m : Prop :=
  ∃ p, groups m !! g = Some p ∧ size p = n ∧ ∀ i, resolved p i = true ↔ i ∈ l.

Lemma group_all (p : group) n (l : list nat) : size p = n → (∀ i, resolved p i = true ↔ i ∈ l) →
  all_resolved p ↔ ∀ i, (i < n)%nat → i ∈ l.
Proof. intros <- Hl. unfold all_resolved. split; intros Hall i Hi; by apply Hl, Hall. Qed.

(** One answer: the state of the group, and whether it is the last. *)
Lemma group_resolve g n l i m p :
  groups m !! g = Some p → size p = n → (∀ j, resolved p j = true ↔ j ∈ l) → (i < n)%nat →
  group_state g n (l ++ [i]) (m <| groups := <[g := (resolve_one i p).1]> (groups m) |>) ∧
  ((resolve_one i p).2 = true ↔ (∀ j, (j < n)%nat → j ∈ l ++ [i]) ∧ ¬ (∀ j, (j < n)%nat → j ∈ l)).
Proof.
  intros Hg Hn Hl Hi. rewrite <-Hn in Hi.
  assert (∀ j, resolved (resolve_one i p).1 j = true ↔ j ∈ l ++ [i]) as Hl'.
  { intros j. rewrite resolve_resolved, elem_of_app, list_elem_of_singleton by done. by rewrite Hl. }
  split.
  - exists (resolve_one i p).1. upd_simpl. rewrite list_lookup_insert_eq by (by eapply lookup_lt_Some).
    by rewrite resolve_size.
  - rewrite resolve_calls by done.
    rewrite (group_all _ n _ (eq_trans (resolve_size i p) Hn) Hl'), (group_all _ n _ Hn Hl). done.
Qed.

Lemma covers_all (l : list nat) n :
  NoDup l → (∀ i, i ∈ l → (i < n)%nat) → (∀ i, (i < n)%nat → i ∈ l) ↔ length l = n.
Proof.
  intros Hnd Hlt.
  assert (l ⊆+ seq 0 n) as Hsub.
  { apply NoDup_submseteq; [done|]. intros i Hi. apply elem_of_seq. specialize (Hlt i Hi). lia. }
  pose proof (submseteq_length _ _ Hsub) as Hle. rewrite length_seq in Hle. split.
  - intros Hall. assert (seq 0 n ⊆+ l) as Hsub'.
    { apply NoDup_submseteq; [apply NoDup_seq|]. intros i Hi%elem_of_seq. apply Hall. lia. }
    apply submseteq_length in Hsub'. rewrite length_seq in Hsub'. lia.
  - intros Hlen i Hi. assert (l ≡ₚ seq 0 n) as ->.
    { apply submseteq_length_Permutation; [done|]. rewrite length_seq. lia. }
    apply elem_of_seq. lia.
Qed.

(** One answer that is not the last. *)
Lemma resolve_early g n l i m :
  group_state g n l m → (i < n)%nat → ¬ (∀ j, (j < n)%nat → j ∈ l ++ [i]) →
  wp (resolve base64 cfg g i) (λ _ m', group_state g n (l ++ [i]) m' ∧ m_alerts m' = m_alerts m) m.
Proof.
  intros (p & Hg & Hn & Hl) Hi Hnot. destruct (group_resolve g n l i m p Hg Hn Hl Hi) as [Hst Hcalls].
  unfold resolve. do 2 wp_step. rewrite Hg. destruct (resolve_one i p) as [p' called]. cbn [fst snd] in *.
  do 2 wp_step. destruct called; [by destruct (proj1 Hcalls eq_refl)|]. by apply wp_skip.
Qed.

(** The last answer. *)
Lemma resolve_last g n l i m :
  group_state g n l m → (i < n)%nat → i ∉ l → (∀ j, (j < n)%nat → j ∈ l ++ [i]) →
  m_alerts (resolve base64 cfg g i m).1 = m_alerts m ++ ["jobs resumed"].
Proof.
  intros (p & Hg & Hn & Hl) Hi Hil Hall. destruct (group_resolve g n l i m p Hg Hn Hl Hi) as [_ Hcalls].
  unfold resolve, mbind, M_bind, gets. rewrite Hg. destruct (resolve_one i p) as [p' called]. cbn [fst snd] in *.
  assert (called = true) as -> by (apply Hcalls; split; [done|auto]).
  cbn [when modify]. unfold all_resumed, mbind, M_bind, m_alert, modify. by rewrite display_quiet.
Qed.

Lemma resolves_early g n l : ∀ m,
  NoDup l → (∀ i, i ∈ l → (i < n)%nat) → (length l < n)%nat → group_state g n [] m →
  wp (forM l (resolve base64 cfg g)) (λ _ m', group_state g n l m' ∧ m_alerts m' = m_alerts m) m.
Proof.
  intros m Hnd Hlt Hlen Hg.
  apply (wp_forM _ _ (λ done m', group_state g n done m' ∧ m_alerts m' = m_alerts m)); [done| |done].
  intros l1 x rest m1 El [Hg1 Ha1]. eapply wp_mono; [|apply (resolve_early g n l1 x m1 Hg1)].
  - intros [] m2 [Hg2 Ha2]. split; [done|congruence].
  - apply Hlt. rewrite El. set_solver.
  - assert (NoDup (l1 ++ [x])) as Hnd1.
    { rewrite El, cons_middle, app_assoc in Hnd. by apply NoDup_app in Hnd as (? & _). }
    rewrite covers_all; [|done|].
    + rewrite El, !length_app in *. simpl in *. lia.
    + intros j Hj. apply Hlt. rewrite El, cons_middle, app_assoc. apply elem_of_app. by left.
Qed.

(** C16: resuming several jobs. With promises of jQuery that behave as documented,
    [resumeJobs] of one or more jobs sends one request per job; as long as some of
    them have not been answered (or have failed, which resolves nothing) the user is
    told nothing, and when all have been, in any order, the report comes, once. *)
Theorem resume_jobs_reports ids m l :
  ids ≠ [] → NoDup l → (∀ i, i ∈ l → (i < length ids)%nat) →
  let g := length (groups m) in
  let m1 := (resumeJobs base64 cfg ids m).1 in
  requests m1 = requests m ++ imap (λ i id, mkReq "PUT" (resume_url cfg id) (CbResume g i)) ids ∧
  m_alerts (forM l (λ i, on_success base64 byteSize retina_keys date_parse locale_date cfg
                           (CbResume g i) None) m1).1 =
    m_alerts m ++ (if bool_decide (length l = length ids) then ["jobs resumed"] else []).
Proof.
  intros Hne Hnd Hlt g m1.
  assert ((when_then (length ids)).2 = false) as Hcall by (apply when_waits; by destruct ids).
  assert (m1 = m <| requests := requests m ++ imap (λ i id, mkReq "PUT" (resume_url cfg id) (CbResume g i)) ids |>
                 <| groups := groups m ++ [(when_then (length ids)).1] |>) as Em1.
  { unfold m1, resumeJobs, mbind, M_bind, gets, modify.
    erewrite forM_ext, (ajax_all (imap pair ids)
      (λ p, mkReq "PUT" (resume_url cfg p.2) (CbResume g p.1))); [|by intros []].
    destruct (when_then (length ids)) as [p called]. cbn [snd fst] in *. rewrite Hcall. cbn [when skip mret M_ret fst].
    upd_simpl. by rewrite fmap_imap. }
  split; [by rewrite Em1|].
  assert (group_state g (length ids) [] m1) as Hg.
  { exists (when_then (length ids)).1. rewrite Em1. upd_simpl. split_and!.
    - unfold g. by rewrite lookup_app_r, Nat.sub_diag by lia.
    - apply when_size.
    - intros i. rewrite when_resolved, elem_of_nil. done. }
  assert (m_alerts m1 = m_alerts m) as Ea by by rewrite Em1.
  clear Em1. clearbody m1. rewrite <-Ea. clear Ea.
  change (m_alerts (forM l (resolve base64 cfg g) m1).1 = m_alerts m1 ++
    (if bool_decide (length l = length ids) then ["jobs resumed"] else [])).
  case_bool_decide as Hlen.
  - destruct l as [|i l _] using rev_ind; [destruct ids; [done|simpl in Hlen; lia]|].
    rewrite forM_snoc. unfold mbind, M_bind.
    assert (∀ j, j ∈ l → (j < length ids)%nat) as Hlt' by (intros j Hj; apply Hlt; set_solver).
    pose proof (proj2 (covers_all (l ++ [i]) (length ids) Hnd Hlt) Hlen) as Hall.
    apply NoDup_app in Hnd as (Hnd & Hdis & _). rewrite length_app in Hlen. simpl in Hlen.
    pose proof (resolves_early g (length ids) l m1 Hnd Hlt' ltac:(lia) Hg) as Hw. unfold wp in Hw.
    destruct (forM l _ m1) as [m2 [[]|]]; [|done]. destruct Hw as [Hg2 <-].
    apply (resolve_last g (length ids) l); [done| | |done]; [apply Hlt; set_solver|].
    intros Hi. apply (Hdis i Hi). set_solver.
  - rewrite app_nil_r. assert (length l < length ids)%nat as Hlt'.
    { assert (l ⊆+ seq 0 (length ids)) as Hsub.
      { apply NoDup_submseteq; [done|]. intros i Hi. apply elem_of_seq. specialize (Hlt i Hi). lia. }
      apply submseteq_length in Hsub. rewrite length_seq in Hsub. lia. }
    pose proof (resolves_early g (length ids) l m1 Hnd Hlt Hlt' Hg) as Hw. unfold wp in Hw.
    destruct (forM l _ m1) as [m2 [[]|]]; [|done]. apply Hw.
Qed.

(** The link "resume job" in the tooltip of a workunit that a client has
    failed asks the server to resume nine jobs, named by the letters of
    "undefined". *)
Theorem error_link_resumes_letters m :
  r_url <$> requests (workunit_resume base64 cfg VUndef m).1 =
    (r_url <$> requests m) ++
    ((λ c, awe_ip cfg +++ "/job/" +++ c +++ "?resume") <$>
       ["u"; "n"; "d"; "e"; "f"; "i"; "n"; "e"; "d"]).
Proof.
  unfold workunit_resume, resumeJobs, mbind, M_bind, gets, modify.
  erewrite forM_ext, (ajax_all (imap pair (chars (to_str VUndef)))
    (λ p, mkReq "PUT" (resume_url cfg p.2) (CbResume (length (groups m)) p.1))); [|by intros []].
  pose proof (when_waits (length (chars (to_str VUndef))) ltac:(done)) as Hcall.
  destruct (when_then (length (chars (to_str VUndef)))) as [p called]. cbn [snd] in Hcall. rewrite Hcall.
  cbn [when skip mret M_ret fst]. upd_simpl. rewrite fmap_app. done.
Qed.

(** ** The ids of the selected jobs *)

(** The filter on the state of the jobs is part of the query for the ids of
    the suspended jobs: a table filtered by state [w] asks for jobs that are in
    state [w] and suspended. *)
Theorem state_filter_is_kept s nav f w :
  navigation_url s = Some nav → has_char qmark nav = true → query_type s = "prefix" →
  nonempty_word f = Some w →
  query s = map_query (Some job_mapping) (filter_query job_header [(5%nat, f)]) →
  ids_url s = Ok (nav +++ "&state=" +++ w +++ "&limit=1000&offset=0&state=suspend").
Proof.
  intros Hnav Hq Hty Hw Hquery.
  assert (w ≠ "") as Hne.
  { unfold nonempty_word in Hw. destruct (searchword f) as [w'|]; [|done].
    destruct (String.eqb_spec w' ""); congruence. }
  set (c := match operator f with Some l => CmpOperators l | None => CmpEqual end).
  assert (query s = [("0", mkQ "state" w c)]) as Eq.
  { rewrite Hquery. unfold filter_query. cbn [omap list_omap mbind option_bind]. rewrite Hw. done. }
  assert (query_string "prefix" [("0", mkQ "state" w c)] = "?state=" +++ w) as Es.
  { unfold query_string. cbn [foldl q_searchword]. by rewrite (proj2 (String.eqb_neq _ _) Hne). }
  unfold ids_url. rewrite Hnav, Eq, Hty. cbn [need mbind res_bind List.filter].
  change (negb ("0" =? "state")%string) with true. cbv iota. rewrite Es. unfold attach_query.
  rewrite Hq. change (has_char qmark ("?state=" +++ w)) with true. cbn [andb].
  change (replace_first qmark amp ("?state=" +++ w)) with ("&state=" +++ w).
  unfold sep. rewrite has_char_app, Hq. cbn [orb]. by rewrite !sapp_assoc.
Qed.

(** ** Setup *)

(** With two or more custom buttons configured the promise of the first is never
    resolved, whatever is loaded; with at most one, every promise is, once
    everything has been loaded. *)
Theorem setup_of_two_buttons_hangs n (l : list load) :
  ((2 ≤ n)%nat → (1 < setup n)%nat ∧ 1%nat ∉ loaded n <$> l) ∧
  ((n ≤ 1)%nat → RendererLoaded ∈ l → (n = 1%nat → ScriptLoaded 0 ∈ l) →
     ∀ i, (i < setup n)%nat → i ∈ loaded n <$> l).
Proof.
  unfold setup. split.
  - intros Hn. split; [lia|]. intros (x & E & _)%list_elem_of_fmap. destruct x; cbn in E; lia.
  - intros Hn Hr Hs i Hi. apply list_elem_of_fmap.
    assert (i = 0%nat ∨ (i = 1%nat ∧ n = 1%nat)) as [->|[-> ->]] by lia; [by exists RendererLoaded|].
    exists (ScriptLoaded 0). auto.
Qed.

(** ** The pages of jobs *)

Lemma job_rows_spec l : ∀ st rows,
  mapR job_row l = Ok rows →
  ∃ st', job_rows l st = (st', Ok rows) ∧
    ∀ id, get id st' = match last_with id l with Some o => Some o | None => get id st end.
Proof.
  induction l as [|o l IH]; intros st rows Hr; cbn [mapR] in Hr.
  - injection Hr as <-. by exists st.
  - apply bind_ok in Hr as (r & Ho & Hr). apply bind_ok in Hr as (rs & Hrs & [= <-]).
    assert (∃ v, vprop (Some o) "id" = Ok v) as [v Hv].
    { unfold job_row in Ho. apply bind_ok in Ho as (v & Hv & _). eauto. }
    destruct (IH (set (to_str v) o st) rs Hrs) as (st' & Hst & Hget).
    exists st'. split.
    + cbn [job_rows]. unfold mbind, M_bind, lift, modify, mret, M_ret. rewrite Hv, Ho. by rewrite Hst.
    + intros id. rewrite Hget. cbn [last_with]. destruct (last_with id l); [done|]. rewrite Hv.
      destruct (String.eqb_spec (to_str v) id) as [->|Hne]; [by rewrite get_set_eq|].
      by rewrite get_set_ne by congruence.
Qed.

(** C26: a page of jobs gives a row per job, in order, or the row of dashes when
    there is none, and every job of the page can then be found under its id. *)
Theorem jobs_page_is_stored l rows st :
  mapR job_row l = Ok rows →
  ∃ st', dataManipulationJobs (Some (JArr l)) st = (st', Ok (or_placeholder no_jobs rows)) ∧
    (∀ id, get id st' = match last_with id l with Some o => Some o | None => get id st end) ∧
    (l ≠ [] → or_placeholder no_jobs rows = rows ∧ length rows = length l).
Proof.
  intros Hr. destruct (job_rows_spec l st rows Hr) as (st' & Hst & Hget). exists st'. split_and!.
  - unfold dataManipulationJobs, mbind, M_bind, lift. simpl. by rewrite Hst.
  - done.
  - intros Hne. apply mapR_length in Hr. destruct rows; [by destruct l|]. done.
Qed.

(** When there are no jobs or no workunits, their tables show "undefined" in
    the columns that the row of dashes does not have. *)
Theorem empty_tables_show_undefined (s : settings) (r : nat) :
  dataManipulationJobs (Some (JArr [])) [] = ([], Ok [no_jobs]) ∧
  dataManipulationWorkunits base64 (awe_ip cfg) (Some (JArr [])) = Ok [no_workunits] ∧
  (deref (heap s) r = no_jobs → invisible_columns s = {[7%nat]} →
     body job_header s [r] = [["-"; "-"; "-"; "-"; "-"; "-"; "undefined"]]) ∧
  (deref (heap s) r = no_workunits → invisible_columns s = ∅ →
     body work_header s [r] = [["-"; "undefined"; "-"; "-"; "-"; "-"; "-"; "-"; "undefined"]]).
Proof.
  split; [done|]. split; [done|].
  unfold body, visible, cell. split; intros Hr Hi; cbn [fmap list_fmap]; rewrite Hr, Hi; reflexivity.
Qed.

End actions.

(** ** Witnesses *)

Definition ex_config : @config := mkConfig "http://awe" "http://mg" [] None None (Some "OAuth x").

Definition ex_monitor : @monitor EsRegExp FlagPromises :=
  mkMonitor (mkWorld [mkInst defaults None] None [] []) [] [] None [] [] [] "" "" "" None [] [] [].

Definition ex_base64 (s : string) : string := s.
Definition ex_byteSize (n : num) : string := num_show n +++ " B".
Definition ex_keys (o : option json) : list string := (json_entries o).*1.
Definition ex_parse (v : value) : num := to_number v.
Definition ex_locale (v : value) : string := to_str v.

Definition ids_data : option json :=
  Some (JObj [("data", JArr [JObj [("id", JStr "j1")]; JObj [("id", JStr "j2")]])]).

Lemma resume_selected_recomputes_witness :
  r_url <$> requests (on_success ex_base64 ex_byteSize ex_keys ex_parse ex_locale ex_config
    (CbIds VUndef) ids_data ex_monitor).1 =
  ["http://awe/job/j1?recompute=undefined"; "http://awe/job/j2?recompute=undefined"].
Proof.
  rewrite (resume_selected_recomputes ex_base64 ex_byteSize ex_keys ex_parse ex_locale ex_config
    ids_data ["j1"; "j2"] ex_monitor eq_refl). reflexivity.
Defined.

Lemma resume_jobs_reports_witness :
  m_alerts (forM [1; 0]%nat (λ i, on_success ex_base64 ex_byteSize ex_keys ex_parse ex_locale ex_config
    (CbResume 0 i) None) (resumeJobs ex_base64 ex_config ["j1"; "j2"] ex_monitor).1).1 = ["jobs resumed"].
Proof.
  refine (proj2 (resume_jobs_reports ex_base64 ex_byteSize ex_keys ex_parse ex_locale ex_config
    ["j1"; "j2"] ex_monitor [1; 0]%nat _ _ _)).
  - discriminate.
  - apply NoDup_cons. split; [set_solver|apply NoDup_singleton].
  - intros i Hi. simpl. repeat (apply elem_of_cons in Hi as [->|Hi]; [lia|]). by apply elem_of_nil in Hi.
Defined.

Definition state_filtered : @settings EsRegExp :=
  defaults <| navigation_url := Some "http://awe/job?query" |> <| query_type := "prefix" |>
    <| query := [("0", mkQ "state" "completed" CmpEqual)] |>.

Lemma state_filter_is_kept_witness :
  ids_url state_filtered =
    Ok "http://awe/job?query&state=completed&limit=1000&offset=0&state=suspend".
Proof.
  apply (state_filter_is_kept state_filtered "http://awe/job?query"
    (@mkFilter EsRegExp "premade-select" (Some "completed") false None None None None) "completed");
    reflexivity.
Defined.

Lemma setup_of_two_buttons_hangs_witness :
  1%nat ∉ loaded 2 <$> [RendererLoaded; ScriptLoaded 0; ScriptLoaded 1].
Proof.
  apply (setup_of_two_buttons_hangs 2 [RendererLoaded; ScriptLoaded 0; ScriptLoaded 1]). lia.
Defined.

Definition ex_job (id : string) : json :=
  JObj [("id", JStr id); ("state", JStr "suspend"); ("remaintasks", JNum (num_of_Z 1));
        ("info", JObj [("submittime", JStr "t"); ("name", JStr "n"); ("pipeline", JStr "p")]);
        ("tasks", JArr [JObj [("state", JStr "completed"); ("cmd", JObj [("description", JStr "qc")])]])].

Lemma jobs_page_is_stored_witness :
  ∃ st', (dataManipulationJobs (Some (JArr [ex_job "a"; ex_job "b"])) []).1 = st' ∧
    get "b" st' = Some (ex_job "b") ∧ get "c" st' = None.
Proof.
  assert (mapR job_row [ex_job "a"; ex_job "b"] =
    Ok (match mapR job_row [ex_job "a"; ex_job "b"] with Ok r => r | Throw _ => [] end)) as Hr by vm_eq.
  destruct (jobs_page_is_stored [ex_job "a"; ex_job "b"] _ [] Hr) as (st' & E & Hget & _).
  exists st'. rewrite E. split; [done|]. rewrite !Hget. split; reflexivity.
Defined.

Definition ex_empty : @settings EsRegExp :=
  defaults <| heap := [no_jobs] |> <| invisible_columns := {[7%nat]} |>.

Lemma empty_tables_show_undefined_witness :
  body job_header ex_empty [0%nat] = [["-"; "-"; "-"; "-"; "-"; "-"; "undefined"]].
Proof.
  apply (empty_tables_show_undefined ex_base64 ex_config ex_empty 0); reflexivity.
Defined.
