(* ===== verification/CustomButton.v ===== *)
(** * The MG-RAST button

    src/site_deprecated/js/customButton.js: a button that the configuration adds
    to the page of a job ([custom_button_html]).  It deletes a suspended job of
    the MG-RAST pipeline through the API of MG-RAST; its answer is handled like
    that of the monitor's own actions. *)

From S2P Require Import Prelude JsString JsNumber JsValue JsJson JsRegExp RegExpEngine JsonText JsonRoundTrip JsState JsPromise TableData TableEvents MonitorData Monitor MonitorActions.

Definition showDeleteMGRASTButton (job : option json) : res bool :=
  state ← vprop job "state";
  if loose_eq state (VStr "suspend") then
    p ← vprop2 job "info" "pipeline";
    Ok (loose_eq p (VStr "mgrast-prod"))
  else Ok false.

(** [s.replace(p, r)] of a string pattern: the first occurrence. *)
Fixpoint replace_str (p r s : string) : string :=
  match take_prefix p s with
  | Some rest => r +++ rest
  | None => match s with EmptyString => "" | String c s' => String c (replace_str p r s') end
  end.

(** The body of the request. *)
Definition mgrast_body (id why : string) : string :=
  q "{ `metagenome_id`: `" +++ id +++ q "`,`reason`: `" +++ why +++ q "` }".

Section button.
Context `{RegExpOps} `{PromiseOps}.
Context (base64 : string → string) (byteSize : num → string) (retina_keys : option json → list string).
Context (date_parse : value → num) (locale_date : value → string).
Context (cfg : config).

Implicit Types (m : monitor).

Definition mgrast_post (job : option json) (why : string) : res mgrast_request :=
  auth ← need TypeError (authorization cfg);
  attr ← prop2 job "info" "userattr";
  id ← vprop attr "id";
  Ok (mkMgrast (mgrast_api cfg +++ "/job/delete") (replace_str "OAuth" "mgrast" auth)
        (mgrast_body (to_str id) why)).

Definition mgrast_callback : callback :=
  CbAction ThenDisplay "job deleted from MG-RAST" "failed to delete job from MG-RAST".

(** [reason] is the answer to the prompt; an empty or cancelled prompt sends
    nothing. *)
Definition deleteMGRASTJob (job : option json) (reason : option string) : M monitor () :=
  match set_param reason with
  | None => skip
  | Some why =>
      r ← lift (mgrast_post job why);
      _ ← modify (λ m, m <| posts := posts m ++ [r] |>);
      ajax "POST" (mg_url r) mgrast_callback
  end.

(** ** What it does *)

(** Deleting a job of MG-RAST.  A prompt that is cancelled or left empty sends
    nothing; otherwise exactly one request is sent, and when it fails the page
    is as it was before, but for an alert that says so. *)
Theorem mgrast_failure_only_alerts job reason m m' body :
  (set_param reason = None → deleteMGRASTJob job reason m = (m, Ok ())) ∧
  (set_param reason ≠ None → deleteMGRASTJob job reason m = (m', Ok ()) →
   ∃ r, posts m' = posts m ++ [r] ∧ mg_url r = mgrast_api cfg +++ "/job/delete" ∧
     answer base64 byteSize retina_keys date_parse locale_date cfg (length (requests m)) false body m' =
       (m <| posts := posts m ++ [r] |>
          <| m_alerts := m_alerts m ++ ["failed to delete job from MG-RAST"] |>, Ok ())).
Proof.
  unfold deleteMGRASTJob. destruct (set_param reason) as [why|]; [|done]. split; [done|].
  intros _. unfold mbind, M_bind, lift. destruct (mgrast_post job why) as [r|e] eqn:Hr; [|done].
  intros [= <-]. exists r. upd_simpl. split; [done|]. split.
  { revert Hr. unfold mgrast_post, mbind, res_bind.
    repeat (case_match; try done). by intros [= <-]. }
  unfold answer, mbind, M_bind, gets, lift. upd_simpl.
  rewrite list_lookup_middle by done. upd_simpl.
  unfold on_failure, mgrast_callback, m_alert, modify. simpl. upd_simpl.
  rewrite delete_middle, app_nil_r. by destruct m.
Qed.

(** ** The body *)

(** A text in which nothing has to be escaped. *)
Definition plain_text (s : string) : bool := (quote_chars s =? s)%string.

Lemma read_plain s r : plain_text s = true → read_chars (s +++ String dquote r) = Some (s, r).
Proof. intros Hs%String.eqb_eq. rewrite <-Hs at 1. apply read_quote. Qed.

(** A member of an object whose value is a string. *)
Lemma read_member f k v acc x y r :
  read_chars x = Some (k, q ": `" +++ y) → read_chars y = Some (v, r) →
  read_members (S (S f)) (String dquote x) acc =
    let r := skip_ws r in
    if head_is "," r then read_members (S f) (rest_of r) (set k (JStr v) acc)
    else if head_is "}" r then Some (set k (JStr v) acc, rest_of r) else None.
Proof.
  intros Hx Hy.
  assert (read_value (S f) (q " `" +++ y) = Some (JStr v, r)) as Hv.
  { change (('(t, r) ← read_chars y; Some (JStr t, r)) = Some (JStr v, r)). by rewrite Hy. }
  change (('(k, r) ← read_chars x;
    let r := skip_ws r in
    if head_is ":" r then
      '(j, r) ← read_value (S f) (rest_of r);
      let r := skip_ws r in
      let acc := set k j acc in
      if head_is "," r then read_members (S f) (rest_of r) acc
      else if head_is "}" r then Some (acc, rest_of r)
      else None
    else None) = let r := skip_ws r in
    if head_is "," r then read_members (S f) (rest_of r) (set k (JStr v) acc)
    else if head_is "}" r then Some (set k (JStr v) acc, rest_of r) else None).
  rewrite Hx. cbn beta zeta iota delta [mbind option_bind].
  change (skip_ws (q ": `" +++ y)) with (q ": `" +++ y).
  change (head_is ":" (q ": `" +++ y)) with true. change (rest_of (q ": `" +++ y)) with (q " `" +++ y).
  by rewrite Hv.
Qed.

Lemma body_reads_back id why :
  plain_text id = true → plain_text why = true →
  json_parse (mgrast_body id why) = Ok (JObj [("metagenome_id", JStr id); ("reason", JStr why)]).
Proof.
  intros Hid Hwhy. unfold json_parse.
  assert (∃ n, String.length (mgrast_body id why) = S (S n)) as [n ->] by by eexists.
  replace (2 * S (S n))%nat with (S (S (S (S (2 * n))))) by lia. unfold mgrast_body.
  change (q "`,`reason`: `" +++ why +++ q "` }") with
    (String dquote (q ",`reason`: `" +++ why +++ String dquote " }")).
  set (tail := why +++ String dquote " }"). set (rest := id +++ String dquote (q ",`reason`: `" +++ tail)).
  change (read_value (S (S (S (S (S (2 * n)))))) (q "{ `metagenome_id`: `" +++ rest)) with
    ('(o, r) ← read_members (S (S (S (S (2 * n))))) (String dquote (q "metagenome_id`: `" +++ rest)) [];
     Some (JObj o, r)).
  rewrite (read_member _ "metagenome_id" id [] _ rest (q ",`reason`: `" +++ tail));
    [|done|by apply read_plain]. cbn zeta.
  change (skip_ws (q ",`reason`: `" +++ tail)) with (q ",`reason`: `" +++ tail).
  change (rest_of (q ",`reason`: `" +++ tail)) with (String dquote (q "reason`: `" +++ tail)).
  change (head_is "," (q ",`reason`: `" +++ tail)) with true. cbn iota.
  rewrite (read_member _ "reason" why _ _ tail " }"); [done|done|by apply read_plain].
Qed.
End button.

(** C29: What is sent.  A request for a job and a reason in which no character has to
    be escaped has the header of MG-RAST and a body that a server reads as the
    job's id and the reason. *)
Theorem mgrast_request_is_read (cfg : config) job why r :
  mgrast_post cfg job why = Ok r →
  ∃ auth id, authorization cfg = Some auth ∧ mg_auth r = replace_str "OAuth" "mgrast" auth ∧
    (attr ← prop2 job "info" "userattr"; vprop attr "id") = Ok id ∧
    (plain_text (to_str id) = true → plain_text why = true →
     json_parse (mg_data r) = Ok (JObj [("metagenome_id", JStr (to_str id)); ("reason", JStr why)])).
Proof.
  unfold mgrast_post. destruct (authorization cfg) as [auth|]; [|done]. cbn.
  destruct (prop2 job "info" "userattr") as [attr|]; [|done]. cbn.
  destruct (vprop attr "id") as [id|]; [|done]. intros [= <-]. exists auth, id.
  eauto using body_reads_back.
Qed.

(** A quote in the reason: the body cannot be read, or it says something else. *)
Example unescaped_reasons :
  json_parse (mgrast_body "7" (q "a `test` job")) = Throw SyntaxError ∧
  json_parse (mgrast_body "7" (q "x`,`metagenome_id`: `8")) =
    Ok (JObj [("metagenome_id", JStr "8"); ("reason", JStr "x")]).
Proof. split; vm_compute; reflexivity. Qed.

(** ** Witnesses *)

Definition mgrast_job : json :=
  JObj [("info", JObj [("userattr", JObj [("id", JStr "mgm7")])]); ("state", JStr "suspend")].

Lemma mgrast_request_is_read_witness :
  ∃ r, mgrast_post ex_config (Some mgrast_job) "too old" = Ok r ∧
    json_parse (mg_data r) = Ok (JObj [("metagenome_id", JStr "mgm7"); ("reason", JStr "too old")]).
Proof.
  eexists. split; [reflexivity|].
  destruct (mgrast_request_is_read ex_config (Some mgrast_job) "too old" _ eq_refl)
    as (auth & id & _ & _ & Hid & Hread).
  injection Hid as <-. apply Hread; reflexivity.
Defined.

Lemma mgrast_failure_only_alerts_witness :
  ∃ m', deleteMGRASTJob ex_config (Some mgrast_job) (Some "too old") ex_monitor = (m', Ok ()) ∧
    m_alerts (answer ex_base64 ex_byteSize ex_keys ex_parse ex_locale ex_config 0 false None m').1 =
      ["failed to delete job from MG-RAST"].
Proof.
  eexists. split; [reflexivity|].
  edestruct (mgrast_failure_only_alerts ex_base64 ex_byteSize ex_keys ex_parse ex_locale ex_config
    (Some mgrast_job) (Some "too old") ex_monitor) as [_ Hsome].
  destruct (Hsome ltac:(discriminate) eq_refl) as (r & _ & _ & Hr). simpl length in Hr.
  rewrite Hr. reflexivity.
Defined.
