(* ===== verification/MonitorLinks.v ===== *)
(** * Job monitor: the tooltips and the order of tasks

    src/site_deprecated/widgets/widget.awe_monitor.js: [jobTooltip],
    [clientTooltip] and [workunitTooltip] with the links in them, and [tasksort].
    A tooltip is the text handed to Bootstrap's [popover]; a link is described by
    the call in its [onclick], its text and what that call does. *)

From S2P Require Import Prelude JsString JsNumber JsValue JsJson JsRegExp RegExpEngine JsState JsPromise TableData TableEvents MonitorData Monitor MonitorActions.

(** ** Tooltips *)

Inductive tip_link :=
| LJobDetails (id : string)
| LJobJson (id : string)
| LJobStats (id : string)
| LClientDetails (id : string)
| LResumeClient (id : string)
| LWorkunit (wuid which : string)
| LResumeJob (jid : value).

Section tips.
Context (cfg : config).

(** An argument in the quotes of its call. *)
Definition in_dquotes (s : string) : string := String dquote (s +++ String dquote "").
Definition in_entities (s : string) : string := "&#39;" +++ s +++ "&#39;".

Definition link_call (l : tip_link) : string :=
  match l with
  | LJobDetails id => "jobDetails(" +++ in_dquotes id +++ ")"
  | LJobJson id => "jobDetails(" +++ in_dquotes id +++ ",true)"
  | LJobStats id => "authenticatedJSON(" +++ in_dquotes (awe_ip cfg +++ "/job/" +++ id +++ "?perf") +++ ")"
  | LClientDetails id => "authenticatedJSON(" +++ in_dquotes (awe_ip cfg +++ "/client/" +++ id) +++ ")"
  | LResumeClient id => "resumeClient(" +++ in_entities id +++ ")"
  | LWorkunit wuid which => "workunitDetails(" +++ in_entities wuid +++ "," +++ in_entities which +++ ")"
  | LResumeJob jid => "resumeJobs(" +++ in_entities (to_str jid) +++ "," +++ in_entities "worknotes" +++ ")"
  end.

Definition link_label (l : tip_link) : string :=
  match l with
  | LJobDetails _ => "job details"
  | LJobJson _ => "job JSON"
  | LJobStats _ => "job stats"
  | LClientDetails _ => "details"
  | LResumeClient _ => "resume"
  | LWorkunit _ which => if (which =? "stderr")%string then "error"
                         else if (which =? "stdout")%string then "output" else which
  | LResumeJob _ => "resume job"
  end.

Definition remove_tip : string :=
  "this.parentNode.parentNode.parentNode.removeChild(this.parentNode.parentNode);".

Definition close_button : string :=
  "<button class='close' style='position: relative; bottom: 8px; left: 8px;' type='button' onclick='"
  +++ remove_tip +++ "'>" +++ String (ascii_of_nat 215) "</button>".

Definition widget_call (l : tip_link) : string :=
  "Retina.WidgetInstances.awe_monitor[1]." +++ link_call l +++ ";".

(** The links of a job close the tooltip first, those of the others last. *)
Definition link_html (first : bool) (l : tip_link) : string :=
  "<a style='cursor: pointer;' onclick='" +++
  (if first then remove_tip +++ widget_call l else widget_call l +++ remove_tip) +++
  "'>" +++ link_label l +++ "</a>".

Definition job_links (id : string) : list tip_link := [LJobDetails id; LJobJson id; LJobStats id].
Definition client_links (id : string) : list tip_link := [LClientDetails id; LResumeClient id].
Definition workunit_links (wuid : string) (jid : value) : list tip_link :=
  [LWorkunit wuid "stderr"; LWorkunit wuid "stdout"; LWorkunit wuid "worknotes"; LResumeJob jid].

Definition tooltip (first : bool) (ls : list tip_link) : string :=
  close_button +++ join "<br>" (link_html first <$> ls).

Definition jobTooltip (id : string) : string := tooltip true (job_links id).
Definition clientTooltip (id : string) : string := tooltip false (client_links id).
Definition workunitTooltip (wuid : string) (jid : value) : string :=
  tooltip false (workunit_links wuid jid).

Context `{RegExpOps} `{PromiseLaws}.
Context (base64 : string → string) (byteSize : num → string).
Context (date_parse : value → num) (locale_date : value → string).

Implicit Types (m : monitor).

(** What a click on a link does. *)
Definition click_link (l : tip_link) : M monitor () :=
  match l with
  | LJobDetails id => jobDetails byteSize date_parse locale_date cfg id false
  | LJobJson id => jobDetails byteSize date_parse locale_date cfg id true
  | LJobStats id => authenticatedJSON (awe_ip cfg +++ "/job/" +++ id +++ "?perf")
  | LClientDetails id => authenticatedJSON (awe_ip cfg +++ "/client/" +++ id)
  | LResumeClient id => resumeClient cfg id
  | LWorkunit wuid which => workunitDetails cfg wuid which
  | LResumeJob jid => workunit_resume base64 cfg jid
  end.

(** A part of the page that neither requests nor the page of a job change. *)
Definition behind_tips {X} (f : monitor → X) : Prop :=
  (∀ m l, f (m <| requests := l |>) = f m) ∧ (∀ m l, f (m <| groups := l |>) = f m) ∧
  (∀ m l, f (m <| windows := l |>) = f m) ∧ ∀ m d e, f (m <| debug := d |> <| error_div := e |>) = f m.

Lemma keeps_ajax {X} (f : monitor → X) method url cb : behind_tips f → keeps f (ajax method url cb).
Proof. intros Hf. apply keeps_modify. intros m. apply Hf. Qed.

Lemma keeps_pills {X} (f : monitor → X) job :
  behind_tips f → keeps f (stagePills byteSize date_parse locale_date cfg job).
Proof.
  intros Hf. unfold stagePills, resolveError.
  repeat (keeps_step || by apply keeps_ajax).
Qed.

Lemma keeps_details {X} (f : monitor → X) id b :
  behind_tips f → keeps f (jobDetails byteSize date_parse locale_date cfg id b).
Proof.
  intros Hf. unfold jobDetails. repeat keeps_step; try by apply keeps_pills.
  all: apply keeps_modify; intros m'; apply Hf.
Qed.

Lemma keeps_resumeJobs {X} (f : monitor → X) ids :
  behind_tips f → ids ≠ [] → keeps f (resumeJobs base64 cfg ids).
Proof.
  intros Hf Hne. unfold resumeJobs.
  assert ((when_then (length ids)).2 = false) as Hc by (apply when_waits; by destruct ids).
  destruct (when_then (length ids)) as [p called]. cbn [snd] in Hc. rewrite Hc.
  repeat (keeps_step || by apply keeps_ajax). apply keeps_modify. intros m'. apply Hf.
Qed.

(** Clicks in tooltips.  A link of a job, a client or a workunit sends requests,
    opens windows or shows the page of a job; it does not touch the tables, the
    stored jobs or the alerts, unless it resumes a job without a name. *)
Theorem tooltips_leave_tables l m :
  (∀ jid, l = LResumeJob jid → to_str jid ≠ "") →
  let m' := (click_link l m).1 in
  tabs m' = tabs m ∧ named m' = named m ∧ store m' = store m ∧ m_alerts m' = m_alerts m.
Proof.
  intros Hl. cut (∀ X (f : monitor → X), behind_tips f → keeps f (click_link l)).
  { intros Hk. by split_and!; apply Hk. }
  intros X f Hf. destruct l; simpl.
  1, 2: by apply keeps_details.
  1, 2, 3: by apply keeps_ajax.
  - unfold workunitDetails. repeat keeps_step; by apply keeps_ajax.
  - apply keeps_resumeJobs; [done|]. specialize (Hl _ eq_refl). unfold chars.
    by destruct (to_str jid).
Qed.
End tips.

(** ** [tasksort] *)

(** The rank of a state; the comparisons of [undefined] are all false. *)
Definition state_rank (state : value) : option Z :=
  get (to_str state) [("suspend", 0); ("submitted", 1); ("in-progress", 2)].

Definition ranks_above (a b : option Z) : bool :=
  match a, b with Some x, Some y => y <? x | _, _ => false end.

Section tasksort.
(** [localeCompare] depends on the browser and its locale. *)
Context (localeCompare : string → string → Z).

Definition tasksort (a b : json) : res Z :=
  sa ← vprop (Some a) "state";
  sb ← vprop (Some b) "state";
  if ranks_above (state_rank sa) (state_rank sb) then Ok (-1)
  else if ranks_above (state_rank sb) (state_rank sa) then Ok 1
  else
    ta ← vprop2 (Some a) "info" "submittime";
    tb ← vprop2 (Some b) "info" "submittime";
    match ta with
    | VStr s => Ok (localeCompare s (to_str tb))
    | _ => Throw TypeError
    end.

(** A job in one of the three states, with a text as its time. *)
Definition sortable (j : json) (rank : Z) (time : string) : Prop :=
  (s ← vprop (Some j) "state"; Ok (state_rank s)) = Ok (Some rank) ∧
  vprop2 (Some j) "info" "submittime" = Ok (VStr time).

Lemma tasksort_eq a b ra rb ta tb :
  sortable a ra ta → sortable b rb tb →
  tasksort a b = Ok (if rb <? ra then -1 else if ra <? rb then 1 else localeCompare ta tb).
Proof.
  intros [Ha Ta] [Hb Tb]. unfold tasksort.
  destruct (vprop (Some a) "state") as [sa|]; [|done]. injection Ha as Ha.
  destruct (vprop (Some b) "state") as [sb|]; [|done]. injection Hb as Hb.
  unfold mbind, res_bind. rewrite Ha, Hb. cbn [ranks_above]. destruct (rb <? ra); [done|]. destruct (ra <? rb); [done|].
  by rewrite Ta, Tb.
Qed.

(** What is documented of [localeCompare]: it orders the texts. *)
Class LocaleOrder := {
  locale_opposite s t : localeCompare s t < 0 ↔ 0 < localeCompare t s;
  locale_trans s t u : localeCompare s t ≤ 0 → localeCompare t u ≤ 0 → localeCompare s u ≤ 0
}.
Context `{LocaleOrder}.

(** The order of tasks.  On jobs in one of the three states that [tasksort]
    knows, with texts as their times, it is a consistent comparison: it returns,
    swapping the jobs swaps the answer, and it is transitive; the states come in
    the order in-progress, submitted, suspend, and times decide within one. *)
Theorem tasksort_is_order a b c ra rb rc ta tb tc :
  sortable a ra ta → sortable b rb tb → sortable c rc tc →
  ∃ ab ba bc ac, tasksort a b = Ok ab ∧ tasksort b a = Ok ba ∧ tasksort b c = Ok bc ∧ tasksort a c = Ok ac ∧
    (ab < 0 ↔ 0 < ba) ∧ (ab ≤ 0 → bc ≤ 0 → ac ≤ 0) ∧ (rb < ra → ab < 0) ∧
    (ra = rb → ab = localeCompare ta tb).
Proof.
  intros Ha Hb Hc. do 4 eexists.
  split_and!; [by apply tasksort_eq..| | | |].
  all: destruct (Z.ltb_spec rb ra), (Z.ltb_spec ra rb), (Z.ltb_spec rc rb), (Z.ltb_spec rb rc),
    (Z.ltb_spec rc ra), (Z.ltb_spec ra rc); try lia.
  all: try apply locale_opposite; try apply locale_trans.
Qed.
End tasksort.

(** ** Witnesses *)

Definition by_length (s t : string) : Z := slen s - slen t.

#[export] Instance by_length_order : LocaleOrder by_length.
Proof. split; unfold by_length; lia. Qed.

Definition sort_job (state time : string) : json :=
  JObj [("state", JStr state); ("info", JObj [("submittime", JStr time)])].

(** With a state it does not know the comparison goes round in a circle. *)
Example tasksort_circle :
  let x := sort_job "in-progress" "ccc" in
  let y := sort_job "completed" "bb" in
  let z := sort_job "suspend" "a" in
  tasksort by_length z y = Ok (-1) ∧ tasksort by_length y x = Ok (-1) ∧ tasksort by_length x z = Ok (-1).
Proof. by split_and!. Qed.

Lemma tasksort_is_order_witness :
  ∃ ab, tasksort by_length (sort_job "in-progress" "ccc") (sort_job "suspend" "a") = Ok ab ∧ ab < 0.
Proof.
  destruct (tasksort_is_order by_length (sort_job "in-progress" "ccc") (sort_job "suspend" "a")
    (sort_job "suspend" "a") 2 0 0 "ccc" "a" "a") as (ab & _ & _ & _ & Hab & _ & _ & _ & _ & _ & Hlt & _).
  1, 2, 3: split; reflexivity.
  exists ab. split; [exact Hab|]. apply Hlt. reflexivity.
Defined.

Lemma tooltips_leave_tables_witness :
  let m' := (click_link ex_config ex_base64 ex_byteSize ex_parse ex_locale (LWorkunit "7_0_0" "stderr")
               ex_monitor).1 in
  r_url <$> requests m' = ["http://awe/work/7_0_0?report=stderr"] ∧ tabs m' = tabs ex_monitor.
Proof.
  intros m'. split; [reflexivity|].
  apply (tooltips_leave_tables ex_config ex_base64 ex_byteSize ex_parse ex_locale
    (LWorkunit "7_0_0" "stderr") ex_monitor). discriminate.
Defined.
