(* ===== verification/MonitorTables.v ===== *)
(** * Job monitor: its tables in the table renderer

    The settings the monitor gives to its tables, run through the renderer. *)

From Stdlib Require Import SpecFloat.
From S2P Require Import Prelude JsString JsNumber JsDecimal JsValue JsJson JsRegExp JsState TableData TableView TableUpdate TableEvents MonitorData Monitor.

Section tables.
Context `{RegExpOps}.
Context (base64 : string → string) (cfg : config).

(** A table as [display] creates it. *)
Definition new_table : settings :=
  defaults <| data := RawObj None None |> <| filter_autodetect := true |> <| sort_autodetect := true |>.

Definition header_widgets (r : res (settings * list hcell)) : option (list (nat * option nat)) :=
  match r with
  | Ok (_, cs) => Some ((λ c, (hc_col c, widget_col <$> hc_widget c)) <$> cs)
  | Throw _ => None
  end.

(** The renderer does not know the filter type "premade-select": in the
    header of the jobs table the field of the job id ends up under the column
    of the state, and the columns of the job id and the pipeline have none. *)
Theorem premade_select_moves_fields :
  header_widgets (build_header job_header [] (jobs_settings cfg new_table)) =
    Some [(0, None); (1, Some 1); (2, None); (3, None); (4, None); (5, Some 2); (6, Some 6)]%nat ∧
  header_widgets (build_header work_header [] (workunits_settings base64 cfg new_table)) =
    Some [(0, Some 0); (1, Some 1); (2, Some 2); (3, Some 3); (4, Some 4); (5, None); (6, Some 5);
          (7, Some 7); (8, Some 8)]%nat.
Proof.
  split; [|reflexivity]. unfold jobs_settings.
  destruct (cgi_pipeline cfg) as [p|]; [|reflexivity].
  by destruct p.
Qed.

(** The first page of a table whose navigation URL has a question mark. *)
Lemma first_page_url s nav qs rows :
  navigation_url s = Some nav → has_char qmark nav = true →
  query_string (query_type s) (query s) = qs → rows_per_page s = JInt rows → offset s = JInt 0 →
  sort s = None → sortDir s = None →
  update_url s = Ok (nav +++ (if has_char qmark qs then replace_first qmark amp qs else qs)
                     +++ "&limit=" +++ show rows +++ "&offset=0").
Proof.
  intros Hn Hq Hqs Hr Ho Hs Hd. unfold update_url. rewrite Hn, Hqs. cbn [need mbind res_bind].
  unfold page_url, attach_query, sep. rewrite Hr, Ho, Hs, Hd, Hq. cbn [andb set_str jshow].
  rewrite has_char_app, Hq. cbn [orb]. by rewrite !sapp_assoc.
Qed.

(** The first page of jobs is asked for with the parameters of the page:
    twenty jobs from the first on, restricted to the pipeline of the page's URL
    if it names one. *)
Theorem first_jobs_request :
  update_url (update_settings (PObject no_params) (jobs_settings cfg new_table)) =
    Ok (awe_ip cfg +++ "/job?query" +++
        (match set_param (cgi_pipeline cfg) with Some w => "&info.pipeline=" +++ w | None => "" end)
        +++ "&limit=20&offset=0").
Proof.
  set (w := set_param (cgi_pipeline cfg)).
  rewrite (first_page_url _ (awe_ip cfg +++ "/job?query")
    (match w with Some w => "?info.pipeline=" +++ w | None => "" end) 20); subst w.
  - rewrite !sapp_assoc. by destruct (set_param (cgi_pipeline cfg)).
  - unfold jobs_settings. destruct (cgi_pipeline cfg) as [w|]; [by destruct w|done].
  - by rewrite has_char_app, orb_true_r.
  - unfold jobs_settings, set_param. destruct (cgi_pipeline cfg) as [w|]; [by destruct w|done].
  - unfold jobs_settings. destruct (cgi_pipeline cfg) as [w|]; [by destruct w|done].
  - unfold jobs_settings. destruct (cgi_pipeline cfg) as [w|]; [by destruct w|done].
  - unfold jobs_settings. destruct (cgi_pipeline cfg) as [w|]; [by destruct w|done].
  - unfold jobs_settings. destruct (cgi_pipeline cfg) as [w|]; [by destruct w|done].
Qed.

End tables.

(** ** Durations *)

Definition ms (z : Z) : num := num_of_Z z.

Definition duration (days hours minutes : Z) : string :=
  (if 0 <? days then show days +++ " days " else "") +++
  (if 0 <? hours then show hours +++ " hours " else "") +++ show minutes +++ " minutes".

(** A property of the numbers of a range, by evaluation. *)
Lemma range_check (P : Z → bool) (lo : Z) (n : Z) :
  forallb P (seqZ lo n) = true → ∀ z, lo ≤ z < lo + n → P z = true.
Proof.
  intros Hall z Hz. rewrite forallb_forall in Hall. apply Hall, list_elem_of_In, elem_of_seqZ. lia.
Qed.

Definition days_less_59 (s : string) : bool :=
  existsb (λ d, (s =? show d +++ " days -59 minutes")%string) (seqZ 1 9).

(** A duration of whole hours, up to ten days, is shown as days and hours;
    one of 1 to 86 milliseconds is shown as one to nine days less 59 minutes,
    because [parseInt] reads the text of the quotient, which has an exponent. *)
Theorem short_durations_show_days z :
  (0 ≤ z < 240 →
     timePassed (ms 0) (ms (z * 3600000)) = duration (z / 24) (z mod 24) 0) ∧
  (1 ≤ z < 87 →
     ∃ d, 1 ≤ d ≤ 9 ∧ timePassed (ms 0) (ms z) = show d +++ " days -59 minutes").
Proof.
  split; intros Hz.
  - apply String.eqb_eq.
    apply (range_check (λ z, (timePassed (ms 0) (ms (z * 3600000)) =? duration (z / 24) (z mod 24) 0)%string)
      0 240); [vm_eq|lia].
  - assert (days_less_59 (timePassed (ms 0) (ms z)) = true) as He.
    { apply (range_check (λ z, days_less_59 (timePassed (ms 0) (ms z))) 1 86); [vm_eq|lia]. }
    apply existsb_exists in He as (d & Hd & E%String.eqb_eq).
    apply list_elem_of_In, elem_of_seqZ in Hd. exists d. split; [lia|done].
Qed.

Lemma short_durations_show_days_witness :
  ∃ d, 1 ≤ d ≤ 9 ∧ timePassed (ms 0) (ms 5) = show d +++ " days -59 minutes".
Proof. apply (short_durations_show_days 5). lia. Defined.
