(* ===== verification/MonitorExport.v ===== *)
(** * Job monitor: export of statistics

    src/site_deprecated/widgets/widget.awe_monitor.js, [xlsExport]: the cells
    written to the workbook, as a list of writes in their order, and the request
    for the empty workbook in front of them.  The workbook and the save dialog
    are the xlsx and stm libraries'. *)

From Stdlib Require Import SpecFloat.
From S2P Require Import Prelude JsString JsNumber JsDecimal JsValue JsJson JsRegExp JsState JsPromise MonitorData Monitor.

(** [wb.setCell(sheet, col, row, v)] *)
Record write := mkWrite { w_sheet : nat; w_col : nat; w_row : nat; w_value : value }.

Definition pos (w : write) : nat * nat * nat := (w_sheet w, w_col w, w_row w).

(** A row of cells from column [from] on. *)
Definition cells (sheet row from : nat) (l : list value) : list write :=
  imap (λ i v, mkWrite sheet (from + i) row v) l.

Definition texts (l : list string) : list value := VStr <$> l.

(** The values of properties, in the order they are written. *)
Definition values (o : option json) (ks : list string) : res (list value) := mapR (vprop o) ks.

Definition work_keys : list string :=
  ["queued"; "done"; "resp"; "checkout"; "deliver"; "clientresp"; "time_data_in"; "time_data_out";
   "runtime"; "max_mem_usage"; "client_id"; "size_predata"; "size_infile"; "size_outfile"].

Definition work_labels : list string :=
  ["queued"; "done"; "resp"; "checkout"; "deliver"; "clientresp"; "time data in"; "time data out";
   "runtime"; "max mem usage"; "client id"; "size predata"; "size infile"; "size outfile"].

(** The sizes of the files of a task. *)
Definition sizes (stat : json) (k : string) : res (list value) :=
  o ← prop (Some stat) k;
  l ← json_items o;
  Ok (map (λ j, to_value (Some j)) l).

Definition max_sizes (k : string) (stats : list json) : res nat :=
  foldR (λ n stat, l ← sizes stat k; Ok (Nat.max n (length l))) 0%nat stats.

Definition numbered (label : string) (n : nat) : list string :=
  (λ i, label +++ show (Z.of_nat i)) <$> seq 0 n.

Definition task_row (max_in : nat) (row : nat) (stat : json) : res (list write) :=
  vs ← values (Some stat) ["queued"; "start"; "end"; "resp"];
  ins ← sizes stat "size_infile";
  outs ← sizes stat "size_outfile";
  Ok (cells 1 row 0 vs ++ cells 1 row 4 ins ++ cells 1 row (4 + max_in) outs).

Definition work_row (row : nat) (stat : json) : res (list write) :=
  vs ← values (Some stat) work_keys; Ok (cells 2 row 0 vs).

Definition rows_from {A} (f : nat → A → res (list write)) (l : list A) : res (list write) :=
  ws ← mapR (λ '(i, x), f (S i) x) (imap pair l); Ok (concat ws).

Definition task_header (max_in max_out : nat) : list write :=
  cells 1 0 0 (texts ["queued"; "start"; "end"; "resp"]) ++
  cells 1 0 4 (texts (numbered "size infile " max_in)) ++
  cells 1 0 (4 + max_in) (texts (numbered "size outfile " max_out)).

(** The writes and the name of the file. *)
Definition xlsExport (job : json) : res (list write * string) :=
  main ← values (Some job) ["id"; "queued"; "start"; "end"; "resp"];
  ts ← prop (Some job) "task_stats";
  let stats := (json_entries ts).*2 in
  max_in ← max_sizes "size_infile" stats;
  max_out ← max_sizes "size_outfile" stats;
  trows ← rows_from (task_row max_in) stats;
  ws ← prop (Some job) "work_stats";
  wrows ← rows_from work_row ((json_entries ws).*2);
  name ← vprop2 (Some job) "info" "name";
  Ok (cells 0 0 0 (texts ["id"; "queued"; "start"; "end"; "resp"]) ++ cells 0 1 0 main ++
      task_header max_in max_out ++ trows ++
      cells 2 0 0 (texts work_labels) ++ wrows, to_str name +++ "_statistics.xlsx").

(** The request for the empty workbook; its answer makes the writes.  A browser
    that has neither kind of request sends none. *)
Record xhr_request := mkXhr { x_url : string; x_async : option bool }.

Definition start_export `{RegExpOps} `{PromiseOps} (withCredentials xdomain : bool) : M monitor (option xhr_request) :=
  if withCredentials then mret (Some (mkXhr "Workbook1.xlsx" (Some true)))
  else if xdomain then mret (Some (mkXhr "Workbook1.xlsx" None))
  else _ ← m_alert "your browser does not support CORS requests"; mret None.

(** ** Every cell is written once *)

(** The writes of one row of a sheet, at columns between two bounds. *)
Definition in_row (sheet row lo hi : nat) (ws : list write) : Prop :=
  NoDup (pos <$> ws) ∧ ∀ w, w ∈ ws → w_sheet w = sheet ∧ w_row w = row ∧ (lo ≤ w_col w < hi)%nat.

Lemma cells_in_row sheet row from l : in_row sheet row from (from + length l) (cells sheet row from l).
Proof.
  unfold in_row, cells. split.
  - rewrite fmap_imap. apply NoDup_alt. intros i j x Hi Hj.
    rewrite list_lookup_imap in Hi, Hj. apply fmap_Some in Hi as (v & _ & ->).
    apply fmap_Some in Hj as (v' & _ & E). unfold pos in E. simpl in E. injection E. lia.
  - intros w [i Hi]%list_elem_of_lookup. rewrite list_lookup_imap in Hi.
    apply fmap_Some in Hi as (v & Hv & ->). apply lookup_lt_Some in Hv. simpl. lia.
Qed.

Lemma pos_app ws ws' :
  NoDup (pos <$> ws) → NoDup (pos <$> ws') → (∀ w w', w ∈ ws → w' ∈ ws' → pos w ≠ pos w') →
  NoDup (pos <$> (ws ++ ws')).
Proof.
  intros H1 H2 Hd. rewrite fmap_app. apply NoDup_app. split_and!; [done| |done].
  intros p Hp Hp'. apply list_elem_of_fmap in Hp as (w & -> & Hw).
  apply list_elem_of_fmap in Hp' as (w' & E & Hw'). by eapply Hd.
Qed.

Ltac apart R1 R2 :=
  let a := fresh in let b := fresh in let E := fresh in
  intros ? ? a b E; apply R1 in a; apply R2 in b; unfold pos in E; injection E; lia.

Lemma in_row_app sheet row lo mid mid' hi ws ws' :
  (mid ≤ mid')%nat → (lo ≤ mid')%nat → (mid ≤ hi)%nat →
  in_row sheet row lo mid ws → in_row sheet row mid' hi ws' → in_row sheet row lo hi (ws ++ ws').
Proof.
  intros H1 H2 H3 [N1 R1] [N2 R2]. split.
  - apply pos_app; [done|done|]. apart R1 R2.
  - intros w [Hw|Hw]%elem_of_app; [apply R1 in Hw|apply R2 in Hw]; lia.
Qed.

(** Rows of one sheet, one below the other. *)
Definition in_rows (sheet lo hi : nat) (ws : list write) : Prop :=
  NoDup (pos <$> ws) ∧ ∀ w, w ∈ ws → w_sheet w = sheet ∧ (lo ≤ w_row w < hi)%nat.

Lemma in_rows_cons sheet row cols n ws ws' :
  in_row sheet row 0 cols ws → in_rows sheet (S row) n ws' → (row < n)%nat →
  in_rows sheet row n (ws ++ ws').
Proof.
  intros [N1 R1] [N2 R2] Hn. split.
  - apply pos_app; [done|done|]. apart R1 R2.
  - intros w [Hw|Hw]%elem_of_app; [apply R1 in Hw|apply R2 in Hw]; lia.
Qed.

Lemma rows_from_in_rows {A} sheet (f : nat → A → res (list write)) l ws :
  (∀ i x r, x ∈ l → f i x = Ok r → ∃ cols, in_row sheet i 0 cols r) →
  rows_from f l = Ok ws → in_rows sheet 1 (S (length l)) ws.
Proof.
  intros Hf Hr. unfold rows_from in Hr. apply bind_ok in Hr as (rs & Hrs & [= <-]).
  assert (∀ l k rs, (∀ i x r, x ∈ l → f i x = Ok r → ∃ cols, in_row sheet i 0 cols r) →
    mapR (λ '(i, x), f (S i) x) (imap (λ i x, ((k + i)%nat, x)) l) = Ok rs →
    in_rows sheet (S k) (S (k + length l)) (concat rs)) as Hl.
  { clear. induction l as [|x l IH]; intros k rs Hf Hr; cbn [imap mapR] in Hr.
    - injection Hr as <-. split; [apply NoDup_nil_2|]. intros w Hw. by apply elem_of_nil in Hw.
    - apply bind_ok in Hr as (r & Hx & Hr). apply bind_ok in Hr as (rs' & Hrs & [= <-]).
      rewrite Nat.add_0_r in Hx. destruct (Hf (S k) x r ltac:(by left) Hx) as [cols Hrow].
      simpl. apply (in_rows_cons _ _ cols); [done| |lia].
      replace (S (k + S (length l))) with (S (S k + length l)) by lia. apply IH.
      + intros i y r' Hy. apply Hf. by right.
      + rewrite <-Hrs. f_equal. apply imap_ext. intros i y _. simpl. f_equal. lia. }
  apply (Hl l 0%nat); [done|]. by rewrite <-Hrs.
Qed.

Lemma max_sizes_bound k stats n :
  max_sizes k stats = Ok n → ∀ stat l, stat ∈ stats → sizes stat k = Ok l → (length l ≤ n)%nat.
Proof.
  unfold max_sizes.
  assert (∀ acc, foldR (λ n stat, l ← sizes stat k; Ok (Nat.max n (length l))) acc stats = Ok n →
    (acc ≤ n)%nat ∧ ∀ stat l, stat ∈ stats → sizes stat k = Ok l → (length l ≤ n)%nat) as Hf.
  { induction stats as [|x stats IH]; intros acc Hr; cbn [foldR] in Hr.
    - injection Hr as <-. split; [done|]. intros ? ? Hin. by apply elem_of_nil in Hin.
    - apply bind_ok in Hr as (n1 & Hx & Hr). apply bind_ok in Hx as (lx & Hlx & [= <-]).
      apply IH in Hr as [H1 H2]. split; [lia|].
      intros stat l [->|Hin]%elem_of_cons Hl; [|by eapply H2]. assert (l = lx) as -> by congruence. lia. }
  intros Hr. apply (Hf 0%nat Hr).
Qed.

Lemma task_row_in_row max_in stats i stat r :
  max_sizes "size_infile" stats = Ok max_in → stat ∈ stats → task_row max_in i stat = Ok r →
  ∃ cols, in_row 1 i 0 cols r.
Proof.
  intros Hm Hin Hr. unfold task_row in Hr. apply bind_ok in Hr as (vs & Hvs & Hr).
  apply bind_ok in Hr as (ins & Hins & Hr). apply bind_ok in Hr as (outs & Houts & [= <-]).
  apply mapR_length in Hvs. simpl in Hvs. pose proof (max_sizes_bound _ _ _ Hm _ _ Hin Hins) as Hle.
  exists (4 + max_in + length outs)%nat.
  apply (in_row_app _ _ _ (0 + length vs) 4); [lia|lia|lia|apply cells_in_row|].
  apply (in_row_app _ _ _ (4 + length ins) (4 + max_in)); [lia|lia|lia|..]; apply cells_in_row.
Qed.

Lemma task_header_in_row max_in max_out : in_row 1 0 0 (4 + max_in + max_out) (task_header max_in max_out).
Proof.
  unfold task_header, texts, numbered.
  apply (in_row_app _ _ _ (0 + 4) 4); [lia|lia|lia|
    apply (cells_in_row 1 0 0 (texts ["queued"; "start"; "end"; "resp"]))|].
  apply (in_row_app _ _ _ (4 + max_in) (4 + max_in)); [lia|lia|lia|..].
  - pose proof (cells_in_row 1 0 4 (texts (numbered "size infile " max_in))) as Hc.
    unfold texts, numbered in Hc. by rewrite !length_fmap, length_seq in Hc.
  - pose proof (cells_in_row 1 0 (4 + max_in) (texts (numbered "size outfile " max_out))) as Hc.
    unfold texts, numbered in Hc. by rewrite !length_fmap, length_seq in Hc.
Qed.

(** C25: the export writes no cell twice: the three sheets, the rows of the tasks
    and workunits and the columns of the file sizes do not overlap. *)
Theorem export_writes_cells_once job ws name :
  xlsExport job = Ok (ws, name) → NoDup (pos <$> ws).
Proof.
  intros Hr. unfold xlsExport in Hr.
  apply bind_ok in Hr as (main & Hmain & Hr). apply bind_ok in Hr as (ts & _ & Hr).
  apply bind_ok in Hr as (mi & Hmi & Hr). apply bind_ok in Hr as (mo & Hmo & Hr).
  apply bind_ok in Hr as (trows & Ht & Hr). apply bind_ok in Hr as (wst & _ & Hr).
  apply bind_ok in Hr as (wrows & Hw & Hr). apply bind_ok in Hr as (nm & _ & Hr).
  assert (cells 0 0 0 (texts ["id"; "queued"; "start"; "end"; "resp"]) ++ cells 0 1 0 main ++
    task_header mi mo ++ trows ++ cells 2 0 0 (texts work_labels) ++ wrows = ws) as <- by congruence.
  clear Hr. apply rows_from_in_rows with (sheet := 1%nat) in Ht;
    [|intros i x r Hx; by apply (task_row_in_row mi _ i x r Hmi)].
  apply rows_from_in_rows with (sheet := 2%nat) in Hw.
  2: { intros i x r _ Hx. unfold work_row in Hx. apply bind_ok in Hx as (vs & _ & [= <-]).
       exists (0 + length vs)%nat. apply cells_in_row. }
  assert (in_rows 1 0 (S (length (json_entries ts).*2)) (task_header mi mo ++ trows)) as [N1 R1]
    by (apply (in_rows_cons _ _ _ _ _ _ (task_header_in_row mi mo) Ht); lia).
  assert (in_rows 2 0 (S (length (json_entries wst).*2)) (cells 2 0 0 (texts work_labels) ++ wrows))
    as [N2 R2] by (apply (in_rows_cons _ _ _ _ _ _ (cells_in_row 2 0 0 (texts work_labels)) Hw); lia).
  destruct (cells_in_row 0 0 0 (texts ["id"; "queued"; "start"; "end"; "resp"])) as [N3 R3].
  destruct (cells_in_row 0 1 0 main) as [N4 R4].
  rewrite (app_assoc (task_header mi mo)).
  apply pos_app; [done|apply pos_app; [done|apply pos_app; [done|done|]|]|].
  - apart R1 R2.
  - intros w w' Hw' [Hw2|Hw2]%elem_of_app E; apply R4 in Hw'; [apply R1 in Hw2|apply R2 in Hw2];
      unfold pos in E; injection E; lia.
  - intros w w' Hw' [Hw2|[Hw2|Hw2]%elem_of_app]%elem_of_app E; apply R3 in Hw';
      [apply R4 in Hw2|apply R1 in Hw2|apply R2 in Hw2]; unfold pos in E; injection E; lia.
Qed.

Lemma task_columns_labelled max_in max_out row stat r ins outs :
  task_row max_in row stat = Ok r → sizes stat "size_infile" = Ok ins →
  sizes stat "size_outfile" = Ok outs → (length ins ≤ max_in)%nat → (length outs ≤ max_out)%nat →
  (∀ h v, ins !! h = Some v → ∃ col, mkWrite 1 col row v ∈ r ∧
    mkWrite 1 col 0 (VStr ("size infile " +++ show (Z.of_nat h))) ∈ task_header max_in max_out) ∧
  (∀ h v, outs !! h = Some v → ∃ col, mkWrite 1 col row v ∈ r ∧
    mkWrite 1 col 0 (VStr ("size outfile " +++ show (Z.of_nat h))) ∈ task_header max_in max_out).
Proof.
  intros Hr Hin Hout Hli Hlo. unfold task_row in Hr. apply bind_ok in Hr as (vs & _ & Hr).
  rewrite Hin, Hout in Hr. injection Hr as <-.
  assert (∀ sheet row from l h v, l !! h = Some v → mkWrite sheet (from + h) row v ∈ cells sheet row from l) as Hc.
  { intros sheet row' from l h v Hh. apply (list_elem_of_lookup_2 _ h). unfold cells.
    by rewrite list_lookup_imap, Hh. }
  assert (∀ lab n h, (h < n)%nat →
    texts (numbered lab n) !! h = Some (VStr (lab +++ show (Z.of_nat h)))) as Hn.
  { intros lab n h Hh. unfold texts, numbered. rewrite !list_lookup_fmap, lookup_seq_lt by done. done. }
  split; intros h v Hh; pose proof (lookup_lt_Some _ _ _ Hh) as Hlt.
  - exists (4 + h)%nat. unfold task_header. rewrite !elem_of_app. split.
    + right. left. by apply Hc.
    + right. left. apply Hc, Hn. lia.
  - exists (4 + max_in + h)%nat. unfold task_header. rewrite !elem_of_app. split.
    + right. right. by apply Hc.
    + right. right. apply Hc, Hn. lia.
Qed.

Lemma rows_from_lookup {A} (f : nat → A → res (list write)) l ws i x :
  rows_from f l = Ok ws → l !! i = Some x → ∃ r, f (S i) x = Ok r ∧ ∀ w, w ∈ r → w ∈ ws.
Proof.
  unfold rows_from. intros (rs & Hrs & [= <-])%bind_ok Hx.
  destruct (mapR_lookup _ _ _ i (i, x) Hrs) as (r & Hr & Hf).
  { by rewrite list_lookup_imap, Hx. }
  exists r. split; [done|]. intros w Hw. apply list_elem_of_In, in_concat. exists r.
  split; apply list_elem_of_In; [by eapply list_elem_of_lookup_2|done].
Qed.

(** C27: the columns of the file sizes. In every export, the size of file [h] of
    the task at position [i] of the statistics is written in row [i + 1] of the
    sheet of the tasks, in a column that the header row of the same export calls
    "size infile h" or "size outfile h", whatever numbers of files the tasks have. *)
Theorem export_columns_are_labelled job ws name ts i stat key label l h v :
  xlsExport job = Ok (ws, name) → prop (Some job) "task_stats" = Ok ts →
  (json_entries ts).*2 !! i = Some stat →
  (key, label) ∈ [("size_infile", "size infile "); ("size_outfile", "size outfile ")] →
  sizes stat key = Ok l → l !! h = Some v →
  ∃ col, mkWrite 1 col (S i) v ∈ ws ∧ mkWrite 1 col 0 (VStr (label +++ show (Z.of_nat h))) ∈ ws.
Proof.
  intros Hr Hts Hi Hkey Hl Hv. unfold xlsExport in Hr.
  apply bind_ok in Hr as (main & _ & Hr). apply bind_ok in Hr as (ts' & Hts' & Hr).
  assert (ts' = ts) as -> by congruence.
  apply bind_ok in Hr as (mi & Hmi & Hr). apply bind_ok in Hr as (mo & Hmo & Hr).
  apply bind_ok in Hr as (trows & Ht & Hr). apply bind_ok in Hr as (wst & _ & Hr).
  apply bind_ok in Hr as (wrows & _ & Hr). apply bind_ok in Hr as (nm & _ & Hr).
  assert (cells 0 0 0 (texts ["id"; "queued"; "start"; "end"; "resp"]) ++ cells 0 1 0 main ++
    task_header mi mo ++ trows ++ cells 2 0 0 (texts work_labels) ++ wrows = ws) as <- by congruence.
  clear Hr. destruct (rows_from_lookup _ _ _ _ _ Ht Hi) as (r & Hrow & Hsub).
  assert (stat ∈ (json_entries ts).*2) as Hin by by eapply list_elem_of_lookup_2.
  assert (∃ ins outs, sizes stat "size_infile" = Ok ins ∧ sizes stat "size_outfile" = Ok outs)
    as (ins & outs & Hins & Houts).
  { unfold task_row in Hrow. apply bind_ok in Hrow as (vs & _ & Hrow).
    apply bind_ok in Hrow as (ins & ? & Hrow). apply bind_ok in Hrow as (outs & ? & _). eauto. }
  destruct (task_columns_labelled mi mo (S i) stat r ins outs Hrow Hins Houts) as [H1 H2].
  { by eapply max_sizes_bound. }
  { by eapply max_sizes_bound. }
  assert (∃ col, mkWrite 1 col (S i) v ∈ r ∧
    mkWrite 1 col 0 (VStr (label +++ show (Z.of_nat h))) ∈ task_header mi mo) as (col & Hw & Hh).
  { apply elem_of_cons in Hkey as [[= -> ->]|[= -> ->]%list_elem_of_singleton];
      [apply H1|apply H2]; congruence. }
  exists col. rewrite !elem_of_app. auto 10.
Qed.

(** ** Witnesses *)

Definition ex_stat (ins outs : list Z) : json :=
  JObj [("queued", JStr "q"); ("start", JStr "s"); ("end", JStr "e"); ("resp", JStr "r");
        ("size_infile", JArr ((λ z, JNum (num_of_Z z)) <$> ins));
        ("size_outfile", JArr ((λ z, JNum (num_of_Z z)) <$> outs))].

Definition ex_stats : json :=
  JObj [("id", JStr "j"); ("task_stats", JObj [("t0", ex_stat [1; 2] [3]); ("t1", ex_stat [4] [5; 6])]);
        ("work_stats", JObj [("w0", JObj [("queued", JStr "q")])]); ("info", JObj [("name", JStr "n")])].

Definition ex_writes : list write * string :=
  match xlsExport ex_stats with Ok p => p | Throw _ => ([], "") end.

Lemma export_writes_cells_once_witness : NoDup (pos <$> ex_writes.1) ∧ length ex_writes.1 = 60%nat.
Proof.
  split; [|vm_compute; reflexivity].
  apply (export_writes_cells_once ex_stats ex_writes.1 ex_writes.2). vm_eq.
Defined.

(** The second output of the second task, whose header the first task does not
    need. *)
Lemma export_columns_are_labelled_witness :
  ∃ col, mkWrite 1 col 2 (VNum (num_of_Z 6)) ∈ ex_writes.1 ∧
    mkWrite 1 col 0 (VStr "size outfile 1") ∈ ex_writes.1.
Proof.
  apply (export_columns_are_labelled ex_stats ex_writes.1 ex_writes.2
    (Some (JObj [("t0", ex_stat [1; 2] [3]); ("t1", ex_stat [4] [5; 6])])) 1 (ex_stat [4] [5; 6])
    "size_outfile" "size outfile " [VNum (num_of_Z 5); VNum (num_of_Z 6)] 1).
  - vm_eq.
  - reflexivity.
  - reflexivity.
  - right. left.
  - vm_eq.
  - reflexivity.
Defined.
