(* ===== verification/Top.v ===== *)
(** * Usage overview

    src/site_deprecated/widgets/widget.awe_top.js: the workunits that clients
    are working on, added up by job, project, user or task.  What the widget
    takes from the Retina library is an argument: [Retina.keys], the comparison
    function [Retina.propSort(attribute, ascending)],
    [Number.prototype.byteSize] and [Number.prototype.formatString]. *)

From Stdlib Require Import SpecFloat.
From S2P Require Import Prelude JsString JsNumber JsValue JsJson JsState.

(** ** The rows *)

Record trow := mkTrow {
  t_workunit : value;
  t_task : value;
  t_pipeline : value;
  t_submission : value;
  t_processing : value;
  t_project : value;
  t_user : value;
  t_job : value;
  t_size : value;
  t_cores : value;
  t_usage : num;
  t_machines : jsint
}.

#[export] Instance trow_eta : Eta trow := λ r,
  mkTrow (t_workunit r) (t_task r) (t_pipeline r) (t_submission r) (t_processing r) (t_project r)
    (t_user r) (t_job r) (t_size r) (t_cores r) (t_usage r) (t_machines r).

(** The rows by the name of their group. *)
Abbreviation jdata := (list (string * trow)).

(** What the page has asked for and not got. *)
Inductive ask := AskTitle | AskClients | AskWork.

Section top.
Context (retina_keys : list string → list string) (propSort : string → bool → trow → trow → Z).
Context (byteSize : num → string) (formatString : num → Z → string).

(** [RetinaConfig] *)
Context (awe_ip : string) (authentication : bool) (alertPanelRefresh : option value).

Record top := mkTop {
  sortattribute : string;
  sortdir : string;
  gp : option string;
  tabletype : option string;
  loggedIn : bool;
  clientData : option json;         (* widget.aweClientData *)
  workData : option json;           (* widget.aweWorkData *)
  select_value : option string;     (* the value of the element [grouping], if there is one *)
  groupby_shown : bool;
  page : string;                    (* the content of the target *)
  title : string;
  asked : list ask;
  timers : list value
}.

#[global] Instance top_eta : Eta top := λ t,
  mkTop (sortattribute t) (sortdir t) (gp t) (tabletype t) (loggedIn t) (clientData t) (workData t)
    (select_value t) (groupby_shown t) (page t) (title t) (asked t) (timers t).

Definition initial (login : bool) : top := {|
  sortattribute := "size"; sortdir := "asc"; gp := None; tabletype := None; loggedIn := login;
  clientData := None; workData := None; select_value := None; groupby_shown := true; page := "";
  title := ""; asked := []; timers := [] |}.

(** ** Adding up *)

(** [a / b * 100] *)
Definition percent (a b : value) : num :=
  SFmul prec emax (SFdiv prec emax (to_number a) (to_number b)) (num_of_Z 100).

(** The clients by id, and the number of cores of all of them. *)
Definition clients_of (l : list json) : res (list (string * json) * value) :=
  foldR (λ '(cs, total) c,
    id ← vprop (Some c) "id";
    cores ← vprop (Some c) "cores";
    Ok (assign (to_str id) c cs, js_add total cores)) ([], VNum (num_of_Z 0)) l.

(** [clients[id].cores]; what every object inherits has no cores. *)
Definition client_cores (cs : list (string * json)) (id : string) : res value :=
  match get id cs with
  | Some c => vprop (Some c) "cores"
  | None => if bool_decide (id ∈ object_names) then Ok VUndef else Throw TypeError
  end.

(** The size of the inputs. *)
Definition input_size (d : option json) : res value :=
  ins ← prop d "inputs";
  l ← json_items ins;
  foldR (λ size i, s ← vprop (Some i) "size"; Ok (js_add size s)) (VNum (num_of_Z 0)) l.

(** The row of a workunit, before it has cores. *)
Definition work_row (d : option json) : res trow :=
  wuid ← vprop d "wuid";
  task ← vprop2 d "cmd" "name";
  pipeline ← vprop2 d "info" "pipeline";
  submission ← vprop2 d "info" "submittime";
  processing ← vprop2 d "info" "startedtime";
  project ← vprop2 d "info" "project";
  user ← vprop2 d "info" "user";
  job ← vprop2 d "info" "name";
  size ← input_size d;
  Ok (mkTrow wuid task pipeline submission processing project user job size VUndef (num_of_Z 0)
        (JInt 0)).

(** The name of the group the row belongs to. *)
Definition group_name (grouping type : string) (r : trow) : string :=
  to_str (if (type =? "task")%string then t_task r
          else if (grouping =? "project")%string then t_project r
          else if (grouping =? "user")%string then t_user r
          else t_job r).

(** A workunit joins the row of its group, or starts it. *)
Definition add_row (total : value) (g : string) (r : trow) (cores : value) (js : jdata) : jdata :=
  match get g js with
  | Some s =>
      let c := js_add (t_cores s) cores in
      set g (s <| t_machines := jadd (t_machines s) (JInt 1) |> <| t_cores := c |>
               <| t_usage := percent c total |> <| t_size := js_add (t_size s) (t_size r) |>) js
  | None =>
      assign g (r <| t_cores := cores |> <| t_usage := percent cores total |>
                  <| t_machines := JInt 1 |>) js
  end.

(** A workunit that no client has is left out.  A group named like the method
    [hasOwnProperty] hides it, and the next call throws. *)
Definition add_work (cs : list (string * json)) (total : value) (grouping type : string)
    (js : jdata) (d : json) : res jdata :=
  r ← work_row (Some d);
  client ← vprop (Some d) "client";
  if truthy client then
    if has_own "hasOwnProperty" js then Throw TypeError else
    cores ← client_cores cs (to_str client);
    Ok (add_row total (group_name grouping type r) r cores js)
  else Ok js.

(** ** The table *)

Definition columns (type : string) : list string :=
  if (type =? "task")%string then ["task"; "pipeline"; "size"; "cores"; "machines"; "usage"]
  else if (type =? "workunit")%string then
    ["workunit"; "task"; "pipeline"; "size"; "cores"; "machines"; "usage"]
  else if (type =? "job")%string then
    ["job"; "project"; "user"; "pipeline"; "size"; "cores"; "machines"; "usage"; "submission";
     "processing"]
  else [].

(** [row[attribute]] *)
Definition row_value (r : trow) (col : string) : value :=
  if (col =? "workunit")%string then t_workunit r
  else if (col =? "task")%string then t_task r
  else if (col =? "pipeline")%string then t_pipeline r
  else if (col =? "submission")%string then t_submission r
  else if (col =? "processing")%string then t_processing r
  else if (col =? "project")%string then t_project r
  else if (col =? "user")%string then t_user r
  else if (col =? "job")%string then t_job r
  else if (col =? "size")%string then t_size r
  else if (col =? "cores")%string then t_cores r
  else if (col =? "usage")%string then VNum (t_usage r)
  else if (col =? "machines")%string then VNum (num_of_jsint (t_machines r))
  else VUndef.

(** The text of a cell: the size and the usage are formatted. *)
Definition cell_text (r : trow) (col : string) : res string :=
  if (col =? "size")%string then
    match t_size r with VNum n => Ok (byteSize n) | _ => Throw TypeError end
  else if (col =? "usage")%string then Ok (formatString (t_usage r) 3 +++ "%")
  else Ok (to_str (row_value r col)).

Definition row_html (cols : list string) (r : trow) : res string :=
  cells ← mapR (λ c, x ← cell_text r c; Ok ("<td>" +++ x +++ "</td>")) cols;
  Ok ("<tr>" +++ String.concat "" cells +++ "</tr>").

(** The rows, in the order in which they are shown. *)
Definition sorted_rows (t : top) (js : jdata) : list trow :=
  pure_sort (propSort (sortattribute t) (sortdir t =? "asc")%string)
    (omap (λ g, get g js) (retina_keys (keys js))).

Definition type_button (type name : string) : string :=
  "<button type='button' class='btn btn-large" +++ (if (type =? name)%string then " active" else "")
  +++ q "' onclick='Retina.WidgetInstances.awe_top[1].sortattribute=`" +++ name
  +++ q "`;Retina.WidgetInstances.awe_top[1].showAWEDetails(null,`" +++ name +++ q "`);'>" +++ name
  +++ "</button>".

Definition group_option (gp name : string) : string :=
  "<option" +++ (if (gp =? name)%string then " selected=selected" else "") +++ ">" +++ name
  +++ "</option>".

Definition head_html (gp type : string) (cols : list string) : string :=
  "<div style='margin-bottom: 10px;'><div class='btn-group' data-toggle='buttons-radio'>"
  +++ type_button type "job" +++ type_button type "task" +++ type_button type "workunit"
  +++ "</div></div>"
  +++ q "<p id=`groupby`>group by <select style=`margin-bottom: 0px;` onchange=`Retina.WidgetInstances.awe_top[1].showAWEDetails(this.options[this.selectedIndex].value);` id=`grouping`>"
  +++ group_option gp "job" +++ group_option gp "project" +++ group_option gp "user"
  +++ "</select></p>"
  +++ q "<table class=`table` style=`margin-left: 10%; width: 80%;`><tr>"
  +++ String.concat "" ((λ c,
        q "<th style=`cursor: pointer;` onclick=`Retina.WidgetInstances.awe_top[1].setSort('" +++ c
        +++ q "');`>" +++ c +++ "</th>") <$> cols).

(** The option of the select box that is selected: the marked one, or the first. *)
Definition selected_option (gp : string) : string :=
  if (gp =? "project")%string || (gp =? "user")%string then gp else "job".

(** [s || d] for a string that may be missing *)
Definition or_else (o : option string) (d : string) : string :=
  match o with Some s => if (s =? "")%string then d else s | None => d end.

Definition given (o : option string) : option string :=
  match o with Some s => if (s =? "")%string then None else Some s | None => None end.

Abbreviation act := (M top ()).

(** The data added up: the rows by group. *)
Definition collect (t : top) (grouping type : string) : res jdata :=
  cl ← json_items (clientData t);
  p ← clients_of cl;
  wl ← json_items (workData t);
  foldR (add_work p.1 p.2 grouping type) [] wl.

Definition showAWEDetails (g ty : option string) : act :=
  _ ← match given g with Some g => modify (λ t, t <| gp := Some g |>) | None => skip end;
  _ ← match given ty with Some ty => modify (λ t, t <| tabletype := Some ty |>) | None => skip end;
  t ← gets (λ t, t);
  let g := or_else (gp t) "job" in
  let type := or_else (tabletype t) "job" in
  let cols := columns type in
  js ← lift (collect t (default "job" (select_value t)) type);
  rows ← lift (mapR (row_html cols) (sorted_rows t js));
  _ ← modify (λ t, t <| page := head_html g type cols +++ String.concat "" rows +++ "</table>" |>
                     <| select_value := Some (selected_option g) |> <| groupby_shown := true |>);
  when ((type =? "task")%string || (type =? "workunit")%string)
    (modify (λ t, t <| groupby_shown := false |>)).

(** A click on the head of a column. *)
Definition setSort (field : string) : act :=
  _ ← modify (λ t,
    if (field =? sortattribute t)%string
    then t <| sortdir := if (sortdir t =? "asc")%string then "desc" else "asc" |>
    else t <| sortattribute := field |>);
  showAWEDetails None None.

(** A click on the job, task or workunit button. *)
Definition on_type (name : string) : act :=
  _ ← modify (λ t, t <| sortattribute := name |>);
  showAWEDetails None (Some name).

(** A choice in the select box. *)
Definition on_grouping (name : string) : act :=
  _ ← modify (λ t, t <| select_value := Some name |>);
  showAWEDetails (Some name) None.

(** ** Requests *)

(** The condition that is to switch off the refresh compares the result of
    [hasOwnProperty], a boolean, with 0. *)
Definition refresh_off : bool :=
  match alertPanelRefresh with
  | Some _ => loose_eq (VBool true) (VNum (num_of_Z 0))
  | None => false
  end.

Definition refresh_delay : value :=
  vor (default VUndef alertPanelRefresh) (VNum (num_of_Z 60000)).

Definition getAWEDetails : act :=
  _ ← when (negb refresh_off) (modify (λ t, t <| timers := timers t ++ [refresh_delay] |>));
  modify (λ t, t <| asked := asked t ++ [AskClients] |>).

Definition display : act :=
  _ ← modify (λ t, t <| asked := asked t ++ [AskTitle] |>);
  t ← gets (λ t, t);
  if negb authentication || loggedIn t then
    _ ← modify (λ t, t <| page := "<div style='text-align: center; margin-top: 300px;'><img src='Retina/images/waiting.gif'></div>" |>
                       <| select_value := None |>);
    getAWEDetails
  else modify (λ t, t <| page := "<p>authorization required</p>" |> <| select_value := None |>).

(** The title of the server, if the response has one. *)
Definition response_title (data : option json) : res (option string) :=
  match data with
  | Some (JObj ps) => Ok (json_str <$> get "title" ps)
  | None | Some JNull => Throw TypeError
  | _ => Ok None
  end.

(** Request [k] is answered. *)
Definition on_answer (k : nat) (data : option json) : act :=
  t ← gets (λ t, t);
  a ← lift (need TypeError (asked t !! k));
  _ ← modify (λ t, t <| asked := delete k (asked t) |>);
  match a with
  | AskTitle =>
      ti ← lift (response_title data);
      match ti with Some ti => modify (λ t, t <| title := ti |>) | None => skip end
  | AskClients =>
      d ← lift (prop data "data");
      _ ← modify (λ t, t <| clientData := d |>);
      modify (λ t, t <| asked := asked t ++ [AskWork] |>)
  | AskWork =>
      d ← lift (prop data "data");
      _ ← modify (λ t, t <| workData := d |>);
      showAWEDetails None None
  end.

(** A timer goes off. *)
Definition on_timer (k : nat) : act :=
  _ ← modify (λ t, t <| timers := delete k (timers t) |>);
  getAWEDetails.

Inductive event :=
| EvDisplay
| EvAnswer (k : nat) (data : option json)
| EvTimer (k : nat)
| EvSort (col : string)
| EvType (name : string)
| EvGrouping (name : string).

(** The controls exist once the table has been shown; the select box has three
    options, and the buttons three names. *)
Definition enabled (e : event) (t : top) : bool :=
  match e with
  | EvDisplay | EvAnswer _ _ => true
  | EvTimer k => (k <? length (timers t))%nat
  | EvSort _ => bool_decide (is_Some (select_value t))
  | EvType n => bool_decide (is_Some (select_value t)) && bool_decide (n ∈ ["job"; "task"; "workunit"])
  | EvGrouping n => bool_decide (is_Some (select_value t)) && bool_decide (n ∈ ["job"; "project"; "user"])
  end.

Definition handle (e : event) : act :=
  match e with
  | EvDisplay => display
  | EvAnswer k data => on_answer k data
  | EvTimer k => on_timer k
  | EvSort col => setSort col
  | EvType name => on_type name
  | EvGrouping name => on_grouping name
  end.

Definition run (evs : list event) (t : top) : top :=
  foldl (λ t e, if enabled e t then (handle e t).1 else t) t evs.

End top.
