(* ===== verification/TopRows.v ===== *)
(** * Usage overview: what the rows add up

    The loop over the workunits against grouping by name, the conservation of
    the machines, and the grouping that is kept over refreshes. *)

From Stdlib Require Import SpecFloat.
From S2P Require Import Prelude JsString JsNumber JsValue JsJson JsState TableData TableSort Top.

(** ** Grouping *)

(** The names of a list, each once, in the order of their first occurrence. *)
Definition distinct (l : list string) : list string :=
  foldl (λ ks k, if bool_decide (k ∈ ks) then ks else ks ++ [k]) [] l.

Lemma distinct_snoc l k :
  distinct (l ++ [k]) = if bool_decide (k ∈ distinct l) then distinct l else distinct l ++ [k].
Proof. unfold distinct. by rewrite foldl_app. Qed.

Lemma elem_of_distinct l k : k ∈ distinct l ↔ k ∈ l.
Proof.
  induction l as [|x l IH] using rev_ind; [done|].
  rewrite distinct_snoc. case_bool_decide; set_solver.
Qed.

Lemma NoDup_distinct l : NoDup (distinct l).
Proof.
  induction l as [|x l IH] using rev_ind; [constructor|].
  rewrite distinct_snoc. case_bool_decide; [done|].
  apply NoDup_app. split; [done|]. split; [set_solver|apply NoDup_singleton].
Qed.

(** ** Objects by a function of their keys *)

Section entries.
Context {V : Type}.
Implicit Types (f : string → option V) (ks : list string).

Fixpoint entries f ks : list (string * V) :=
  match ks with
  | [] => []
  | k :: ks' => match f k with Some v => (k, v) :: entries f ks' | None => entries f ks' end
  end.

Lemma get_entries f ks k : get k (entries f ks) = if bool_decide (k ∈ ks) then f k else None.
Proof.
  induction ks as [|g ks IH]; [done|]. cbn [entries].
  destruct (decide (k = g)) as [->|Hne].
  - rewrite (bool_decide_true (g ∈ _)) by set_solver. destruct (f g) eqn:E; simpl.
    + by rewrite String.eqb_refl.
    + rewrite IH. by case_bool_decide.
  - rewrite (bool_decide_ext (k ∈ g :: ks) (k ∈ ks)) by set_solver. rewrite <-IH.
    destruct (f g); simpl; [by rewrite (proj2 (String.eqb_neq _ _))|done].
Qed.

Lemma entries_ext f f' ks : (∀ k, k ∈ ks → f k = f' k) → entries f ks = entries f' ks.
Proof.
  induction ks as [|k ks IH]; intros H; [done|]. cbn [entries].
  rewrite (H k) by set_solver. by rewrite IH by set_solver.
Qed.

Lemma entries_app f ks ks' : entries f (ks ++ ks') = entries f ks ++ entries f ks'.
Proof.
  induction ks as [|k ks IH]; [done|]. cbn [entries app]. rewrite IH. by destruct (f k).
Qed.

Lemma keys_entries f ks : (∀ k, k ∈ ks → is_Some (f k)) → keys (entries f ks) = ks.
Proof.
  induction ks as [|k ks IH]; intros H; [done|]. cbn [entries].
  destruct (H k) as [v ->]; [set_solver|]. unfold keys in *. cbn. f_equal. apply IH. set_solver.
Qed.

Lemma set_entries f f' ks k v :
  k ∈ ks → NoDup ks → is_Some (f k) → f' k = Some v → (∀ g, g ≠ k → f' g = f g) →
  set k v (entries f ks) = entries f' ks.
Proof.
  intros Hk Hnd [v0 Hf] Hf' Hne. induction ks as [|g ks IH]; [set_solver|].
  apply NoDup_cons in Hnd as [Hg Hnd]. cbn [entries]. destruct (decide (g = k)) as [->|Hgk].
  - rewrite Hf, Hf'. simpl. rewrite String.eqb_refl. f_equal.
    apply entries_ext. intros g Hin. symmetry. apply Hne. by intros ->.
  - rewrite (Hne g) by done. specialize (IH ltac:(set_solver) Hnd). destruct (f g); simpl; [|done].
    rewrite (proj2 (String.eqb_neq _ _)) by done. by rewrite IH.
Qed.
End entries.

(** A workunit with a client: its group, its row, the cores of its client. *)
Abbreviation item := (string * trow * value)%type.

Definition in_group (g : string) (i : item) : bool := (i.1.1 =? g)%string.

(** The row of a group: the first workunit's, with the cores and sizes of all. *)
Definition summary (total : value) (l : list item) : option trow :=
  match l with
  | [] => None
  | (_, r, c) :: l' =>
      let cores := foldl (λ a i, js_add a i.2) c l' in
      Some (r <| t_cores := cores |>
              <| t_usage := percent cores total |>
              <| t_size := foldl (λ a i, js_add a (t_size i.1.2)) (t_size r) l' |>
              <| t_machines := JInt (Z.of_nat (length l)) |>)
  end.

(** The names of the groups; an object cannot have the one left out. *)
Definition group_names (l : list item) : list string :=
  distinct (List.filter (λ g, negb (g =? "__proto__")%string) ((λ i, i.1.1) <$> l)).

Definition grouped (total : value) (l : list item) : jdata :=
  entries (λ g, summary total (List.filter (in_group g) l)) (group_names l).

(** Adding a workunit to the rows of the others. *)
Lemma summary_snoc total l g r c s :
  Z.of_nat (length l) < 2 ^ 53 → summary total l = Some s →
  let cores := js_add (t_cores s) c in
  summary total (l ++ [(g, r, c)]) = Some (s <| t_machines := jadd (t_machines s) (JInt 1) |>
    <| t_cores := cores |> <| t_usage := percent cores total |>
    <| t_size := js_add (t_size s) (t_size r) |>).
Proof.
  intros Hl Hs. destruct l as [|[[g0 r0] c0] l]; [done|]. simpl in Hs. injection Hs as <-.
  cbn [app summary]. rewrite !foldl_app. cbn -[length].
  replace (jadd _ _) with (JInt (Z.of_nat (length ((g0, r0, c0) :: l ++ [(g, r, c)]))));
    [by destruct r0|].
  unfold jadd. rewrite jround_small by (simpl in *; lia).
  f_equal. rewrite length_cons, length_app. simpl. lia.
Qed.

Lemma filter_in_group_snoc g l i :
  List.filter (in_group g) (l ++ [i]) =
    List.filter (in_group g) l ++ (if in_group g i then [i] else []).
Proof. rewrite list_filter_app. simpl. by destruct in_group. Qed.

Lemma group_names_snoc l i :
  group_names (l ++ [i]) =
    if bool_decide (i.1.1 ∈ group_names l) || (i.1.1 =? "__proto__")%string
    then group_names l else group_names l ++ [i.1.1].
Proof.
  unfold group_names. rewrite fmap_app, list_filter_app. simpl.
  destruct (String.eqb_spec i.1.1 "__proto__") as [E|E]; simpl.
  - by rewrite app_nil_r, orb_true_r.
  - rewrite distinct_snoc, orb_false_r. by destruct bool_decide.
Qed.

Lemma elem_of_group_names l g :
  g ∈ group_names l ↔ g ≠ "__proto__" ∧ List.filter (in_group g) l ≠ [].
Proof.
  unfold group_names. rewrite elem_of_distinct, elem_of_list_filter_b, negb_true_iff, String.eqb_neq.
  enough (g ∈ (λ i : item, i.1.1) <$> l ↔ List.filter (in_group g) l ≠ []) by naive_solver.
  induction l as [|i l IH]; [set_solver|]. rewrite fmap_cons, elem_of_cons, IH. simpl.
  unfold in_group at 2. destruct (String.eqb_spec i.1.1 g) as [->|]; [naive_solver|].
  split; [by intros [?|?]; [congruence|]|by right].
Qed.

Lemma summary_some total l : l ≠ [] → is_Some (summary total l).
Proof. destruct l as [|[[??]?]?]; [done|]. simpl. eauto. Qed.

Lemma grouped_snoc total l g r c :
  Z.of_nat (length l) < 2 ^ 53 →
  grouped total (l ++ [(g, r, c)]) = add_row total g r c (grouped total l).
Proof.
  intros Hl. unfold grouped at 1. rewrite group_names_snoc. cbn [fst snd].
  assert (∀ k, k ≠ g → summary total (List.filter (in_group k) (l ++ [(g, r, c)])) =
                       summary total (List.filter (in_group k) l)) as Hne.
  { intros k Hk. rewrite filter_in_group_snoc. unfold in_group at 2. simpl.
    rewrite (proj2 (String.eqb_neq _ _)) by done. by rewrite app_nil_r. }
  assert (List.filter (in_group g) (l ++ [(g, r, c)]) = List.filter (in_group g) l ++ [(g, r, c)]) as Hg.
  { rewrite filter_in_group_snoc. unfold in_group at 2. simpl. by rewrite String.eqb_refl. }
  unfold add_row, grouped. rewrite get_entries. case_bool_decide as Hin; simpl.
  - apply elem_of_group_names in Hin as Hin'. destruct Hin' as [_ Hf].
    destruct (summary_some total _ Hf) as [s Hs]. rewrite Hs. symmetry.
    apply set_entries; [done|apply NoDup_distinct|by eauto| |by intros k Hk; apply Hne].
    rewrite Hg. apply summary_snoc; [|done]. pose proof (list_filter_length (in_group g) l). lia.
  - unfold assign. destruct (String.eqb_spec g "__proto__") as [->|Hp].
    + apply entries_ext. intros k Hk. apply Hne. by intros ->.
    + rewrite entries_app. rewrite set_fresh.
      * f_equal; [apply entries_ext; intros k Hk; apply Hne; by intros ->|].
        cbn [entries]. rewrite Hg.
        assert (List.filter (in_group g) l = []) as ->; [|done].
        destruct (List.filter (in_group g) l) eqn:E; [done|].
        exfalso. apply Hin, elem_of_group_names. by rewrite E.
      * rewrite keys_entries; [done|]. intros k Hk. by apply summary_some, (elem_of_group_names l k).
Qed.

Lemma foldl_grouped total l :
  Z.of_nat (length l) ≤ 2 ^ 53 →
  foldl (λ js i, add_row total i.1.1 i.1.2 i.2 js) [] l = grouped total l.
Proof.
  induction l as [|[[g r] c] l IH] using rev_ind; intros Hl; [done|].
  rewrite length_app in Hl. simpl in Hl. rewrite foldl_app, IH by lia. simpl.
  symmetry. apply grouped_snoc. lia.
Qed.

(** ** The groups partition the workunits *)

Lemma filter_or {A} (p p' : A → bool) l :
  (∀ x, x ∈ l → p x && p' x = false) →
  List.filter p l ++ List.filter p' l ≡ₚ List.filter (λ x, p x || p' x) l.
Proof.
  induction l as [|x l IH]; intros H; [done|]. simpl.
  specialize (IH ltac:(set_solver)). specialize (H x ltac:(set_solver)).
  destruct (p x), (p' x); simpl in *; try done; [by constructor|].
  rewrite <-Permutation_middle. by constructor.
Qed.

Lemma groups_partition ks l :
  NoDup ks →
  concat ((λ g, List.filter (in_group g) l) <$> ks) ≡ₚ
    List.filter (λ i, bool_decide (i.1.1 ∈ ks)) l.
Proof.
  induction ks as [|g ks IH]; intros Hnd.
  - simpl. induction l; [done|]. done.
  - apply NoDup_cons in Hnd as [Hg Hnd]. rewrite fmap_cons. simpl. rewrite IH by done.
    rewrite filter_or.
    + erewrite list_filter_ext; [done|]. intros i _. simpl. unfold in_group.
      destruct (String.eqb_spec i.1.1 g) as [->|]; simpl.
      * by rewrite bool_decide_true by set_solver.
      * apply bool_decide_ext. set_solver.
    + intros i _. unfold in_group. destruct (String.eqb_spec i.1.1 g) as [->|]; [|done].
      simpl. by apply bool_decide_false.
Qed.

Lemma length_omap {A} (l : list (option A)) : (length (omap id l) ≤ length l)%nat.
Proof. induction l as [|[x|] l IH]; cbn in *; unfold omap in *; simpl in *; lia. Qed.

(** ** The workunits of the server *)

Section rows.
Context (retina_keys : list string → list string) (propSort : string → bool → trow → trow → Z).
Context (byteSize : num → string) (formatString : num → Z → string).
Context (authentication : bool) (alertPanelRefresh : option value).

(** The group, the row and the cores of a workunit that a client has. *)
Definition work_item (cs : list (string * json)) (grouping type : string) (d : json)
    : res (option item) :=
  r ← work_row (Some d);
  client ← vprop (Some d) "client";
  if truthy client then
    cores ← client_cores cs (to_str client);
    Ok (Some (group_name grouping type r, r, cores))
  else Ok None.

Definition option_list {A} (o : option A) : list A := match o with Some x => [x] | None => [] end.

Lemma add_work_items cs total grouping type wl : ∀ js0 js,
  foldR (add_work cs total grouping type) js0 wl = Ok js →
  ∃ items, mapR (work_item cs grouping type) wl = Ok items ∧
    js = foldl (λ js i, add_row total i.1.1 i.1.2 i.2 js) js0 (omap id items).
Proof.
  induction wl as [|d wl IH]; intros js0 js Hjs; simpl in Hjs.
  - injection Hjs as <-. by exists [].
  - apply bind_ok in Hjs as (js1 & H1 & H2). apply IH in H2 as (items & Hi & ->).
    unfold add_work in H1. apply bind_ok in H1 as (r & Hr & H1).
    apply bind_ok in H1 as (client & Hc & H1).
    assert (∃ o, work_item cs grouping type d = Ok o ∧
      js1 = foldl (λ js i, add_row total i.1.1 i.1.2 i.2 js) js0 (option_list o)) as (o & Ho & ->).
    { unfold work_item. rewrite Hr, ok_bind, Hc, ok_bind. destruct (truthy client).
      - destruct (has_own "hasOwnProperty" js0); [done|].
        apply bind_ok in H1 as (cores & Hco & [= <-]). rewrite Hco. by eexists.
      - injection H1 as <-. by exists None. }
    exists (o :: items). cbn [mapR]. rewrite Ho, ok_bind, Hi. split; [done|].
    by destruct o.
Qed.

(** C5: the sums of the usage overview. When the loop over the workunits returns, the
    rows it has built by updating its table in place are those of the reference
    definition [grouped]: one row for each group name, in the order of the first
    workunit of the group, whose machines, cores and size are the number and the
    sums of the workunits of the group that a client has, and whose usage is the
    cores' share of all cores. Every such workunit is in exactly one group (a
    group with the name of the prototype property is no property and is lost). *)
Theorem top_adds_up_by_group t grouping type cl wl cs total js :
  clientData t = Some (JArr cl) → workData t = Some (JArr wl) →
  clients_of cl = Ok (cs, total) → Z.of_nat (length wl) ≤ 2 ^ 53 →
  collect t grouping type = Ok js →
  ∃ items, mapR (work_item cs grouping type) wl = Ok items ∧
    let l := omap id items in
    js = grouped total l ∧
    concat ((λ g, List.filter (in_group g) l) <$> keys js) ≡ₚ
      List.filter (λ i, negb (i.1.1 =? "__proto__")%string) l.
Proof.
  intros Hcl Hwl Hcs Hlen Hjs. unfold collect in Hjs. rewrite Hcl, Hwl in Hjs. simpl in Hjs.
  rewrite Hcs in Hjs. simpl in Hjs. apply add_work_items in Hjs as (items & Hi & ->).
  exists items. split; [done|]. intros l.
  assert (Z.of_nat (length l) ≤ 2 ^ 53) as Hl.
  { apply mapR_length in Hi. pose proof (length_omap items). unfold l. lia. }
  change (omap id items) with l. clearbody l.
  rewrite foldl_grouped by done. split; [done|].
  unfold grouped. rewrite keys_entries.
  - rewrite groups_partition by apply NoDup_distinct. erewrite list_filter_ext; [done|].
    intros i Hin. simpl. apply eq_true_iff_eq.
    rewrite bool_decide_eq_true, elem_of_group_names, negb_true_iff, String.eqb_neq.
    split; [naive_solver|]. intros Hp. split; [done|]. intros E.
    assert (i ∈ List.filter (in_group i.1.1) l) as Hf; [|by rewrite E in Hf; set_solver].
    apply elem_of_list_filter_b. split; [done|]. unfold in_group. by rewrite String.eqb_refl.
  - intros g Hg. by apply summary_some, (elem_of_group_names l g).
Qed.

(** ** The grouping that is chosen is kept *)

(** The select box shows the grouping the widget has remembered. *)
Definition keeps (t : top) : Prop :=
  ∀ v, select_value t = Some v → v = selected_option (or_else (gp t) "job").

Abbreviation show_details := (showAWEDetails retina_keys propSort byteSize formatString).
Abbreviation act_of := (handle retina_keys propSort byteSize formatString authentication alertPanelRefresh).
Abbreviation run_top := (run retina_keys propSort byteSize formatString authentication alertPanelRefresh).

Lemma show_keeps ty t : keeps t → always (show_details None ty) keeps t.
Proof.
  intros Ht. unfold showAWEDetails. simpl. apply always_bind; [done|]. intros _ t1 Ht1.
  apply always_bind.
  - destruct (given ty); [by apply always_modify|by apply always_skip].
  - intros _ t2 Ht2. apply always_gets_bind, always_lift_bind; [done|]. intros js _.
    apply always_lift_bind; [done|]. intros rows _. apply always_modify_bind.
    destruct (_ || _); [apply always_modify|apply always_skip]; intros v [= <-]; done.
Qed.

Lemma grouping_keeps n t :
  n ∈ ["job"; "project"; "user"] →
  always (on_grouping retina_keys propSort byteSize formatString n) keeps t.
Proof.
  intros Hn. unfold on_grouping. apply always_modify_bind. unfold showAWEDetails.
  assert (given (Some n) = Some n ∧ selected_option n = n ∧ or_else (Some n) "job" = n)
    as (-> & Hs & Ho) by (set_unfold; naive_solver).
  apply always_modify_bind. cbn [given]. apply (always_bind skip).
  { apply always_skip. intros v [= <-]. upd_simpl. by rewrite Ho, Hs. }
  intros _ t2 Ht2. apply always_gets_bind, always_lift_bind; [done|]. intros js _.
  apply always_lift_bind; [done|]. intros rows _. apply always_modify_bind.
  destruct (_ || _); [apply always_modify|apply always_skip]; intros v [= <-]; done.
Qed.

Lemma get_details_keeps t : keeps t → always (getAWEDetails alertPanelRefresh) keeps t.
Proof.
  intros Ht. unfold getAWEDetails. apply always_bind; [|by intros; apply always_modify].
  by destruct (negb _); [apply always_modify|apply always_skip].
Qed.

Lemma handle_keeps e t : enabled e t = true → keeps t → always (act_of e) keeps t.
Proof.
  intros He Ht. destruct e as [|k d|k|col|name|name]; simpl.
  - unfold display. apply always_modify_bind, always_gets_bind. destruct (_ || _).
    + apply always_modify_bind. by apply get_details_keeps.
    + by apply always_modify.
  - unfold on_answer. apply always_gets_bind, always_lift_bind; [done|]. intros a _.
    apply always_modify_bind. destruct a; (apply always_lift_bind; [done|intros x _]).
    + destruct x; [by apply always_modify|by apply always_skip].
    + apply always_modify_bind. by apply always_modify.
    + apply always_modify_bind. by apply show_keeps.
  - unfold on_timer. apply always_modify_bind. by apply get_details_keeps.
  - unfold setSort. apply always_modify_bind. apply show_keeps. by destruct (_ =? _)%string.
  - unfold on_type. apply always_modify_bind. by apply show_keeps.
  - apply grouping_keeps. simpl in He. apply andb_true_iff in He as [_ He].
    by apply bool_decide_eq_true in He.
Qed.

(** C21: the grouping that is shown. After any sequence of displays, answers, timers,
    clicks and choices, the select box is not on the page, or it shows the
    grouping that the widget remembers, so the next refresh groups by what the
    user sees. *)
Theorem top_keeps_grouping login evs :
  let t := run_top evs (initial login) in
  select_value t = None ∨ select_value t = Some (selected_option (or_else (gp t) "job")).
Proof.
  assert (∀ evs t, keeps t → keeps (run_top evs t)) as H.
  { clear evs. induction evs as [|e evs IH]; intros t Ht; [done|]. simpl. apply IH.
    destruct (enabled e t) eqn:He; [|done]. by apply handle_keeps. }
  intros t. destruct (select_value t) as [v|] eqn:Hv; [right|by left]. f_equal.
  by apply (H evs (initial login)).
Qed.

(** ** The table that is shown *)















(** The refresh cannot be switched off: a delay of 0 becomes the default. *)
Lemma top_refresh_is_never_off t :
  ∃ d, timers (getAWEDetails alertPanelRefresh t).1 = timers t ++ [d] ∧ truthy d = true ∧
    (alertPanelRefresh = Some (VNum (num_of_Z 0)) → d = VNum (num_of_Z 60000)).
Proof.
  exists (refresh_delay alertPanelRefresh). split_and!.
  - unfold getAWEDetails, refresh_off. by destruct alertPanelRefresh.
  - unfold refresh_delay, vor. by destruct (truthy (default _ _)) eqn:E.
  - by intros ->.
Qed.

(** The workunit table has the rows of the job table. *)
Lemma workunit_view_shows_jobs t grouping : collect t grouping "workunit" = collect t grouping "job".
Proof. done. Qed.

End rows.

(** ** Witnesses *)

(** Two clients with 4 and 8 cores; three workunits of two jobs, one of which no
    client has yet. *)
Definition ex_client (id : string) (cores : Z) : json :=
  JObj [("id", JStr id); ("cores", JNum (num_of_Z cores))].

Definition ex_work (wuid job client : string) (size : Z) : json :=
  JObj [("wuid", JStr wuid); ("cmd", JObj [("name", JStr "blat")]);
        ("info", JObj [("name", JStr job); ("pipeline", JStr "mgrast"); ("submittime", JStr "1");
                       ("startedtime", JStr "2"); ("project", JStr "p"); ("user", JStr "u")]);
        ("inputs", JArr [JObj [("size", JNum (num_of_Z size))]]); ("client", JStr client)].

Definition ex_clients : list json := [ex_client "c1" 4; ex_client "c2" 8].

Definition ex_works : list json :=
  [ex_work "w1" "j1" "c1" 10; ex_work "w2" "j1" "c2" 20; ex_work "w3" "j2" "c2" 30;
   ex_work "w4" "j2" "" 40].

Definition ex_top : top :=
  (initial true) <| clientData := Some (JArr ex_clients) |> <| workData := Some (JArr ex_works) |>
                 <| sortattribute := "machines" |>.



Definition ex_total : list (string * json) * value :=
  ([("c1", ex_client "c1" 4); ("c2", ex_client "c2" 8)], VNum (num_of_Z 12)).

Definition ex_groups : jdata := match collect ex_top "job" "job" with Ok js => js | Throw _ => [] end.

(** The jobs have the cores 12 and 8 and the machines 2 and 1. *)
Lemma top_adds_up_by_group_witness :
  (λ e : string * trow, (e.1, to_str (t_cores e.2), t_machines e.2)) <$> ex_groups =
    [("j1", "12", JInt 2); ("j2", "8", JInt 1)].
Proof.
  destruct (top_adds_up_by_group ex_top "job" "job" ex_clients ex_works ex_total.1 ex_total.2
    ex_groups) as (items & Hi & Hjs & _).
  - vm_eq.
  - vm_eq.
  - vm_eq.
  - simpl. lia.
  - vm_eq.
  - rewrite Hjs. clear Hjs. assert (Ok items = Ok (match mapR (work_item ex_total.1 "job" "job") ex_works
      with Ok l => l | Throw _ => [] end)) as [= ->]; [rewrite <-Hi; vm_eq|]. vm_eq.
Defined.



