(* ===== verification/Panel.v ===== *)
(** * Client panel

    src/site_deprecated/widgets/widget.awe_panel.js: the clients as boxes in
    groups, the applications and pipelines that run on them, and the refresh.
    The objects of the responses are changed in place: [showAWEDetails] sorts the
    clients, writes [index] and [highlight] into them and replaces the names of
    workunits and clients by links, so the state keeps the changed documents.
    What the widget takes from the Retina library is an argument: [Retina.keys],
    [Retina.propSort('id')] and [Retina.Numsort]. *)

From Stdlib Require Import SpecFloat.
From S2P Require Import Prelude JsString JsNumber JsValue JsJson JsonText JsState.

(** ** Objects of the responses *)

(** [o.k = v]; on a primitive value the assignment has no effect. *)
Definition set_prop (o : json) (k : string) (v : json) : res json :=
  match o with
  | JObj ps => Ok (JObj (set k v ps))
  | JNull => Throw TypeError
  | _ => Ok o
  end.

(** The array [o.k1.k2] with one element replaced. *)
Definition set_element (o : json) (k1 k2 : string) (h : nat) (v : json) : json :=
  match o with
  | JObj ps =>
      match get k1 ps with
      | Some (JObj qs) =>
          match get k2 qs with
          | Some (JArr l) => JObj (set k1 (JObj (set k2 (JArr (<[h := v]> l)) qs)) ps)
          | _ => o
          end
      | _ => o
      end
  | _ => o
  end.

(** ** Groups *)

(** An object that has arrays under its own names; the array under
    [__proto__] is its prototype and not its own. *)
Record groups := mkGroups { own : list (string * list nat); proto : list nat }.

Definition no_groups : groups := mkGroups [] [].

(** [if (! o.hasOwnProperty(k)) { o[k] = []; } o[k].push(i)], and whether [k]
    was new. *)
Definition add_member (k : string) (i : nat) (o : groups) : groups * bool :=
  if (k =? "__proto__")%string then (mkGroups (own o) [i], true)
  else match get k (own o) with
       | Some l => (mkGroups (set k (l ++ [i]) (own o)) (proto o), false)
       | None => (mkGroups (set k [i] (own o)) (proto o), true)
       end.

Definition members (k : string) (o : groups) : list nat :=
  if (k =? "__proto__")%string then proto o else default [] (get k (own o)).

(** The same for objects of which only the own names are used later. *)
Definition push_to {A} (k : string) (x : A) (o : list (string * list A)) : list (string * list A) :=
  match get k o with
  | Some l => set k (l ++ [x]) o
  | None => assign k [x] o
  end.

(** [Array.prototype.sort] without a comparison function: by the text of the
    elements, [undefined] at the end. *)
Definition default_cmp (a b : value) : Z :=
  match a, b with
  | VUndef, VUndef => 0
  | VUndef, _ => 1
  | _, VUndef => -1
  | _, _ => if (to_str a =? to_str b)%string then 0
            else if String.ltb (to_str a) (to_str b) then -1 else 1
  end.

(** ** Names of clients *)

(** The text in front of the first [c] and the text behind it. *)
Fixpoint take_until (c : ascii) (s : string) : option (string * string) :=
  match s with
  | EmptyString => None
  | String a s' =>
      if Ascii.eqb a c then Some ("", s')
      else match take_until c s' with Some (t, r) => Some (String a t, r) | None => None end
  end.

Definition one_line (s : string) : bool := negb (has_char newline s) && negb (has_char creturn s).

(** [s.replace(/^<[^>]+>([^<]+)<\/.+$/, '$1')]: the text inside of an element. *)
Definition client_name (s : string) : string :=
  match s with
  | String c1 s1 =>
      if Ascii.eqb c1 "<" then
        match take_until ">" s1 with
        | Some (tag, s2) =>
            match take_until "<" s2 with
            | Some (name, String c2 rest) =>
                if negb (tag =? "")%string && negb (name =? "")%string && Ascii.eqb c2 "/"
                   && negb (rest =? "")%string && one_line rest
                then name else s
            | _ => s
            end
        | None => s
        end
      else s
  | EmptyString => s
  end.

Definition client_link (i : nat) (name : string) : string :=
  "<span class='href' onclick='Retina.WidgetInstances.awe_panel[1].aweNodeDetail(" +++ show (Z.of_nat i)
  +++ ");'>" +++ name +++ "</span>".

Definition work_link (i : nat) (name : string) : string :=
  "<span class='href' onclick='Retina.WidgetInstances.awe_panel[1].aweWorkunitDetail("
  +++ show (Z.of_nat i) +++ ");'>" +++ name +++ "</span>".

(** ** The state *)

Inductive ask := AskTitle | AskClients | AskWork | AskResume (what : string).

Record panel := mkPanel {
  grouping : option string;
  currentApp : option string;
  loggedIn : bool;
  clientData : option json;             (* widget.aweClientData *)
  workData : option json;               (* widget.aweWorkData *)
  clientIndex : list (string * nat);
  details : option string;              (* the element awe_details, if there is one *)
  detail : option string;               (* the element detail, if there is one *)
  page : string;
  title : string;
  asked : list ask;
  timers : list value;
  alerts : list string
}.

#[export] Instance panel_eta : Eta panel := λ p,
  mkPanel (grouping p) (currentApp p) (loggedIn p) (clientData p) (workData p) (clientIndex p)
    (details p) (detail p) (page p) (title p) (asked p) (timers p) (alerts p).

Definition initial (login : bool) : panel := {|
  grouping := None; currentApp := None; loggedIn := login; clientData := None; workData := None;
  clientIndex := []; details := None; detail := None; page := ""; title := ""; asked := [];
  timers := []; alerts := [] |}.

Abbreviation act := (M panel ()).

Section panel.
Context (retina_keys : option json → list string) (name_keys : list string → list string).
Context (id_sort : json → json → Z) (numsort : value → value → Z).
Context (authentication : bool) (alertPanelRefresh : option value).

(** ** [showAWEDetails] *)

(** [widget.grouping || "cores"] *)
Definition group_by (p : panel) : string :=
  match grouping p with Some g => if (g =? "")%string then "cores" else g | None => "cores" end.

(** The groups, their names in the order of their appearance and the positions
    of the clients; [clientIndex] of the source is the last component. *)
Record grouped := mkGrouped {
  gr_groups : groups;
  gr_order : list value;
  gr_index : list (string * nat)
}.

(** Client [i] is given its position and put into its group. *)
Definition group_step (g : string) (gr : grouped) (i : nat) : M (list json) grouped :=
  cs ← gets (λ cs, cs);
  c ← lift (need TypeError (cs !! i));
  c1 ← lift (set_prop c "index" (JNum (num_of_Z (Z.of_nat i))));
  _ ← modify (λ cs, <[i := c1]> cs);
  id ← lift (vprop (Some c1) "id");
  v ← lift (vprop (Some c1) g);
  if has_own "hasOwnProperty" (own (gr_groups gr)) then throw TypeError else
  let '(gs, new) := add_member (to_str v) i (gr_groups gr) in
  mret (mkGrouped gs (if (new : bool) then gr_order gr ++ [v] else gr_order gr)
          (assign (to_str id) i (gr_index gr))).

Definition group_clients (g : string) : M (list json) grouped :=
  cs ← gets (λ cs, cs);
  foldM (group_step g) (mkGrouped no_groups [] []) (seq 0 (length cs)).

(** [l.sort(cmp)] puts [undefined] last, without a call of [cmp]. *)
Definition is_undef (v : value) : bool := match v with VUndef => true | _ => false end.
Definition sort_values (cmp : value → value → Z) (l : list value) : list value :=
  pure_sort cmp (List.filter (λ v, negb (is_undef v)) l) ++ List.filter is_undef l.

(** The order of the groups: by text when the first name is a text. *)
Definition sort_groups (order : list value) : res (list value) :=
  match order with
  | [] => Ok []
  | (VUndef | VNull) :: _ => Throw TypeError
  | VStr _ :: _ => Ok (sort_values default_cmp order)
  | _ => Ok (sort_values numsort order)
  end.

(** The names of the client's workunits that are this one become a link. *)
Definition link_work (i : nat) (wuid name : value) (c : json) : res json :=
  data ← prop2 (Some c) "current_work" "data";
  l ← json_items data;
  Ok (foldl (λ c '(h, w),
        if loose_eq (to_value (Some w)) wuid
        then set_element c "current_work" "data" h (JStr (work_link i (to_str name))) else c)
        c (imap pair l)).

Abbreviation apps := (list (string * list value)).

(** [widget.currentApp] is this application or this pipeline. *)
Definition is_current (app : option string) (name pipe : value) : bool :=
  match app with
  | Some a => negb (a =? "")%string && (loose_eq (VStr a) name || loose_eq (VStr a) pipe)
  | None => false
  end.

(** The client of a workunit: a link is undone, no client is [null]. *)
Definition plain_client (client : value) : res value :=
  if truthy client
  then match client with VStr s => Ok (VStr (client_name s)) | _ => Throw TypeError end
  else Ok VNull.

(** Workunit [i]: its application, its pipeline and, if the client is found at a
    position other than 0, the links and the mark of the client.  The state are
    the clients and the workunits. *)
Definition work_step (app : option string) (index : list (string * nat)) (a : apps * apps) (i : nat)
    : M (list json * list json) (apps * apps) :=
  st ← gets (λ st, st);
  w ← lift (need TypeError (st.2 !! i));
  name ← lift (vprop2 (Some w) "cmd" "name");
  _ ← when (has_own "hasOwnProperty" a.1) (throw TypeError);
  pipe ← lift (vprop2 (Some w) "info" "pipeline");
  _ ← when (has_own "hasOwnProperty" a.2) (throw TypeError);
  client ← lift (vprop (Some w) "client");
  client ← lift (plain_client client);
  w1 ← lift (set_prop w "client" (match client with VStr s => JStr s | _ => JNull end));
  _ ← modify (λ st, (st.1, <[i := w1]> st.2));
  _ ← match client with
      | VStr s =>
          match get s index with
          | Some (S n) =>
              match st.1 !! S n with
              | Some c =>
                  wuid ← lift (vprop (Some w1) "wuid");
                  c1 ← lift (link_work i wuid name c);
                  c2 ← lift (set_prop c1 "highlight" (JBool (is_current app name pipe)));
                  w2 ← lift (set_prop w1 "client" (JStr (client_link (S n) s)));
                  modify (λ st, (<[S n := c2]> st.1, <[i := w2]> st.2))
              | None => skip
              end
          | _ => skip   (* no position, or 0, which is no truth *)
          end
      | _ => skip
      end;
  mret (push_to (to_str name) client a.1, push_to (to_str pipe) client a.2).

Definition show_work (app : option string) (index : list (string * nat))
    : M (list json * list json) (apps * apps) :=
  st ← gets (λ st, st);
  foldM (work_step app index) ([], []) (seq 0 (length st.2)).

(** The elements of [wdata]; a text has characters, which have no [cmd]. *)
Definition work_items (o : option json) : res (list json) :=
  match o with
  | None | Some JNull => Throw TypeError
  | Some (JArr l) => Ok l
  | Some (JStr s) => if (s =? "")%string then Ok [] else Throw TypeError
  | Some _ => Ok []
  end.

Definition array_of (o : option json) : list json := match o with Some (JArr l) => l | _ => [] end.

Definition lookup_client (p : panel) (i : nat) : option json := array_of (clientData p) !! i.

(** The kind of a client's box. *)
Definition status (c : json) : res (option string) :=
  online ← vprop (Some c) "online";
  suspended ← vprop (Some c) "suspended";
  busy ← vprop (Some c) "busy";
  Ok (if truthy online && negb (truthy suspended) && negb (truthy busy) then Some "info"
      else if truthy busy then Some "success"
      else if truthy suspended then Some "danger"
      else if negb (truthy online) then Some "warning"
      else None).

Definition aweNode (st : string) (c : json) : res string :=
  hl ← vprop (Some c) "highlight";
  index ← vprop (Some c) "index";
  data ← prop2 (Some c) "current_work" "data";
  Ok ("<div class='box alert alert-" +++ st +++ "' "
      +++ (if truthy hl then " style='box-shadow: 0 0 1em blue;'" else "")
      +++ "onclick='Retina.WidgetInstances.awe_panel[1].aweNodeDetail(" +++ to_str index +++ ");'>"
      +++ show (Z.of_nat (length (retina_keys data))) +++ "</div>").

(** The box of a client, with its kind. *)
Definition client_box (c : json) : res (string * string) :=
  st ← status c;
  match st with
  | Some st => html ← aweNode st c; Ok (st, html)
  | None => Ok ("", "")
  end.

(** The boxes of all groups: the heading of a group, then its clients. *)
Definition group_boxes (cs : list json) (gs : groups) (v : value) : res (list (nat * (string * string))) :=
  mapR (λ i, c ← need TypeError (cs !! i); b ← client_box c; Ok (i, b)) (members (to_str v) gs).

Definition count (st : string) (boxes : list (nat * (string * string))) : nat :=
  length (List.filter (λ b, (b.2.1 =? st)%string) boxes).

Definition heading (g : string) (v : value) : string :=
  "<h5 style='clear: both;'>" +++ g +++ ": " +++ to_str v +++ "</h5>".

Definition boxes_html (g : string) (order : list value) (boxes : list (list (nat * (string * string))))
    : string :=
  "<div style='width: 600px; margin-top: 10px;'>" +++
  String.concat "" (zip_with (λ v bs, heading g v +++ String.concat "" ((λ b, b.2.2) <$> bs)) order boxes)
  +++ "</div><div style='clear: both;'></div>".

Definition counts_html (total : nat) (boxes : list (nat * (string * string))) : string :=
  let cell color text n := "<td style='color: " +++ color +++ "; width: 120px;' title='" +++ text
    +++ "'>" +++ show (Z.of_nat n) +++ "</td>" in
  "<div style='float: left;'><table style='font-size: 30px; font-weight: bold; text-align: center;'><tr>"
  +++ cell "black" "total number of clients" total
  +++ cell "blue" "number of idle clients" (count "info" boxes)
  +++ cell "green" "number of busy clients" (count "success" boxes)
  +++ cell "orange" "number of offline clients" (count "warning" boxes)
  +++ cell "red" "number of error clients" (count "danger" boxes) +++ "</tr></table>".

(** A table row per application or pipeline, with the number of its workunits. *)
Definition apps_html (app : option string) (a : apps) : string :=
  let names := to_str <$> pure_sort default_cmp (VStr <$> name_keys (keys a)) in
  String.concat "" ((λ n,
    "<tr" +++ (match app with
               | Some c => if negb (c =? "")%string && (c =? n)%string then " class='info'" else ""
               | None => ""
               end)
    +++ q "><td onclick='Retina.WidgetInstances.awe_panel[1].currentApp=`" +++ n
    +++ q "`;Retina.WidgetInstances.awe_panel[1].showAWEDetails();' style='cursor: pointer;'>" +++ n
    +++ "</td><td style='padding-left: 10px;'>"
    +++ show (Z.of_nat (length (default [] (get n a)))) +++ "</td></tr>") <$> names).

Definition apps_head (text : string) : string :=
  "<tr><th colspan='2' onclick='Retina.WidgetInstances.awe_panel[1].currentApp=null;Retina.WidgetInstances.awe_panel[1].showAWEDetails();' style='cursor: pointer;'>"
  +++ text +++ "</th></tr>".

(** ** Actions *)

(** The operations on the arrays of the two responses. *)
Definition on_clients {A} (m : M (list json) A) : M panel A := λ p,
  match clientData p with
  | Some (JArr cs) => let '(cs', r) := m cs in (p <| clientData := Some (JArr cs') |>, r)
  | _ => (p, Throw TypeError)
  end.

Definition on_both {A} (m : M (list json * list json) A) (d : A) : M panel A := λ p,
  match work_items (workData p), clientData p, workData p with
  | Throw e, _, _ => (p, Throw e)
  | Ok _, Some (JArr cs), Some (JArr ws) =>
      let '(st, r) := m (cs, ws) in
      (p <| clientData := Some (JArr st.1) |> <| workData := Some (JArr st.2) |>, r)
  | Ok _, _, _ => (p, Ok d)
  end.

Definition showAWEDetails : act :=
  p ← gets (λ p, p);
  let g := group_by p in
  gr ← on_clients (_ ← modify (pure_sort id_sort); group_clients g);
  order ← lift (sort_groups (gr_order gr));
  _ ← modify (λ p, p <| clientIndex := gr_index gr |>);
  a ← on_both (show_work (currentApp p) (gr_index gr)) ([], []);
  p ← gets (λ p, p);
  let cs := array_of (clientData p) in
  boxes ← lift (mapR (group_boxes cs (gr_groups gr)) order);
  _ ← lift (need TypeError (details p));
  modify (λ p, p <| details := Some (
    counts_html (length cs) (concat boxes) +++ boxes_html g order boxes +++ "</div>"
    +++ "<div style='float: left; height: 800px;'><table class='table table-condensed table-bordered'>"
    +++ apps_head "Running Applications" +++ apps_html (currentApp p) a.1
    +++ apps_head "Running Pipelines" +++ apps_html (currentApp p) a.2 +++ "</table></div>") |>).

(** A choice in the select box of groupings. *)
Definition on_grouping (g : string) : act :=
  _ ← modify (λ p, p <| grouping := Some g |>);
  showAWEDetails.

(** A click on an application, a pipeline or a heading. *)
Definition on_app (app : option string) : act :=
  _ ← modify (λ p, p <| currentApp := app |>);
  showAWEDetails.

(** [o[i]] *)
Definition json_at (o : option json) (i : nat) : res (option json) :=
  match o with
  | None | Some JNull => Throw TypeError
  | Some (JArr l) => Ok (l !! i)
  | Some (JObj ps) => Ok (get (show (Z.of_nat i)) ps)
  | Some (JStr s) => Ok ((λ c, JStr (String c "")) <$> String.get i s)
  | Some _ => Ok None
  end.

(** The text of [JSON.stringify(node, true, 2)]; it gives [undefined] for it. *)
Definition node_text (node : option json) : string :=
  match node with Some j => stringify 2 j | None => "undefined" end.

Definition show_node (div : string) (data : panel → option json) (i : nat) : act :=
  p ← gets (λ p, p);
  node ← lift (json_at (data p) i);
  _ ← lift (need TypeError (detail p));
  modify (λ p, p <| detail := Some (div +++ node_text node +++ "</div>") |>).

Definition aweNodeDetail : nat → act := show_node (q "<div class=`json`>") clientData.

Definition aweWorkunitDetail : nat → act :=
  show_node (q "<div class=`json` style=`width: 600px;`>") workData.

(** The condition that is to switch off the refresh compares the result of
    [hasOwnProperty], a boolean, with 0. *)
Definition refresh_off : bool :=
  match alertPanelRefresh with
  | Some _ => loose_eq (VBool true) (VNum (num_of_Z 0))
  | None => false
  end.

Definition refresh_delay : value :=
  vor (default VUndef alertPanelRefresh) (VNum (num_of_Z 60000)).

Definition request (a : ask) : act := modify (λ p, p <| asked := asked p ++ [a] |>).

Definition getAWEDetails : act :=
  _ ← when (negb refresh_off) (modify (λ p, p <| timers := timers p ++ [refresh_delay] |>));
  request AskClients.

Definition frame_html : string :=
  "<div style='position: absolute; left: 540px; top: 90px;' id='control'><select style='margin-bottom: 0px; width: 100px; padding: 0px; height: 25px;' onchange='Retina.WidgetInstances.awe_panel[1].grouping=this.options[this.selectedIndex].value;Retina.WidgetInstances.awe_panel[1].showAWEDetails();'><option>cores</option><option>group</option><option>domain</option><option>instance_type</option></select></div><div id='awe_details' style='margin-left: 50px; margin-top: 50px;'></div><div style='float: left; padding: 20px;' id='detail'></div>".

Definition display : act :=
  _ ← request AskTitle;
  p ← gets (λ p, p);
  if negb authentication || loggedIn p then
    _ ← modify (λ p, p <| page := frame_html |> <| details := Some "" |> <| detail := Some "" |>);
    getAWEDetails
  else modify (λ p, p <| page := "<p>authorization required</p>" |> <| details := None |>
                      <| detail := None |>).

Definition resumeAllJobs : act := request (AskResume "jobs").
Definition resumeAllClients : act := request (AskResume "clients").

Definition response_title (data : option json) : res (option string) :=
  match data with
  | Some (JObj ps) => Ok (json_str <$> get "title" ps)
  | None | Some JNull => Throw TypeError
  | _ => Ok None
  end.

(** Request [k] is answered; the callback of a resume calls a function that the
    widget does not have. *)
Definition on_answer (k : nat) (data : option json) : act :=
  p ← gets (λ p, p);
  a ← lift (need TypeError (asked p !! k));
  _ ← modify (λ p, p <| asked := delete k (asked p) |>);
  match a with
  | AskTitle =>
      t ← lift (response_title data);
      match t with Some t => modify (λ p, p <| title := t |>) | None => skip end
  | AskClients =>
      d ← lift (prop data "data");
      _ ← modify (λ p, p <| clientData := d |>);
      request AskWork
  | AskWork =>
      d ← lift (prop data "data");
      _ ← modify (λ p, p <| workData := d |>);
      showAWEDetails
  | AskResume _ => throw TypeError
  end.

(** Request [k] fails: only the resumes report it. *)
Definition on_failure (k : nat) : act :=
  p ← gets (λ p, p);
  a ← lift (need TypeError (asked p !! k));
  _ ← modify (λ p, p <| asked := delete k (asked p) |>);
  match a with
  | AskResume what => modify (λ p, p <| alerts := alerts p ++ ["failed to resume all " +++ what] |>)
  | _ => skip
  end.

Definition on_timer (k : nat) : act :=
  _ ← modify (λ p, p <| timers := delete k (timers p) |>);
  getAWEDetails.

End panel.
