(* ===== verification/PanelView.v ===== *)
(** * Client panel: what it shows

    Every client has one box and is counted once, its box opens it, and the
    names of the clients survive being replaced by links; the first client is
    never marked. *)

From Stdlib Require Import SpecFloat.
From S2P Require Import Prelude JsString JsNumber JsDecimal JsValue JsJson JsState Panel.

(** ** Names and links *)

Lemma take_until_app c s t : has_char c s = false → take_until c (s +++ String c t) = Some (s, t).
Proof.
  induction s as [|a s IH]; simpl; intros H.
  - by rewrite Ascii.eqb_refl.
  - destruct (Ascii.eqb a c) eqn:E; simpl in H.
    + apply Ascii.eqb_eq in E as ->. by rewrite Ascii.eqb_refl in H.
    + destruct (Ascii.eqb c a) eqn:E'; [by apply Ascii.eqb_eq in E' as ->; rewrite Ascii.eqb_refl in E|].
      by rewrite IH.
Qed.

(** C22: the name of a client. The pattern with which the panel reads the client of a
    workunit gives back the name from the link that the panel itself put around
    it, and leaves a plain name as it is, so a second [showAWEDetails] on the same
    data finds the same clients. *)
Theorem client_link_round_trip i s :
  s ≠ "" → has_char "<" s = false → client_name (client_link i s) = s ∧ client_name s = s.
Proof.
  intros Hs Hlt. split.
  - set (tag := "span class='href' onclick='Retina.WidgetInstances.awe_panel[1].aweNodeDetail("
                +++ show (Z.of_nat i) +++ ");'").
    assert (has_char ">" tag = false) as Htag.
    { unfold tag. rewrite !has_char_app, show_no_char; done. }
    assert (client_link i s = String "<" (tag +++ String ">" (s +++ String "<" "/span>"))) as ->.
    { unfold client_link, tag. by rewrite !sapp_assoc. }
    cbn [client_name]. rewrite Ascii.eqb_refl, take_until_app by done.
    rewrite take_until_app by done. destruct (String.eqb_spec s ""); [done|]. done.
  - destruct s as [|c s]; [done|]. cbn [client_name]. destruct (Ascii.eqb_spec c "<"); [|done].
    subst c. done.
Qed.

(** ** The clients as objects *)

Definition is_obj (c : json) : Prop := ∃ o, c = JObj o.

(** The client with its position written into it. *)
Definition indexed (i : nat) (c : json) : json :=
  match c with JObj o => JObj (set "index" (JNum (num_of_Z (Z.of_nat i))) o) | _ => c end.

Lemma indexed_obj i c : is_obj c → is_obj (indexed i c).
Proof. intros [o ->]. by eexists. Qed.

Lemma set_prop_obj c k v :
  is_obj c → ∃ c', set_prop c k v = Ok c' ∧ is_obj c' ∧ prop (Some c') k = Ok (Some v) ∧
    ∀ k', k' ≠ k → prop (Some c') k' = prop (Some c) k'.
Proof.
  intros [o ->]. eexists. split; [done|]. split; [by eexists|]. simpl. split.
  - by rewrite get_set_eq.
  - intros k' Hk. by rewrite get_set_ne.
Qed.

Lemma set_index_obj i c :
  is_obj c → set_prop c "index" (JNum (num_of_Z (Z.of_nat i))) = Ok (indexed i c).
Proof. by intros [o ->]. Qed.

Lemma indexed_prop i c k : is_obj c → k ≠ "index" → prop (Some (indexed i c)) k = prop (Some c) k.
Proof. intros [o ->] Hk. simpl. by rewrite get_set_ne. Qed.

(** ** Groups *)

Lemma members_add k i o k' :
  k ≠ "__proto__" →
  members k' (add_member k i o).1 = if (k' =? k)%string then members k o ++ [i] else members k' o.
Proof.
  intros Hk. unfold add_member, members. rewrite (proj2 (String.eqb_neq k _)) by done.
  destruct (String.eqb_spec k' k) as [->|Hne].
  - rewrite (proj2 (String.eqb_neq k _)) by done.
    destruct (get k (own o)) as [l|]; simpl; by rewrite get_set_eq.
  - destruct (k' =? "__proto__")%string; [by destruct (get k (own o))|].
    destruct (get k (own o)) as [l|]; simpl; by rewrite get_set_ne.
Qed.

Lemma keys_add k i o :
  k ≠ "__proto__" →
  keys (own (add_member k i o).1) = keys (own o) ++ (if (add_member k i o).2 then [k] else []) ∧
  ((add_member k i o).2 = true ↔ k ∉ keys (own o)).
Proof.
  intros Hk. unfold add_member. rewrite (proj2 (String.eqb_neq k _)) by done.
  pose proof (get_keys k (own o)) as Hg. unfold has_own in Hg.
  destruct (get k (own o)) as [l|] eqn:E; simpl; rewrite keys_set; unfold has_own; rewrite E.
  - rewrite app_nil_r. naive_solver.
  - naive_solver.
Qed.

Lemma concat_insert (f : string → list nat) ks k i :
  NoDup ks → k ∈ ks →
  concat ((λ k', if (k' =? k)%string then f k ++ [i] else f k') <$> ks) ≡ₚ concat (f <$> ks) ++ [i].
Proof.
  induction ks as [|k1 ks IH]; intros Hnd Hin; [set_solver|].
  apply NoDup_cons in Hnd as [Hk1 Hnd]. rewrite !fmap_cons. simpl.
  destruct (String.eqb_spec k1 k) as [->|Hne].
  - assert ((λ k', if (k' =? k)%string then f k ++ [i] else f k') <$> ks = f <$> ks) as ->.
    { apply list_fmap_ext. intros j x Hx. destruct (String.eqb_spec x k) as [->|]; [|done].
      exfalso. by apply Hk1, list_elem_of_lookup_2 with j. }
    rewrite <-!app_assoc. apply Permutation_app_head. by rewrite Permutation_app_comm.
  - rewrite IH by set_solver. by rewrite app_assoc.
Qed.

Lemma concat_other (f : string → list nat) ks k i :
  k ∉ ks → concat ((λ k', if (k' =? k)%string then f k ++ [i] else f k') <$> ks) = concat (f <$> ks).
Proof.
  intros Hk. f_equal. apply list_fmap_ext. intros j x Hx.
  destruct (String.eqb_spec x k) as [->|]; [|done].
  exfalso. by apply Hk, list_elem_of_lookup_2 with j.
Qed.

(** What grouping maintains: the names are those of the groups, each once, and
    the groups hold the positions seen so far, each once. *)
Record groups_ok (seen : list nat) (gr : grouped) : Prop := {
  go_names : keys (own (gr_groups gr)) = to_str <$> gr_order gr;
  go_nodup : NoDup (to_str <$> gr_order gr);
  go_members : concat ((λ v, members (to_str v) (gr_groups gr)) <$> gr_order gr) ≡ₚ seen
}.

Lemma groups_ok_add seen gs order index v i index' :
  groups_ok seen (mkGrouped gs order index) → to_str v ≠ "__proto__" →
  groups_ok (seen ++ [i]) (mkGrouped (add_member (to_str v) i gs).1
    (if (add_member (to_str v) i gs).2 then order ++ [v] else order) index').
Proof.
  intros [Hn Hd Hm] Hv. simpl in *. destruct (keys_add (to_str v) i gs Hv) as [Hk Hnew].
  assert (∀ l : list value, (λ w, members (to_str w) (add_member (to_str v) i gs).1) <$> l =
    (λ k', if (k' =? to_str v)%string then members (to_str v) gs ++ [i] else members k' gs)
      <$> (to_str <$> l)) as Hmem.
  { intros l. rewrite <-list_fmap_compose. apply list_fmap_ext. intros ? w _. simpl.
    by apply members_add. }
  assert (∀ l : list value, (λ w, members (to_str w) gs) <$> l = (λ k', members k' gs) <$> (to_str <$> l))
    as Hmem' by (intros l; by rewrite <-list_fmap_compose).
  destruct (add_member (to_str v) i gs).2 eqn:E; split; simpl.
  - rewrite Hk, Hn, fmap_app. done.
  - rewrite fmap_app. apply NoDup_app. split; [done|]. rewrite Hn in Hnew.
    split; [|apply NoDup_singleton]. simpl. set_solver.
  - rewrite Hn in Hnew. rewrite Hmem, fmap_app, fmap_app, concat_app.
    rewrite (concat_other (λ k, members k gs)) by naive_solver. simpl. rewrite String.eqb_refl, app_nil_r, <-Hmem'.
    rewrite Hm. apply Permutation_app_head.
    assert (members (to_str v) gs = []) as ->; [|done].
    unfold members. rewrite (proj2 (String.eqb_neq _ _)) by done.
    destruct (get (to_str v) (own gs)) eqn:Eg; [|done]. exfalso.
    assert (has_own (to_str v) (own gs) = true) as Ho by (unfold has_own; by rewrite Eg).
    apply get_keys in Ho. rewrite Hn in Ho. naive_solver.
  - by rewrite Hk, Hn, app_nil_r.
  - done.
  - rewrite Hmem, (concat_insert (λ k, members k gs)); [by rewrite <-Hmem', Hm|done|].
    rewrite <-Hn. destruct (decide (to_str v ∈ keys (own gs))); [done|].
    by apply Hnew in n.
Qed.

(** ** The loop over the clients *)

(** The clients after the first [k] have been given their positions. *)
Definition indexed_up_to (k : nat) (cs cs' : list json) : Prop :=
  length cs' = length cs ∧
  ∀ i, cs' !! i = if (i <? k)%nat then indexed i <$> cs !! i else cs !! i.

Lemma indexed_all_obj k cs cs' : Forall is_obj cs → indexed_up_to k cs cs' → Forall is_obj cs'.
Proof.
  intros Hobj [_ Hidx]. apply Forall_lookup_2. intros i c Hi. rewrite Hidx in Hi.
  destruct (i <? k)%nat.
  - apply fmap_Some in Hi as (c0 & Hc0 & ->). by eapply indexed_obj, Forall_lookup_1.
  - by eapply Forall_lookup_1.
Qed.

Definition no_proto_group (g : string) (cs : list json) : Prop :=
  g ≠ "index" ∧ ∀ c v, c ∈ cs → vprop (Some c) g = Ok v → to_str v ≠ "__proto__".

Lemma group_step_ok g cs k gr cs1 gr' cs2 :
  Forall is_obj cs → no_proto_group g cs → indexed_up_to k cs cs1 → groups_ok (seq 0 k) gr →
  group_step g gr k cs1 = (cs2, Ok gr') →
  indexed_up_to (S k) cs cs2 ∧ groups_ok (seq 0 (S k)) gr'.
Proof.
  intros Hobj [Hg Hp] [Hlen Hcs] Hgr Hs. unfold group_step in Hs.
  apply bind_inv in Hs as (? & ? & [= <- <-] & Hs).
  apply bind_inv in Hs as (? & c & [-> Hc%need_ok]%lift_inv & Hs).
  rewrite Hcs, Nat.ltb_irrefl in Hc.
  assert (is_obj c) as Ho by (eapply Forall_lookup_1; eauto).
  apply bind_inv in Hs as (? & c1 & [-> Hc1]%lift_inv & Hs).
  rewrite set_index_obj in Hc1 by done. injection Hc1 as <-.
  apply bind_inv in Hs as (? & [] & [= <-] & Hs).
  apply bind_inv in Hs as (? & id & [-> Hid]%lift_inv & Hs).
  apply bind_inv in Hs as (? & v & [-> Hv]%lift_inv & Hs).
  destruct (has_own _ _); [done|].
  destruct (add_member (to_str v) k (gr_groups gr)) as [gs new] eqn:Ea. injection Hs as <- <-.
  split.
  - split; [by rewrite length_insert|]. intros i.
    destruct (decide (i = k)) as [->|Hne].
    + rewrite list_lookup_insert_eq by (rewrite Hlen; by eapply lookup_lt_Some).
      rewrite Hc. by destruct (Nat.ltb_spec k (S k)); [|lia].
    + rewrite list_lookup_insert_ne by done. rewrite Hcs.
      by destruct (Nat.ltb_spec i k), (Nat.ltb_spec i (S k)); try lia.
  - rewrite seq_S. simpl. destruct gr as [gs0 order index]. simpl in *.
    replace gs with (add_member (to_str v) k gs0).1 by by rewrite Ea.
    replace new with (add_member (to_str v) k gs0).2 by by rewrite Ea.
    apply groups_ok_add with index; [done|]. eapply Hp; [by eapply list_elem_of_lookup_2|].
    unfold vprop in *. by rewrite indexed_prop in Hv.
Qed.

Lemma group_clients_ok g cs cs' gr :
  Forall is_obj cs → no_proto_group g cs → group_clients g cs = (cs', Ok gr) →
  indexed_up_to (length cs) cs cs' ∧ groups_ok (seq 0 (length cs)) gr.
Proof.
  intros Hobj Hp Hs. unfold group_clients in Hs. apply bind_inv in Hs as (? & ? & [= <- <-] & Hs).
  apply (foldM_ok _ _ (λ d gr cs1, d = seq 0 (length d) ∧ indexed_up_to (length d) cs cs1 ∧
    groups_ok (seq 0 (length d)) gr)) in Hs.
  - rewrite length_seq in Hs. naive_solver.
  - split_and!; [done| |].
    + split; [done|]. intros i. by destruct i.
    + split; simpl; [done|constructor|done].
  - intros done x rest b1 s1 b2 s2 E (Hd & Hi & Hgr) Hst.
    assert (x = length done) as ->.
    { assert (seq 0 (length cs) !! length done = Some x) as Hx
        by (rewrite E; by rewrite lookup_app_r, Nat.sub_diag by lia).
      apply lookup_seq in Hx. lia. }
    rewrite length_app, Nat.add_1_r. destruct (group_step_ok g cs (length done) b1 s1 b2 s2) as [H1 H2]; try done.
    split; [|done]. rewrite seq_S. simpl. by rewrite <-Hd.
Qed.

(** ** The loop over the workunits *)

(** What it keeps of a client. *)
Definition same_client (c c' : json) : Prop :=
  is_obj c' ∧ prop (Some c') "index" = prop (Some c) "index".

Definition same_clients (cs cs' : list json) : Prop :=
  Forall2 same_client cs cs' ∧ cs' !! 0%nat = cs !! 0%nat.

Lemma same_clients_refl cs : Forall is_obj cs → same_clients cs cs.
Proof.
  intros H. split; [|done]. apply Forall_Forall2_diag. eapply Forall_impl; [exact H|]. by intros c Hc.
Qed.

Lemma set_element_same c h v : is_obj c → same_client c (set_element c "current_work" "data" h v).
Proof.
  intros [o ->]. unfold set_element. destruct (get "current_work" o) as [[]|]; try by split; [eexists|].
  destruct (get "data" _) as [[]|]; try by split; [eexists|].
  split; [by eexists|]. simpl. by rewrite get_set_ne.
Qed.

Lemma link_work_same i wuid name c c' :
  is_obj c → link_work i wuid name c = Ok c' → same_client c c'.
Proof.
  intros Hc. unfold link_work. intros (data & _ & H)%bind_ok.
  apply bind_ok in H as (l & _ & [= <-]). generalize (imap pair l). clear data l. intros l.
  assert (same_client c c) as Hs by done. revert Hs. generalize c at 2 4. intros c'.
  revert c'. induction l as [|[h w] l IH]; intros c' Hs; simpl; [done|]. apply IH.
  destruct (loose_eq _ _); [|done]. destruct Hs as [Ho Hi].
  destruct (set_element_same c' h (JStr (work_link i (to_str name))) Ho) as [Ho' Hi'].
  split; [done|congruence].
Qed.

Lemma work_step_same app index a i cs ws cs' ws' a' :
  Forall is_obj cs → work_step app index a i (cs, ws) = ((cs', ws'), Ok a') → same_clients cs cs'.
Proof.
  intros Hobj Hs. unfold work_step in Hs.
  apply bind_inv in Hs as (? & ? & [= <- <-] & Hs).
  apply bind_inv in Hs as (? & w & [-> Hw]%lift_inv & Hs).
  apply bind_inv in Hs as (? & name & [-> _]%lift_inv & Hs).
  apply bind_inv in Hs as (? & [] & H1 & Hs). destruct (has_own _ _); [done|]. injection H1 as <-.
  apply bind_inv in Hs as (? & pipe & [-> _]%lift_inv & Hs).
  apply bind_inv in Hs as (? & [] & H1 & Hs). destruct (has_own _ _); [done|]. injection H1 as <-.
  apply bind_inv in Hs as (? & client0 & [-> _]%lift_inv & Hs).
  apply bind_inv in Hs as (? & client & [-> _]%lift_inv & Hs).
  apply bind_inv in Hs as (? & w1 & [-> _]%lift_inv & Hs).
  apply bind_inv in Hs as (? & [] & [= <-] & Hs).
  apply bind_inv in Hs as ([cs1 ws1] & [] & Hm & [= -> _ _]).
  cbn [fst snd] in Hm. destruct client as [| | | |s|]; try (injection Hm as <- _; by apply same_clients_refl).
  destruct (get s index) as [[|n]|]; try (injection Hm as <- _; by apply same_clients_refl).
  destruct (cs !! S n) as [c|] eqn:Hc; [|injection Hm as <- _; by apply same_clients_refl].
  assert (is_obj c) as Ho by (eapply Forall_lookup_1; eauto).
  apply bind_inv in Hm as (? & wuid & [-> _]%lift_inv & Hm).
  apply bind_inv in Hm as (? & c1 & [-> Hc1]%lift_inv & Hm).
  apply bind_inv in Hm as (? & c2 & [-> Hc2]%lift_inv & Hm).
  apply bind_inv in Hm as (? & w2 & [-> _]%lift_inv & Hm). injection Hm as <- _.
  destruct (link_work_same _ _ _ _ _ Ho Hc1) as [Ho1 Hi1].
  destruct (set_prop_obj c1 "highlight" (JBool (is_current app name pipe)) Ho1)
    as (c2' & Hc2' & Ho2 & _ & Hi2).
  assert (c2' = c2) as -> by congruence.
  split; [|by rewrite list_lookup_insert_ne].
  rewrite <-(list_insert_id cs (S n) c) at 1 by done.
  apply Forall2_insert; [by apply same_clients_refl|]. split; [done|]. rewrite Hi2; congruence.
Qed.

Lemma same_clients_trans cs cs1 cs2 :
  same_clients cs cs1 → same_clients cs1 cs2 → same_clients cs cs2.
Proof.
  intros [H1 E1] [H2 E2]. split; [|congruence].
  clear E1 E2. revert cs2 H2. induction H1 as [|c c1 cs cs1 [Ho Hi] _ IH]; intros cs2 H2;
    [by inversion H2|].
  apply Forall2_cons_inv_l in H2 as (c2 & cs3 & [Ho' Hi'] & H2 & ->).
  constructor; [|by apply IH]. split; [done|congruence].
Qed.

Lemma show_work_same app index cs ws cs' ws' a :
  Forall is_obj cs → show_work app index (cs, ws) = ((cs', ws'), Ok a) → same_clients cs cs'.
Proof.
  intros Hobj Hs. unfold show_work in Hs. apply bind_inv in Hs as (? & ? & [= <- <-] & Hs).
  apply (foldM_ok _ _ (λ _ _ st, same_clients cs st.1)) in Hs; [done|by apply same_clients_refl|].
  intros done x rest b1 [cs1 ws1] b2 [cs2 ws2] _ H1 Hst. eapply same_clients_trans; [exact H1|].
  eapply work_step_same, Hst. destruct H1 as [H1 _].
  apply Forall_lookup_2. intros j c Hj. eapply Forall2_lookup_r in H1 as (? & _ & Hc & _); eauto.
Qed.

(** ** The boxes *)

Section boxes.
Context (retina_keys : option json → list string) (name_keys : list string → list string).
Context (id_sort : json → json → Z) (numsort : value → value → Z).

Abbreviation box := (nat * (string * string))%type.

Lemma status_cases c o :
  status c = Ok o → ∃ st, o = Some st ∧ st ∈ ["info"; "success"; "danger"; "warning"].
Proof.
  unfold status. intros (on & _ & H)%bind_ok. apply bind_ok in H as (su & _ & H).
  apply bind_ok in H as (bu & _ & [= <-]).
  destruct (truthy on), (truthy su), (truthy bu); simpl; eexists; (split; [done|]); set_solver.
Qed.

Lemma client_box_ok c st html :
  client_box retina_keys c = Ok (st, html) →
  status c = Ok (Some st) ∧ aweNode retina_keys st c = Ok html ∧
  st ∈ ["info"; "success"; "danger"; "warning"].
Proof.
  unfold client_box. intros (o & Ho & H)%bind_ok.
  destruct (status_cases c o Ho) as (st' & -> & Hst). apply bind_ok in H as (h & Hh & [= <- <-]).
  done.
Qed.

Lemma mapR_elem {A B} (f : A → res B) l l' y : mapR f l = Ok l' → y ∈ l' → ∃ x, x ∈ l ∧ f x = Ok y.
Proof.
  revert l'. induction l as [|x l IH]; intros l' H Hy; simpl in H.
  - injection H as <-. set_solver.
  - apply bind_ok in H as (y1 & H1 & H). apply bind_ok in H as (l1 & H2 & [= <-]).
    apply elem_of_cons in Hy as [->|Hy]; [set_solver|].
    destruct (IH _ H2 Hy) as (x' & ? & ?). set_solver.
Qed.

Lemma group_boxes_ok cs gs v bs :
  group_boxes retina_keys cs gs v = Ok bs →
  bs.*1 = members (to_str v) gs ∧
  ∀ i b, (i, b) ∈ bs → ∃ c, cs !! i = Some c ∧ client_box retina_keys c = Ok b.
Proof.
  unfold group_boxes. intros H. split.
  - revert bs H. induction (members (to_str v) gs) as [|i l IH]; intros bs H; simpl in H.
    + by injection H as <-.
    + apply bind_ok in H as ([i' b] & H1 & H). apply bind_ok in H as (bs' & H2 & [= <-]).
      apply bind_ok in H1 as (c & _ & H1). apply bind_ok in H1 as (b' & _ & [= <- <-]).
      rewrite fmap_cons. f_equal. by apply IH.
  - intros i b Hin. destruct (mapR_elem _ _ _ _ H Hin) as (j & _ & Hj).
    apply bind_ok in Hj as (c & Hc%need_ok & Hj). apply bind_ok in Hj as (b' & Hb & [= <- <-]). eauto.
Qed.

Lemma boxes_members cs gs order boxes :
  mapR (group_boxes retina_keys cs gs) order = Ok boxes →
  (concat boxes).*1 = concat ((λ v, members (to_str v) gs) <$> order).
Proof.
  revert boxes. induction order as [|v order IH]; intros boxes H; simpl in H.
  - by injection H as <-.
  - apply bind_ok in H as (bs & H1 & H). apply bind_ok in H as (boxes' & H2 & [= <-]).
    simpl. rewrite fmap_app, (IH _ H2). f_equal. by apply group_boxes_ok in H1 as [-> _].
Qed.

Lemma counts_add_up (l : list box) :
  Forall (λ b, b.2.1 ∈ ["info"; "success"; "danger"; "warning"]) l →
  (count "info" l + count "success" l + count "warning" l + count "danger" l = length l)%nat.
Proof.
  induction 1 as [|[i [st html]] l Hst _ IH]; [done|]. unfold count in *. simpl in *.
  rewrite !elem_of_cons, elem_of_nil in Hst. destruct Hst as [->|[->|[->|[->|[]]]]]; simpl; lia.
Qed.

Lemma sort_values_perm c l : sort_values c l ≡ₚ l.
Proof.
  unfold sort_values. rewrite pure_sort_perm. induction l as [|x l IH]; [done|]. cbn.
  destruct (is_undef x); cbn; [by rewrite <-Permutation_middle, IH|by rewrite IH].
Qed.

Lemma sort_groups_perm order order' : sort_groups numsort order = Ok order' → order' ≡ₚ order.
Proof.
  assert (∀ c, Ok (sort_values c order) = Ok order' → order' ≡ₚ order) as H
    by (intros c E; assert (sort_values c order = order') as <- by congruence; apply sort_values_perm).
  unfold sort_groups. destruct order as [|[] order]; try done; try apply H. by intros [= <-].
Qed.

Abbreviation show_panel := (showAWEDetails retina_keys name_keys id_sort numsort).

(** The parts of a call that returns. *)
Lemma show_parts p p' cs :
  clientData p = Some (JArr cs) → show_panel p = (p', Ok ()) →
  ∃ cs1 gr order cs' boxes rest,
    group_clients (group_by p) (pure_sort id_sort cs) = (cs1, Ok gr) ∧
    sort_groups numsort (gr_order gr) = Ok order ∧
    (Forall is_obj cs1 → same_clients cs1 cs') ∧ clientData p' = Some (JArr cs') ∧
    mapR (group_boxes retina_keys cs' (gr_groups gr)) order = Ok boxes ∧
    details p' = Some (counts_html (length cs') (concat boxes)
                       +++ boxes_html (group_by p) order boxes +++ rest).
Proof.
  intros Hp Hs. unfold showAWEDetails in Hs.
  apply bind_inv in Hs as (? & ? & [= <- <-] & Hs).
  apply bind_inv in Hs as (p1 & gr & Hg & Hs).
  unfold on_clients in Hg. rewrite Hp in Hg. unfold mbind, M_bind, modify in Hg.
  destruct (group_clients (group_by p) (pure_sort id_sort cs)) as [cs1 r1] eqn:Eg.
  injection Hg as <- ->.
  apply bind_inv in Hs as (? & order & [-> Ho]%lift_inv & Hs).
  apply bind_inv in Hs as (? & [] & [= <-] & Hs).
  apply bind_inv in Hs as (p2 & a & Hw & Hs).
  assert (∃ cs', clientData p2 = Some (JArr cs') ∧ (Forall is_obj cs1 → same_clients cs1 cs'))
    as (cs' & Hcs' & Hsame).
  { unfold on_both in Hw. upd_simpl_in Hw. destruct (work_items (workData p)) as [|e] eqn:Ew; [|done].
    destruct (workData p) as [[| | | |ws|]|] eqn:Ewd; try (injection Hw as <- _; eexists;
      split; [done|by apply same_clients_refl]).
    destruct (show_work _ _ (cs1, ws)) as [[cs' ws'] r] eqn:Es. injection Hw as <- ->.
    exists cs'. split; [done|]. intros Hobj. by eapply show_work_same. }
  apply bind_inv in Hs as (? & ? & [= <- <-] & Hs). rewrite Hcs' in Hs. cbn [array_of] in Hs.
  apply bind_inv in Hs as (? & boxes & [-> Hb]%lift_inv & Hs).
  apply bind_inv in Hs as (? & ? & [-> _]%lift_inv & Hs). injection Hs as <-.
  exists cs1, gr, order, cs', boxes. eexists. split_and!; try done.
Qed.

(** C11: the boxes of the panel. When [showAWEDetails] returns for a list of client
    objects, the panel has one box for each client, in some group; the box has
    the kind of the client's state and opens the client at its position in the
    sorted list; and the numbers of idle, busy, offline and error clients shown
    above add up to the number of clients. *)
Theorem panel_shows_every_client p p' cs :
  clientData p = Some (JArr cs) → Forall is_obj cs → no_proto_group (group_by p) cs →
  show_panel p = (p', Ok ()) →
  ∃ cs' order (boxes : list (list box)) rest,
    clientData p' = Some (JArr cs') ∧
    details p' = Some (counts_html (length cs) (concat boxes)
                       +++ boxes_html (group_by p) order boxes +++ rest) ∧
    (concat boxes).*1 ≡ₚ seq 0 (length cs) ∧
    (count "info" (concat boxes) + count "success" (concat boxes) + count "warning" (concat boxes)
     + count "danger" (concat boxes) = length cs)%nat ∧
    ∀ i st html, (i, (st, html)) ∈ concat boxes →
      ∃ c, cs' !! i = Some c ∧ status c = Ok (Some st) ∧ aweNode retina_keys st c = Ok html ∧
        prop (Some c) "index" = Ok (Some (JNum (num_of_Z (Z.of_nat i)))).
Proof.
  intros Hp Hobj [Hg Hpr] Hs.
  destruct (show_parts p p' cs Hp Hs) as (cs1 & gr & order & cs' & boxes & rest & Hgr & Ho & Hsame & Hcs' & Hb & Hd).
  assert (pure_sort id_sort cs ≡ₚ cs) as Hperm by apply pure_sort_perm.
  destruct (group_clients_ok (group_by p) (pure_sort id_sort cs) cs1 gr) as [Hup Hok]; [by rewrite Hperm| |done|].
  { split; [done|]. intros c v Hc. apply Hpr. by rewrite <-Hperm. }
  assert (length (pure_sort id_sort cs) = length cs) as Hl by by rewrite Hperm.
  rewrite Hl in Hup, Hok.
  assert (Forall is_obj (pure_sort id_sort cs)) as Hobjs by by rewrite Hperm.
  assert (Forall is_obj cs1) as Hobj1 by by eapply indexed_all_obj.
  destruct Hup as [Hlen Hidx]. specialize (Hsame Hobj1). assert (length cs' = length cs) as Hlen'.
  { destruct Hsame as [H2 _]. apply Forall2_length in H2. congruence. }
  rewrite Hlen' in Hd. pose proof (boxes_members _ _ _ _ Hb) as Hm.
  assert ((concat boxes).*1 ≡ₚ seq 0 (length cs)) as Hall.
  { rewrite Hm. rewrite <-(go_members _ _ Hok). by rewrite (sort_groups_perm _ _ Ho). }
  assert (∀ i b, (i, b) ∈ concat boxes → ∃ c, cs' !! i = Some c ∧ client_box retina_keys c = Ok b) as Hbox.
  { intros i b Hin. apply list_elem_of_In, in_concat in Hin as (bs & Hbs%list_elem_of_In & Hin%list_elem_of_In).
    destruct (mapR_elem _ _ _ _ Hb Hbs) as (v & _ & Hv).
    by apply group_boxes_ok in Hv as [_ Hv]; apply Hv. }
  exists cs', order, boxes, rest. split_and!; try done.
  - rewrite counts_add_up.
    + by rewrite <-(length_fmap fst), Hall, length_seq.
    + apply Forall_forall. intros [i [st html]] Hin. destruct (Hbox _ _ Hin) as (c & _ & Hc).
      by apply client_box_ok in Hc as (_ & _ & Hc).
  - intros i st html Hin. destruct (Hbox _ _ Hin) as (c & Hc & Hcb).
    apply client_box_ok in Hcb as (Hst & Hn & _). exists c. split_and!; try done.
    destruct Hsame as [H2 _]. eapply Forall2_lookup_r in H2 as (c1 & Hc1 & _ & Hi); [|done].
    rewrite Hi. rewrite Hidx in Hc1.
    assert (i < length cs)%nat as Hlt.
    { rewrite <-Hlen'. by eapply lookup_lt_Some. }
    rewrite (proj2 (Nat.ltb_lt _ _) Hlt) in Hc1. apply fmap_Some in Hc1 as (c0 & Hc0 & ->).
    assert (is_obj c0) as [o ->] by (eapply Forall_lookup_1; [exact Hobjs|exact Hc0]).
    simpl. by rewrite get_set_eq.
Qed.

(** The client at position 0 of the sorted list only gets its position: it is
    neither highlighted nor are its workunits linked, whatever works on it. *)
Theorem first_client_is_never_marked p p' cs c :
  clientData p = Some (JArr cs) → Forall is_obj cs → no_proto_group (group_by p) cs →
  pure_sort id_sort cs !! 0%nat = Some c → show_panel p = (p', Ok ()) →
  ∃ cs', clientData p' = Some (JArr cs') ∧ cs' !! 0%nat = Some (indexed 0 c).
Proof.
  intros Hp Hobj [Hg Hpr] Hc Hs.
  destruct (show_parts p p' cs Hp Hs) as (cs1 & gr & order & cs' & boxes & rest & Hgr & _ & Hsame & Hcs' & _).
  assert (pure_sort id_sort cs ≡ₚ cs) as Hperm by apply pure_sort_perm.
  assert (Forall is_obj (pure_sort id_sort cs)) as Hobjs by by rewrite Hperm.
  destruct (group_clients_ok (group_by p) (pure_sort id_sort cs) cs1 gr) as [Hup _]; [done| |done|].
  { split; [done|]. intros c' v Hc'. apply Hpr. by rewrite <-Hperm. }
  destruct Hsame as [_ H0]; [by eapply indexed_all_obj|]. exists cs'. split; [done|].
  rewrite H0. destruct Hup as [_ ->]. rewrite Hc.
  by destruct (pure_sort id_sort cs).
Qed.

End boxes.

(** ** Witnesses *)

Lemma client_link_round_trip_witness : client_name (client_link 12 "node-7") = "node-7".
Proof. by apply client_link_round_trip. Defined.

Definition ex_client (id : string) (cores : Z) (flags : list string) (work : list string) : json :=
  JObj ([("id", JStr id); ("cores", JNum (num_of_Z cores));
         ("current_work", JObj [("data", JArr (JStr <$> work))])] ++
        ((λ f, (f, JBool true)) <$> flags)).

Definition ex_clients : list json :=
  [ex_client "b" 8 ["online"; "busy"] ["w1"]; ex_client "c" 4 ["online"] [];
   ex_client "a" 8 ["online"; "busy"] ["w2"]; ex_client "d" 4 [] []].

Definition ex_work (wuid client : string) : json :=
  JObj [("wuid", JStr wuid); ("cmd", JObj [("name", JStr "blat")]);
        ("info", JObj [("pipeline", JStr "mgrast")]); ("client", JStr client)].

Definition ex_panel : panel :=
  (initial true) <| clientData := Some (JArr ex_clients) |> <| details := Some "" |>
                 <| workData := Some (JArr [ex_work "w1" "b"; ex_work "w2" "a"]) |>
                 <| currentApp := Some "blat" |>.

Definition id_text (c : json) : string := match c with JObj o => jtext (get "id" o) | _ => "" end.

(** [Retina.propSort('id')] and [Retina.Numsort] for the example. *)
Definition ex_id_sort (c c' : json) : Z := default_cmp (VStr (id_text c)) (VStr (id_text c')).
Definition ex_numsort (v w : value) : Z :=
  if num_lt (to_number v) (to_number w) then -1 else if num_lt (to_number w) (to_number v) then 1 else 0.
Definition ex_keys (o : option json) : list string :=
  match o with Some (JArr l) => imap (λ i _, show (Z.of_nat i)) l | _ => [] end.

Definition ex_shown : panel := (showAWEDetails ex_keys id ex_id_sort ex_numsort ex_panel).1.

Lemma ex_shown_ok : showAWEDetails ex_keys id ex_id_sort ex_numsort ex_panel = (ex_shown, Ok ()).
Proof.
  unfold ex_shown. assert (is_ok (showAWEDetails ex_keys id ex_id_sort ex_numsort ex_panel).2 = true)
    as E by vm_eq. by destruct (showAWEDetails _ _ _ _ _) as [p [[]|]].
Qed.

Lemma ex_clients_obj : Forall is_obj ex_clients.
Proof. repeat (constructor; [by eexists|]). constructor. Qed.

Lemma ex_no_proto : no_proto_group "cores" ex_clients.
Proof.
  split; [done|]. intros c v Hc Hv. unfold ex_clients in Hc. rewrite !elem_of_cons, elem_of_nil in Hc.
  destruct Hc as [->|[->|[->|[->|[]]]]]; injection Hv as <-; done.
Qed.

(** Two busy clients, one idle, one offline. *)
Lemma panel_shows_every_client_witness :
  ∃ boxes : list (list (nat * (string * string))), (concat boxes).*1 ≡ₚ seq 0 4 ∧
    (count "info" (concat boxes) + count "success" (concat boxes) + count "warning" (concat boxes)
     + count "danger" (concat boxes) = 4)%nat.
Proof.
  destruct (panel_shows_every_client ex_keys id ex_id_sort ex_numsort ex_panel ex_shown ex_clients)
    as (cs' & order & boxes & rest & _ & _ & H1 & H2 & _).
  - vm_eq.
  - exact ex_clients_obj.
  - exact ex_no_proto.
  - exact ex_shown_ok.
  - exists boxes. by split.
Defined.

(** The clients "a" and "b" both run the current application; only "b", at
    position 1, is marked. *)
Lemma first_client_is_never_marked_witness :
  ∃ cs', clientData ex_shown = Some (JArr cs') ∧
    cs' !! 0%nat = Some (indexed 0 (ex_client "a" 8 ["online"; "busy"] ["w2"])).
Proof.
  apply (first_client_is_never_marked ex_keys id ex_id_sort ex_numsort ex_panel ex_shown ex_clients).
  - vm_eq.
  - exact ex_clients_obj.
  - exact ex_no_proto.
  - vm_eq.
  - exact ex_shown_ok.
Defined.
