(* ===== verification/Cgroups.v ===== *)
(** * Client groups

    src/site_deprecated/widgets/widget.awe_clientgroups.js: the list of client
    groups, the details of one with its token and permissions, and the requests
    that create groups and tokens.  Logging in and out is the [loginAction] of
    src/site_deprecated/main.html: it sets or clears the header and displays the
    widget.  [Date.parse] is an argument. *)

From Stdlib Require Import SpecFloat.
From S2P Require Import Prelude JsString JsNumber JsValue JsJson JsonText JsState.

Inductive ask :=
| AskTitle
| AskList
| AskCreate (name : string)
| AskAcl (id : string)
| AskToken (id method : string).

(** A request, with or without the header that authorises it. *)
Record sent := mkSent { s_ask : ask; s_auth : bool }.

(** What the element of the permissions shows. *)
Inductive permissions :=
| Loading
| Unavailable
| Acl (data : option json).

(** The HTML of the element. *)
Definition perms_html (p : permissions) : string :=
  match p with
  | Loading => q "<img src=`Retina/images/loading.gif`>"
  | Unavailable => "- permission data not available -"
  | Acl data =>
      "<pre>" +++ match data with Some j => stringify 1 j | None => "undefined" end +++ "</pre>"
  end.

Record cgroups := mkCgroups {
  authorized : bool;                          (* widget.authHeader has Authorization *)
  clientgroups : option (list (string * json));  (* stm.DataStore.clientgroups *)
  now : num;                                  (* new Date().getTime() *)
  message : string;                           (* what is shown without a login *)
  content : option string;                    (* the element cgroup-content *)
  listed : list string;                       (* the ids that have a details button *)
  details : option string;                    (* the element clientgroupDetails *)
  opened : option string;                     (* the group whose buttons the details have *)
  perms : option permissions;                 (* the element clientgroupPermissions *)
  title : string;
  asked : list sent;
  alerts : list string
}.

#[export] Instance cgroups_eta : Eta cgroups := λ c,
  mkCgroups (authorized c) (clientgroups c) (now c) (message c) (content c) (listed c) (details c)
    (opened c) (perms c) (title c) (asked c) (alerts c).

Definition initial (t : num) : cgroups := {|
  authorized := false; clientgroups := None; now := t; message := ""; content := None; listed := [];
  details := None; opened := None; perms := None; title := ""; asked := []; alerts := [] |}.

Abbreviation act := (M cgroups ()).

Section cgroups.
Context (date_parse : value → num).

(** A request with the header as it is now. *)
Definition request (a : ask) : act :=
  modify (λ c, c <| asked := asked c ++ [mkSent a (authorized c)] |>).

Definition showClientgroups : act := request AskList.

Definition requestClientgroup (name : string) : act := request (AskCreate name).

(** The target is emptied, and with it every element of the widget. *)
Definition cleared (c : cgroups) : cgroups :=
  c <| message := "" |> <| content := None |> <| listed := [] |> <| details := None |>
    <| opened := None |> <| perms := None |>.

Definition display : act :=
  _ ← modify (λ c, c <| asked := asked c ++ [mkSent AskTitle false] |>);
  _ ← modify cleared;
  c ← gets (λ c, c);
  if authorized c then
    _ ← modify (λ c, c <| content := Some "" |>);
    showClientgroups
  else modify (λ c, c <| message := "<h3>Authentication required</h3><p>You need to be logged in to use the clientgroup management.</p>" |>).

(** A date that cannot be read is not in the past. *)
Definition expired (c : cgroups) (expiration : value) : bool :=
  num_le (date_parse expiration) (now c).

Definition status_html (c : cgroups) (expiration : value) : string :=
  if expired c expiration then "<span style='color: red;'>expired</span>"
  else "<span style='color: green;'>active</span>".

Definition group_row (c : cgroups) (g : json) : res string :=
  expiration ← vprop (Some g) "expiration";
  name ← vprop (Some g) "name";
  ip ← vprop (Some g) "ip_cidr";
  created ← vprop (Some g) "created_on";
  modified ← vprop (Some g) "last_modified";
  id ← vprop (Some g) "id";
  let td v := "<td>" +++ to_str v +++ "</td>" in
  Ok ("<tr>" +++ td name +++ td ip +++ td created +++ td modified +++ td expiration
      +++ q "<td style='text-align: center;'><button class='btn btn-mini' onclick='Retina.WidgetInstances.awe_clientgroups[1].clientgroupDetails(`"
      +++ to_str id +++ q "`);'><i class='icon-cog'></i></button></td><td>" +++ status_html c expiration
      +++ "</td></tr>").

Definition group_id (g : json) : string := match vprop (Some g) "id" with Ok v => to_str v | _ => "" end.

Definition request_html : string :=
  q "<h4>request new clientgroup</h3><div class=`input-append`>  <input type=`text` value=``><button class=`btn` onclick=`Retina.WidgetInstances.awe_clientgroups[1].requestClientgroup(this.previousSibling.value);`>request</button></div>".

Definition renderClientgroups (data : list json) : act :=
  c ← gets (λ c, c);
  rows ← lift (mapR (group_row c) data);
  let table :=
    match data with
    | [] => "<p>no clientgroups found</p>"
    | _ => "<table class='table'><tr><th>name</th><th>IP</th><th>created</th><th>modified</th><th>expires</th><th>details</th><th>status</th></tr>"
           +++ String.concat "" rows +++ "</table>"
    end in
  _ ← lift (need TypeError (content c));
  modify (λ c, c <| content := Some (request_html +++ "<h4>existing clientgroups</h3>" +++ table
                                     +++ "<div id='clientgroupDetails'></div>") |>
                 <| listed := group_id <$> data |> <| details := Some "" |> <| opened := None |>
                 <| perms := None |>).

Definition details_html (c : cgroups) (id : string) (g : json) : res string :=
  expiration ← vprop (Some g) "expiration";
  name ← vprop (Some g) "name";
  created ← vprop (Some g) "created_on";
  modified ← vprop (Some g) "last_modified";
  gid ← vprop (Some g) "id";
  token ← vprop (Some g) "token";
  let button style func label :=
    q "<button class=`btn btn-small`" +++ style
    +++ q " onclick=`Retina.WidgetInstances.awe_clientgroups[1].clientgroupUpdateToken('" +++ id
    +++ "', '" +++ func +++ q "');`>" +++ label +++ "</button>" in
  let line label v := "  <tr><td><b>" +++ label +++ "</b></td><td>" +++ v +++ "</td></tr>" in
  Ok ("<h4>clientgroup: " +++ to_str name +++ "</h4>"
      +++ button (q " style=`margin-right: 15px;`") "delete" "delete token"
      +++ button "" "new" "new token"
      +++ q "<table class=`table table-hover` style=`table-layout: fixed; word-wrap: break-word; margin-top: 15px;`>"
      +++ q "  <tr><td class=`span2`><b>status</b></td><td>" +++ status_html c expiration +++ "</td></tr>"
      +++ line "created" (to_str created) +++ line "modified" (to_str modified)
      +++ line "expires" (to_str expiration) +++ line "ID" (to_str gid)
      +++ line "token" (to_str token)
      +++ q "</table><h5>permissions</h5><div id=`clientgroupPermissions`>" +++ perms_html Loading +++ "</div>").

(** [stm.DataStore.clientgroups[id]] *)
Definition stored (c : cgroups) (id : string) : res json :=
  st ← need TypeError (clientgroups c);
  need TypeError (get id st).

Definition clientgroupDetails (id : string) : act :=
  c ← gets (λ c, c);
  g ← lift (stored c id);
  html ← lift (details_html c id g);
  gid ← lift (vprop (Some g) "id");
  _ ← request (AskAcl (to_str gid));
  _ ← lift (need TypeError (details c));
  modify (λ c, c <| details := Some html |> <| opened := Some id |> <| perms := Some Loading |>).

Definition clientgroupUpdateToken (id func : string) : act :=
  request (AskToken id (if (func =? "delete")%string then "DELETE" else "PUT")).

(** ** Answers *)

Definition alert (msg : string) : act := modify (λ c, c <| alerts := alerts c ++ [msg] |>).

(** The groups of a response are stored by their ids. *)
Definition store_groups (l : list json) : act :=
  forM l (λ g,
    id ← lift (vprop (Some g) "id");
    modify (λ c, c <| clientgroups := assign (to_str id) g <$> clientgroups c |>)).

Definition set_perms (p : permissions) : act :=
  c ← gets (λ c, c);
  _ ← lift (need TypeError (perms c));
  modify (λ c, c <| perms := Some p |>).

Definition response_title (data : option json) : res (option string) :=
  match data with
  | Some (JObj ps) => Ok (json_str <$> get "title" ps)
  | None | Some JNull => Throw TypeError
  | _ => Ok None
  end.

Definition take_request (k : nat) : M cgroups sent :=
  c ← gets (λ c, c);
  r ← lift (need TypeError (asked c !! k));
  _ ← modify (λ c, c <| asked := delete k (asked c) |>);
  mret r.

Definition on_success (k : nat) (data : option json) : act :=
  r ← take_request k;
  match s_ask r with
  | AskTitle =>
      t ← lift (response_title data);
      match t with Some t => modify (λ c, c <| title := t |>) | None => skip end
  | AskList =>
      _ ← modify (λ c, c <| clientgroups := Some [] |>);
      d ← lift (prop data "data");
      l ← lift (json_items d);
      _ ← store_groups l;
      renderClientgroups l
  | AskCreate _ | AskToken _ _ => showClientgroups
  | AskAcl _ => d ← lift (prop data "data"); set_perms (Acl d)
  end.

Definition on_error (k : nat) : act :=
  r ← take_request k;
  match s_ask r with
  | AskTitle => skip
  | AskList => renderClientgroups []
  | AskCreate _ => alert "clientgroup creation failed"
  | AskAcl _ => set_perms Unavailable
  | AskToken _ _ => alert "the requested function on the token could not be performed"
  end.

(** ** Events *)

Inductive event :=
| EvLogin (ok : bool)
| EvSuccess (k : nat) (data : option json)
| EvError (k : nat)
| EvTime (t : num)
| EvCreate (name : string)
| EvDetails (id : string)
| EvToken (func : string).

Definition handle (e : event) : act :=
  match e with
  | EvLogin ok => _ ← modify (λ c, c <| authorized := ok |>); display
  | EvSuccess k data => on_success k data
  | EvError k => on_error k
  | EvTime t => modify (λ c, c <| now := t |>)
  | EvCreate name => requestClientgroup name
  | EvDetails id => clientgroupDetails id
  | EvToken func =>
      c ← gets (λ c, c);
      match opened c with Some id => clientgroupUpdateToken id func | None => skip end
  end.

(** The buttons exist once the list, or the details, have been shown. *)
Definition enabled (e : event) (c : cgroups) : bool :=
  match e with
  | EvLogin _ | EvSuccess _ _ | EvError _ | EvTime _ => true
  | EvCreate _ => bool_decide (is_Some (details c))
  | EvDetails id => bool_decide (id ∈ listed c)
  | EvToken _ => bool_decide (is_Some (opened c))
  end.

Definition run (evs : list event) (c : cgroups) : cgroups :=
  foldl (λ c e, if enabled e c then (handle e c).1 else c) c evs.

End cgroups.
