(* ===== verification/CgroupsSafety.v ===== *)
(** * Client groups: authorisation and order of answers *)

From Stdlib Require Import SpecFloat.
From S2P Require Import Prelude JsString JsNumber JsValue JsJson JsState Cgroups.

Section safety.
Context (date_parse : value → num).
Implicit Types (c : cgroups).

(** ** Authorisation *)

Definition harmless (r : sent) : Prop := s_auth r = true ∨ s_ask r = AskTitle ∨ s_ask r = AskList.

(** Whatever is on the page was put there for a user who is logged in. *)
Record safe c : Prop := {
  sf_content : is_Some (content c) → authorized c = true;
  sf_listed : listed c ≠ [] → is_Some (content c);
  sf_details : is_Some (details c) → is_Some (content c);
  sf_opened : is_Some (opened c) → is_Some (content c);
  sf_asked : Forall harmless (asked c)
}.

Lemma safe_initial t : safe (initial t).
Proof. split; simpl; try done; by intros []. Qed.

Lemma request_safe a c :
  safe c → authorized c = true ∨ a = AskList → always (request a) safe c.
Proof.
  intros [] Ha. apply always_modify. split; upd_simpl; try done.
  apply Forall_app. split; [done|]. constructor; [|done]. unfold harmless. simpl. naive_solver.
Qed.

Lemma take_request_safe k c : safe c → always (take_request k) safe c.
Proof.
  intros []. apply always_gets_bind, always_lift_bind; [done|]. intros r _. apply always_modify_bind.
  split; upd_simpl; try done. by apply Forall_delete.
Qed.

Lemma render_safe l c : safe c → always (renderClientgroups date_parse l) safe c.
Proof.
  intros Hs. apply always_gets_bind, always_lift_bind; [done|]. intros rows _.
  apply always_lift_bind; [done|]. intros h Hh%need_ok. apply always_modify.
  destruct Hs as [Hc _ _ _ Ha]. split; upd_simpl; by eauto.
Qed.

Lemma set_perms_safe p c : safe c → always (set_perms p) safe c.
Proof.
  intros Hs. apply always_gets_bind, always_lift_bind; [done|]. intros x _. apply always_modify.
  destruct Hs. by split.
Qed.

Lemma modify_safe f c : safe (f c) → always (modify f) safe c.
Proof. done. Qed.

Lemma store_safe l c : safe c → always (store_groups l) safe c.
Proof.
  intros Hs. apply always_forM; [done|]. intros g c' _ [].
  apply always_lift_bind; [by split|]. intros id _. apply always_modify. by split.
Qed.

Lemma on_success_safe k data c : safe c → always (on_success date_parse k data) safe c.
Proof.
  intros Hs. apply always_bind; [by apply take_request_safe|]. intros r c1 H1.
  destruct (s_ask r).
  - apply always_lift_bind; [done|]. intros [t|] _; [|by apply always_skip].
    apply always_modify. destruct H1. by split.
  - apply always_modify_bind. assert (safe (c1 <| clientgroups := Some [] |>)) as H2 by (destruct H1; by split).
    apply always_lift_bind; [done|]. intros d _. apply always_lift_bind; [done|]. intros l _.
    apply always_bind; [by apply store_safe|]. intros _ c2. apply render_safe.
  - apply request_safe; auto.
  - apply always_lift_bind; [done|]. intros d _. by apply set_perms_safe.
  - apply request_safe; auto.
Qed.

Lemma on_error_safe k c : safe c → always (on_error date_parse k) safe c.
Proof.
  intros Hs. apply always_bind; [by apply take_request_safe|]. intros r c1 H1.
  destruct (s_ask r); [by apply always_skip|by apply render_safe| |by apply set_perms_safe|];
    apply always_modify; destruct H1; by split.
Qed.

Lemma display_safe c : Forall harmless (asked c) → always display safe c.
Proof.
  intros Ha. unfold display. apply always_modify_bind, always_modify_bind, always_gets_bind.
  assert (Forall harmless (asked c ++ [mkSent AskTitle false])) as Ha'.
  { apply Forall_app. split; [done|]. constructor; [|done]. unfold harmless. auto. }
  change (authorized (cleared _)) with (authorized c). destruct (authorized c) eqn:E.
  - apply always_modify_bind, request_safe; [|auto]. split; upd_simpl; try done; by intros [].
  - apply always_modify. split; upd_simpl; try done; by intros [].
Qed.

Lemma handle_safe e c : enabled e c = true → safe c → always (handle date_parse e) safe c.
Proof.
  intros He Hs. assert (is_Some (content c) → authorized c = true) as Hc by apply Hs.
  destruct e; simpl in *.
  - apply always_modify_bind, display_safe, Hs.
  - by apply on_success_safe.
  - by apply on_error_safe.
  - apply always_modify. destruct Hs. by split.
  - apply bool_decide_eq_true in He. apply request_safe; [done|]. left. by apply Hc, (sf_details _ Hs).
  - apply bool_decide_eq_true in He. apply always_gets_bind, always_lift_bind; [done|]. intros g _.
    apply always_lift_bind; [done|]. intros h _. apply always_lift_bind; [done|]. intros i _.
    assert (is_Some (content c)) as Hcon by (apply (sf_listed _ Hs); intros E; rewrite E in He; set_solver).
    unfold request. apply always_modify_bind.
    assert (safe (c <| asked := asked c ++ [mkSent (AskAcl (to_str i)) (authorized c)] |>)) as H1
      by (apply (request_safe (AskAcl (to_str i))); auto).
    apply always_lift_bind; [done|]. intros d _. apply always_modify.
    destruct H1. split; upd_simpl; done.
  - apply bool_decide_eq_true in He. apply always_gets_bind. destruct (opened c) as [id|] eqn:Eo; [|done].
    apply request_safe; [done|]. left. apply Hc, (sf_opened _ Hs). by rewrite Eo.
Qed.

(** C18: requests without authorisation. After any sequence of logins, logouts, clicks
    and answers, every request under way that carries no authorisation asks for
    the title of the server or for the list of groups: no group is created, no
    token changed and no permission read without it. *)
Theorem unauthorised_requests_only_list t evs :
  Forall harmless (asked (run date_parse evs (initial t))).
Proof.
  assert (∀ evs c, safe c → safe (run date_parse evs c)) as H.
  { clear evs. induction evs as [|e evs IH]; intros c Hs; [done|]. simpl. apply IH.
    destruct (enabled e c) eqn:He; [|done]. by apply handle_safe. }
  apply H, safe_initial.
Qed.

(** ** The list and the details *)

Lemma store_groups_spec l : ∀ c st rows c0,
  mapR (group_row date_parse c0) l = Ok rows → clientgroups c = Some st →
  wp (store_groups l) (λ _ c', ∃ st', c' = c <| clientgroups := Some st' |> ∧
    ∀ id, id ≠ "__proto__" →
      get id st' = match last_with id l with Some g => Some g | None => get id st end) c.
Proof.
  induction l as [|g l IH]; intros c st rows c0 Hr Hst; cbn [mapR] in Hr.
  - apply wp_skip. exists st. split; [by destruct c; simpl in *; subst|done].
  - apply bind_ok in Hr as (r & Hg & Hr). apply bind_ok in Hr as (rs & Hrs & _).
    assert (∃ v, vprop (Some g) "id" = Ok v) as [v Hv].
    { unfold vprop. destruct g; simpl; eauto. done. }
    unfold store_groups. cbn [forM]. apply wp_bind, wp_bind. apply (wp_lift _ v); [done|].
    apply wp_modify. eapply wp_mono; [|apply (IH _ (assign (to_str v) g st) rs c0 Hrs); upd_simpl; by rewrite Hst].
    intros _ c' (st' & -> & Hget). exists st'. split; [by destruct c|].
    intros id Hid. rewrite Hget by done. cbn [last_with]. destruct (last_with id l); [done|].
    rewrite Hv. unfold assign. destruct (String.eqb_spec (to_str v) id) as [->|Hne].
    + rewrite (proj2 (String.eqb_neq _ _)) by done. by rewrite get_set_eq.
    + destruct (_ =? _)%string; [done|]. by rewrite get_set_ne by congruence.
Qed.

Lemma last_with_elem id l g : last_with id l = Some g → g ∈ l ∧ group_id g = id.
Proof.
  induction l as [|g' l IH]; simpl; [done|]. destruct (last_with id l) as [g1|].
  - intros [= ->]. destruct (IH eq_refl). set_solver.
  - unfold group_id. destruct (vprop (Some g') "id") as [v|] eqn:E; [|done].
    destruct (String.eqb_spec (to_str v) id); intros [= <-]. rewrite E. set_solver.
Qed.

Lemma details_html_now c c' id g :
  now c = now c' → details_html date_parse c id g = details_html date_parse c' id g.
Proof. intros E. unfold details_html, status_html, expired. by rewrite E. Qed.

Lemma details_html_total c id g rows c0 l :
  mapR (group_row date_parse c0) l = Ok rows → g ∈ l → ∃ html, details_html date_parse c id g = Ok html.
Proof.
  intros Hr Hg. assert (∃ r, group_row date_parse c0 g = Ok r) as [r Hrow].
  { apply list_elem_of_lookup in Hg as [i Hi]. destruct (mapR_lookup _ _ _ _ _ Hr Hi) as (r & ? & _).
    eauto. }
  unfold group_row, vprop, prop in Hrow. unfold details_html, vprop, prop.
  destruct g; try done; by eexists.
Qed.

(** C34: a group of the list. When the list of groups arrives and can be rendered, and
    the user opens the details of a group of it, the details shown are those of
    the group with this id, with its token buttons, and the permissions of this
    group are requested with the authorisation of the user. *)
Theorem listed_group_opens k b c l rows id g :
  asked c !! k = Some (mkSent AskList b) → is_Some (content c) →
  mapR (group_row date_parse c) l = Ok rows → last_with id l = Some g → id ≠ "__proto__" →
  wp (_ ← on_success date_parse k (Some (JObj [("data", JArr l)]));
      clientgroupDetails date_parse id)
    (λ _ c', details_html date_parse c' id g = Ok (default "" (details c')) ∧
       opened c' = Some id ∧ perms c' = Some Loading ∧
       asked c' = delete k (asked c) ++ [mkSent (AskAcl id) (authorized c)]) c.
Proof.
  intros Hk [h Hc] Hr Hl Hid. destruct (last_with_elem _ _ _ Hl) as [Hg Hgid].
  apply wp_bind. unfold on_success, take_request. wp_steps.
  apply (wp_lift _ (mkSent AskList b)); [by rewrite Hk|]. wp_steps. simpl. wp_steps.
  eapply wp_lift; [done|]. wp_steps. eapply wp_lift; [done|]. wp_steps.
  eapply wp_mono; [|eapply store_groups_spec; [exact Hr|done]].
  intros _ c1 (st & -> & Hst). cbv beta. unfold renderClientgroups. wp_steps.
  eapply wp_lift; [exact Hr|]. wp_steps. eapply wp_lift; [upd_simpl; by rewrite Hc|].
  wp_steps. unfold clientgroupDetails. wp_steps.
  apply (wp_lift _ g); [unfold stored; upd_simpl; simpl; by rewrite Hst, Hl|].
  destruct (details_html_total c id g rows c l Hr Hg) as [html Hh].
  wp_steps. eapply wp_lift; [by rewrite <-Hh; apply details_html_now|]. wp_steps.
  unfold group_id in Hgid. destruct (vprop (Some g) "id") as [v|] eqn:Hv; [|by destruct g].
  apply (wp_lift _ v); [done|]. unfold request. wp_steps. eapply wp_lift; [done|]. wp_steps.
  subst id. split; [by rewrite (details_html_now _ c)|]. by split_and!.
Qed.

(** ** Two groups opened one after the other *)

(** The details of one group are opened and then those of another; the answer for
    the permissions of the first is shown under the second. *)
Theorem acl_is_shown_under_other_group c a b ga gb ia ha hb data d :
  stored c a = Ok ga → stored c b = Ok gb → vprop (Some ga) "id" = Ok ia →
  details_html date_parse c a ga = Ok ha → details_html date_parse c b gb = Ok hb →
  is_Some (details c) → prop data "data" = Ok d →
  wp (_ ← clientgroupDetails date_parse a; _ ← clientgroupDetails date_parse b;
      on_success date_parse (length (asked c)) data)
    (λ _ c', opened c' = Some b ∧ details c' = Some hb ∧ perms c' = Some (Acl d)) c.
Proof.
  intros Ha Hb Hia Hha Hhb [h Hd] Hdata.
  assert (∃ ib, vprop (Some gb) "id" = Ok ib) as [ib Hib].
  { unfold details_html, vprop, prop in Hhb. unfold vprop, prop. destruct gb; try done; eauto. }
  unfold clientgroupDetails, request. wp_steps.
  apply (wp_lift _ ga); [done|]. wp_steps. apply (wp_lift _ ha); [done|]. wp_steps.
  apply (wp_lift _ ia); [done|]. wp_steps. apply (wp_lift _ h); [by rewrite Hd|]. wp_steps.
  apply (wp_lift _ gb); [done|]. wp_steps. apply (wp_lift _ hb); [done|]. wp_steps.
  apply (wp_lift _ ib); [done|]. wp_steps. apply (wp_lift _ ha); [done|]. wp_steps.
  unfold on_success, take_request. wp_steps.
  apply (wp_lift _ (mkSent (AskAcl (to_str ia)) (authorized c))).
  { upd_simpl. rewrite <-app_assoc. by rewrite lookup_app_r, Nat.sub_diag by lia. }
  wp_steps. simpl. wp_steps. apply (wp_lift _ d); [done|].
  unfold set_perms. wp_steps. eapply wp_lift; [done|]. wp_steps. done.
Qed.

End safety.

(** ** Witnesses *)

Definition ex_group (id name : string) : json :=
  JObj [("id", JStr id); ("name", JStr name); ("expiration", JStr "x"); ("token", JStr "t")].

Definition ex_parse (_ : value) : num := S754_nan.

(** Logged in, the list has been asked for. *)
Definition ex_logged : cgroups := run ex_parse [EvLogin true] (initial (num_of_Z 0)).

Definition ex_list : list json := [ex_group "1" "one"; ex_group "2" "two"].

Definition ex_listed : cgroups :=
  run ex_parse [EvSuccess 1 (Some (JObj [("data", JArr ex_list)]))] ex_logged.

Definition rows_of (c : cgroups) : list string :=
  match mapR (group_row ex_parse c) ex_list with Ok l => l | Throw _ => [] end.

Lemma listed_group_opens_witness :
  wp (_ ← on_success ex_parse 1 (Some (JObj [("data", JArr ex_list)])); clientgroupDetails ex_parse "2")
    (λ _ c', opened c' = Some "2") ex_logged.
Proof.
  eapply wp_mono; [|apply (listed_group_opens ex_parse 1 true ex_logged ex_list (rows_of ex_logged) "2"
    (ex_group "2" "two"))].
  - by intros _ c' (_ & H & _).
  - vm_eq.
  - exists "". vm_eq.
  - vm_eq.
  - vm_eq.
  - done.
Defined.

Definition html_of (id : string) (g : json) : string :=
  match details_html ex_parse ex_listed id g with Ok h => h | Throw _ => "" end.

(** The permissions of group 1 are shown under group 2. *)
Lemma acl_is_shown_under_other_group_witness :
  wp (_ ← clientgroupDetails ex_parse "1"; _ ← clientgroupDetails ex_parse "2";
      on_success ex_parse (length (asked ex_listed)) (Some (JObj [("data", JStr "acl of 1")])))
    (λ _ c', opened c' = Some "2" ∧ perms c' = Some (Acl (Some (JStr "acl of 1")))) ex_listed.
Proof.
  eapply wp_mono; [|apply (acl_is_shown_under_other_group ex_parse ex_listed "1" "2" (ex_group "1" "one")
    (ex_group "2" "two") (VStr "1") (html_of "1" (ex_group "1" "one")) (html_of "2" (ex_group "2" "two"))
    _ (Some (JStr "acl of 1")))].
  - by intros _ c' (H1 & _ & H2).
  - vm_eq.
  - vm_eq.
  - vm_eq.
  - vm_eq.
  - vm_eq.
  - exists "". vm_eq.
  - vm_eq.
Defined.
