(* ===== verification/Home.v ===== *)
(** * Home page

    src/site_deprecated/widgets/widget.awe_home.js: the page with the state of
    the server and, for an administrator, the button that suspends or resumes the
    queue. *)

From Stdlib Require Import SpecFloat.
From S2P Require Import Prelude JsString JsNumber JsValue JsJson JsState.

Inductive ask := AskInfo | AskQueue (action : string).

Record home := mkHome {
  is_admin : bool;                (* the user who is logged in is an administrator *)
  page : string;
  info : option string;           (* the element info *)
  admin : option string;          (* the element admin *)
  offered : option string;        (* what its button does to the queue *)
  title : string;
  asked : list ask;
  confirmed : list string         (* the questions the user has been asked *)
}.

#[export] Instance home_eta : Eta home := λ h,
  mkHome (is_admin h) (page h) (info h) (admin h) (offered h) (title h) (asked h) (confirmed h).

Definition initial (adm : bool) : home := mkHome adm "" None None None "" [] [].

Abbreviation act := (M home ()).

Definition welcome : string :=
  "<h2>Welcome to AWE!</h2>      <hr>      <p>AWE is a workflow engine that manages and executes scientific computing workflows or pipelines.</p>      <p>AWE is designed as a distributed system that contains a centralized server and multiple distributed clients. The server receives job submissions and parses jobs into tasks, splits tasks into workunits, and manages workunits in a queue. The AWE clients, running on distributed, heterogeneous computing resources, keep checking out workunits from the server queue and dispatching the workunits on the local computing resources.</p>      <p>AWE uses the Shock data management system to handle input and output data (retrieval, storage, splitting, and merge). AWE uses a RESTful API for communication between AWE components and with outside components such as Shock, the job submitter, and the status monitor.</p><div id='info'></div><div id='admin'></div>".

Definition request (a : ask) : act := modify (λ h, h <| asked := asked h ++ [a] |>).

Definition display : act :=
  _ ← modify (λ h, h <| page := welcome |> <| info := Some "" |> <| admin := Some "" |>
                     <| offered := None |>);
  request AskInfo.

Definition info_row (label v : string) : string :=
  "<tr><td style='width: 200px;'><b>" +++ label +++ "</b></td><td>" +++ v +++ "</td></tr>".

Definition info_html (version contact : value) (ti : option value) : string :=
  "<h4 style='margin-top: 50px;'>Server Info</h4><table class='table' style='width: 600px;'>"
  +++ info_row "Server Version" (to_str version)
  +++ info_row "Administrative Contact" (to_str contact)
  +++ match ti with Some t => info_row "Title" (to_str t) | None => "" end
  +++ "</table>".

(** What the button does to the queue: suspend it if it runs, otherwise resume. *)
Definition queue_button (status : value) : string * string :=
  if loose_eq status (VStr "running") then
    ("suspend", q "<button class=`btn btn-small btn-danger` onclick=`if(confirm('Really suspend the queue?')){Retina.WidgetInstances.awe_home[1].queue('suspend');}`>suspend</button>")
  else
    ("resume", q "<button class=`btn btn-small btn-info` onclick=`Retina.WidgetInstances.awe_home[1].queue('resume');`>resume</button>").

Definition admin_html (time uptime status : value) : string :=
  q "<h4>Admin Info</h4><table class=`table` style=`width: 600px;`>"
  +++ q "<tr><td style=`width: 200px;`><b>server time</b></td><td>" +++ to_str time +++ "</td></tr>"
  +++ q "<tr><td style=`width: 200px;`><b>uptime</b></td><td>" +++ to_str uptime +++ "</td></tr>"
  +++ "<tr><td><b>queue status</b></td><td>"
  +++ (if loose_eq status (VStr "running") then q "<span class=`label label-success`>running</span>"
       else q "<span class=`label label-important`>suspended</span>") +++ "</td></tr>"
  +++ "<tr><td><b>queue action</b></td><td>" +++ (queue_button status).2 +++ "</td></tr>"
  +++ "</table>".

Definition own_title (data : option json) : option value :=
  match data with
  | Some (JObj ps) => match get "title" ps with Some t => Some (to_value (Some t)) | None => None end
  | _ => None
  end.

Definition on_info (data : option json) : act :=
  version ← lift (vprop data "version");
  contact ← lift (vprop data "contact");
  let ti := own_title data in
  _ ← match ti with Some t => modify (λ h, h <| title := inner_html t |>) | None => skip end;
  _ ← modify (λ h, h <| info := Some (info_html version contact ti) |>);
  h ← gets (λ h, h);
  when (is_admin h) (
    time ← lift (vprop data "server_time");
    uptime ← lift (vprop data "uptime");
    status ← lift (vprop data "queue_status");
    modify (λ h, h <| admin := Some (admin_html time uptime status) |>
                   <| offered := Some (queue_button status).1 |>)).

Definition queue (action : string) : act := request (AskQueue action).

(** A click on the button, if there is one; suspending is confirmed first. *)
Definition on_queue_button (yes : bool) : act :=
  h ← gets (λ h, h);
  match offered h with
  | Some action =>
      if (action =? "suspend")%string then
        _ ← modify (λ h, h <| confirmed := confirmed h ++ ["Really suspend the queue?"] |>);
        when yes (queue action)
      else queue action
  | None => skip
  end.

Definition take_request (k : nat) : M home ask :=
  h ← gets (λ h, h);
  a ← lift (need TypeError (asked h !! k));
  _ ← modify (λ h, h <| asked := delete k (asked h) |>);
  mret a.

Definition on_success (k : nat) (data : option json) : act :=
  a ← take_request k;
  match a with AskInfo => on_info data | AskQueue _ => display end.

(** A failure is only logged. *)
Definition on_error (k : nat) : act :=
  _ ← take_request k;
  skip.

(** ** Events *)

Inductive event :=
| EvDisplay
| EvUser (adm : bool)
| EvQueue (yes : bool)
| EvSuccess (k : nat) (data : option json)
| EvError (k : nat).

Definition handle (e : event) : act :=
  match e with
  | EvDisplay => display
  | EvUser adm => modify (λ h, h <| is_admin := adm |>)
  | EvQueue yes => on_queue_button yes
  | EvSuccess k data => on_success k data
  | EvError k => on_error k
  end.

Definition run (evs : list event) (h : home) : home := foldl (λ h e, (handle e h).1) h evs.

(** ** Who changes the queue *)

(** The button was shown to an administrator, for a response with this state of
    the queue. *)
Definition shown (h0 : home) (evs : list event) (status : value) : Prop :=
  ∃ evs1 k data evs2, evs = evs1 ++ EvSuccess k data :: evs2 ∧
    is_admin (run evs1 h0) = true ∧ vprop data "queue_status" = Ok status.

(** The button was clicked, and confirmed if it suspends. *)
Definition clicked (h0 : home) (evs : list event) (action : string) : Prop :=
  ∃ evs1 yes evs2 status, evs = evs1 ++ EvQueue yes :: evs2 ∧ shown h0 evs1 status ∧
    (action = "suspend" ∧ loose_eq status (VStr "running") = true ∧ yes = true ∨
     action = "resume" ∧ loose_eq status (VStr "running") = false).

Lemma shown_later h0 evs e st : shown h0 evs st → shown h0 (evs ++ [e]) st.
Proof. intros (e1 & k & d & e2 & -> & ?). exists e1, k, d, (e2 ++ [e]). by rewrite <-app_assoc. Qed.

Lemma clicked_later h0 evs e a : clicked h0 evs a → clicked h0 (evs ++ [e]) a.
Proof. intros (e1 & y & e2 & st & -> & ?). exists e1, y, (e2 ++ [e]), st. by rewrite <-app_assoc. Qed.

Record authorised (h0 : home) (evs : list event) (h : home) : Prop := {
  au_offered : ∀ a, offered h = Some a → ∃ st, shown h0 evs st ∧ a = (queue_button st).1;
  au_asked : ∀ a, AskQueue a ∈ asked h → clicked h0 evs a
}.

(** A step that shows no new button and sends no request to the queue. *)
Lemma authorised_step h0 evs e h h' :
  authorised h0 evs h → (offered h' = offered h ∨ offered h' = None) →
  (∀ a, AskQueue a ∈ asked h' → AskQueue a ∈ asked h) → authorised h0 (evs ++ [e]) h'.
Proof.
  intros [Ho Ha] H1 H2. split; [|intros a Hin; by apply clicked_later, Ha, H2].
  intros a Hoff. destruct H1 as [H1|H1]; rewrite H1 in Hoff; [|done].
  apply Ho in Hoff as (st & Hs & ->). exists st. split; [by apply shown_later|done].
Qed.

(** A step that sends a request to the queue. *)
Lemma authorised_queue h0 evs e h h' a :
  authorised h0 evs h → offered h' = offered h → asked h' = asked h ++ [AskQueue a] →
  clicked h0 (evs ++ [e]) a → authorised h0 (evs ++ [e]) h'.
Proof.
  intros [Ho Ha] H1 H2 Hc. split.
  - rewrite H1. intros a' (st & Hs & ->)%Ho. exists st. split; [by apply shown_later|done].
  - rewrite H2. intros a' [Hin|[= ->]%list_elem_of_singleton]%elem_of_app; [by apply clicked_later, Ha|done].
Qed.

Lemma on_info_effect data h :
  let h' := (on_info data h).1 in
  asked h' = asked h ∧
  (offered h' = offered h ∨
   is_admin h = true ∧ ∃ st, vprop data "queue_status" = Ok st ∧ offered h' = Some (queue_button st).1).
Proof.
  unfold on_info, mbind, M_bind, gets, lift, modify.
  destruct (vprop data "version") as [v|]; [|auto]. destruct (vprop data "contact") as [c|]; [|auto].
  destruct (own_title data); cbn; (destruct (is_admin h) eqn:Eadm; cbn; [|auto]);
    destruct (vprop data "server_time"); cbn; auto; destruct (vprop data "uptime"); cbn; auto;
    destruct (vprop data "queue_status") as [st|]; cbn; auto; (split; [done|]); right; eauto.
Qed.

Lemma handle_authorised h0 evs e :
  authorised h0 evs (run evs h0) → authorised h0 (evs ++ [e]) (handle e (run evs h0)).1.
Proof.
  set (h := run evs h0). intros Hv. pose proof Hv as [Ho Ha].
  assert (∀ k a, AskQueue a ∈ delete k (asked h) → AskQueue a ∈ asked h) as Hdel.
  { intros k a. rewrite delete_take_drop.
    intros [Hi|Hi]%elem_of_app; [by eapply subseteq_take|by eapply subseteq_drop]. }
  destruct e as [|adm|yes|k data|k]; cbn [handle].
  - apply (authorised_step _ _ _ _ _ Hv); cbn; [auto|]. by intros a [?|[=]%list_elem_of_singleton]%elem_of_app.
  - apply (authorised_step _ _ _ _ _ Hv); cbn; auto.
  - unfold on_queue_button, mbind, M_bind, gets. destruct (offered h) as [action|] eqn:Eo.
    2: { by apply (authorised_step _ _ _ _ _ Hv); cbn; auto. }
    destruct (Ho _ eq_refl) as (st & Hs & ->).
    unfold queue_button at 1. destruct (loose_eq st (VStr "running")) eqn:Est; cbn; [destruct yes; cbn|].
    + apply (authorised_queue _ _ _ _ _ "suspend" Hv); [done|cbn; unfold queue_button; by rewrite Est|].
      exists evs, true, [], st. naive_solver.
    + apply (authorised_step _ _ _ _ _ Hv); cbn; auto.
    + apply (authorised_queue _ _ _ _ _ "resume" Hv); [done|cbn; unfold queue_button; by rewrite Est|].
      exists evs, yes, [], st. naive_solver.
  - unfold on_success, take_request, mbind, M_bind, gets, lift, modify.
    destruct (asked h !! k) as [a|] eqn:Hk; cbn; [|by apply (authorised_step _ _ _ _ _ Hv); auto].
    destruct a as [|action].
    + destruct (on_info_effect data (h <| asked := delete k (asked h) |>)) as [Hask Hoff].
      cbn in Hask, Hoff. destruct Hoff as [Hoff|(Hadm & st & Hst & Hoff)].
      * apply (authorised_step _ _ _ _ _ Hv); [auto|]. rewrite Hask. apply Hdel.
      * split; [|rewrite Hask; intros a Hin; by eapply clicked_later, Ha, Hdel].
        rewrite Hoff. intros a [= <-]. exists st. split; [|done]. exists evs, k, data, []. auto.
    + apply (authorised_step _ _ _ _ _ Hv); cbn; [auto|].
      intros a [Hin|[=]%list_elem_of_singleton]%elem_of_app. exact (Hdel k a Hin).
  - unfold on_error, take_request, mbind, M_bind, gets, lift, modify.
    destruct (asked h !! k) as [a|] eqn:Hk; cbn; [|by apply (authorised_step _ _ _ _ _ Hv); auto].
    apply (authorised_step _ _ _ _ _ Hv); cbn; auto. apply Hdel.
Qed.

(** C19: who changes the queue. After any sequence of page loads, logins, clicks and
    responses, a request to suspend or resume the queue is under way only if its
    button was clicked, and confirmed in the case of suspending, after a response
    that arrived while an administrator was logged in; the request is to suspend
    if that response said the queue was running, and to resume otherwise. *)
Theorem queue_changes_are_authorised adm evs action :
  AskQueue action ∈ asked (run evs (initial adm)) → clicked (initial adm) evs action.
Proof.
  assert (authorised (initial adm) evs (run evs (initial adm))) as [_ H]; [|apply H].
  induction evs as [|e evs IH] using rev_ind; [split; [done|set_solver]|].
  unfold run. rewrite foldl_app. by apply handle_authorised.
Qed.

Definition ex_session : list event :=
  [EvDisplay; EvSuccess 0 (Some (JObj [("queue_status", JStr "running")])); EvQueue true].

Lemma queue_changes_are_authorised_witness : clicked (initial true) ex_session "suspend".
Proof. apply (queue_changes_are_authorised true). vm_compute. left. Defined.
