(* ===== verification/Submission.v ===== *)
(** * Job submission

    src/site_deprecated/widgets/widget.awe_submission.js: the form of a job, the
    test of the SHOCK server and the upload of a job script.  [RetinaConfig.shock_ip]
    and [RetinaConfig.awe_url] are arguments, and so is whether the page has the
    element [content].  The client of SHOCK is another library: what its [init]
    does, or that it is not there, comes with the answer whose callback calls it. *)

From Stdlib Require Import SpecFloat.
From S2P Require Import Prelude JsString JsNumber JsValue JsJson JsState.

Inductive ask := AskShock (url : string) | AskJob (url script : string).

Record submission := mkSubmission {
  shock_checked : bool;
  shock_url : option string;      (* the field of the form, when it is on the page *)
  shock_init : option string;     (* the URL for which SHOCK.init has returned last *)
  page : string;
  asked : list ask;
  alerts : list string
}.

#[export] Instance submission_eta : Eta submission := λ s,
  mkSubmission (shock_checked s) (shock_url s) (shock_init s) (page s) (asked s) (alerts s).

Definition initial : submission := mkSubmission false None None "" [] [].

Abbreviation act := (M submission ()).

Section submission.
(** [RetinaConfig.shock_ip] and [RetinaConfig.awe_url] *)
Context (shock_ip : option string) (awe_url : value).
(** The page has an element [content]. *)
Context (content : bool).

Definition default_shock : string := default "" shock_ip.

Definition form_html : string :=
  q "<form class=`form-horizontal` action=`#`>    <legend>Submit Job</legend>    <div class=`control-group`>      <label class=`control-label` for=`input_file` style=`position: relative; bottom: -64px;`>input file</label>      <div class=`controls`>        <ul class=`nav nav-tabs`>          <li class=`active`><a href=`#newfile` data-toggle=`tab`>upload new</a></li>          <li><a href=`#existingfile` data-toggle=`tab`>browse SHOCK</a></li>        </ul>        <div class=`tab-content`>          <div class=`tab-pane active` id=`newfile`>            <input id=`input_file` type=`file` style=`margin-left: -10px;`>          </div>          <div class=`tab-pane` id=`existingfile`>            <select style=`margin-left: -10px;`>              <option>file a</option>              <option>file b</option>              <option>file c</option>              <option>file d</option>              <option>file e</option>              <option>file f</option>              <option>file g</option>              <option>file h</option>              <option>file i</option>              <option>file j</option>            </select>          </div>        </div>        <span class=`help-block`>Select the input file for your job</span>      </div>    </div>    <div class=`control-group`>      <label class=`control-label` for=`shock_url`>SHOCK URL</label>      <div class=`controls`>        <input type=`text` id=`shock_url` placeholder=`SHOCK IP:port` value=`"
  +++ default_shock +++
  q "` style=`border-radius: 3px 0 0 3px;`>        <button class=`btn` onclick=`Retina.WidgetInstances.awe_submission[1].check_shock();` style=`border-radius: 0 3px 3px 0; margin-left: -5px;`>verify</button>        <span class=`help-block`>Enter the SHOCK IP and port, e.g. localhost:1234</span>      </div>    </div>    <div class=`control-group`>      <label class=`control-label` for=`pipeline`>pipeline</label>      <div class=`controls`>        <select id=`pipeline`>          <option>mgrast-prod</option>          <option>mgrast-v3</option>          <option>mgrast.json</option>          <option>simple_example</option>        </select>        <span class=`help-block`>Select which pipeline to run</span>      </div>    </div>    <div class=`control-group`>      <label class=`control-label` for=`job_name`>job name</label>      <div class=`controls`>        <input type=`text` placeholder=`job name` id=`job_name`>        <span class=`help-block`>Enter a name to identify your submitted job.</span>      </div>    </div>    <div class=`control-group`>      <label class=`control-label` for=`user_name`>user name</label>      <div class=`controls`>        <input type=`text` placeholder=`user name` id=`user_name`>        <span class=`help-block`>Enter the username running the job.</span>      </div>    </div>    <div class=`control-group`>      <label class=`control-label` for=`group_name`>group name</label>      <div class=`controls`>        <input type=`text` placeholder=`group name` id=`group_name`>        <span class=`help-block`>Enter the name of the group to which the job belongs.</span>      </div>    </div>    <div class=`control-group`>      <label class=`control-label` for=`project_name`>project name</label>      <div class=`controls`>        <input type=`text` placeholder=`project name` id=`project_name`>        <span class=`help-block`>Enter the name of the project of this job.</span>      </div>    </div>    <button class=`btn btn-success`>Submit Job</button></form>".

Definition display : act :=
  if content then modify (λ s, s <| page := form_html |> <| shock_url := Some default_shock |>)
  else throw TypeError.

Definition submit_jobscript (script : string) : act :=
  modify (λ s, s <| asked := asked s ++ [AskJob (to_str awe_url +++ "/job") script] |>).

Definition check_shock : act :=
  s ← gets (λ s, s);
  value ← lift (need TypeError (shock_url s));
  modify (λ s, s <| asked := asked s ++ [AskShock ("http://" +++ value)] |>).

(** [data && data.type && data.type == "Shock"] *)
Definition is_shock (data : option json) : bool :=
  match data with
  | Some (JObj ps) =>
      truthy (to_value (get "type" ps)) && loose_eq (to_value (get "type" ps)) (VStr "Shock")
  | _ => false
  end.

Definition alert (msg : string) : act := modify (λ s, s <| alerts := alerts s ++ [msg] |>).

(** [SHOCK.init({ "url": url })]; [init] is its outcome, [ReferenceError] where
    there is no [SHOCK]. *)
Definition call_init (init : res ()) (url : string) : act :=
  _ ← lift init;
  modify (λ s, s <| shock_init := Some url |>).

Definition on_success (k : nat) (data : option json) (init : res ()) : act :=
  s ← gets (λ s, s);
  a ← lift (need TypeError (asked s !! k));
  _ ← modify (λ s, s <| asked := delete k (asked s) |>);
  match a with
  | AskShock url =>
      if is_shock data then
        _ ← modify (λ s, s <| shock_checked := true |>);
        _ ← call_init init url;
        alert "successfully connected to SHOCK server"
      else alert "could not identify target as SHOCK server"
  | AskJob _ _ => skip
  end.

Definition on_error (k : nat) (error : string) : act :=
  s ← gets (λ s, s);
  a ← lift (need TypeError (asked s !! k));
  _ ← modify (λ s, s <| asked := delete k (asked s) |>);
  match a with
  | AskShock _ => alert ("could not reach server: " +++ error)
  | AskJob _ _ => skip
  end.

Inductive event :=
| EvDisplay
| EvType (url : string)
| EvVerify
| EvSubmit (script : string)
| EvSuccess (k : nat) (data : option json) (init : res ())
| EvError (k : nat) (error : string).

Definition handle (e : event) : act :=
  match e with
  | EvDisplay => display
  | EvType url => modify (λ s, s <| shock_url := (λ _, url) <$> shock_url s |>)
  | EvVerify => check_shock
  | EvSubmit script => submit_jobscript script
  | EvSuccess k data init => on_success k data init
  | EvError k error => on_error k error
  end.

Definition run (evs : list event) (s : submission) : submission :=
  foldl (λ s e, (handle e s).1) s evs.

(** ** The server that is used *)

Lemma elem_of_delete_list {A} (l : list A) k x : x ∈ delete k l → x ∈ l.
Proof. rewrite delete_take_drop. intros [H|H]%elem_of_app; [by eapply subseteq_take|by eapply subseteq_drop]. Qed.

(** The verify button was clicked while the field had this server. *)
Definition sent (evs : list event) (url : string) : Prop :=
  ∃ evs1 evs2 value, evs = evs1 ++ EvVerify :: evs2 ∧ shock_url (run evs1 initial) = Some value ∧
    url = "http://" +++ value.

(** The server was sent a request, and then a response named its sender as a
    SHOCK server; [P] holds of what [SHOCK.init] did. *)
Definition confirmed (P : res () → Prop) (evs : list event) (url : string) : Prop :=
  ∃ evs1 k data init evs2, evs = evs1 ++ EvSuccess k data init :: evs2 ∧ is_shock data = true ∧
    sent evs1 url ∧ P init.

Abbreviation answered := (confirmed (λ _, True)).
Abbreviation initialised := (confirmed (λ init, init = Ok ())).

Lemma sent_later evs e url : sent evs url → sent (evs ++ [e]) url.
Proof. intros (e1 & e2 & v & -> & ? & ->). exists e1, (e2 ++ [e]), v. by rewrite <-app_assoc. Qed.

Lemma confirmed_later P evs e url : confirmed P evs url → confirmed P (evs ++ [e]) url.
Proof.
  intros (e1 & k & d & r & e2 & -> & ?). exists e1, k, d, r, (e2 ++ [e]). by rewrite <-app_assoc.
Qed.

Definition connected : string := "successfully connected to SHOCK server".

(** What a run has established. *)
Record verified (evs : list event) (s : submission) : Prop := {
  vf_asked : ∀ url, AskShock url ∈ asked s → sent evs url;
  vf_checked : shock_checked s = true → ∃ url, answered evs url;
  vf_init : ∀ url, shock_init s = Some url → shock_checked s = true ∧ initialised evs url;
  vf_alert : connected ∈ alerts s → is_Some (shock_init s)
}.

(** A step that sends no request to a server, uses no other server and does not
    report one. *)
Lemma verified_step evs e s s' :
  verified evs s → (∀ url, AskShock url ∈ asked s' → AskShock url ∈ asked s) →
  shock_checked s' = shock_checked s → shock_init s' = shock_init s →
  (connected ∈ alerts s' → connected ∈ alerts s) → verified (evs ++ [e]) s'.
Proof.
  intros [Ha Hc Hi Hr] H1 H2 H3 H4. split; rewrite ?H2, ?H3.
  - intros url Hin. by apply sent_later, Ha, H1.
  - intros (url & Hu)%Hc. exists url. by apply confirmed_later.
  - intros url [? Hu]%Hi. split; [done|by apply confirmed_later].
  - auto.
Qed.

(** The answer of a SHOCK server. *)
Lemma verified_answer evs k d r s url :
  verified evs s → AskShock url ∈ asked s → is_shock d = true →
  let e := EvSuccess k d r in
  let s1 := s <| asked := delete k (asked s) |> <| shock_checked := true |> in
  verified (evs ++ [e])
    (match r with
     | Ok _ => s1 <| shock_init := Some url |> <| alerts := alerts s ++ [connected] |>
     | Throw _ => s1
     end).
Proof.
  intros [Ha Hc Hi Hr] Hin Hd e s1.
  assert (∀ P : res () → Prop, P r → confirmed P (evs ++ [e]) url) as Hnew.
  { intros P HP. exists evs, k, d, r, []. auto. }
  assert (∀ u, AskShock u ∈ delete k (asked s) → sent (evs ++ [e]) u) as Ha'.
  { intros u Hu. apply sent_later, Ha. by eapply elem_of_delete_list. }
  destruct r as [[]|x]; split; cbn; try done; try by eauto.
  - intros u [= <-]. auto.
  - intros u [_ Hu]%Hi. split; [done|by apply confirmed_later].
Qed.

Lemma handle_verified evs e :
  verified evs (run evs initial) → verified (evs ++ [e]) (handle e (run evs initial)).1.
Proof.
  set (s := run evs initial). intros Hv. pose proof Hv as [Ha Hc Hi Hr].
  destruct e as [|u| |sc|k d r|k er]; cbn [handle].
  - unfold display. destruct content; by apply (verified_step _ _ _ _ Hv).
  - by apply (verified_step _ _ _ _ Hv).
  - unfold check_shock, mbind, M_bind, gets, lift. destruct (shock_url s) as [v|] eqn:Eu; cbn;
      [|by apply (verified_step _ _ _ _ Hv)].
    split; cbn; try by eauto.
    + intros url [Hin|[= ->]%list_elem_of_singleton]%elem_of_app; [by apply sent_later, Ha|].
      by exists evs, [], v.
    + intros (url & Hu)%Hc. exists url. by apply confirmed_later.
    + intros url [? Hu]%Hi. split; [done|by apply confirmed_later].
  - apply (verified_step _ _ _ _ Hv); [|done..]. cbn. intros url [?|[=]%list_elem_of_singleton]%elem_of_app. done.
  - unfold on_success, mbind, M_bind, gets, lift, modify.
    destruct (asked s !! k) as [a|] eqn:Hk; cbn [need]; [|by apply (verified_step _ _ _ _ Hv)].
    assert (a ∈ asked s) as Hin by by eapply list_elem_of_lookup_2.
    destruct a as [url|]; [destruct (is_shock d) eqn:Ed|].
    + pose proof (verified_answer evs k d r s url Hv Hin Ed) as Hn. by destruct r as [[]|x].
    + apply (verified_step _ _ _ _ Hv); try done; cbn; [intros u Hu; by eapply elem_of_delete_list|].
      by intros [?|[=]%list_elem_of_singleton]%elem_of_app.
    + apply (verified_step _ _ _ _ Hv); try done; cbn. intros u Hu. by eapply elem_of_delete_list.
  - unfold on_error, mbind, M_bind, gets, lift, modify.
    destruct (asked s !! k) as [a|] eqn:Hk; cbn [need]; [|by apply (verified_step _ _ _ _ Hv)].
    destruct a as [url|]; cbn; apply (verified_step _ _ _ _ Hv); try done; cbn;
      try (intros u Hu; by eapply elem_of_delete_list).
    by intros [?|[=]%list_elem_of_singleton]%elem_of_app.
Qed.

(** C20: the SHOCK server. After any sequence of page loads, entries in the field,
    clicks on the verify button, job submissions and answers, successful or not
    and in any order, and whatever [SHOCK.init] does, missing or throwing: if the
    widget has marked its SHOCK server as checked, then the verify button was
    clicked while the field had some address, a request went to that address, and
    later a response came that names its sender as a SHOCK server; the address
    for which [SHOCK.init] returned last is such an address, and the message of
    success is shown only after [SHOCK.init] has returned for one. *)
Theorem shock_server_is_verified evs :
  let s := run evs initial in
  (shock_checked s = true → ∃ url, answered evs url) ∧
  (∀ url, shock_init s = Some url → shock_checked s = true ∧ initialised evs url) ∧
  (connected ∈ alerts s → is_Some (shock_init s)).
Proof.
  assert (verified evs (run evs initial)) as [_ ? ? ?]; [|done].
  induction evs as [|e evs IH] using rev_ind; [by split; set_solver|].
  unfold run. rewrite foldl_app. by apply handle_verified.
Qed.

(** Where [SHOCK] is not loaded the server is marked as checked all the same, and
    nothing is reported. *)
Example checked_without_client (server : string) :
  content = true →
  let s := run [EvDisplay; EvType server; EvVerify;
                EvSuccess 0 (Some (JObj [("type", JStr "Shock")])) (Throw ReferenceError)] initial in
  shock_checked s = true ∧ shock_init s = None ∧ alerts s = [].
Proof. intros Hc. unfold run, foldl, handle, display. by rewrite Hc. Qed.

End submission.

Definition ex_session : list event :=
  [EvDisplay; EvType "shock.example:7445"; EvVerify;
   EvSuccess 0 (Some (JObj [("type", JStr "Shock")])) (Ok ())].

Lemma shock_server_is_verified_witness :
  ∃ url, shock_init (run None VUndef true ex_session initial) = Some url ∧
    confirmed None VUndef true (λ init, init = Ok ()) ex_session url.
Proof.
  destruct (shock_server_is_verified None VUndef true ex_session) as (_ & Hi & _).
  eexists. split; [reflexivity|]. apply Hi. reflexivity.
Defined.
