(* ===== verification/RegExpUses.v ===== *)
(** * Regular expressions: the patterns of the program

    Each pattern that the sources contain, given to the parser and the matcher,
    does what the function of the model does that stands for it; and a table
    filter with a plain word shows the cells in which the word occurs. *)

From S2P Require Import Prelude JsString JsNumber JsValue JsRegExp RegExpSyntax RegExpEngine RegExpFacts.
From S2P Require Import TableData Workflow Panel.

(** ** Replacing *)

Lemma search_shorter i r prev s x y :
  search i r prev s = Some (x, y) → (String.length (m_rest x) ≤ String.length s)%nat.
Proof.
  revert prev. induction s as [|a s IH]; intros prev; cbn [search];
    destruct (matches i r _ Some); intros Hs; simplify_eq/=; try lia; [].
  apply IH in Hs. lia.
Qed.

Lemma stake_S n a s : stake (S n) (String a s) = String a (stake n s).
Proof. done. Qed.

Lemma remove_all_skip n r prev a s :
  matches false r (mkState prev (String a s) []) Some = None →
  remove_all (S n) r prev (String a s) = String a (remove_all (S n) r (Some a) s).
Proof.
  intros Hm. cbn [remove_all search]. rewrite Hm.
  destruct (search false r (Some a) s) as [[x y]|] eqn:Hs; [|done].
  apply search_shorter in Hs. cbn [String.length].
  by rewrite Nat.sub_succ_l, stake_S, sapp_cons by lia.
Qed.

Lemma remove_all_here n r prev s y :
  matches false r (mkState prev s []) Some = Some y →
  remove_all (S n) r prev s = remove_all n r (m_prev y) (m_rest y).
Proof.
  intros Hm. destruct s as [|a s]; cbn [remove_all search]; rewrite Hm; cbn [m_rest]; by rewrite Nat.sub_diag.
Qed.

(** ** Tags *)

Definition tag_pattern : string := "<(.|\n)*?>".

(** One pass of the lazy repetition: any character but a carriage return. *)
Definition tag_char : node := NGroup 1 (NAlt (NSeq NDot NEmpty) (NSeq (NChar 10) NEmpty)).

Lemma pattern_tag :
  pattern tag_pattern =
  NSeq (NChar (code "<")) (NSeq (NRep 0 None false 0 1 tag_char) (NSeq (NChar (code ">")) NEmpty)).
Proof. done. Qed.

Lemma tag_char_step x c :
  matches false tag_char x c =
  match m_rest x with
  | String a s =>
      if (a =? creturn)%char then None else c (capture 1 x (mkState (Some a) s (m_caps x)))
  | EmptyString => None
  end.
Proof.
  destruct x as [prev s cs]. unfold tag_char.
  change (matches false (NGroup 1 ?r) ?x c) with (matches false r x (λ y, c (capture 1 x y))).
  change 10 with (code newline). change (matches false (NAlt (NSeq ?a NEmpty) (NSeq ?b NEmpty)) ?x ?k)
    with (or_try (matches false a x k) (matches false b x k)).
  rewrite matches_char, one_char_dot. cbn [m_rest m_caps]. destruct s as [|a s]; [done|].
  unfold is_line_end. rewrite same_char_exact.
  destruct (Ascii.eqb_spec a newline) as [->|]; [done|]. destruct (a =? creturn)%char; [done|]. cbn [orb negb].
  unfold or_try. by case_match.
Qed.

Lemma tag_repeat n x (c : cont) :
  n = String.length (m_rest x) →
  (∀ y, m_rest <$> c y =
     match m_rest y with String a s => if (a =? ">")%char then Some s else None | EmptyString => None end) →
  m_rest <$> repeat_some (matches false tag_char) false 0 1 c n None x = close_tag (m_rest x).
Proof.
  intros Hn Hc. revert x Hn. induction n as [|n IH]; intros x Hn.
  - cbn [repeat_some]. rewrite Hc. by destruct (m_rest x).
  - cbn [repeat_some]. specialize (Hc x) as Hx. destruct x as [prev s cs]. cbn [m_rest] in *.
    destruct s as [|a s]; [done|]. cbn [close_tag]. destruct (a =? ">")%char.
    + destruct (c _); [done|discriminate].
    + destruct (c _); [discriminate|]. cbn [or_try]. rewrite tag_char_step. cbn [m_rest reset].
      destruct (a =? creturn)%char; [done|]. cbn [String.length] in *.
      cbn [capture m_rest]. rewrite (proj2 (Nat.ltb_lt _ _)) by lia.
      change (fewer None) with (@None nat). apply IH. cbn. lia.
Qed.

Lemma tag_match x :
  m_rest <$> matches false (pattern tag_pattern) x Some =
  match m_rest x with String a s => if (a =? "<")%char then close_tag s else None | EmptyString => None end.
Proof.
  rewrite pattern_tag. change (matches false (NSeq ?r ?r') x Some)
    with (matches false r x (λ y, matches false r' y Some)).
  rewrite matches_char. destruct (m_rest x) as [|a s]; [done|]. rewrite same_char_exact.
  destruct (a =? "<")%char; [|done].
  change (matches false (NSeq (NRep 0 None false 0 1 tag_char) ?r') ?y Some)
    with (repeat_some (matches false tag_char) false 0 1 (λ z, matches false r' z Some)
            (String.length (m_rest y)) None y).
  apply (tag_repeat _ (mkState (Some a) s (m_caps x))); [done|]. intros y.
  change (matches false (NSeq ?r NEmpty) y Some) with (matches false r y Some).
  rewrite matches_char. destruct (m_rest y) as [|b s']; [done|]. rewrite same_char_exact. by case_match.
Qed.

Lemma close_tag_shorter s r : close_tag s = Some r → (String.length r < String.length s)%nat.
Proof.
  induction s as [|a s IH]; [done|]. cbn [close_tag String.length].
  destruct (a =? ">")%char; [intros [= <-]; lia|]. destruct (a =? creturn)%char; [done|].
  intros ?%IH. lia.
Qed.

Lemma strip_tags_remove n k prev s :
  (String.length s ≤ n)%nat → (String.length s < k)%nat →
  strip_tags_fuel n s = remove_all k (pattern tag_pattern) prev s.
Proof.
  revert k prev s. induction n as [|n IH]; intros k prev s Hn Hk; destruct k as [|k]; try lia.
  all: destruct s as [|a s]; [done|cbn [String.length] in *; try lia].
  pose proof (tag_match (mkState prev (String a s) [])) as Ht. cbn [m_rest] in Ht.
  cbn [strip_tags_fuel]. destruct (a =? "<")%char; [destruct (close_tag s) as [r|] eqn:Hr|].
  - apply fmap_Some in Ht as (y & Hy & ->). rewrite (remove_all_here _ _ _ _ _ Hy).
    apply close_tag_shorter in Hr. apply IH; lia.
  - apply fmap_None in Ht. rewrite remove_all_skip by done. f_equal. apply IH; lia.
  - apply fmap_None in Ht. rewrite remove_all_skip by done. f_equal. apply IH; lia.
Qed.

(** C7: stripping of tags. For every text, the function with which the table
    sorts and detects its sort type gives what [text.replace(/<(.|\n)*?>/g, '')]
    gives: the pattern, read by the parser of regular expressions and run by the
    backtracking matcher over the whole text. *)
Theorem strip_tags_is_replace s :
  strip_tags s = remove_all (S (String.length s)) (pattern "<(.|\n)*?>") None s.
Proof. unfold strip_tags. apply (strip_tags_remove _ _ None); lia. Qed.

(** ** Characters in front of a fixed text *)

(** The nodes of a word, in front of another node. *)
Fixpoint word_then (p : string) (r : node) : node :=
  match p with EmptyString => r | String a p' => NSeq (NChar (code a)) (word_then p' r) end.

Lemma matches_word_then p r x c :
  ∃ prev, matches false (word_then p r) x c =
  match take_prefix p (m_rest x) with
  | Some s => matches false r (mkState prev s (m_caps x)) c
  | None => None
  end.
Proof.
  revert x. induction p as [|a p IH]; intros x.
  - exists (m_prev x). by destruct x.
  - cbn [word_then]. change (matches false (NSeq ?r ?r') x c) with (matches false r x (λ y, matches false r' y c)).
    rewrite matches_char. destruct (m_rest x) as [|b s]; [by exists None|]. rewrite same_char_exact.
    cbn [take_prefix]. rewrite (Ascii.eqb_sym a b). destruct (b =? a)%char; [|by exists None].
    destruct (IH (mkState (Some b) s (m_caps x))) as [prev ->]. by exists prev.
Qed.

Lemma take_prefix_end p s : take_prefix p s = Some "" ↔ s = p.
Proof.
  revert s. induction p as [|a p IH]; intros s; [by destruct s; cbn; naive_solver|].
  destruct s as [|b s]; [done|]. cbn [take_prefix].
  destruct (Ascii.eqb_spec a b) as [->|]; [|naive_solver]. rewrite IH. naive_solver.
Qed.

(** A word and the end of the text. *)
Lemma matches_last_word p x :
  (∃ y, matches false (word_then p (NSeq NEnd NEmpty)) x Some = Some y) ↔ m_rest x = p.
Proof.
  destruct (matches_word_then p (NSeq NEnd NEmpty) x Some) as [prev ->].
  rewrite <-(take_prefix_end p). destruct (take_prefix p (m_rest x)) as [[|a s]|]; cbn; naive_solver.
Qed.

(** ** Labels of raw inputs *)

Definition raw_pattern : string := "^#i_\d+ \[0\]$".

Lemma pattern_raw :
  pattern raw_pattern =
  NSeq NStart (word_then "#i_" (NSeq (NRep 1 None true 0 0 (NSet false r_digit))
    (word_then " [0]" (NSeq NEnd NEmpty)))).
Proof. done. Qed.

Lemma digit_class a : set_has false r_digit (code a) = is_digit a.
Proof. destruct a as [[] [] [] [] [] [] [] []]; vm_compute; reflexivity. Qed.

Lemma scan_digits_run prev s acc n :
  ∃ z m, scan_digits digit_val 10 s acc n = (z, (n + m)%nat, (run_from is_digit prev s).2) ∧
    (m = 0%nat ↔ match s with String a _ => is_digit a = false | EmptyString => True end).
Proof.
  revert prev acc n. induction s as [|a s IH]; intros prev acc n; cbn [scan_digits run_from].
  - exists acc, 0%nat. by rewrite Nat.add_0_r.
  - unfold digit_val at 1. destruct (is_digit a).
    + edestruct (IH (Some a)) as (z & m & -> & _). exists z, (S m). split; [f_equal; f_equal; lia|done].
    + exists acc, 0%nat. by rewrite Nat.add_0_r.
Qed.

Lemma behind_ext p p' x : (∀ a, p a = p' a) → behind p x = behind p' x.
Proof.
  intros Hp. unfold behind. assert (∀ s prev, run_from p prev s = run_from p' prev s) as ->; [|done].
  induction s as [|a s IH]; intros prev; cbn [run_from]; [done|]. by rewrite Hp, IH.
Qed.

Lemma found_match r s :
  found false (NSeq NStart r) s = true ↔ ∃ y, matches false r (mkState None s []) Some = Some y.
Proof.
  unfold found. rewrite search_anchored. destruct (matches false r _ Some); cbn; naive_solver.
Qed.

Lemma raw_label_pattern s : is_raw_label s = found false (pattern raw_pattern) s.
Proof.
  apply eq_iff_eq_true. rewrite pattern_raw, found_match. unfold is_raw_label.
  destruct (matches_word_then "#i_" (NSeq (NRep 1 None true 0 0 (NSet false r_digit))
    (word_then " [0]" (NSeq NEnd NEmpty))) (mkState None s []) Some) as [prev ->].
  cbn [m_rest m_caps]. destruct (take_prefix "#i_" s) as [s1|]; [|naive_solver].
  change (matches false (NSeq ?r ?r') ?x Some) with (matches false r x (λ y, matches false r' y Some)).
  rewrite (greedy_plus _ _ _ _ _ _ (one_char_set false false r_digit)).
  - rewrite (behind_ext _ is_digit) by (intros; rewrite xorb_false_l; apply digit_class).
    destruct (scan_digits_run prev s1 0 0) as (z & m & -> & Hm). cbn [m_rest].
    destruct s1 as [|a s1]; [|rewrite xorb_false_l, digit_class].
    + assert (m = 0%nat) as -> by tauto. cbn. naive_solver.
    + destruct (is_digit a) eqn:Ea.
      * rewrite matches_last_word. unfold behind. cbn [m_rest m_prev m_caps].
        destruct (run_from is_digit prev (String a s1)) as [pr rest]. cbn [m_rest snd].
        assert (m ≠ 0%nat) as Hm0 by (intros ?; assert (true = false) by tauto; done).
        destruct m; [done|]. cbn. apply String.eqb_eq.
      * assert (m = 0%nat) as -> by tauto. cbn. naive_solver.
  - intros y a s' Hy Ha. rewrite xorb_false_l, digit_class in Ha.
    destruct (matches_word_then " [0]" (NSeq NEnd NEmpty) y Some) as [pr ->]. rewrite Hy.
    cbn [take_prefix]. destruct (Ascii.eqb_spec " " a) as [<-|]; [|done]. discriminate Ha.
Qed.

(** ** Names of clients *)

Definition link_pattern : string := "^<[^>]+>([^<]+)<\/.+$".

Definition not_char (c : ascii) : node := NSet true [(code c, code c)].
Definition link_tail : node := NSeq (NRep 1 None true 1 1 NDot) (NSeq NEnd NEmpty).
Definition link_name : node :=
  NSeq (NGroup 1 (NSeq (NRep 1 None true 1 1 (not_char "<")) NEmpty)) (word_then "</" link_tail).

Lemma pattern_link :
  pattern link_pattern =
  NSeq NStart (word_then "<" (NSeq (NRep 1 None true 0 0 (not_char ">")) (word_then ">" link_name))).
Proof. done. Qed.

Lemma not_char_has c a : xorb true (set_has false [(code c, code c)] (code a)) = negb (a =? c)%char.
Proof. by rewrite set_has_char, same_char_exact, xorb_true_l. Qed.

(** The characters up to the next [c]. *)
Lemma take_until_run c prev s :
  match take_until c s with
  | Some (t, r) => (run_from (λ a, negb (a =? c)%char) prev s).2 = String c r ∧ s = t +++ String c r
  | None => (run_from (λ a, negb (a =? c)%char) prev s).2 = ""
  end.
Proof.
  revert prev. induction s as [|a s IH]; intros prev; cbn [take_until run_from]; [done|].
  destruct (Ascii.eqb_spec a c) as [->|]; [done|]. cbn [negb]. specialize (IH (Some a)).
  destruct (take_until c s) as [[t r]|]; [|done]. destruct IH as [-> ->]. done.
Qed.

(** One or more characters other than [c], and then [c] or what needs it. *)
Lemma matches_until c g x (k : cont) :
  (∀ y, (∀ s, m_rest y ≠ String c s) → k y = None) →
  ∃ prev, matches false (NRep 1 None true g g (not_char c)) x k =
  match take_until c (m_rest x) with
  | Some (t, r) => if (t =? "")%string then None else k (mkState prev (String c r) (m_caps x))
  | None => None
  end.
Proof.
  intros Hk. unfold not_char. rewrite (greedy_plus _ _ _ _ _ _ (one_char_set false true _)).
  2: { intros y a s Hy Ha. apply Hk. intros s'. rewrite Hy, not_char_has in *. intros [= -> ->].
       by rewrite Ascii.eqb_refl in Ha. }
  rewrite (behind_ext _ (λ a, negb (a =? c)%char)) by (intros; apply not_char_has).
  destruct x as [prev s cs]. unfold behind. cbn [m_rest m_prev m_caps].
  pose proof (take_until_run c prev s) as Ht. destruct (run_from _ prev s) as [pr rest]. cbn [snd] in Ht.
  exists pr. destruct s as [|a s]; [done|]. rewrite not_char_has.
  destruct (take_until c (String a s)) as [[t r]|] eqn:Et.
  - destruct Ht as [-> Hs]. cbn [take_until] in Et. destruct (a =? c)%char; [by simplify_eq|].
    destruct (take_until c s) as [[t' r']|]; [|done]. by simplify_eq.
  - subst rest. case_match; [|done]. by apply Hk.
Qed.

Lemma run_line_end prev s :
  (run_from (λ a, negb (is_line_end a)) prev s).2 = "" ↔ one_line s = true.
Proof.
  revert prev. induction s as [|a s IH]; intros prev; cbn [run_from]; [done|].
  unfold is_line_end at 1, one_line. cbn [has_char]. rewrite (Ascii.eqb_sym newline), (Ascii.eqb_sym creturn).
  destruct (a =? newline)%char, (a =? creturn)%char; cbn [orb negb andb]; rewrite ?andb_false_r; try done.
Qed.

Lemma matches_link_tail x :
  ∃ prev, matches false link_tail x Some =
  if negb (m_rest x =? "")%string && one_line (m_rest x) then Some (mkState prev "" (m_caps x)) else None.
Proof.
  unfold link_tail. change (matches false (NSeq ?r ?r') ?x Some) with (matches false r x (λ y, matches false r' y Some)).
  rewrite (greedy_plus _ _ _ _ _ _ (one_char_dot false)).
  2: { intros y a s Hy _. cbn. by rewrite Hy. }
  destruct x as [prev s cs]. unfold behind. cbn [m_rest m_prev m_caps].
  pose proof (run_line_end prev s) as Hl. destruct (run_from _ prev s) as [pr rest] eqn:Er. cbn [snd] in Hl.
  exists pr. destruct s as [|a s]; [done|]. cbn [String.eqb negb andb].
  destruct (one_line (String a s)) eqn:Eo.
  - destruct Hl as [_ ->]; [|done]. unfold one_line, is_line_end in *. cbn [has_char] in Eo.
    rewrite (Ascii.eqb_sym newline), (Ascii.eqb_sym creturn) in Eo.
    destruct (a =? newline)%char, (a =? creturn)%char; try done; rewrite andb_false_r in Eo; done.
  - destruct rest as [|b rest]; [|by destruct (negb _)]. destruct Hl as [Hl _]. by discriminate Hl.
Qed.

(** The text that the replacement leaves: the group and what follows the match. *)
Definition group_text (y : mstate) : string := default "" (cap_get 1 (m_caps y)) +++ m_rest y.

Lemma matches_link_name x :
  group_text <$> matches false link_name x Some =
  match take_until "<" (m_rest x) with
  | Some (name, String c rest) =>
      if negb (name =? "")%string && (c =? "/")%char && negb (rest =? "")%string && one_line rest
      then Some name else None
  | _ => None
  end.
Proof.
  unfold link_name. change (matches false (NSeq (NGroup 1 (NSeq ?r NEmpty)) ?r') x Some)
    with (matches false r x (λ y, matches false r' (capture 1 x y) Some)).
  edestruct (matches_until "<" 1 x) as [prev ->].
  { intros y Hy. edestruct (matches_word_then "</" link_tail (capture 1 x y) Some) as [pr ->].
    cbn [capture m_rest]. destruct (m_rest y) as [|a s]; [done|]. cbn [take_prefix].
    destruct (Ascii.eqb_spec "<" a) as [<-|]; [|done]. by destruct (Hy s). }
  pose proof (take_until_run "<" None (m_rest x)) as Ht.
  destruct (take_until "<" (m_rest x)) as [[name r]|]; [|done]. destruct Ht as [_ Hx].
  destruct (name =? "")%string eqn:En; [by destruct r|]. cbn [negb andb].
  edestruct (matches_word_then "</" link_tail) as [pr ->]. cbn [capture m_rest m_caps take_prefix].
  rewrite Ascii.eqb_refl. destruct r as [|c rest]; [done|]. rewrite (Ascii.eqb_sym "/" c).
  destruct (c =? "/")%char; [|done]. cbn [andb].
  edestruct matches_link_tail as [pr2 ->]. cbn [m_rest m_caps].
  destruct (negb (rest =? "")%string && one_line rest); [|done]. cbn [fmap option_fmap option_map].
  unfold group_text, between. cbn [m_rest m_caps cap_get]. rewrite Nat.eqb_refl. cbn [default].
  rewrite sapp_nil_r, Hx.
  replace (String.length (name +++ _) - _)%nat with (String.length name); [by rewrite stake_app|].
  pose proof (slen_app name (String "<" (String c rest))) as Hl. unfold slen in Hl. lia.
Qed.

Lemma client_name_pattern s :
  client_name s = replace_one (pattern link_pattern) (λ caps, default "" (cap_get 1 caps)) s.
Proof.
  unfold replace_one. rewrite pattern_link, search_anchored.
  set (r := NSeq (NRep _ _ _ _ _ _) _).
  assert (default s (group_text <$> matches false (word_then "<" r) (mkState None s []) Some) = client_name s) as <-.
  2: { destruct (matches false (word_then "<" r) _ Some); [|done]. cbn. by rewrite Nat.sub_diag. }
  edestruct (matches_word_then "<" r) as [prev ->]. cbn [m_rest m_caps]. unfold client_name.
  destruct s as [|a s1]; [done|]. cbn [take_prefix]. rewrite (Ascii.eqb_sym "<" a).
  destruct (a =? "<")%char; [|done]. unfold r.
  change (matches false (NSeq ?r ?r') ?x Some) with (matches false r x (λ y, matches false r' y Some)).
  edestruct (matches_until ">" 0 (mkState prev s1 [])) as [prev2 ->].
  { intros y Hy. edestruct (matches_word_then ">" link_name y Some) as [pr ->].
    destruct (m_rest y) as [|b s]; [done|]. cbn [take_prefix].
    destruct (Ascii.eqb_spec ">" b) as [<-|]; [|done]. by destruct (Hy s). }
  cbn [m_rest]. destruct (take_until ">" s1) as [[tag s2]|]; [|done].
  destruct (tag =? "")%string; cbn [negb andb].
  { by destruct (take_until "<" s2) as [[name [|c rest]]|]. }
  edestruct (matches_word_then ">" link_name) as [pr ->]. cbn [m_rest take_prefix]. rewrite Ascii.eqb_refl.
  rewrite matches_link_name. cbn [m_rest].
  destruct (take_until "<" s2) as [[name [|c rest]]|]; [done| |done]. by case_match.
Qed.

(** ** Question marks of URLs *)

Lemma occurs_char c s : occurs false (String c "") s = has_char c s.
Proof.
  induction s as [|a s IH]; [done|]. cbn [occurs starts_with has_char].
  rewrite same_char_exact, (Ascii.eqb_sym c a), andb_true_r. by rewrite IH.
Qed.

Lemma replace_one_char c d prev s :
  match search false (word_node (String c "")) prev s with
  | Some (x, y) => stake (String.length s - String.length (m_rest x)) s +++ String d "" +++ m_rest y
  | None => s
  end = replace_first c d s.
Proof.
  revert prev. induction s as [|a s IH]; intros prev; [done|]. specialize (IH (Some a)).
  cbn [search replace_first word_node]. change (matches false (NSeq ?r NEmpty) ?x Some) with (matches false r x Some).
  rewrite matches_char. cbn [m_rest]. rewrite same_char_exact, (Ascii.eqb_sym a c).
  destruct (c =? a)%char; [cbn [m_rest]; by rewrite Nat.sub_diag|].
  cbn [word_node] in IH.
  destruct (search false _ (Some a) s) as [[x y]|] eqn:Hs; [|by rewrite <-IH].
  apply search_shorter in Hs. cbn [String.length].
  by rewrite Nat.sub_succ_l, stake_S, sapp_cons, IH by lia.
Qed.

Lemma qmark_pattern s :
  has_char "?" s = found false (pattern "\?") s ∧
  replace_first "?" "&" s = replace_one (pattern "\?") (λ _, "&") s.
Proof.
  change (pattern "\?") with (word_node "?"). split.
  - by rewrite found_word, occurs_char.
  - symmetry. apply replace_one_char.
Qed.

(** C23: the other fixed patterns of the program. For every text, the functions of
    the model that stand for them give what the parsed patterns give when the
    matcher runs them: the test for the label of a raw input of the workflow
    editor, the removal of the link around a client's name in the panel, and the
    test for and the replacement of a question mark in the URLs of the table. *)
Theorem fixed_patterns_agree s :
  is_raw_label s = found false (pattern "^#i_\d+ \[0\]$") s ∧
  client_name s = replace_one (pattern "^<[^>]+>([^<]+)<\/.+$") (λ caps, default "" (cap_get 1 caps)) s ∧
  has_char "?" s = found false (pattern "\?") s ∧
  replace_first "?" "&" s = replace_one (pattern "\?") (λ _, "&") s.
Proof.
  split; [apply raw_label_pattern|]. split; [apply client_name_pattern|apply qmark_pattern].
Qed.

(** ** Filters with plain words *)

Section words.
Implicit Types (s : @settings EsRegExp) (f : @filter EsRegExp).

(** A text filter whose word has no characters with a meaning in patterns. *)
Definition plain_filter f : Prop :=
  operator f = None ∧ all_chars (λ a, negb (is_meta a)) (default "" (searchword f)) = true.

(** The word of the filter occurs in the cell. *)
Definition shows f (v : value) : bool :=
  match nonempty_word f, v with
  | Some w, VStr x => occurs (negb (case_sensitive f)) w x
  | Some _, _ => false
  | None, _ => true
  end.

Definition compiled f : filter :=
  f <| re := Some ((word_node (default "" (searchword f)), negb (case_sensitive f)) : @regexp EsRegExp) |>.

Lemma prepare_plain f : plain_filter f → prepare_filter f = Ok (compiled f, []).
Proof.
  intros [Hop Hw]. unfold prepare_filter. cbn [new_RegExp EsRegExp]. rewrite parse_word by done.
  cbn [mbind option_bind need res_bind]. destruct (nonempty_word f); [|done].
  by rewrite bool_decide_false by (unfold active_op; by rewrite Hop).
Qed.

Lemma prepare_plain_filters fs :
  Forall (λ p, plain_filter p.2) fs →
  prepare_filters fs = Ok ((λ p, (p.1, compiled p.2)) <$> fs, []).
Proof.
  intros Hfs. unfold prepare_filters.
  rewrite (mapR_ok _ (λ p, (p.1, compiled p.2, []))).
  - cbn [mbind res_bind]. f_equal. f_equal; [by rewrite <-list_fmap_compose|].
    clear. induction fs as [|p fs IH]; [done|]. apply IH.
  - intros [i f] Hin. rewrite Forall_forall in Hfs. by rewrite (prepare_plain f) by apply (Hfs _ Hin).
Qed.

Lemma row_passes_plain hp hdr fs r :
  Forall (λ p, plain_filter p.2 ∧ ∃ x, cell hp hdr r p.1 = VStr x) fs →
  row_passes hp hdr ((λ p, (p.1, compiled p.2)) <$> fs) r =
  Ok (forallb (λ p, shows p.2 (cell hp hdr r p.1)) fs).
Proof.
  induction 1 as [|[i f] fs [[Hop Hw] [x Hx]] Hfs IH]; [done|]. cbn [fmap list_fmap row_passes forallb fst snd] in *.
  change (nonempty_word (compiled f)) with (nonempty_word f). unfold shows at 1.
  destruct (nonempty_word f) as [w|] eqn:Ew; [|done].
  assert (searchword f = Some w) as Hsw.
  { unfold nonempty_word in Ew. destruct (searchword f) as [w'|]; [|done]. by destruct (w' =? "")%string; simplify_eq. }
  unfold rejects. change (operator (compiled f)) with (operator f). rewrite Hop, Hx.
  change (re (compiled f)) with (Some ((word_node (default "" (searchword f)), negb (case_sensitive f)) : @regexp EsRegExp)).
  rewrite Hsw. cbn [re_match EsRegExp fst snd default from_option id]. rewrite found_word.
  cbn [mbind res_bind]. destruct (occurs _ w x); [apply IH|done].
Qed.

(** C6: filtering with plain words. On a synchronous table whose filters changed,
    where no filter has operators, no search word has a character with a meaning
    in regular expressions and the filtered cells are texts, the filter loop
    returns without an alert, and the rows that are left are the rows of the
    table, in their order, in which every non-empty search word occurs in the
    cell of its column, exactly or, for a filter that is not case sensitive, up
    to case. *)
Theorem plain_words_filter hdr t s :
  synchronous s = true → filter_changed s = true → filter_present s = true →
  Forall (λ p, plain_filter p.2) (filters s) →
  (∀ r i f, r ∈ t → (i, f) ∈ filters s → ∃ x, cell (heap s) hdr r i = VStr x) →
  ∃ s' new,
    apply_filter hdr t s = Ok (s', new, []) ∧ filtered_data s' = Some new ∧ new `sublist_of` t ∧
    ∀ r, r ∈ new ↔ r ∈ t ∧ ∀ i f w, (i, f) ∈ filters s → nonempty_word f = Some w →
      ∃ a m b, cell (heap s) hdr r i = VStr (a +++ m +++ b) ∧ same_word (negb (case_sensitive f)) w m.
Proof.
  intros Hs Hc Hp Hfs Hcells.
  set (ok := λ r, forallb (λ p, shows p.2 (cell (heap s) hdr r p.1)) (filters s)).
  assert (filterR (row_passes (heap s) hdr ((λ p, (p.1, compiled p.2)) <$> filters s)) t
    = Ok (List.filter ok t)) as Hrows.
  { apply filterR_ok. intros r Hr. apply row_passes_plain. rewrite Forall_forall in *.
    intros [i f] Hin. split; [by apply Hfs|]. by apply (Hcells r i f). }
  unfold apply_filter. rewrite Hp, Hs, Hc, prepare_plain_filters by done. cbn [mbind res_bind andb fst snd].
  rewrite Hrows. cbn [mbind res_bind]. do 2 eexists. split; [reflexivity|]. split; [done|].
  split; [apply list_filter_sublist|]. intros r. rewrite elem_of_list_filter_b.
  apply and_iff_compat_l. unfold ok. rewrite forallb_forall. split.
  - intros Hall i f w Hin Hw. specialize (Hall (i, f) (proj1 (list_elem_of_In _ _) Hin)). cbn [fst snd] in Hall.
    unfold shows in Hall. rewrite Hw in Hall. destruct (cell (heap s) hdr r i) as [| | | |x|]; try done.
    apply occurs_spec in Hall as (a & m & b & -> & Hm). eauto.
  - intros Hall [i f] Hin%list_elem_of_In. unfold shows. cbn [fst snd].
    destruct (nonempty_word f) as [w|] eqn:Hw; [|done].
    destruct (Hall i f w Hin Hw) as (a & m & b & -> & Hm). apply occurs_spec. eauto.
Qed.
End words.

(** ** Examples *)

Definition ex_cells : @settings EsRegExp :=
  defaults <| heap := [{["n" := VStr "Alpha 1"]}; {["n" := VStr "beta"]}; {["n" := VStr "ALPHA"]}] |>
           <| filters := [(0%nat, mkFilter "text" (Some "alpha") false None None None None)] |>
           <| filter_changed := true |>.

Lemma plain_words_filter_witness :
  ∃ s' new, apply_filter ["n"] [0; 1; 2]%nat ex_cells = Ok (s', new, []) ∧ 2%nat ∈ new ∧ 1%nat ∉ new.
Proof.
  destruct (plain_words_filter ["n"] [0; 1; 2]%nat ex_cells) as (s' & new & Hf & _ & _ & Hin).
  - reflexivity.
  - reflexivity.
  - reflexivity.
  - repeat constructor.
  - intros r i f Hr Hif. apply list_elem_of_singleton in Hif as [= -> ->].
    repeat (apply elem_of_cons in Hr as [->|Hr]; [vm_compute; eauto|]). by apply elem_of_nil in Hr.
  - exists s', new. split; [exact Hf|]. split.
    + apply Hin. split; [set_solver|]. intros i f w Hif Hw.
      apply list_elem_of_singleton in Hif as [= -> ->]. injection Hw as <-.
      exists "", "ALPHA", "". split; [reflexivity|split; reflexivity].
    + intros [_ Hall]%Hin. destruct (Hall 0%nat _ "alpha" (list_elem_of_here _ _) eq_refl) as (a & m & b & Hc & Hm).
      assert ("beta" = a +++ m +++ b) as Hb by (change (VStr "beta" = VStr (a +++ m +++ b)) in Hc; congruence).
      assert (occurs true "alpha" "beta" = true) as Ho by (apply occurs_spec; eauto).
      discriminate Ho.
Defined.
